(** * Buddies Brawl: the game state machine of [src/gameState.ts]

    A shallow embedding of the rules engine (class [GameState]) together
    with the card catalogue of [src/decks.ts] and the computer player of
    [src/ai.ts] (classes [AIController] and [GreedyAIController]).

    Modelling conventions.
    - JavaScript numbers are modelled by [Z]: every number the engine
      handles (hit points, damage, points, turn counter, indices) is an
      integer far below 2^53, so the arithmetic is exact.
    - An optional field ([hp?: number]) is an [option]; [undefined] is
      [None].  The truthiness tests, [??] and [||] of the source are written
      out by [truthy], [truthyS] and [orZero].
    - Arrays are lists; [Array.prototype.splice], indexing and index
      assignment follow the ECMAScript clamping rules ([splice], [jsGet],
      [jsSet]).
    - The realm is an unmodified one: [Object.prototype] has the properties
      ECMAScript gives it (Annex B included, as in browsers and Node.js) and
      no others ([OBJECT_PROTOTYPE_KEYS]).
    - A card is a JavaScript object.  The engine never copies a reference:
      every operation moves a card from one zone to another, so no object is
      ever reachable from two zones (this is the invariant [uids_distinct]
      proved below).  Cards are therefore stored by value, and an instance is
      identified by its [uid].
    - [Math.random] is an oracle: the world carries the list of numbers
      still to be drawn, and [Math.floor(Math.random() * n)] takes the next
      one modulo [n] (every value in [0, n) can be produced, and no other).
    - [eventBus.dispatchEvent] appends to a log of events; listeners run
      outside the engine (the interface schedules them with [setTimeout]).
    - The [do ... while] of [drawInitialHands] has no iteration bound; the
      model gives it fuel and answers [None] when the fuel runs out. *)

From Stdlib Require Import ZArith String DecimalString DecimalNat.
From stdpp Require Import base tactics option list.

Local Open Scope string_scope.
Local Open Scope list_scope.

(** ** JavaScript values *)

(** [x ?? 0] and [x || 0] for an optional number: both give [0] on
    [undefined], and [x || 0] also maps [0] to [0]. *)
Definition orZero (x : option Z) : Z := default 0%Z x.

(** Truthiness of an optional boolean flag. *)
Definition truthy (b : option bool) : bool :=
  match b with Some true => true | _ => false end.

(** Truthiness of an optional string: [undefined] and the empty string are
    falsy. *)
Definition truthyS (s : option string) : bool :=
  match s with
  | Some s => negb (String.eqb s "")
  | None => false
  end.

(** [a === b] on optional strings. *)
Definition strictEqS (a b : option string) : bool :=
  match a, b with
  | Some x, Some y => String.eqb x y
  | None, None => true
  | _, _ => false
  end.

Section Arrays.
Context {A : Type}.

(** [arr[i]] for a number [i] that is an integer: [undefined] outside
    [0 .. length-1]. *)
Definition jsGet (arr : list A) (i : Z) : option A :=
  if (i <? 0)%Z then None else arr !! Z.to_nat i.

(** The start position of [splice] after clamping. *)
Definition spliceStart (len : nat) (start : Z) : nat :=
  if (start <? 0)%Z then Z.to_nat (Z.max (Z.of_nat len + start) 0)
  else Z.to_nat (Z.min start (Z.of_nat len)).

(** [arr.splice(start, deleteCount, ...items)]: the removed elements, and
    the array afterwards.  [deleteCount = None] is the one-argument form,
    which removes everything from [start] on. *)
Definition splice (arr : list A) (start : Z) (deleteCount : option nat)
    (items : list A) : list A * list A :=
  let s := spliceStart (length arr) start in
  let d := match deleteCount with
           | None => length arr - s
           | Some d => Nat.min d (length arr - s)
           end in
  (take d (drop s arr), take s arr ++ items ++ drop (s + d) arr).

(** [arr.findIndex((c, i) => f(c, i))], [-1] when nothing matches. *)
Fixpoint findIndexFrom (f : A → Z → bool) (i : Z) (arr : list A) : Z :=
  match arr with
  | [] => (-1)%Z
  | c :: rest => if f c i then i else findIndexFrom f (i + 1)%Z rest
  end.

Definition findIndex (f : A → Z → bool) (arr : list A) : Z :=
  findIndexFrom f 0%Z arr.

(** [arr.some(f)]. *)
Definition some (f : A → bool) (arr : list A) : bool := existsb f arr.

(** [[arr[i], arr[j]] = [arr[j], arr[i]]] for indices inside the array. *)
Definition swap (arr : list A) (i j : nat) : list A :=
  match arr !! i, arr !! j with
  | Some x, Some y => <[j := x]> (<[i := y]> arr)
  | _, _ => arr
  end.
End Arrays.

(** [bench[i] = c] on an array of slots.  Inside the array the slot is
    overwritten; past its end JavaScript extends the array (the holes read
    as [undefined], an empty slot); a negative index sets a property and
    leaves the elements alone. *)
Definition jsSet {A : Type} (arr : list (option A)) (i : Z) (c : option A)
    : list (option A) :=
  if (i <? 0)%Z then arr
  else if decide (Z.to_nat i < length arr) then <[Z.to_nat i := c]> arr
  else arr ++ replicate (Z.to_nat i - length arr) None ++ [c].

(** [bench.indexOf(null)]. *)
Definition indexOfNull {A : Type} (arr : list (option A)) : Z :=
  findIndex (λ c _, match c with None => true | Some _ => false end) arr.

(** ** Cards ([src/decks.ts]) *)

Record Card := mkCard {
  id : string;
  name : option string;
  hp : option Z;
  maxHp : option Z;
  attackName : option string;
  attackDamage : option Z;
  evolvesFrom : option string;
  evolvesFromBasic : option string;
  isBasic : option bool;
  isEx : option bool;
  isTrainer : option bool;
  isSupporter : option bool;
  isItem : option bool;
  rule : option string;
  turnPlaced : option Z;
  uid : option string
}.

Definition set_hp (v : option Z) (c : Card) : Card :=
  mkCard (id c) (name c) v (maxHp c) (attackName c) (attackDamage c)
    (evolvesFrom c) (evolvesFromBasic c) (isBasic c) (isEx c) (isTrainer c)
    (isSupporter c) (isItem c) (rule c) (turnPlaced c) (uid c).

Definition set_turnPlaced (v : option Z) (c : Card) : Card :=
  mkCard (id c) (name c) (hp c) (maxHp c) (attackName c) (attackDamage c)
    (evolvesFrom c) (evolvesFromBasic c) (isBasic c) (isEx c) (isTrainer c)
    (isSupporter c) (isItem c) (rule c) v (uid c).

(** A catalogue entry: the card without [id], [maxHp] and [turnPlaced]
    (and without [uid], which no entry sets). *)
Definition creature (nm : string) (h : Z) (an : string) (ad : Z)
    (from fromBasic : option string) (basic ex : option bool) : Card :=
  mkCard "" (Some nm) (Some h) None (Some an) (Some ad) from fromBasic basic ex
    None None None None None None.

Definition trainer (nm rl : string) (supporter item : option bool) : Card :=
  mkCard "" (Some nm) None None None None None None None None (Some true)
    supporter item (Some rl) None None.

Definition CARD_DATA : list (string * Card) :=
  [ ("base-001", creature "Axolittle" 60 "Boink" 20 None None (Some true) None);
    ("base-002", creature "Axolora" 90 "Wand Splash" 40 (Some "base-001") None None None);
    ("base-003", creature "Lazycat" 60 "Yawn" 20 None None (Some true) None);
    ("base-004", creature "Guard Cat" 100 "Spine Arch" 40 (Some "base-003") None None None);
    ("base-005", creature "MC Scratchinator" 180 "Vinyl Scratch" 120
                   (Some "base-004") (Some "base-003") None (Some true));
    ("base-006", trainer "Panda's Plan" "Draw 2 cards." (Some true) None);
    ("base-007", trainer "Coach Whistle" "Draw one random basic Buddy." None (Some true));
    ("base-008", trainer "Chicken Nugget" "Evolve a basic Buddy to stage 2." None (Some true)) ].

Record DeckCardConfig := { cfg_id : string; count : nat }.
Record DeckConfig := { cfg_name : string; cards : list DeckCardConfig }.

Definition defaultDeck : DeckConfig :=
  {| cfg_name := "Default Deck";
     cards := [ {| cfg_id := "base-001"; count := 3 |};
                {| cfg_id := "base-002"; count := 3 |};
                {| cfg_id := "base-003"; count := 3 |};
                {| cfg_id := "base-004"; count := 2 |};
                {| cfg_id := "base-005"; count := 2 |};
                {| cfg_id := "base-006"; count := 3 |};
                {| cfg_id := "base-007"; count := 2 |};
                {| cfg_id := "base-008"; count := 2 |} ] |}.

Definition DECK_CONFIGS : list DeckConfig := [ defaultDeck ].

Fixpoint lookupCard (key : string) (table : list (string * Card)) : option Card :=
  match table with
  | [] => None
  | (k, c) :: rest => if String.eqb k key then Some c else lookupCard key rest
  end.

(** [CARD_DATA] is an object literal, so besides its eight entries it has
    the properties every object inherits from [Object.prototype]. *)
Definition OBJECT_PROTOTYPE_KEYS : list string :=
  [ "constructor"; "__defineGetter__"; "__defineSetter__"; "hasOwnProperty";
    "__lookupGetter__"; "__lookupSetter__"; "isPrototypeOf";
    "propertyIsEnumerable"; "toString"; "valueOf"; "__proto__";
    "toLocaleString" ].

(** What the value of an inherited property gives a card.  The value is a
    built-in function (for [__proto__], the prototype object itself): it is
    truthy, it has no enumerable property of its own for the spread to copy,
    and its [hp] is [undefined]. *)
Definition inheritedValue : Card :=
  mkCard "" None None None None None None None None None None None None None
    None None.

(** [CARD_DATA[id]]: the entry with that key, else the inherited property
    with that name, else [undefined]. *)
Definition cardData (key : string) : option Card :=
  match lookupCard key CARD_DATA with
  | Some template => Some template
  | None =>
      if existsb (String.eqb key) OBJECT_PROTOTYPE_KEYS
      then Some inheritedValue
      else None
  end.

(** [String(n)] for a natural number: its decimal numeral. *)
Definition stringOfNat (n : nat) : string :=
  NilEmpty.string_of_uint (Nat.to_uint n).

(** [createCard(id)].  [None] is the error thrown when [CARD_DATA[id]] is
    [undefined]; the global [cardUidCounter] is passed in and returned
    incremented.  For the name of an inherited property, [CARD_DATA[id]] is
    truthy and the card has an [id] and a [uid] and nothing else. *)
Definition createCard (key : string) (cardUidCounter : nat) : option (Card * nat) :=
  match cardData key with
  | None => None
  | Some template =>
      Some (mkCard key (name template) (hp template) (hp template)
              (attackName template) (attackDamage template)
              (evolvesFrom template) (evolvesFromBasic template)
              (isBasic template) (isEx template) (isTrainer template)
              (isSupporter template) (isItem template) (rule template)
              None (Some (stringOfNat cardUidCounter)),
            S cardUidCounter)
  end.

(** ** The random source and [shuffle] *)

(** [Math.floor(Math.random() * n)]: the next number of the oracle, reduced
    to [0 .. n-1].  A list that has run out answers 0 from then on. *)
Definition randomBelow (n : nat) (random : list nat) : nat * list nat :=
  match random with
  | [] => (0, [])
  | r :: rest => (r mod n, rest)
  end.

(** The loop of [shuffle]: [for (i = k; i > 0; i--)]. *)
Fixpoint shuffleLoop {A : Type} (i : nat) (shuffled : list A) (random : list nat)
    : list A * list nat :=
  match i with
  | 0 => (shuffled, random)
  | S i' =>
      let '(j, random') := randomBelow (i + 1) random in
      shuffleLoop i' (swap shuffled i j) random'
  end.

Definition shuffle {A : Type} (array : list A) (random : list nat)
    : list A * list nat :=
  shuffleLoop (length array - 1) array random.

(** [Array(count).fill(null).map(() => createCard(id))]. *)
Fixpoint createCards (key : string) (n : nat) (cardUidCounter : nat)
    : option (list Card * nat) :=
  match n with
  | 0 => Some ([], cardUidCounter)
  | S n' =>
      match createCard key cardUidCounter with
      | None => None
      | Some (c, ctr) =>
          match createCards key n' ctr with
          | None => None
          | Some (cs, ctr') => Some (c :: cs, ctr')
          end
      end
  end.

(** [deckConfig.cards.flatMap(...)]: the deck before it is shuffled. *)
Fixpoint expandDeck (entries : list DeckCardConfig) (cardUidCounter : nat)
    : option (list Card * nat) :=
  match entries with
  | [] => Some ([], cardUidCounter)
  | e :: rest =>
      match createCards (cfg_id e) (count e) cardUidCounter with
      | None => None
      | Some (cs, ctr) =>
          match expandDeck rest ctr with
          | None => None
          | Some (cs', ctr') => Some (cs ++ cs', ctr')
          end
      end
  end.

Definition createDeck (deckConfig : DeckConfig) (cardUidCounter : nat)
    (random : list nat) : option (list Card * nat * list nat) :=
  match expandDeck (cards deckConfig) cardUidCounter with
  | None => None
  | Some (deck, ctr) =>
      let '(shuffled, random') := shuffle deck random in
      Some (shuffled, ctr, random')
  end.

(** ** The game state ([src/gameState.ts]) *)

Inductive PlayerId := P1 | P2.
Inductive Phase := setup | playing.

#[global] Instance PlayerId_eq_dec : EqDecision PlayerId.
Proof. solve_decision. Defined.

#[global] Instance Phase_eq_dec : EqDecision Phase.
Proof. solve_decision. Defined.

Definition playerEqb (a b : PlayerId) : bool :=
  match a, b with P1, P1 | P2, P2 => true | _, _ => false end.

Definition phaseEqb (a b : Phase) : bool :=
  match a, b with setup, setup | playing, playing => true | _, _ => false end.

Record PlayerState := mkPlayer {
  deck : list Card;
  hand : list Card;
  active : option Card;
  bench : list (option Card);
  points : Z;
  hasPlayedSupporter : bool
}.

(** [Record<PlayerId, T>]. *)
Record PerPlayer (T : Type) := mkPer { of1 : T; of2 : T }.
Arguments mkPer {T}.
Arguments of1 {T}.
Arguments of2 {T}.

Definition sel {T : Type} (pl : PlayerId) (r : PerPlayer T) : T :=
  match pl with P1 => of1 r | P2 => of2 r end.

Definition upd {T : Type} (pl : PlayerId) (v : T) (r : PerPlayer T) : PerPlayer T :=
  match pl with
  | P1 => mkPer v (of2 r)
  | P2 => mkPer (of1 r) v
  end.

Record GameState := mkGame {
  phase : Phase;
  currentPlayer : PlayerId;
  gameOver : bool;
  winner : option PlayerId;
  turnCount : Z;
  setupReady : PerPlayer bool;
  players : PerPlayer PlayerState
}.

(** The events handed to [eventBus.dispatchEvent]. *)
Inductive Event :=
| gameInitialized
| gameStateUpdated
| turnStarted (player : PlayerId)
| gameEnded (who : PlayerId).

(** What an operation can read and write: the [GameState] object, the
    module-level [cardUidCounter], the random source and the event log. *)
Record World := mkWorld {
  game : GameState;
  cardUidCounter : nat;
  random : list nat;
  events : list Event
}.

(** *** Field updates *)

Definition set_deck (v : list Card) (p : PlayerState) : PlayerState :=
  mkPlayer v (hand p) (active p) (bench p) (points p) (hasPlayedSupporter p).
Definition set_hand (v : list Card) (p : PlayerState) : PlayerState :=
  mkPlayer (deck p) v (active p) (bench p) (points p) (hasPlayedSupporter p).
Definition set_active (v : option Card) (p : PlayerState) : PlayerState :=
  mkPlayer (deck p) (hand p) v (bench p) (points p) (hasPlayedSupporter p).
Definition set_bench (v : list (option Card)) (p : PlayerState) : PlayerState :=
  mkPlayer (deck p) (hand p) (active p) v (points p) (hasPlayedSupporter p).
Definition set_points (v : Z) (p : PlayerState) : PlayerState :=
  mkPlayer (deck p) (hand p) (active p) (bench p) v (hasPlayedSupporter p).
Definition set_hasPlayedSupporter (v : bool) (p : PlayerState) : PlayerState :=
  mkPlayer (deck p) (hand p) (active p) (bench p) (points p) v.

Definition set_phase (v : Phase) (g : GameState) : GameState :=
  mkGame v (currentPlayer g) (gameOver g) (winner g) (turnCount g)
    (setupReady g) (players g).
Definition set_currentPlayer (v : PlayerId) (g : GameState) : GameState :=
  mkGame (phase g) v (gameOver g) (winner g) (turnCount g)
    (setupReady g) (players g).
Definition set_gameOver (v : bool) (g : GameState) : GameState :=
  mkGame (phase g) (currentPlayer g) v (winner g) (turnCount g)
    (setupReady g) (players g).
Definition set_winner (v : option PlayerId) (g : GameState) : GameState :=
  mkGame (phase g) (currentPlayer g) (gameOver g) v (turnCount g)
    (setupReady g) (players g).
Definition set_turnCount (v : Z) (g : GameState) : GameState :=
  mkGame (phase g) (currentPlayer g) (gameOver g) (winner g) v
    (setupReady g) (players g).
Definition set_setupReady (v : PerPlayer bool) (g : GameState) : GameState :=
  mkGame (phase g) (currentPlayer g) (gameOver g) (winner g) (turnCount g)
    v (players g).
Definition set_players (v : PerPlayer PlayerState) (g : GameState) : GameState :=
  mkGame (phase g) (currentPlayer g) (gameOver g) (winner g) (turnCount g)
    (setupReady g) v.

Definition set_game (v : GameState) (w : World) : World :=
  mkWorld v (cardUidCounter w) (random w) (events w).
Definition set_random (v : list nat) (w : World) : World :=
  mkWorld (game w) (cardUidCounter w) v (events w).
Definition set_events (v : list Event) (w : World) : World :=
  mkWorld (game w) (cardUidCounter w) (random w) v.

(** [this.players[id]], read and written. *)
Definition getPlayer (pl : PlayerId) (w : World) : PlayerState :=
  sel pl (players (game w)).

Definition setPlayer (pl : PlayerId) (p : PlayerState) (w : World) : World :=
  set_game (set_players (upd pl p (players (game w))) (game w)) w.

(** [new GameState()], in a process whose identity counter stands at
    [ctr] and whose random source will produce [rs]. *)
Definition createPlayerState : PlayerState :=
  mkPlayer [] [] None (replicate 3 None) 0 false.

Definition newGameState : GameState :=
  mkGame setup P1 false None 0 (mkPer false false)
    (mkPer createPlayerState createPlayerState).

Definition newWorld (ctr : nat) (rs : list nat) : World :=
  mkWorld newGameState ctr rs [].

(** *** Private helpers *)

Definition getOpponentId (pl : PlayerId) : PlayerId :=
  match pl with P1 => P2 | P2 => P1 end.

Definition getOpponent (pl : PlayerId) (w : World) : PlayerState :=
  getPlayer (getOpponentId pl) w.

Definition canAct (player : PlayerId) (w : World) : bool :=
  playerEqb player (currentPlayer (game w))
  && phaseEqb (phase (game w)) playing
  && negb (gameOver (game w)).

Definition notify (e : Event) (w : World) : World :=
  set_events (events w ++ [e]) w.

Definition update (w : World) : World := notify gameStateUpdated w.

(** [p.hand.push(...p.deck.splice(-count))]. *)
Definition drawCards (player : PlayerId) (n : Z) (w : World) : World :=
  let p := getPlayer player w in
  let '(drawn, rest) := splice (deck p) (- n) None [] in
  setPlayer player (set_hand (hand p ++ drawn) (set_deck rest p)) w.

Definition set_cardUidCounter (v : nat) (w : World) : World :=
  mkWorld (game w) v (random w) (events w).

Definition hasBasic (cs : list Card) : bool :=
  some (λ c, truthy (isBasic c)) cs.

(** One round of the [do ... while] of [drawInitialHands] for [pNum]. *)
Definition drawInitialRound (pNum : PlayerId) (w : World) : World :=
  let p := getPlayer pNum w in
  let '(moved, hand') := splice (hand p) 0 None [] in
  let '(shuffled, rs) := shuffle (deck p ++ moved) (random w) in
  drawCards pNum 5
    (set_random rs (setPlayer pNum (set_deck shuffled (set_hand hand' p)) w)).

Fixpoint drawInitialLoop (fuel : nat) (pNum : PlayerId) (w : World)
    : option World :=
  match fuel with
  | 0 => None
  | S fuel' =>
      let w' := drawInitialRound pNum w in
      if hasBasic (hand (getPlayer pNum w')) then Some w'
      else drawInitialLoop fuel' pNum w'
  end.

Definition drawInitialHands (fuel : nat) (w : World) : option World :=
  match drawInitialLoop fuel P1 w with
  | None => None
  | Some w1 => drawInitialLoop fuel P2 w1
  end.

(** [this.players[pl].deck = createDeck(DECK_CONFIGS[0])]. *)
Definition assignNewDeck (pl : PlayerId) (w : World) : option World :=
  match DECK_CONFIGS !! 0 with
  | None => None
  | Some cfg =>
      match createDeck cfg (cardUidCounter w) (random w) with
      | None => None
      | Some (d, ctr, rs) =>
          Some (set_random rs (set_cardUidCounter ctr
                  (setPlayer pl (set_deck d (getPlayer pl w)) w)))
      end
  end.

Definition initializeGame (fuel : nat) (w : World) : option World :=
  match assignNewDeck P1 w with
  | None => None
  | Some w1 =>
      match assignNewDeck P2 w1 with
      | None => None
      | Some w2 =>
          match drawInitialHands fuel w2 with
          | None => None
          | Some w3 => Some (notify gameInitialized w3)
          end
      end
  end.

Definition startTurn (player : PlayerId) (w : World) : World :=
  let g := game w in
  let w1 := set_game (set_turnCount (turnCount g + 1) (set_currentPlayer player g)) w in
  let cur := currentPlayer (game w1) in
  let w2 := setPlayer cur (set_hasPlayedSupporter false (getPlayer cur w1)) w1 in
  let w3 := if (1 <? turnCount (game w2))%Z then drawCards player 1 w2 else w2 in
  update (notify (turnStarted player) w3).

Definition setPlayerReady (player : PlayerId) (w : World) : World :=
  if negb (phaseEqb (phase (game w)) setup)
     || negb (bool_decide (is_Some (active (getPlayer player w))))
  then w
  else
    let w1 := set_game (set_setupReady (upd player true (setupReady (game w))) (game w)) w in
    if sel P1 (setupReady (game w1)) && sel P2 (setupReady (game w1))
    then startTurn P1 (set_game (set_phase playing (game w1)) w1)
    else update w1.

Definition endTurn (w : World) : World :=
  if gameOver (game w) then w
  else startTurn (getOpponentId (currentPlayer (game w))) w.

Definition endGame (who : PlayerId) (w : World) : World :=
  notify (gameEnded who)
    (set_game (set_winner (Some who) (set_gameOver true (game w))) w).

(** [_playSupporter(p, handIndex)], with [p = this.players[player]]. *)
Definition _playSupporter (player : PlayerId) (handIndex : Z) (w : World)
    : bool * World :=
  if phaseEqb (phase (game w)) setup || hasPlayedSupporter (getPlayer player w)
  then (false, w)
  else
    let w1 := drawCards (currentPlayer (game w)) 2 w in
    let p := getPlayer player w1 in
    let hand' := snd (splice (hand p) handIndex (Some 1) []) in
    (true, setPlayer player (set_hasPlayedSupporter true (set_hand hand' p)) w1).

(** [p.deck.map((c, i) => c.isBasic ? i : -1).filter(i => i !== -1)],
    counting positions from [i]. *)
Fixpoint basicIndicesFrom (i : nat) (d : list Card) : list nat :=
  match d with
  | [] => []
  | c :: rest =>
      if truthy (isBasic c) then i :: basicIndicesFrom (S i) rest
      else basicIndicesFrom (S i) rest
  end.

(** [_playCoachWhistle(p, handIndex)].  The random number is below the
    length of [basicIndices], so the lookup in it always succeeds. *)
Definition _playCoachWhistle (player : PlayerId) (handIndex : Z) (w : World)
    : bool * World :=
  if phaseEqb (phase (game w)) setup then (false, w)
  else
    let p := getPlayer player w in
    let p1 := set_hand (snd (splice (hand p) handIndex (Some 1) [])) p in
    let basicIndices := basicIndicesFrom 0 (deck p1) in
    let '(p2, rs) :=
      if decide (0 < length basicIndices) then
        let '(k, rs) := randomBelow (length basicIndices) (random w) in
        match basicIndices !! k with
        | Some randomIndex =>
            let '(drawn, rest) := splice (deck p1) (Z.of_nat randomIndex) (Some 1) [] in
            (set_deck rest (set_hand (hand p1 ++ drawn) p1), rs)
        | None => (p1, rs)
        end
      else (p1, random w) in
    let '(shuffled, rs') := shuffle (deck p2) rs in
    (true, set_random rs' (setPlayer player (set_deck shuffled p2) w)).

(** [_playBasic(p, handIndex)].  [playCard] has checked that
    [p.hand[handIndex]] is a card, so the first [splice] removes exactly that
    card; on an empty removal JavaScript would throw on the assignment to
    [turnPlaced], a case the caller excludes. *)
Definition _playBasic (player : PlayerId) (handIndex : Z) (w : World)
    : bool * World :=
  let p := getPlayer player w in
  let '(removed, hand1) := splice (hand p) handIndex (Some 1) [] in
  match removed with
  | [] => (false, w)
  | c :: _ =>
      let cardToPlay := set_turnPlaced (Some (turnCount (game w))) c in
      let p1 := set_hand hand1 p in
      match active p1 with
      | None => (true, setPlayer player (set_active (Some cardToPlay) p1) w)
      | Some _ =>
          let benchIdx := indexOfNull (bench p1) in
          if (benchIdx =? -1)%Z then
            (false,
             setPlayer player
               (set_hand (snd (splice (hand p1) handIndex (Some 0) [cardToPlay])) p1) w)
          else
            (true,
             setPlayer player
               (set_bench (jsSet (bench p1) benchIdx (Some cardToPlay)) p1) w)
      end
  end.

Definition playCard (player : PlayerId) (handIndex : Z) (w : World) : World :=
  if gameOver (game w)
     || (phaseEqb (phase (game w)) playing
         && negb (playerEqb (currentPlayer (game w)) player))
  then w
  else
    match jsGet (hand (getPlayer player w)) handIndex with
    | None => w
    | Some card =>
        let '(cardWasPlayed, w') :=
          if truthy (isSupporter card) then _playSupporter player handIndex w
          else if String.eqb (id card) "base-007" then _playCoachWhistle player handIndex w
          else if String.eqb (id card) "base-008" then (false, w)
          else if truthy (isBasic card) then _playBasic player handIndex w
          else (false, w) in
        if cardWasPlayed then update w' else w'
    end.

(** The card at [targetBoardIndex]: [-1] is the active slot. *)
Definition targetAt (p : PlayerState) (targetBoardIndex : Z) : option Card :=
  if (targetBoardIndex =? -1)%Z then active p
  else mjoin (jsGet (bench p) targetBoardIndex).

Definition _performEvolution (player : PlayerId) (evolvedCard targetCard : Card)
    (targetBoardIndex : Z) (w : World) : World :=
  let damage := (orZero (maxHp targetCard) - orZero (hp targetCard))%Z in
  let evolved1 := set_hp (Some (orZero (maxHp evolvedCard) - damage)%Z) evolvedCard in
  let evolved2 := set_turnPlaced (Some (turnCount (game w))) evolved1 in
  let p := getPlayer player w in
  let p' := if (targetBoardIndex =? -1)%Z then set_active (Some evolved2) p
            else set_bench (jsSet (bench p) targetBoardIndex (Some evolved2)) p in
  update (setPlayer player p' w).

(** [p.hand.findIndex((c, i) => i !== handIndex
                                   && c.evolvesFromBasic === targetCard.id)]. *)
Definition stage2EvoIndex (handIndex : Z) (targetCard : Card) (h : list Card) : Z :=
  findIndex (λ c i, negb (i =? handIndex)%Z
                    && strictEqS (evolvesFromBasic c) (Some (id targetCard))) h.

(** [playChickenNugget(player, handIndex, targetBoardIndex)].  An index
    returned by [findIndex] other than [-1] addresses a card, so
    [p.hand[stage2EvoIndex]] is defined.  The two hand positions are removed
    in descending order, as [sort((a, b) => b - a)] arranges them. *)
Definition playChickenNugget (player : PlayerId) (handIndex targetBoardIndex : Z)
    (w : World) : bool * World :=
  let p := getPlayer player w in
  match targetAt p targetBoardIndex with
  | None => (false, w)
  | Some targetCard =>
      if negb (canAct player w) || negb (truthy (isBasic targetCard))
         || (turnCount (game w) <=? orZero (turnPlaced targetCard))%Z
      then (false, w)
      else
        let evoIndex := stage2EvoIndex handIndex targetCard (hand p) in
        if (evoIndex =? -1)%Z then (false, w)
        else
          match jsGet (hand p) evoIndex with
          | None => (false, w)
          | Some evolvedCard =>
              let '(hi, lo) := if (handIndex <? evoIndex)%Z
                               then (evoIndex, handIndex)
                               else (handIndex, evoIndex) in
              let hand1 := snd (splice (hand p) hi (Some 1) []) in
              let hand2 := snd (splice hand1 lo (Some 1) []) in
              (true,
               _performEvolution player evolvedCard targetCard targetBoardIndex
                 (setPlayer player (set_hand hand2 p) w))
          end
  end.

(** [evolve(player, handIndex, targetBoardIndex)].  Past the guard
    [p.hand[handIndex]] is a card, so [splice] removes exactly that one. *)
Definition evolve (player : PlayerId) (handIndex targetBoardIndex : Z)
    (w : World) : World :=
  let p := getPlayer player w in
  match targetAt p targetBoardIndex, jsGet (hand p) handIndex with
  | Some targetCard, Some handCard =>
      if negb (canAct player w) || (turnCount (game w) <=? 1)%Z
         || negb (truthyS (evolvesFrom handCard))
         || negb (strictEqS (evolvesFrom handCard) (Some (id targetCard)))
         || (turnCount (game w) <=? orZero (turnPlaced targetCard))%Z
      then w
      else
        let '(removed, hand') := splice (hand p) handIndex (Some 1) [] in
        match removed with
        | evolvedCard :: _ =>
            _performEvolution player evolvedCard targetCard targetBoardIndex
              (setPlayer player (set_hand hand' p) w)
        | [] => w
        end
  | _, _ => w
  end.

Definition attack (w : World) : World :=
  let cur := currentPlayer (game w) in
  if negb (canAct cur w) then w
  else
    let p := getPlayer cur w in
    let o := getOpponent cur w in
    match active p, active o with
    | Some pa, Some oa =>
        let oa' := set_hp (Some (orZero (hp oa) - orZero (attackDamage pa))%Z) oa in
        let w1 := setPlayer (getOpponentId cur) (set_active (Some oa') o) w in
        if (orZero (hp oa') <=? 0)%Z then
          let p1 := getPlayer cur w1 in
          let w2 := setPlayer cur
                      (set_points (points p1 + (if truthy (isEx oa') then 2 else 1))%Z p1) w1 in
          let w3 := setPlayer (getOpponentId cur)
                      (set_active None (getOpponent cur w2)) w2 in
          let canOpponentContinue :=
            some (λ c : option Card, bool_decide (is_Some c)) (bench (getOpponent cur w3)) in
          if (3 <=? points (getPlayer cur w3))%Z || negb canOpponentContinue
          then endGame cur w3
          else endTurn w3
        else endTurn w1
    | _, _ => w
    end.

Definition promote (player : PlayerId) (benchIndex : Z) (w : World) : World :=
  let p := getPlayer player w in
  if gameOver (game w) || bool_decide (is_Some (active p))
     || negb (bool_decide (is_Some (mjoin (jsGet (bench p) benchIndex))))
  then w
  else
    let '(removed, bench') := splice (bench p) benchIndex (Some 1) [None] in
    update (setPlayer player (set_active (mjoin (head removed)) (set_bench bench' p)) w).

Definition retreat (player : PlayerId) (benchIndex : Z) (w : World) : World :=
  if negb (canAct player w) then w
  else
    let p := getPlayer player w in
    match active p, mjoin (jsGet (bench p) benchIndex) with
    | Some a, Some b =>
        update (setPlayer player
                  (set_bench (jsSet (bench p) benchIndex (Some a))
                     (set_active (Some b) p)) w)
    | _, _ => w
    end.

(** ** Public operations and reachable states *)

(** The public operations of [GameState], with their arguments. *)
Inductive Op :=
| OpInitializeGame (fuel : nat)
| OpSetPlayerReady (player : PlayerId)
| OpEndTurn
| OpPlayCard (player : PlayerId) (handIndex : Z)
| OpPlayChickenNugget (player : PlayerId) (handIndex targetBoardIndex : Z)
| OpEvolve (player : PlayerId) (handIndex targetBoardIndex : Z)
| OpAttack
| OpPromote (player : PlayerId) (benchIndex : Z)
| OpRetreat (player : PlayerId) (benchIndex : Z).

(** Whether the operation is one of the moves of a match (everything but
    [initializeGame]). *)
Definition isMove (op : Op) : bool :=
  match op with OpInitializeGame _ => false | _ => true end.

(** One call.  [None] only for [initializeGame] when its loop does not
    finish within the fuel. *)
Definition exec (op : Op) (w : World) : option World :=
  match op with
  | OpInitializeGame fuel => initializeGame fuel w
  | OpSetPlayerReady player => Some (setPlayerReady player w)
  | OpEndTurn => Some (endTurn w)
  | OpPlayCard player handIndex => Some (playCard player handIndex w)
  | OpPlayChickenNugget player handIndex targetBoardIndex =>
      Some (snd (playChickenNugget player handIndex targetBoardIndex w))
  | OpEvolve player handIndex targetBoardIndex =>
      Some (evolve player handIndex targetBoardIndex w)
  | OpAttack => Some (attack w)
  | OpPromote player benchIndex => Some (promote player benchIndex w)
  | OpRetreat player benchIndex => Some (retreat player benchIndex w)
  end.

Fixpoint execAll (ops : list Op) (w : World) : option World :=
  match ops with
  | [] => Some w
  | op :: rest =>
      match exec op w with
      | None => None
      | Some w' => execAll rest w'
      end
  end.

(** The states a process can be in: it starts from [new GameState()] with
    the identity counter at 0 and goes through calls of the public
    operations. *)
Inductive reachable : World → Prop :=
| reachable_new (rs : list nat) : reachable (newWorld 0 rs)
| reachable_step (op : Op) (w w' : World) :
    reachable w → exec op w = Some w' → reachable w'.

(** The card instances of a player, zone by zone, and of the match. *)
Definition slotCards (slots : list (option Card)) : list Card :=
  omap (λ c, c) slots.

Definition zoneCards (p : PlayerState) : list Card :=
  deck p ++ hand p ++ option_list (active p) ++ slotCards (bench p).

Definition allCards (w : World) : list Card :=
  zoneCards (getPlayer P1 w) ++ zoneCards (getPlayer P2 w).

Definition uids (w : World) : list (option string) := uid <$> allCards w.

(** The identity tokens in play are pairwise distinct and were all issued
    by the counter. *)
Definition uids_distinct (w : World) : Prop :=
  NoDup (uids w)
  ∧ Forall (λ u, ∃ n, n < cardUidCounter w ∧ u = Some (stringOfNat n)) (uids w).

(** [gameOver] and [winner] are set together, by [attack], which runs in
    the playing phase only. *)
Definition over_consistent (w : World) : Prop :=
  (gameOver (game w) = true → phase (game w) = playing)
  ∧ (winner (game w) ≠ None → gameOver (game w) = true).

(** ** How an operation moves the match on

    Three summaries of the effect of a call, used to carry invariants along
    runs.  [playerUids] lists the identity tokens a player holds. *)

Definition playerUids (p : PlayerState) : list (option string) :=
  uid <$> zoneCards p.

(** The call stays within the turn: turn counter, current player, phase,
    [gameOver] and [winner] are as before, no card instance appears on either
    side, and a supporter flag that was set is still set. *)
Definition local_step (w w' : World) : Prop :=
  turnCount (game w') = turnCount (game w)
  ∧ currentPlayer (game w') = currentPlayer (game w)
  ∧ phase (game w') = phase (game w)
  ∧ gameOver (game w') = gameOver (game w)
  ∧ winner (game w') = winner (game w)
  ∧ cardUidCounter w' = cardUidCounter w
  ∧ ∀ pl, playerUids (getPlayer pl w') ⊆+ playerUids (getPlayer pl w)
          ∧ (hasPlayedSupporter (getPlayer pl w) = true →
             hasPlayedSupporter (getPlayer pl w') = true).

(** The call starts a turn (through [startTurn]). *)
Definition turn_step (w w' : World) : Prop :=
  turnCount (game w') = (turnCount (game w) + 1)%Z
  ∧ (phase (game w') = phase (game w) ∨ phase (game w') = playing)
  ∧ gameOver (game w') = gameOver (game w)
  ∧ winner (game w') = winner (game w)
  ∧ cardUidCounter w' = cardUidCounter w
  ∧ (∀ pl, playerUids (getPlayer pl w') ⊆+ playerUids (getPlayer pl w))
  ∧ hasPlayedSupporter (getPlayer (currentPlayer (game w')) w') = false
  ∧ hasPlayedSupporter (getPlayer (getOpponentId (currentPlayer (game w'))) w')
    = hasPlayedSupporter (getPlayer (getOpponentId (currentPlayer (game w'))) w).

(** The call ends the match (through [endGame]). *)
Definition end_step (w w' : World) : Prop :=
  turnCount (game w') = turnCount (game w)
  ∧ currentPlayer (game w') = currentPlayer (game w)
  ∧ phase (game w) = playing
  ∧ phase (game w') = playing
  ∧ gameOver (game w) = false
  ∧ gameOver (game w') = true
  ∧ winner (game w') = Some (currentPlayer (game w))
  ∧ cardUidCounter w' = cardUidCounter w
  ∧ ∀ pl, playerUids (getPlayer pl w') ⊆+ playerUids (getPlayer pl w)
          ∧ hasPlayedSupporter (getPlayer pl w')
            = hasPlayedSupporter (getPlayer pl w).

(** What dealing a first hand to [pNum] does: the player's deck and old
    hand are redistributed into a hand of 5 (fewer if there are fewer cards)
    and a deck, and nothing else is touched. *)
Definition dealt (pNum : PlayerId) (w w' : World) : Prop :=
  let p := getPlayer pNum w in
  let p' := getPlayer pNum w' in
  hand p' ++ deck p' ≡ₚ deck p ++ hand p
  ∧ length (hand p') = Nat.min 5 (length (deck p) + length (hand p))
  ∧ active p' = active p
  ∧ bench p' = bench p
  ∧ points p' = points p
  ∧ hasPlayedSupporter p' = hasPlayedSupporter p
  ∧ getPlayer (getOpponentId pNum) w' = getPlayer (getOpponentId pNum) w
  ∧ game w' = set_players (players (game w')) (game w)
  ∧ events w' = events w
  ∧ cardUidCounter w' = cardUidCounter w.

(** ** Sample matches

    Runs of the public operations from [new GameState()], with the random
    source written out.  In a shuffle of 20 cards the oracle is consulted for
    i = 19 down to 1; answering [i] itself leaves position [i] alone. *)

(** [hi, hi-1, ..., lo]. *)
Definition descending (hi lo : nat) : list nat := rev (seq lo (hi + 1 - lo)).

(** The world after the operations [ops] on a fresh process whose random
    source yields [rs] (the fresh world itself if [initializeGame] runs out
    of fuel). *)
Definition worldAfter (ops : list Op) (rs : list nat) : World :=
  default (newWorld 0 rs) (execAll ops (newWorld 0 rs)).

(** Match A.  Player 1 is dealt base-006, base-003, base-005, base-008,
    base-008 and player 2 base-006, base-007, base-007, base-008,
    base-001. *)
Definition oracleA : list nat :=
  [19; 18; 11; 6] ++ descending 15 1     (* createDeck, player 1 *)
  ++ [0] ++ descending 18 1              (* createDeck, player 2 *)
  ++ descending 19 1                     (* first draw, player 1 *)
  ++ descending 19 1.                    (* first draw, player 2 *)

(** Both players place their basic creature and declare ready: turn 1. *)
Definition openingA : list Op :=
  [ OpInitializeGame 1; OpPlayCard P1 1; OpPlayCard P2 4;
    OpSetPlayerReady P1; OpSetPlayerReady P2 ].

(** Match B.  Player 1 is dealt base-006, base-007, base-007, base-002,
    base-001. *)
Definition oracleB : list nat :=
  [0; 3] ++ descending 17 1
  ++ [0] ++ descending 18 1
  ++ descending 19 1
  ++ descending 19 1.

Definition openingB : list Op :=
  [ OpInitializeGame 1; OpPlayCard P1 4; OpPlayCard P2 4;
    OpSetPlayerReady P1; OpSetPlayerReady P2 ].

(** Match C.  Player 1 is dealt five basic creatures: base-003, base-003,
    base-001, base-001, base-001. *)
Definition oracleC : list nat :=
  [0; 1; 2; 6; 7] ++ descending 14 1
  ++ [0] ++ descending 18 1
  ++ descending 19 1
  ++ descending 19 1.

(** Match D.  The first four cards of player 1's deck are base-001,
    base-001, base-002, base-002; three more numbers are left for a later
    Coach Whistle. *)
Definition oracleD : list nat :=
  [6] ++ descending 18 5 ++ [2] ++ descending 3 1
  ++ [0] ++ descending 18 1
  ++ descending 19 1
  ++ descending 19 1
  ++ [1; 2; 0].

Definition openingD : list Op :=
  [ OpInitializeGame 1; OpPlayCard P1 4; OpPlayCard P2 4;
    OpSetPlayerReady P1; OpSetPlayerReady P2 ].



(** ** Deck lists

    An entry of a deck list that [createCard] can serve (it asks for no
    card, or for an id [CARD_DATA] has a value for), and how many cards with id [key]
    a deck list asks for. *)
Definition servable (e : DeckCardConfig) : Prop :=
  count e = 0 ∨ is_Some (cardData (cfg_id e)).

#[global] Instance servable_dec e : Decision (servable e).
Proof. unfold servable. apply _. Defined.

Definition requested (key : string) (entries : list DeckCardConfig) : nat :=
  sum_list ((λ e, if String.eqb (cfg_id e) key then count e else 0) <$> entries).

(** ** The computer player ([src/ai.ts])

    [AIController] holds a player number and the [GameState] it plays on;
    its methods read [this.gs] and call the public operations.  In the
    model a method takes the player number and the world.  The listeners the
    interface hangs on the event bus defer their work with [setTimeout], so
    no operation is re-entered while a method of the controller runs. *)

(** [arr.sort(compare)] on numbers, for a comparator that orders them: the
    stable sorted arrangement, built by insertion from the right. *)
Fixpoint sortInsert (compare : Z → Z → Z) (x : Z) (sorted : list Z) : list Z :=
  match sorted with
  | [] => [x]
  | y :: rest =>
      if (compare x y <=? 0)%Z then x :: y :: rest
      else y :: sortInsert compare x rest
  end.

Definition jsSort (compare : Z → Z → Z) (arr : list Z) : list Z :=
  foldr (sortInsert compare) [] arr.

(** [arr.map((c, i) => f(c) ? i : -1).filter(i => i !== -1)], counting
    positions from [i]. *)
Fixpoint indicesFrom {A : Type} (f : A → bool) (i : Z) (arr : list A) : list Z :=
  match arr with
  | [] => []
  | c :: rest =>
      if f c then i :: indicesFrom f (i + 1)%Z rest
      else indicesFrom f (i + 1)%Z rest
  end.

(** [a === n] for an optional number [a] and a number [n]. *)
Definition strictEqZ (a : option Z) (n : Z) : bool :=
  match a with
  | Some x => (x =? n)%Z
  | None => false
  end.

Module AI.

Record EvolutionOpportunity := mkOpportunity { handIndex : Z; targetIndex : Z }.

(** The two decisions that [GreedyAIController] overrides. *)
Record Controller := mkController {
  chooseActiveBuddyIndex : list Card → Z;
  choosePromotionBuddyIndex : list (option Card) → Z
}.

Definition _chooseActiveBuddyIndex (h : list Card) : Z :=
  findIndex (λ card _, truthy (isBasic card)) h.

Definition _chooseBenchBuddyIndices (h : list Card) : list Z :=
  jsSort (λ a b, b - a)%Z (indicesFrom (λ card, truthy (isBasic card)) 0 h).

Definition _choosePromotionBuddyIndex (b : list (option Card)) : Z :=
  findIndex (λ card _, bool_decide (is_Some card)) b.

(** [[{ card: active, index: -1 }, ...bench.map((card, index) => ({ card, index }))]]. *)
Fixpoint benchTargetsFrom (index : Z) (b : list (option Card)) : list (option Card * Z) :=
  match b with
  | [] => []
  | card :: rest => (card, index) :: benchTargetsFrom (index + 1)%Z rest
  end.

Definition allTargets (p : PlayerState) : list (option Card * Z) :=
  (active p, (-1)%Z) :: benchTargetsFrom 0 (bench p).

Definition _findEvolutionOpportunities (playerNumber : PlayerId) (w : World)
    : list EvolutionOpportunity :=
  let p := getPlayer playerNumber w in
  let currentTurn := turnCount (game w) in
  if (turnCount (game w) <=? 1)%Z then []
  else
    flat_map
      (λ '(card, index),
         match card with
         | None => []
         | Some card =>
             if strictEqZ (turnPlaced card) currentTurn then []
             else
               let evolutionHandIndex :=
                 findIndex (λ hCard _, strictEqS (evolvesFrom hCard) (Some (id card)))
                   (hand p) in
               if negb (evolutionHandIndex =? -1)%Z
               then [mkOpportunity evolutionHandIndex index]
               else []
         end)
      (allTargets p).

Definition _findChickenNuggetOpportunities (playerNumber : PlayerId) (w : World)
    : list EvolutionOpportunity :=
  let p := getPlayer playerNumber w in
  let chickenNuggetIndices :=
    indicesFrom (λ card, String.eqb (id card) "base-008") 0 (hand p) in
  if Nat.eqb (length chickenNuggetIndices) 0 then []
  else
    flat_map
      (λ '(card, index),
         match card with
         | None => []
         | Some card =>
             if negb (truthy (isBasic card)) then []
             else
               let evolutionCardIndex :=
                 findIndex
                   (λ hCard hIndex,
                      strictEqS (evolvesFromBasic hCard) (Some (id card))
                      && negb (existsb (Z.eqb hIndex) chickenNuggetIndices))
                   (hand p) in
               if (evolutionCardIndex =? -1)%Z then []
               else map (λ chickenIndex, mkOpportunity chickenIndex index)
                      chickenNuggetIndices
         end)
      (allTargets p).

(** [setup()].  The second component is what the call writes with
    [console.error]. *)
Definition setup (ai : Controller) (playerNumber : PlayerId) (w : World)
    : World * list string :=
  let activeCandidateIndex :=
    chooseActiveBuddyIndex ai (hand (getPlayer playerNumber w)) in
  if (-1 <? activeCandidateIndex)%Z then
    let w1 := playCard playerNumber activeCandidateIndex w in
    let w2 := foldl (λ w' index, playCard playerNumber index w') w1
                (_chooseBenchBuddyIndices (hand (getPlayer playerNumber w1))) in
    (setPlayerReady playerNumber w2, [])
  else
    (w, [("AI P" ++ match playerNumber with P1 => "1" | P2 => "2" end
          ++ " has no basic Buddy to place!")%string]).

(** The loop [for (let i = hand.length - 1; i >= 0; i--)] of [executeTurn],
    entered with [i = n - 1].  [None] is the [TypeError] of reading [isItem]
    off [undefined], should [hand[i]] not be a card. *)
Fixpoint playItems (playerNumber : PlayerId) (n : nat) (w : World) : option World :=
  match n with
  | 0 => Some w
  | S i =>
      match jsGet (hand (getPlayer playerNumber w)) (Z.of_nat i) with
      | None => None
      | Some card =>
          playItems playerNumber i
            (if truthy (isItem card) && negb (String.eqb (id card) "base-008")
             then playCard playerNumber (Z.of_nat i) w
             else w)
      end
  end.

(** [executeTurn()]; [None] is an exception. *)
Definition executeTurn (ai : Controller) (playerNumber : PlayerId) (w : World)
    : option World :=
  let pState := getPlayer playerNumber in
  if gameOver (game w) || negb (playerEqb (currentPlayer (game w)) playerNumber)
  then Some w
  else
    let promoted :=
      if bool_decide (is_Some (active (pState w))) then Some w
      else
        let promotionIndex := choosePromotionBuddyIndex ai (bench (pState w)) in
        if (-1 <? promotionIndex)%Z
        then Some (promote playerNumber promotionIndex w)
        else None in
    match promoted with
    | None => Some (endTurn w)
    | Some w1 =>
        let w2 :=
          if negb (hasPlayedSupporter (pState w1)) then
            let supporterIndex :=
              findIndex (λ c _, truthy (isSupporter c)) (hand (pState w1)) in
            if (-1 <? supporterIndex)%Z
            then playCard playerNumber supporterIndex w1
            else w1
          else w1 in
        match playItems playerNumber (length (hand (pState w2))) w2 with
        | None => None
        | Some w3 =>
            let w4 :=
              match _findChickenNuggetOpportunities playerNumber w3 with
              | opportunity :: _ =>
                  snd (playChickenNugget playerNumber (handIndex opportunity)
                         (targetIndex opportunity) w3)
              | [] => w3
              end in
            let w5 :=
              match _findEvolutionOpportunities playerNumber w4 with
              | opportunity :: _ =>
                  evolve playerNumber (handIndex opportunity)
                    (targetIndex opportunity) w4
              | [] => w4
              end in
            let w6 := foldl (λ w' index, playCard playerNumber index w') w5
                        (_chooseBenchBuddyIndices (hand (pState w5))) in
            Some (if bool_decide (is_Some (active (pState w6)))
                  then attack w6
                  else endTurn w6)
        end
    end.

(** The [forEach] of [_findStrongestCardIndex], from position [index] on,
    with the two variables it updates. *)
Fixpoint strongestFrom (filterFn : Card → bool) (index : Z)
    (cards : list (option Card)) (bestIndex maxHp : Z) : Z * Z :=
  match cards with
  | [] => (bestIndex, maxHp)
  | card :: rest =>
      let '(bestIndex', maxHp') :=
        match card with
        | Some card =>
            if filterFn card then
              let h := orZero (hp card) in
              if (maxHp <? h)%Z then (index, h) else (bestIndex, maxHp)
            else (bestIndex, maxHp)
        | None => (bestIndex, maxHp)
        end in
      strongestFrom filterFn (index + 1)%Z rest bestIndex' maxHp'
  end.

Definition _findStrongestCardIndex (cards : list (option Card))
    (filterFn : Card → bool) : Z :=
  fst (strongestFrom filterFn 0 cards (-1) (-1)).

Definition AIController : Controller :=
  mkController _chooseActiveBuddyIndex _choosePromotionBuddyIndex.

Definition GreedyAIController : Controller :=
  mkController
    (λ h, _findStrongestCardIndex (Some <$> h)
            (λ card, bool_decide (isBasic card = Some true)))
    (λ b, _findStrongestCardIndex b (λ _, true)).

End AI.

(** ** Calls of one player

    A call of [player] that stays within the turn touches that player's
    zones only: the fields of the game other than [players] are as before,
    and so is the opponent; the player's points are as before, and an active
    creature is not lost. *)
Definition own_step (player : PlayerId) (w w' : World) : Prop :=
  game w' = set_players (players (game w')) (game w)
  ∧ cardUidCounter w' = cardUidCounter w
  ∧ getPlayer (getOpponentId player) w' = getPlayer (getOpponentId player) w
  ∧ points (getPlayer player w') = points (getPlayer player w)
  ∧ (is_Some (active (getPlayer player w)) → is_Some (active (getPlayer player w'))).

(** ** Points and the end of the match *)

(** The player has no creature in play. *)
Definition no_creature (p : PlayerState) : Prop :=
  active p = None ∧ Forall (λ c, c = None) (bench p).

(** While the match runs nobody has 3 points; once it is over there is a
    winner, who has 3 points or more or whose opponent has no creature left,
    and the loser has fewer than 3 points. *)
Definition scores_consistent (w : World) : Prop :=
  (∀ pl, (0 ≤ points (getPlayer pl w) ≤ 4)%Z)
  ∧ (gameOver (game w) = false →
     winner (game w) = None ∧ ∀ pl, (points (getPlayer pl w) ≤ 2)%Z)
  ∧ (gameOver (game w) = true →
     ∃ who,
       winner (game w) = Some who
       ∧ (points (getPlayer (getOpponentId who) w) ≤ 2)%Z
       ∧ ((3 ≤ points (getPlayer who w))%Z
          ∨ no_creature (getPlayer (getOpponentId who) w))).

(** A list of numbers in which every element is below the ones after it. *)
Fixpoint increasing (l : list Z) : Prop :=
  match l with
  | [] => True
  | x :: rest => Forall (λ y, (x < y)%Z) rest ∧ increasing rest
  end.

(** A list of numbers in which every element is above the ones after it. *)
Fixpoint decreasing (l : list Z) : Prop :=
  match l with
  | [] => True
  | x :: rest => Forall (λ y, (y < x)%Z) rest ∧ decreasing rest
  end.

(** A card that, if it is flagged basic, is a creature [playCard] places:
    no supporter, not Coach Whistle and not Chicken Nugget.  Every card of
    the catalogue is one. *)
Definition placeable (c : Card) : Prop :=
  truthy (isBasic c) = true →
  truthy (isSupporter c) = false ∧ id c ≠ "base-007" ∧ id c ≠ "base-008".

(** The active slot and every bench slot are taken. *)
Definition board_full (p : PlayerState) : Prop :=
  is_Some (active p) ∧ Forall (λ c, is_Some c) (bench p).

(** [placeable], as a test. *)
Definition placeableb (c : Card) : bool :=
  implb (truthy (isBasic c))
    (negb (truthy (isSupporter c))
     && negb (String.eqb (id c) "base-007")
     && negb (String.eqb (id c) "base-008")).

(** ** Cards as the catalogue prints them

    What a card instance can look like in the course of a match. *)

(** A [turnPlaced] that is set names a turn up to [t]. *)
Definition stamped_by (t : Z) (c : Card) : Prop :=
  match turnPlaced c with
  | None => True
  | Some s => (0 ≤ s ≤ t)%Z
  end.

(** The card is a card [createCard] made from an entry of the catalogue,
    but for its [hp] and [turnPlaced], the two fields the engine writes. *)
Definition as_created (c : Card) : Prop :=
  is_Some (lookupCard (id c) CARD_DATA)
  ∧ ∃ c0 k, createCard (id c) k = Some (c0, S k)
            ∧ c = set_turnPlaced (turnPlaced c) (set_hp (hp c) c0).

(** A card of a deck or a hand at turn [t]: undamaged. *)
Definition stored (t : Z) (c : Card) : Prop :=
  as_created c ∧ hp c = maxHp c ∧ stamped_by t c.

(** A card in play at turn [t]: a creature with hit points left, placed in
    a turn up to [t]. *)
Definition fielded (t : Z) (c : Card) : Prop :=
  as_created c
  ∧ (∃ h m, hp c = Some h ∧ maxHp c = Some m ∧ (0 < h ≤ m)%Z)
  ∧ (∃ s, turnPlaced c = Some s ∧ (0 ≤ s ≤ t)%Z).

Definition slot_ok (t : Z) (s : option Card) : Prop :=
  match s with Some c => fielded t c | None => True end.

Definition player_sound (t : Z) (p : PlayerState) : Prop :=
  Forall (stored t) (deck p)
  ∧ Forall (stored t) (hand p)
  ∧ slot_ok t (active p)
  ∧ Forall (slot_ok t) (bench p).

Definition cards_sound (w : World) : Prop :=
  (0 ≤ turnCount (game w))%Z
  ∧ ∀ pl, player_sound (turnCount (game w)) (getPlayer pl w).

(** What the invariant needs of an entry of the catalogue: a key that is
    not empty, no negative damage or hit points, and for a basic creature
    positive hit points and a card [playCard] places. *)
Definition templateOk (kt : string * Card) : bool :=
  let t := kt.2 in
  negb (String.eqb kt.1 "")
  && (0 <=? orZero (attackDamage t))%Z
  && (0 <=? orZero (hp t))%Z
  && implb (truthy (isBasic t))
       (match hp t with Some m => (0 <? m)%Z | None => false end
        && negb (truthy (isSupporter t))
        && negb (String.eqb kt.1 "base-007")
        && negb (String.eqb kt.1 "base-008")).

(** And of two entries: if [e] evolves from [t], directly or with a
    Chicken Nugget, both are creatures and [e] has at least the hit points
    of [t]. *)
Definition evolutionOk (e t : string * Card) : bool :=
  implb (strictEqS (evolvesFrom e.2) (Some t.1) || strictEqS (evolvesFromBasic e.2) (Some t.1))
    match hp e.2, hp t.2 with
    | Some me, Some mt => (mt <=? me)%Z
    | _, _ => false
    end.

(** ** Runs of moves *)

(** [w'] is the result of a sequence of moves (public operations other
    than [initializeGame]) on [w]. *)
Definition plays (w w' : World) : Prop :=
  ∃ ops, Forall (λ op, isMove op = true) ops ∧ execAll ops w = Some w'.

(** ** A running match has creatures on both sides *)

(** The player has a creature in play. *)
Definition holds_creature (p : PlayerState) : Prop :=
  is_Some (active p) ∨ Exists is_Some (bench p).

(** During the setup phase whoever is ready has an active creature; in the
    playing phase, until the match is over, both players have a creature in
    play. *)
Definition match_staffed (w : World) : Prop :=
  (phase (game w) = setup →
   ∀ pl, sel pl (setupReady (game w)) = true → is_Some (active (getPlayer pl w)))
  ∧ (phase (game w) = playing → gameOver (game w) = false →
     ∀ pl, holds_creature (getPlayer pl w)).

(** * Properties *)

(** ** Arrays *)

Lemma jsGet_Some {A : Type} (arr : list A) (i : Z) (x : A) :
  jsGet arr i = Some x ↔ (0 ≤ i)%Z ∧ arr !! Z.to_nat i = Some x.
Proof.
  unfold jsGet. destruct (Z.ltb_spec i 0); split; try done; intros; try lia; try tauto.
Qed.

Lemma jsGet_None {A : Type} (arr : list A) (i : Z) :
  (i < 0 ∨ Z.of_nat (length arr) ≤ i)%Z → jsGet arr i = None.
Proof.
  unfold jsGet. intros H. destruct (Z.ltb_spec i 0); [done|].
  apply lookup_ge_None. lia.
Qed.

Lemma spliceStart_in_range (len : nat) (i : Z) :
  (0 ≤ i)%Z → Z.to_nat i ≤ len → spliceStart len i = Z.to_nat i.
Proof.
  intros H0 Hle. unfold spliceStart.
  destruct (Z.ltb_spec i 0); [lia|]. lia.
Qed.

(** [arr.splice(i, 1)] at the index of an element removes that element. *)
Lemma splice_remove_at {A : Type} (arr : list A) (i : Z) (x : A) :
  jsGet arr i = Some x →
  splice arr i (Some 1) [] = ([x], delete (Z.to_nat i) arr).
Proof.
  intros [H0 Hx]%jsGet_Some. unfold splice.
  pose proof (lookup_lt_Some _ _ _ Hx) as Hlt.
  rewrite spliceStart_in_range by lia.
  replace (Nat.min 1 (length arr - Z.to_nat i)) with 1 by lia.
  f_equal.
  - rewrite (drop_S _ _ _ Hx). done.
  - simpl. rewrite delete_take_drop. f_equal. f_equal. lia.
Qed.

(** [arr.splice(i, 0, x)] inserts [x] before position [i]. *)
Lemma splice_insert_at {A : Type} (arr : list A) (i : Z) (x : A) :
  (0 ≤ i)%Z → Z.to_nat i ≤ length arr →
  splice arr i (Some 0) [x] = ([], take (Z.to_nat i) arr ++ x :: drop (Z.to_nat i) arr).
Proof.
  intros H0 Hle. unfold splice.
  rewrite spliceStart_in_range by lia. simpl.
  rewrite Nat.add_0_r. done.
Qed.

(** Taking a card out and putting one back at the same index. *)
Lemma splice_remove_insert {A : Type} (arr : list A) (i : Z) (x y : A) :
  jsGet arr i = Some x →
  snd (splice (snd (splice arr i (Some 1) [])) i (Some 0) [y])
  = <[Z.to_nat i := y]> arr.
Proof.
  intros Hget. rewrite (splice_remove_at _ _ _ Hget). cbn [snd].
  apply jsGet_Some in Hget as [H0 Hx].
  pose proof (lookup_lt_Some _ _ _ Hx) as Hlt.
  rewrite splice_insert_at; [|done|rewrite length_delete; [lia|eauto]].
  cbn [snd]. rewrite delete_take_drop.
  rewrite take_app_le by (rewrite length_take; lia).
  rewrite take_take, Nat.min_id.
  rewrite drop_app_ge by (rewrite length_take; lia).
  rewrite length_take, Nat.min_l by lia.
  rewrite Nat.sub_diag, drop_0.
  rewrite insert_take_drop by done. done.
Qed.

(** The one-argument [splice(-n)] splits off the last [n] elements. *)
Lemma splice_last {A : Type} (arr : list A) (n : nat) :
  0 < n →
  splice arr (- Z.of_nat n) None []
  = (drop (length arr - n) arr, take (length arr - n) arr).
Proof.
  intros Hn. unfold splice, spliceStart.
  destruct (Z.ltb_spec (- Z.of_nat n) 0); [|lia].
  replace (Z.to_nat (Z.max (Z.of_nat (length arr) + - Z.of_nat n) 0))
    with (length arr - n) by lia.
  f_equal.
  - apply take_ge. rewrite length_drop. lia.
  - simpl. rewrite drop_ge by lia. by rewrite app_nil_r.
Qed.
(** ** Reading and writing a player *)

Lemma getPlayer_setPlayer_eq pl p w : getPlayer pl (setPlayer pl p w) = p.
Proof. by destruct pl. Qed.

Lemma getPlayer_setPlayer_ne pl pl' p w :
  pl ≠ pl' → getPlayer pl' (setPlayer pl p w) = getPlayer pl' w.
Proof. by destruct pl, pl'. Qed.

Lemma getOpponentId_ne pl : getOpponentId pl ≠ pl.
Proof. by destruct pl. Qed.

Lemma playerEqb_eq a b : playerEqb a b = true ↔ a = b.
Proof. by destruct a, b. Qed.

Lemma phaseEqb_eq a b : phaseEqb a b = true ↔ a = b.
Proof. by destruct a, b. Qed.

Lemma canAct_true player w :
  canAct player w = true ↔
  player = currentPlayer (game w) ∧ phase (game w) = playing ∧ gameOver (game w) = false.
Proof.
  unfold canAct. rewrite !andb_true_iff, playerEqb_eq, phaseEqb_eq, negb_true_iff.
  tauto.
Qed.

(** [drawCards] touches the deck and the hand of one player only. *)
Lemma drawCards_game player n w :
  ∃ d h,
    drawCards player n w
    = setPlayer player (set_hand h (set_deck d (getPlayer player w))) w.
Proof.
  unfold drawCards. destruct (splice _ _ _ _) as [drawn rest]. eauto.
Qed.

(** What a turn start leaves alone, and what it sets. *)
Lemma startTurn_frame player w :
  let w' := startTurn player w in
  currentPlayer (game w') = player
  ∧ turnCount (game w') = (turnCount (game w) + 1)%Z
  ∧ phase (game w') = phase (game w)
  ∧ gameOver (game w') = gameOver (game w)
  ∧ winner (game w') = winner (game w)
  ∧ setupReady (game w') = setupReady (game w)
  ∧ events w' = events w ++ [turnStarted player; gameStateUpdated]
  ∧ cardUidCounter w' = cardUidCounter w
  ∧ random w' = random w
  ∧ (∀ pl, active (getPlayer pl w') = active (getPlayer pl w)
           ∧ bench (getPlayer pl w') = bench (getPlayer pl w)
           ∧ points (getPlayer pl w') = points (getPlayer pl w))
  ∧ hasPlayedSupporter (getPlayer player w') = false
  ∧ hasPlayedSupporter (getPlayer (getOpponentId player) w')
    = hasPlayedSupporter (getPlayer (getOpponentId player) w)
  ∧ getPlayer (getOpponentId player) w' = getPlayer (getOpponentId player) w.
Proof.
  unfold startTurn. cbn zeta.
  set (w1 := set_game _ w).
  set (w2 := setPlayer _ _ w1).
  assert (Hev : ∀ v : World, events (update (notify (turnStarted player) v))
                = events v ++ [turnStarted player; gameStateUpdated]).
  { intros v. unfold update, notify. simpl. by rewrite <- app_assoc. }
  destruct (1 <? turnCount (game w2))%Z.
  - destruct (drawCards_game player 1 w2) as (d & h & ->).
    rewrite Hev. destruct player; simpl; repeat split; try done;
      destruct pl; done.
  - rewrite Hev. destruct player; simpl; repeat split; try done;
      destruct pl; done.
Qed.
(** ** Attack *)

Lemma setPlayer_currentPlayer pl p w :
  currentPlayer (game (setPlayer pl p w)) = currentPlayer (game w).
Proof. done. Qed.
Lemma setPlayer_turnCount pl p w :
  turnCount (game (setPlayer pl p w)) = turnCount (game w).
Proof. done. Qed.
Lemma setPlayer_phase pl p w : phase (game (setPlayer pl p w)) = phase (game w).
Proof. done. Qed.
Lemma setPlayer_gameOver pl p w :
  gameOver (game (setPlayer pl p w)) = gameOver (game w).
Proof. done. Qed.
Lemma setPlayer_winner pl p w : winner (game (setPlayer pl p w)) = winner (game w).
Proof. done. Qed.
Lemma setPlayer_setupReady pl p w :
  setupReady (game (setPlayer pl p w)) = setupReady (game w).
Proof. done. Qed.
Lemma setPlayer_events pl p w : events (setPlayer pl p w) = events w.
Proof. done. Qed.
Lemma setPlayer_cardUidCounter pl p w :
  cardUidCounter (setPlayer pl p w) = cardUidCounter w.
Proof. done. Qed.
Lemma setPlayer_random pl p w : random (setPlayer pl p w) = random w.
Proof. done. Qed.

Create Rewrite HintDb frame.
#[export] Hint Rewrite setPlayer_currentPlayer setPlayer_turnCount setPlayer_phase
  setPlayer_gameOver setPlayer_winner setPlayer_setupReady setPlayer_events
  setPlayer_cardUidCounter setPlayer_random getPlayer_setPlayer_eq : frame.

Lemma orZero_Some (x : Z) : orZero (Some x) = x.
Proof. done. Qed.

Lemma some_occupied_false (slots : list (option Card)) :
  some (λ c : option Card, bool_decide (is_Some c)) slots = false
  ↔ Forall (λ c, c = None) slots.
Proof.
  unfold some. induction slots as [|c slots IH]; simpl.
  - split; [constructor|done].
  - rewrite orb_false_iff, IH, Forall_cons. destruct c; simpl.
    + split; [intros [? _]; done|intros [? _]; done].
    + split; [intros [_ ?]; done|intros [_ ?]; done].
Qed.

Lemma endTurn_running w :
  gameOver (game w) = false →
  endTurn w = startTurn (getOpponentId (currentPlayer (game w))) w.
Proof. unfold endTurn. by intros ->. Qed.

Lemma endGame_frame who w :
  let w' := endGame who w in
  (∀ pl, getPlayer pl w' = getPlayer pl w)
  ∧ gameOver (game w') = true
  ∧ winner (game w') = Some who
  ∧ currentPlayer (game w') = currentPlayer (game w)
  ∧ turnCount (game w') = turnCount (game w)
  ∧ events w' = events w ++ [gameEnded who].
Proof. done. Qed.

(** C1.  An attack that knocks out the defender's active creature gives
    the attacker 2 points for an ex card and 1 otherwise, and empties the
    defender's active slot.  The game is then over, with the attacker as the
    winner, exactly when the attacker's new total is at least 3 or the
    defender's bench has no creature; otherwise the opponent's turn starts. *)
Theorem attack_knockout (w : World) (pa oa : Card) :
  let cur := currentPlayer (game w) in
  let opp := getOpponentId cur in
  let gain := (if truthy (isEx oa) then 2 else 1)%Z in
  let total := (points (getPlayer cur w) + gain)%Z in
  let ends := (3 ≤ total)%Z ∨ Forall (λ c, c = None) (bench (getPlayer opp w)) in
  phase (game w) = playing →
  gameOver (game w) = false →
  active (getPlayer cur w) = Some pa →
  active (getPlayer opp w) = Some oa →
  (orZero (hp oa) - orZero (attackDamage pa) ≤ 0)%Z →
  let w' := attack w in
  points (getPlayer cur w') = total
  ∧ active (getPlayer opp w') = None
  ∧ (gameOver (game w') = true ↔ ends)
  ∧ (ends →
       winner (game w') = Some cur
       ∧ currentPlayer (game w') = cur
       ∧ turnCount (game w') = turnCount (game w)
       ∧ events w' = events w ++ [gameEnded cur])
  ∧ (¬ ends →
       currentPlayer (game w') = opp
       ∧ turnCount (game w') = (turnCount (game w) + 1)%Z
       ∧ winner (game w') = winner (game w)
       ∧ events w' = events w ++ [turnStarted opp; gameStateUpdated]).
Proof.
  intros cur opp gain total ends Hphase Hover Hpa Hoa Hko w'.
  assert (Hcan : canAct cur w = true) by (by apply canAct_true).
  subst w'. unfold attack. fold cur. rewrite Hcan. cbn [negb].
  unfold getOpponent. fold opp. rewrite Hpa, Hoa.
  cbn [hp set_hp]. rewrite orZero_Some.
  destruct (Z.leb_spec (orZero (hp oa) - orZero (attackDamage pa)) 0) as [_|Hgt];
    [|lia].
  cbn [isEx set_hp]. fold gain.
  set (w1 := setPlayer opp _ w).
  set (w2 := setPlayer cur _ w1).
  set (w3 := setPlayer opp _ w2).
  assert (Hne : opp ≠ cur) by apply getOpponentId_ne.
  assert (Hp3 : points (getPlayer cur w3) = total).
  { unfold w3. rewrite getPlayer_setPlayer_ne by done.
    unfold w2. rewrite getPlayer_setPlayer_eq. cbn [points set_points].
    unfold w1. rewrite getPlayer_setPlayer_ne by done. done. }
  assert (Ha3 : active (getPlayer opp w3) = None).
  { unfold w3. by rewrite getPlayer_setPlayer_eq. }
  assert (Hb3 : bench (getPlayer opp w3) = bench (getPlayer opp w)).
  { unfold w3. rewrite getPlayer_setPlayer_eq. cbn [bench set_active].
    unfold w2. rewrite getPlayer_setPlayer_ne by congruence.
    unfold w1. rewrite getPlayer_setPlayer_eq. done. }
  assert (Hg3 : currentPlayer (game w3) = cur ∧ turnCount (game w3) = turnCount (game w)
                ∧ winner (game w3) = winner (game w) ∧ gameOver (game w3) = false
                ∧ events w3 = events w).
  { unfold w3, w2, w1. autorewrite with frame. done. }
  destruct Hg3 as (Hc3 & Ht3 & Hw3 & Ho3 & He3).
  rewrite Hp3, Hb3.
  destruct (Z.leb_spec 3 total) as [Hpts|Hpts]; cbn [orb].
  - (* the points threshold *)
    assert (Hends : ends) by (by left).
    destruct (endGame_frame cur w3) as (Hpl & -> & -> & -> & -> & ->).
    rewrite !Hpl, Hp3, Ha3, Hc3, Ht3, He3.
    repeat split; done.
  - destruct (some _ (bench (getPlayer opp w))) eqn:Hbench; cbn [negb].
    + (* the defender can continue: the turn passes *)
      assert (Hnot : ¬ ends).
      { intros [?|HF]; [lia|]. apply some_occupied_false in HF. congruence. }
      rewrite endTurn_running by done. rewrite Hc3. fold opp.
      pose proof (startTurn_frame opp w3) as Hf. cbn zeta in Hf.
      destruct Hf as (Hc & Ht & _ & Ho & Hw & _ & He & _ & _ & Hpl & _ & Hopp).
      destruct (Hpl cur) as (_ & _ & Hpc). destruct (Hpl opp) as (Hao & _ & _).
      rewrite Hpc, Hao, Ho, Hc, Ht, Hw, He, Hp3, Ha3, Ho3, Ht3, Hw3, He3.
      repeat split; try done; congruence.
    + (* no bench creature is left *)
      assert (Hends : ends) by (right; by apply some_occupied_false).
      destruct (endGame_frame cur w3) as (Hpl & -> & -> & -> & -> & ->).
      rewrite !Hpl, Hp3, Ha3, Hc3, Ht3, He3.
      repeat split; done.
Qed.
(** ** Playing a card *)

(** C10.  A hand index that addresses no card of the acting player's hand
    (negative, or at least the length of the hand) makes [playCard] return
    the world as it was: no field changes and no event is emitted. *)
Theorem playCard_bad_index (player : PlayerId) (handIndex : Z) (w : World) :
  (handIndex < 0 ∨ Z.of_nat (length (hand (getPlayer player w))) ≤ handIndex)%Z →
  playCard player handIndex w = w.
Proof.
  intros Hidx. unfold playCard.
  destruct (gameOver (game w) || _); [done|].
  by rewrite jsGet_None.
Qed.

Lemma indexOfNull_full_from (slots : list (option Card)) (i : Z) :
  Forall (λ c, is_Some c) slots →
  findIndexFrom (λ (c : option Card) (_ : Z),
                   match c with None => true | Some _ => false end) i slots
  = (-1)%Z.
Proof.
  intros H. revert i. induction H as [|c slots [x ->] _ IH]; intros i; simpl; [done|].
  apply IH.
Qed.

Lemma indexOfNull_full (slots : list (option Card)) :
  Forall (λ c, is_Some c) slots → indexOfNull slots = (-1)%Z.
Proof. apply indexOfNull_full_from. Qed.

(** What [playCard] does with a basic creature when the active slot and
    every bench slot are taken: nothing is placed and nothing is announced,
    but the card that goes back into the hand carries the current turn counter
    in [turnPlaced]. *)
Lemma playCard_basic_full_board (player : PlayerId) (handIndex : Z) (w : World)
    (card : Card) :
  gameOver (game w) = false →
  (phase (game w) = playing → currentPlayer (game w) = player) →
  jsGet (hand (getPlayer player w)) handIndex = Some card →
  truthy (isSupporter card) = false →
  id card ≠ "base-007" → id card ≠ "base-008" →
  truthy (isBasic card) = true →
  is_Some (active (getPlayer player w)) →
  Forall (λ c, is_Some c) (bench (getPlayer player w)) →
  playCard player handIndex w
  = setPlayer player
      (set_hand (<[Z.to_nat handIndex := set_turnPlaced (Some (turnCount (game w))) card]>
                   (hand (getPlayer player w)))
         (getPlayer player w)) w.
Proof.
  intros Hover Hturn Hget Hsup H7 H8 Hbasic [a Ha] Hfull.
  unfold playCard. rewrite Hover. cbn [orb].
  destruct (phaseEqb (phase (game w)) playing && _) eqn:Hguard.
  { apply andb_true_iff in Hguard as [Hp%phaseEqb_eq Hc].
    rewrite (Hturn Hp) in Hc. by destruct player. }
  rewrite Hget, Hsup.
  apply String.eqb_neq in H7, H8. rewrite H7, H8, Hbasic.
  unfold _playBasic. rewrite (splice_remove_at _ _ _ Hget).
  cbn [active set_hand]. rewrite Ha.
  cbn [bench set_hand]. rewrite (indexOfNull_full _ Hfull). cbn [Z.eqb Pos.eqb].
  cbn [hand set_hand].
  pose proof (splice_remove_insert _ _ _ (set_turnPlaced (Some (turnCount (game w))) card) Hget) as Hre.
  rewrite (splice_remove_at _ _ _ Hget) in Hre. cbn [snd] in Hre. rewrite Hre.
  done.
Qed.
(** ** Evolution *)

Lemma jsSet_in_range {A : Type} (arr : list (option A)) (i : Z) (x c : option A) :
  jsGet arr i = Some x → jsSet arr i c = <[Z.to_nat i := c]> arr.
Proof.
  intros [H0 Hx]%jsGet_Some. unfold jsSet.
  destruct (Z.ltb_spec i 0); [lia|].
  pose proof (lookup_lt_Some _ _ _ Hx). by rewrite decide_True.
Qed.

Lemma jsGet_jsSet {A : Type} (arr : list (option A)) (i : Z) (x c : option A) :
  jsGet arr i = Some x → jsGet (jsSet arr i c) i = Some c.
Proof.
  intros Hget. rewrite (jsSet_in_range _ _ _ _ Hget).
  apply jsGet_Some in Hget as [H0 Hx]. apply jsGet_Some. split; [done|].
  apply list_lookup_insert_eq. by eapply lookup_lt_Some.
Qed.

Lemma mjoin_jsGet_Some {A : Type} (arr : list (option A)) (i : Z) (x : A) :
  mjoin (jsGet arr i) = Some x → jsGet arr i = Some (Some x).
Proof. destruct (jsGet arr i) as [[y|]|]; simpl; congruence. Qed.

(** The slot addressed by [targetBoardIndex] holds the evolved card after
    [_performEvolution], provided it held a card before. *)
Lemma _performEvolution_target player evolvedCard targetCard tidx w t :
  targetAt (getPlayer player w) tidx = Some t →
  let w' := _performEvolution player evolvedCard targetCard tidx w in
  targetAt (getPlayer player w') tidx
  = Some (set_turnPlaced (Some (turnCount (game w)))
            (set_hp (Some (orZero (maxHp evolvedCard)
                           - (orZero (maxHp targetCard) - orZero (hp targetCard)))%Z)
               evolvedCard))
  ∧ turnCount (game w') = turnCount (game w)
  ∧ events w' = events w ++ [gameStateUpdated].
Proof.
  intros Ht w'. subst w'. unfold _performEvolution, update, notify.
  unfold targetAt in *.
  destruct (tidx =? -1)%Z.
  - by destruct player.
  - apply mjoin_jsGet_Some in Ht.
    pose proof (jsGet_jsSet _ _ _
      (Some (set_turnPlaced (Some (turnCount (game w)))
         (set_hp (Some (orZero (maxHp evolvedCard)
            - (orZero (maxHp targetCard) - orZero (hp targetCard)))%Z) evolvedCard))) Ht) as Hs.
    destruct player; simpl in *; by rewrite Hs.
Qed.

Lemma targetAt_set_hand p h tidx : targetAt (set_hand h p) tidx = targetAt p tidx.
Proof. done. Qed.

(** [evolve] changes the world only when every precondition holds, and
    then it is [_performEvolution] on the hand card at [handIndex]. *)
Lemma evolve_changes player handIndex tidx w :
  evolve player handIndex tidx w ≠ w →
  ∃ targetCard handCard,
    targetAt (getPlayer player w) tidx = Some targetCard
    ∧ jsGet (hand (getPlayer player w)) handIndex = Some handCard
    ∧ canAct player w = true
    ∧ (1 < turnCount (game w))%Z
    ∧ evolvesFrom handCard = Some (id targetCard)
    ∧ (orZero (turnPlaced targetCard) < turnCount (game w))%Z
    ∧ evolve player handIndex tidx w
      = _performEvolution player handCard targetCard tidx
          (setPlayer player
             (set_hand (delete (Z.to_nat handIndex) (hand (getPlayer player w)))
                (getPlayer player w)) w).
Proof.
  unfold evolve.
  destruct (targetAt _ tidx) as [targetCard|] eqn:Ht; [|done].
  destruct (jsGet _ handIndex) as [handCard|] eqn:Hh; [|done].
  destruct (canAct player w) eqn:Hcan; [|done]. cbn [negb orb].
  destruct (Z.leb_spec (turnCount (game w)) 1); [done|]. cbn [orb].
  destruct (truthyS (evolvesFrom handCard)) eqn:Hts; [|done]. cbn [negb orb].
  destruct (strictEqS (evolvesFrom handCard) (Some (id targetCard))) eqn:Heq; [|done].
  cbn [negb orb].
  destruct (Z.leb_spec (turnCount (game w)) (orZero (turnPlaced targetCard))); [done|].
  rewrite (splice_remove_at _ _ _ Hh). intros _.
  exists targetCard, handCard. repeat split; try done.
  unfold strictEqS in Heq. destruct (evolvesFrom handCard); [|done].
  by apply String.eqb_eq in Heq as ->.
Qed.

(** Conversely, when every precondition holds [evolve] emits a state
    update, so the world changes: "[evolve] changed the world" and "[evolve]
    succeeded" are the same thing. *)
Lemma evolve_succeeds player handIndex tidx w targetCard handCard :
  targetAt (getPlayer player w) tidx = Some targetCard →
  jsGet (hand (getPlayer player w)) handIndex = Some handCard →
  canAct player w = true →
  (1 < turnCount (game w))%Z →
  evolvesFrom handCard = Some (id targetCard) →
  id targetCard ≠ "" →
  (orZero (turnPlaced targetCard) < turnCount (game w))%Z →
  events (evolve player handIndex tidx w) = events w ++ [gameStateUpdated]
  ∧ evolve player handIndex tidx w ≠ w.
Proof.
  intros Ht Hh Hcan Hturn Hfrom Hid Hplaced.
  assert (Hev : events (evolve player handIndex tidx w) = events w ++ [gameStateUpdated]).
  { unfold evolve. rewrite Ht, Hh, Hcan, Hfrom. cbn [negb orb truthyS strictEqS].
    rewrite String.eqb_refl. apply String.eqb_neq in Hid. rewrite Hid.
    destruct (Z.leb_spec (turnCount (game w)) 1); [lia|].
    destruct (Z.leb_spec (turnCount (game w)) (orZero (turnPlaced targetCard))); [lia|].
    cbn [negb orb]. rewrite (splice_remove_at _ _ _ Hh).
    set (w1 := setPlayer _ _ w).
    assert (Ht1 : targetAt (getPlayer player w1) tidx = Some targetCard).
    { unfold w1. by rewrite getPlayer_setPlayer_eq, targetAt_set_hand. }
    destruct (_performEvolution_target player handCard targetCard tidx w1 _ Ht1)
      as (_ & _ & ->). done. }
  split; [done|]. intros Heq. rewrite Heq in Hev.
  apply (f_equal length) in Hev. rewrite length_app in Hev. simpl in Hev. lia.
Qed.

Lemma findIndexFrom_spec {A : Type} (f : A → Z → bool) (i : Z) (arr : list A) :
  (0 ≤ i)%Z →
  findIndexFrom f i arr = (-1)%Z
  ∨ (i ≤ findIndexFrom f i arr)%Z
    ∧ ∃ c, arr !! Z.to_nat (findIndexFrom f i arr - i) = Some c
           ∧ f c (findIndexFrom f i arr) = true.
Proof.
  revert i. induction arr as [|c arr IH]; intros i Hi; simpl; [by left|].
  destruct (f c i) eqn:Hf.
  - right. split; [lia|]. exists c. by rewrite Z.sub_diag.
  - destruct (IH (i + 1)%Z) as [->|(Hle & c' & Hc' & Hf')]; [lia|by left|].
    right. split; [lia|]. exists c'. split; [|done].
    replace (Z.to_nat (findIndexFrom f (i + 1) arr - i))
      with (S (Z.to_nat (findIndexFrom f (i + 1) arr - (i + 1)))) by lia.
    done.
Qed.

Lemma findIndex_found {A : Type} (f : A → Z → bool) (arr : list A) (c : A) :
  jsGet arr (findIndex f arr) = Some c → f c (findIndex f arr) = true.
Proof.
  intros [H0 Hc]%jsGet_Some. unfold findIndex in *.
  destruct (findIndexFrom_spec f 0 arr) as [Hk|(_ & c' & Hc' & Hf)]; [done|lia|].
  rewrite Z.sub_0_r in Hc'. congruence.
Qed.

(** [playChickenNugget] returns [true] only past its guards, and then it
    is [_performEvolution] on the first other hand card that evolves from
    the basic target. *)
Lemma playChickenNugget_true player handIndex tidx w w' :
  playChickenNugget player handIndex tidx w = (true, w') →
  ∃ targetCard evolvedCard hand',
    targetAt (getPlayer player w) tidx = Some targetCard
    ∧ jsGet (hand (getPlayer player w))
        (stage2EvoIndex handIndex targetCard (hand (getPlayer player w)))
      = Some evolvedCard
    ∧ canAct player w = true
    ∧ truthy (isBasic targetCard) = true
    ∧ evolvesFromBasic evolvedCard = Some (id targetCard)
    ∧ (orZero (turnPlaced targetCard) < turnCount (game w))%Z
    ∧ w' = _performEvolution player evolvedCard targetCard tidx
             (setPlayer player (set_hand hand' (getPlayer player w)) w).
Proof.
  unfold playChickenNugget.
  destruct (targetAt _ tidx) as [targetCard|] eqn:Ht; [|done].
  destruct (canAct player w) eqn:Hcan; [|done]. cbn [negb orb].
  destruct (truthy (isBasic targetCard)) eqn:Hb; [|done]. cbn [negb orb].
  destruct (Z.leb_spec (turnCount (game w)) (orZero (turnPlaced targetCard))); [done|].
  destruct (stage2EvoIndex _ _ _ =? -1)%Z; [done|].
  destruct (jsGet _ (stage2EvoIndex _ _ _)) as [evolvedCard|] eqn:He; [|done].
  assert (Hfrom : evolvesFromBasic evolvedCard = Some (id targetCard)).
  { apply findIndex_found in He.
    apply andb_true_iff in He as [_ He]. unfold strictEqS in He.
    destruct (evolvesFromBasic evolvedCard); [|done].
    by apply String.eqb_eq in He as ->. }
  destruct (handIndex <? stage2EvoIndex _ _ _)%Z; intros [= <-];
    exists targetCard, evolvedCard; eexists; repeat split; done.
Qed.

(** C3.  A successful [evolve] or [playChickenNugget] puts the evolving
    hand card into the target's slot with [hp] equal to its [maxHp] minus the
    damage already on the target (the target's [maxHp] minus its [hp]) and
    with [turnPlaced] equal to the current turn counter; for [evolve] the
    evolving card is the one at [handIndex], for [playChickenNugget] the one
    at [stage2EvoIndex].  [evolve] returns nothing, so its success is read
    off the world: it changed ([evolve_changes], [evolve_succeeds]). *)
Theorem evolution_carries_damage (player : PlayerId) (handIndex tidx : Z)
    (w : World) (targetCard : Card) :
  targetAt (getPlayer player w) tidx = Some targetCard →
  let carried (evolvedCard : Card) :=
    set_turnPlaced (Some (turnCount (game w)))
      (set_hp (Some (orZero (maxHp evolvedCard)
                     - (orZero (maxHp targetCard) - orZero (hp targetCard)))%Z)
         evolvedCard) in
  (evolve player handIndex tidx w ≠ w →
   ∃ evolvedCard,
     jsGet (hand (getPlayer player w)) handIndex = Some evolvedCard
     ∧ targetAt (getPlayer player (evolve player handIndex tidx w)) tidx
       = Some (carried evolvedCard))
  ∧ (∀ w', playChickenNugget player handIndex tidx w = (true, w') →
     ∃ evolvedCard,
       jsGet (hand (getPlayer player w))
         (stage2EvoIndex handIndex targetCard (hand (getPlayer player w)))
       = Some evolvedCard
       ∧ targetAt (getPlayer player w') tidx = Some (carried evolvedCard)).
Proof.
  intros Ht carried. split.
  - intros Hne.
    destruct (evolve_changes _ _ _ _ Hne)
      as (t & handCard & Ht' & Hh & _ & _ & _ & _ & ->).
    assert (t = targetCard) as -> by congruence.
    exists handCard. split; [done|].
    set (w1 := setPlayer _ _ w).
    assert (Ht1 : targetAt (getPlayer player w1) tidx = Some targetCard).
    { unfold w1. by rewrite getPlayer_setPlayer_eq, targetAt_set_hand. }
    destruct (_performEvolution_target player handCard targetCard tidx w1 _ Ht1)
      as (-> & _). done.
  - intros w' Hnug.
    destruct (playChickenNugget_true _ _ _ _ _ Hnug)
      as (t & evolvedCard & hand' & Ht' & Hin & _ & _ & _ & _ & ->).
    assert (t = targetCard) as -> by congruence.
    exists evolvedCard. split; [done|].
    set (w1 := setPlayer _ _ w).
    assert (Ht1 : targetAt (getPlayer player w1) tidx = Some targetCard).
    { unfold w1. by rewrite getPlayer_setPlayer_eq, targetAt_set_hand. }
    destruct (_performEvolution_target player evolvedCard targetCard tidx w1 _ Ht1)
      as (-> & _). done.
Qed.
(** ** Reachability of the sample matches *)

Lemma reachable_execAll ops w w' :
  reachable w → execAll ops w = Some w' → reachable w'.
Proof.
  revert w. induction ops as [|op ops IH]; intros w Hw; simpl.
  - by intros [= <-].
  - destruct (exec op w) as [w1|] eqn:Hop; [|done].
    intros H. eapply IH; [|done]. by eapply reachable_step.
Qed.

Lemma reachable_worldAfter ops rs : reachable (worldAfter ops rs).
Proof.
  unfold worldAfter. destruct (execAll ops _) as [w|] eqn:H; simpl.
  - eapply reachable_execAll; [apply reachable_new|done].
  - apply reachable_new.
Qed.

(** ** The turn rules of evolution *)

(** [evolve] does nothing while the turn counter is 1 or less, and nothing
    to a target placed on the current turn. *)
Lemma evolve_turn_rules player handIndex tidx w targetCard :
  targetAt (getPlayer player w) tidx = Some targetCard →
  (turnCount (game w) ≤ 1)%Z ∨ turnPlaced targetCard = Some (turnCount (game w)) →
  evolve player handIndex tidx w = w.
Proof.
  intros Ht Hrule. unfold evolve. rewrite Ht.
  destruct (jsGet _ handIndex) as [handCard|]; [|done].
  destruct Hrule as [Hearly|Hsame].
  - destruct (Z.leb_spec (turnCount (game w)) 1); [|lia].
    by rewrite !orb_true_r.
  - rewrite Hsame, orZero_Some, Z.leb_refl. by rewrite !orb_true_r.
Qed.

(** [playChickenNugget] refuses a target placed on the current turn. *)
Lemma playChickenNugget_same_turn player handIndex tidx w targetCard :
  targetAt (getPlayer player w) tidx = Some targetCard →
  turnPlaced targetCard = Some (turnCount (game w)) →
  playChickenNugget player handIndex tidx w = (false, w).
Proof.
  intros Ht Hsame. unfold playChickenNugget. rewrite Ht.
  rewrite Hsame, orZero_Some, Z.leb_refl. by rewrite !orb_true_r.
Qed.

(** C2.  In match A, after both players have placed a creature and
    declared ready, the turn counter is 1, and [playChickenNugget] succeeds
    for player 1: it returns [true] and the active base-003 placed during
    setup is replaced by base-005. *)
Theorem playChickenNugget_succeeds_on_turn_1 :
  let w := worldAfter openingA oracleA in
  reachable w
  ∧ turnCount (game w) = 1%Z
  ∧ id <$> active (getPlayer P1 w) = Some "base-003"
  ∧ fst (playChickenNugget P1 2 (-1) w) = true
  ∧ id <$> active (getPlayer P1 (snd (playChickenNugget P1 2 (-1) w))) = Some "base-005"
  ∧ length (hand (getPlayer P1 (snd (playChickenNugget P1 2 (-1) w))))
    = length (hand (getPlayer P1 w)) - 2.
Proof.
  split; [apply reachable_worldAfter|]. vm_compute. done.
Qed.
(** ** Sample runs of the single operations *)

(** C4.  In match C player 1 fills the active slot and the three bench
    slots during setup and then plays the last basic creature of the hand,
    which has never been placed ([turnPlaced] undefined).  The card stays at
    index 0 of the hand and no event is emitted, but its [turnPlaced] now
    holds the turn counter, 0: the world has changed. *)
Theorem playCard_full_board_stamps_turnPlaced :
  let w := worldAfter [ OpInitializeGame 1; OpPlayCard P1 0; OpPlayCard P1 0;
                        OpPlayCard P1 0; OpPlayCard P1 0 ] oracleC in
  let w' := playCard P1 0 w in
  reachable w
  ∧ option_map id (active (getPlayer P1 w)) = Some "base-003"
  ∧ map (option_map id) (bench (getPlayer P1 w))
    = [Some "base-003"; Some "base-001"; Some "base-001"]
  ∧ map (λ c, (id c, isBasic c, uid c, turnPlaced c)) (hand (getPlayer P1 w))
    = [("base-001", Some true, Some "0", None)]
  ∧ map (λ c, (id c, isBasic c, uid c, turnPlaced c)) (hand (getPlayer P1 w'))
    = [("base-001", Some true, Some "0", Some 0%Z)]
  ∧ events w' = events w
  ∧ w' ≠ w.
Proof.
  split; [apply reachable_worldAfter|].
  do 5 (split; [vm_compute; reflexivity|]).
  intros H. apply (f_equal (λ v, map turnPlaced (hand (getPlayer P1 v)))) in H.
  vm_compute in H. discriminate H.
Qed.

Lemma playCard_bad_index_witness :
  let w := worldAfter openingA oracleA in
  (7 < 0 ∨ Z.of_nat (length (hand (getPlayer P1 w))) ≤ 7)%Z
  ∧ playCard P1 7 w = w
  ∧ (-1 < 0 ∨ Z.of_nat (length (hand (getPlayer P1 w))) ≤ -1)%Z
  ∧ playCard P1 (-1) w = w.
Proof.
  assert (H7 : (7 < 0 ∨ Z.of_nat (length (hand (getPlayer P1 (worldAfter openingA oracleA)))) ≤ 7)%Z)
    by (right; vm_compute; discriminate).
  assert (H1 : (-1 < 0 ∨ Z.of_nat (length (hand (getPlayer P1 (worldAfter openingA oracleA)))) ≤ -1)%Z)
    by (left; reflexivity).
  exact (conj H7 (conj (playCard_bad_index P1 7 _ H7)
           (conj H1 (playCard_bad_index P1 (-1) _ H1)))).
Defined.

(** Match A after two attacks of each player: player 2's active creature
    is down to 20 hit points and player 1 is about to attack with 20. *)
Lemma attack_knockout_witness :
  let w := worldAfter (openingA ++ [OpAttack; OpAttack; OpAttack; OpAttack]) oracleA in
  points (getPlayer P1 (attack w)) = 1%Z
  ∧ active (getPlayer P2 (attack w)) = None
  ∧ gameOver (game (attack w)) = true
  ∧ winner (game (attack w)) = Some P1.
Proof.
  set (w := worldAfter _ _). cbn zeta.
  assert (Hc : currentPlayer (game w) = P1) by (vm_compute; reflexivity).
  assert (Hpa : ∃ pa, active (getPlayer P1 w) = Some pa
                      ∧ attackDamage pa = Some 20%Z).
  { vm_compute. eexists. split; reflexivity. }
  assert (Hoa : ∃ oa, active (getPlayer P2 w) = Some oa
                      ∧ hp oa = Some 20%Z ∧ isEx oa = None).
  { vm_compute. eexists. split; [|split]; reflexivity. }
  destruct Hpa as (pa & Hpa & Hd). destruct Hoa as (oa & Hoa & Hh & Hex).
  assert (Hbench : Forall (λ c : option Card, c = None) (bench (getPlayer P2 w))).
  { vm_compute. repeat constructor. }
  assert (Hpts : points (getPlayer P1 w) = 0%Z) by (vm_compute; reflexivity).
  pose proof (attack_knockout w pa oa) as H.
  cbn zeta in H. rewrite Hc in H. cbn [getOpponentId] in H.
  rewrite Hex, Hpts, Hh, Hd in H. cbn [truthy] in H.
  specialize (H ltac:(vm_compute; reflexivity) ltac:(vm_compute; reflexivity)
                Hpa Hoa ltac:(vm_compute; discriminate)).
  destruct H as (H1 & H2 & H3 & H4 & _).
  split; [exact H1|]. split; [exact H2|].
  split; [apply H3; by right|]. apply H4. by right.
Defined.
(** Match B on turn 5: player 1's base-001 (maxHp 60) has been hit twice
    and is at 20 hit points; evolving it into base-002 (maxHp 90) gives 50.
    Match A on turn 3: player 1's base-003 is at 40 of 60 hit points; the
    Chicken Nugget turns it into base-005 (maxHp 180) at 160. *)
Lemma evolution_carries_damage_witness :
  let wB := worldAfter (openingB ++ [OpEndTurn; OpAttack; OpEndTurn; OpAttack]) oracleB in
  let wA := worldAfter (openingA ++ [OpEndTurn; OpAttack]) oracleA in
  option_map (λ c, (id c, maxHp c, hp c)) (active (getPlayer P1 wB))
  = Some ("base-001", Some 60%Z, Some 20%Z)
  ∧ (∃ c, targetAt (getPlayer P1 (evolve P1 3 (-1) wB)) (-1) = Some c
          ∧ id c = "base-002" ∧ maxHp c = Some 90%Z ∧ hp c = Some 50%Z
          ∧ turnPlaced c = Some 5%Z)
  ∧ (∃ c, targetAt (getPlayer P1 (snd (playChickenNugget P1 2 (-1) wA))) (-1) = Some c
          ∧ id c = "base-005" ∧ maxHp c = Some 180%Z ∧ hp c = Some 160%Z
          ∧ turnPlaced c = Some 3%Z).
Proof.
  set (wB := worldAfter _ oracleB). set (wA := worldAfter _ oracleA). cbn zeta.
  split; [vm_compute; reflexivity|]. split.
  - assert (Ht : ∃ t, targetAt (getPlayer P1 wB) (-1) = Some t
                      ∧ maxHp t = Some 60%Z ∧ hp t = Some 20%Z).
    { vm_compute. eexists. split; [|split]; reflexivity. }
    destruct Ht as (t & Ht & Hmax & Hhp).
    assert (Hlen : length (events (evolve P1 3 (-1) wB)) ≠ length (events wB))
      by (vm_compute; discriminate).
    assert (Hne : evolve P1 3 (-1) wB ≠ wB)
      by exact (λ H, Hlen (f_equal (λ v, length (events v)) H)).
    destruct (proj1 (evolution_carries_damage P1 3 (-1) wB t Ht) Hne)
      as (e & He & Hres).
    assert (Hhand : option_map (λ c, (id c, maxHp c))
                      (jsGet (hand (getPlayer P1 wB)) 3)
                    = Some ("base-002", Some 90%Z)) by (vm_compute; reflexivity).
    assert (Hid : id e = "base-002" ∧ maxHp e = Some 90%Z).
    { rewrite He in Hhand. injection Hhand as -> ->. split; reflexivity. }
    destruct Hid as [Hid Hemax].
    eexists. split; [exact Hres|]. cbn [id maxHp hp turnPlaced set_hp set_turnPlaced].
    rewrite Hid, Hemax, Hmax, Hhp.
    split; [reflexivity|]. split; [reflexivity|]. split; vm_compute; reflexivity.
  - assert (Ht : ∃ t, targetAt (getPlayer P1 wA) (-1) = Some t
                      ∧ id t = "base-003" ∧ maxHp t = Some 60%Z ∧ hp t = Some 40%Z).
    { vm_compute. eexists. split; [|split; [|split]]; reflexivity. }
    destruct Ht as (t & Ht & Htid & Hmax & Hhp).
    assert (Hok : fst (playChickenNugget P1 2 (-1) wA) = true)
      by (vm_compute; reflexivity).
    assert (Hpair : playChickenNugget P1 2 (-1) wA
                    = (true, snd (playChickenNugget P1 2 (-1) wA))).
    { rewrite <- Hok at 1. apply surjective_pairing. }
    destruct (proj2 (evolution_carries_damage P1 2 (-1) wA t Ht) _ Hpair)
      as (e & He & Hres).
    assert (Hhand : option_map (λ c, (id c, maxHp c))
                      (jsGet (hand (getPlayer P1 wA))
                         (stage2EvoIndex 2 t (hand (getPlayer P1 wA))))
                    = Some ("base-005", Some 180%Z)).
    { unfold stage2EvoIndex. rewrite Htid. vm_compute. reflexivity. }
    assert (Hid : id e = "base-005" ∧ maxHp e = Some 180%Z).
    { rewrite He in Hhand. injection Hhand as -> ->. split; reflexivity. }
    destruct Hid as [Hid Hemax].
    eexists. split; [exact Hres|]. cbn [id maxHp hp turnPlaced set_hp set_turnPlaced].
    rewrite Hid, Hemax, Hmax, Hhp.
    split; [reflexivity|]. split; [reflexivity|]. split; vm_compute; reflexivity.
Defined.
(** ** Shuffling *)

Lemma swap_Permutation {A : Type} (arr : list A) (i j : nat) : swap arr i j ≡ₚ arr.
Proof.
  unfold swap.
  destruct (arr !! i) as [x|] eqn:Hi; [|done].
  destruct (arr !! j) as [y|] eqn:Hj; [|done].
  by apply Permutation_insert_swap.
Qed.

Lemma shuffleLoop_Permutation {A : Type} (i : nat) (arr : list A) (rs : list nat) :
  fst (shuffleLoop i arr rs) ≡ₚ arr.
Proof.
  revert arr rs. induction i as [|i IH]; intros arr rs; simpl; [done|].
  destruct (randomBelow _ rs) as [j rs'].
  rewrite IH. apply swap_Permutation.
Qed.

Lemma shuffle_Permutation {A : Type} (arr : list A) (rs : list nat) :
  fst (shuffle arr rs) ≡ₚ arr.
Proof. apply shuffleLoop_Permutation. Qed.

Lemma randomBelow_lt (n : nat) (rs : list nat) : 0 < n → fst (randomBelow n rs) < n.
Proof.
  intros Hn. destruct rs as [|r rs]; simpl; [done|].
  apply Nat.mod_upper_bound. lia.
Qed.

(** ** Coach Whistle *)

Lemma basicIndicesFrom_spec (i : nat) (d : list Card) (n : nat) :
  n ∈ basicIndicesFrom i d →
  i ≤ n ∧ ∃ c, d !! (n - i) = Some c ∧ truthy (isBasic c) = true.
Proof.
  revert i. induction d as [|c d IH]; intros i; simpl; [by intros ?%elem_of_nil|].
  assert (Hrest : n ∈ basicIndicesFrom (S i) d →
                  i ≤ n ∧ ∃ c', (c :: d) !! (n - i) = Some c' ∧ truthy (isBasic c') = true).
  { intros (Hle & c' & Hc' & Hb)%IH. split; [lia|]. exists c'. split; [|done].
    replace (n - i) with (S (n - S i)) by lia. done. }
  destruct (truthy (isBasic c)) eqn:Hb; [|done].
  intros [->|Hin]%elem_of_cons; [|by apply Hrest].
  split; [done|]. exists c. by rewrite Nat.sub_diag.
Qed.

Lemma basicIndicesFrom_length (i : nat) (d : list Card) :
  length (basicIndicesFrom i d)
  = length (filter (λ c, truthy (isBasic c) = true) d).
Proof.
  revert i. induction d as [|c d IH]; intros i; simpl; [done|].
  rewrite filter_cons. destruct (truthy (isBasic c)) eqn:Hb.
  - rewrite decide_True by done. simpl. by rewrite IH.
  - rewrite decide_False by done. apply IH.
Qed.

(** Each answer of the random source is used once. *)
Lemma randomBelow_random_length (n : nat) (rs : list nat) :
  length (snd (randomBelow n rs)) = length rs - 1.
Proof. destruct rs; simpl; lia. Qed.

Lemma shuffleLoop_random_length {A : Type} (i : nat) (arr : list A) (rs : list nat) :
  length (snd (shuffleLoop i arr rs)) = length rs - i.
Proof.
  revert arr rs. induction i as [|i IH]; intros arr rs; cbn [shuffleLoop snd]; [lia|].
  pose proof (randomBelow_random_length (S i + 1) rs) as Hr.
  destruct (randomBelow (S i + 1) rs) as [j rs']. cbn [snd] in Hr.
  rewrite IH, Hr. lia.
Qed.

Lemma shuffle_random_length {A : Type} (arr : list A) (rs : list nat) :
  length (snd (shuffle arr rs)) = length rs - (length arr - 1).
Proof. apply shuffleLoop_random_length. Qed.

(** Playing Coach Whistle in the playing phase when the deck holds a basic
    creature.  The next answer of the random source picks one of the basic
    cards of the deck, by its rank among them; the whistle leaves the hand,
    the picked card is appended to the hand, and the rest of the deck is
    shuffled with the answers that follow. *)
Lemma playCard_coach_whistle (player : PlayerId) (handIndex : Z) (w : World)
    (card : Card) :
  gameOver (game w) = false →
  phase (game w) = playing →
  currentPlayer (game w) = player →
  jsGet (hand (getPlayer player w)) handIndex = Some card →
  truthy (isSupporter card) = false →
  id card = "base-007" →
  0 < length (filter (λ c, truthy (isBasic c) = true) (deck (getPlayer player w))) →
  let p := getPlayer player w in
  let basicIndices := basicIndicesFrom 0 (deck p) in
  let pick := randomBelow (length basicIndices) (random w) in
  let w' := playCard player handIndex w in
  let p' := getPlayer player w' in
  ∃ k c,
    basicIndices !! fst pick = Some k
    ∧ deck p !! k = Some c
    ∧ truthy (isBasic c) = true
    ∧ hand p' = delete (Z.to_nat handIndex) (hand p) ++ [c]
    ∧ deck p' = fst (shuffle (delete k (deck p)) (snd pick))
    ∧ random w' = snd (shuffle (delete k (deck p)) (snd pick))
    ∧ active p' = active p ∧ bench p' = bench p ∧ points p' = points p
    ∧ hasPlayedSupporter p' = hasPlayedSupporter p
    ∧ getPlayer (getOpponentId player) w' = getPlayer (getOpponentId player) w
    ∧ game w' = set_players (players (game w')) (game w)
    ∧ events w' = events w ++ [gameStateUpdated].
Proof.
  intros Hover Hphase Hcur Hget Hsup Hid Hbasic p basicIndices pick w' p'.
  subst p' w'.
  unfold playCard. rewrite Hover, Hphase, Hcur. cbn [orb phaseEqb].
  replace (playerEqb player player) with true by (by destruct player).
  cbn [negb andb]. rewrite Hget, Hsup, Hid. cbn [String.eqb Ascii.eqb Bool.eqb].
  unfold _playCoachWhistle. rewrite Hphase. cbn [phaseEqb].
  rewrite (splice_remove_at _ _ _ Hget). cbn [snd deck hand set_hand].
  rewrite <- basicIndicesFrom_length with (i := 0) in Hbasic.
  fold p basicIndices in Hbasic |- *.
  rewrite decide_True by done.
  pose proof (randomBelow_lt _ (random w) Hbasic) as Hlt.
  fold pick in Hlt |- *.
  destruct pick as [r rs]. cbn [fst snd] in Hlt |- *.
  destruct (lookup_lt_is_Some_2 _ _ Hlt) as [k Hk]. rewrite Hk.
  destruct (basicIndicesFrom_spec 0 (deck p) k) as (_ & c & Hc & Hb).
  { by eapply list_elem_of_lookup_2. }
  rewrite Nat.sub_0_r in Hc.
  assert (Hjs : jsGet (deck p) (Z.of_nat k) = Some c).
  { apply jsGet_Some. split; [lia|]. by rewrite Nat2Z.id. }
  rewrite (splice_remove_at _ _ _ Hjs), Nat2Z.id.
  cbn [deck set_deck].
  destruct (shuffle (delete k (deck p)) rs) as [shuffled rs'] eqn:Hsh.
  exists k, c. unfold update, notify. cbn [events set_events fst snd].
  subst p. unfold getPlayer in Hsh.
  destruct player; simpl in *; repeat split; try done; by rewrite Hsh.
Qed.

(** C8.  Coach Whistle played in the playing phase on a deck of exactly
    2 basic and 2 other cards.  The next answer [r] of the random source
    picks the basic card to draw: the first of the two in deck order when
    [r mod 2 = 0], the second otherwise.  The whistle leaves the hand and the
    picked card is appended to it, so exactly one basic card moves from the
    deck to the hand.  The other 3 cards (1 basic, 2 others) are reshuffled:
    the new deck is what [shuffle] makes of them with the answers that follow
    [r], and the random source is left where that shuffle leaves it (two
    answers further).  Nothing else changes but the event log, which gets
    one update. *)
Theorem coach_whistle_two_basic_two_other (player : PlayerId) (handIndex : Z)
    (w : World) (card : Card) :
  gameOver (game w) = false →
  phase (game w) = playing →
  currentPlayer (game w) = player →
  jsGet (hand (getPlayer player w)) handIndex = Some card →
  truthy (isSupporter card) = false →
  id card = "base-007" →
  length (deck (getPlayer player w)) = 4 →
  length (filter (λ c, truthy (isBasic c) = true) (deck (getPlayer player w))) = 2 →
  let p := getPlayer player w in
  let pick := randomBelow 2 (random w) in
  let w' := playCard player handIndex w in
  let p' := getPlayer player w' in
  ∃ k c,
    basicIndicesFrom 0 (deck p) !! fst pick = Some k
    ∧ deck p !! k = Some c
    ∧ truthy (isBasic c) = true
    ∧ hand p' = delete (Z.to_nat handIndex) (hand p) ++ [c]
    ∧ deck p' = fst (shuffle (delete k (deck p)) (snd pick))
    ∧ random w' = snd (shuffle (delete k (deck p)) (snd pick))
    ∧ length (random w') = length (random w) - 3
    ∧ deck p' ≡ₚ delete k (deck p)
    ∧ length (deck p') = 3
    ∧ length (filter (λ c, truthy (isBasic c) = true) (deck p')) = 1
    ∧ active p' = active p ∧ bench p' = bench p ∧ points p' = points p
    ∧ hasPlayedSupporter p' = hasPlayedSupporter p
    ∧ getPlayer (getOpponentId player) w' = getPlayer (getOpponentId player) w
    ∧ game w' = set_players (players (game w')) (game w)
    ∧ events w' = events w ++ [gameStateUpdated].
Proof.
  intros Hover Hphase Hcur Hget Hsup Hid Hlen Hbasic p pick w' p'.
  assert (Hpos : 0 < length (filter (λ c, truthy (isBasic c) = true)
                              (deck (getPlayer player w))))
    by (rewrite Hbasic; lia).
  pose proof (playCard_coach_whistle player handIndex w card Hover Hphase Hcur Hget
                Hsup Hid Hpos) as H.
  cbn zeta in H. rewrite basicIndicesFrom_length, Hbasic in H.
  fold p pick w' p' in H.
  destruct H as (k & c & Hk & Hc & Hb & Hhand & Hdeck & Hrand & Hrest).
  assert (Hperm : deck p' ≡ₚ delete k (deck p)).
  { rewrite Hdeck. apply shuffle_Permutation. }
  exists k, c.
  split; [done|]. split; [done|]. split; [done|]. split; [done|].
  split; [done|]. split; [done|].
  split; [|split; [done|split; [|split; [|exact Hrest]]]].
  - rewrite Hrand, shuffle_random_length, length_delete by eauto.
    unfold pick. rewrite randomBelow_random_length. unfold p. lia.
  - rewrite Hperm, length_delete by eauto. unfold p. lia.
  - rewrite Hperm.
    pose proof (delete_Permutation _ _ _ Hc) as Hd. unfold p in Hd.
    rewrite Hd, filter_cons, decide_True in Hbasic by done.
    simpl in Hbasic. unfold p. lia.
Qed.

(** Match D on turn 23: player 1's deck is down to base-001, base-001,
    base-002, base-002, a Coach Whistle is at index 1 of the hand and the
    random source has the answers 1, 2, 0 left.  The answer 1 picks the
    second basic card; the answers 2 and 0 shuffle base-001, base-002,
    base-002 into base-002, base-001, base-002. *)
Lemma coach_whistle_two_basic_two_other_witness :
  let w := worldAfter (openingD ++ replicate 22 OpEndTurn) oracleD in
  let p := getPlayer P1 w in
  let pick := randomBelow 2 (random w) in
  let w' := playCard P1 1 w in
  let p' := getPlayer P1 w' in
  (map id (deck p) = ["base-001"; "base-001"; "base-002"; "base-002"]
   ∧ random w = [1; 2; 0]
   ∧ map id (deck p') = ["base-002"; "base-001"; "base-002"]
   ∧ random w' = [])
  ∧ ∃ k c,
      basicIndicesFrom 0 (deck p) !! fst pick = Some k
      ∧ deck p !! k = Some c
      ∧ truthy (isBasic c) = true
      ∧ hand p' = delete (Z.to_nat 1) (hand p) ++ [c]
      ∧ deck p' = fst (shuffle (delete k (deck p)) (snd pick))
      ∧ random w' = snd (shuffle (delete k (deck p)) (snd pick))
      ∧ length (random w') = length (random w) - 3
      ∧ deck p' ≡ₚ delete k (deck p)
      ∧ length (deck p') = 3
      ∧ length (filter (λ c, truthy (isBasic c) = true) (deck p')) = 1
      ∧ active p' = active p ∧ bench p' = bench p ∧ points p' = points p
      ∧ hasPlayedSupporter p' = hasPlayedSupporter p
      ∧ getPlayer (getOpponentId P1) w' = getPlayer (getOpponentId P1) w
      ∧ game w' = set_players (players (game w')) (game w)
      ∧ events w' = events w ++ [gameStateUpdated].
Proof.
  set (w := worldAfter _ oracleD). cbn zeta.
  split; [repeat split; vm_compute; reflexivity|].
  assert (Hcard : ∃ card, jsGet (hand (getPlayer P1 w)) 1 = Some card
                          ∧ truthy (isSupporter card) = false ∧ id card = "base-007").
  { vm_compute. eexists. split; [|split]; reflexivity. }
  destruct Hcard as (card & Hget & Hsup & Hid).
  exact (coach_whistle_two_basic_two_other P1 1 w card
           ltac:(vm_compute; reflexivity) ltac:(vm_compute; reflexivity)
           ltac:(vm_compute; reflexivity) Hget Hsup Hid
           ltac:(vm_compute; reflexivity) ltac:(vm_compute; reflexivity)).
Defined.
(** ** Card instances are moved, never copied *)

Lemma splice_rest_sublist {A : Type} (arr : list A) (start : Z) (d : option nat) :
  snd (splice arr start d []) `sublist_of` arr.
Proof.
  unfold splice. cbn [snd app].
  set (s := spliceStart _ _). set (n := match d with Some _ => _ | None => _ end).
  transitivity (take s arr ++ drop s arr); [|by rewrite take_drop].
  apply sublist_app; [done|].
  rewrite <- drop_drop. apply sublist_drop.
Qed.

Lemma splice_split {A : Type} (arr : list A) (start : Z) (d : option nat) :
  fst (splice arr start d []) ++ snd (splice arr start d []) ≡ₚ arr.
Proof.
  unfold splice. cbn [fst snd app].
  set (s := spliceStart _ _). set (n := match d with Some _ => _ | None => _ end).
  transitivity (take s arr ++ take n (drop s arr) ++ drop n (drop s arr)).
  - rewrite drop_drop, !app_assoc.
    apply Permutation_app_tail, Permutation_app_comm.
  - by rewrite !take_drop.
Qed.

(** Below the start position, [splice] leaves the elements where they are. *)
Lemma splice_rest_lookup_below {A : Type} (arr : list A) (start : Z) (n : nat) (k : nat) :
  (Z.of_nat k < start)%Z →
  snd (splice arr start (Some n) []) !! k = arr !! k.
Proof.
  intros Hk. unfold splice. cbn [snd app].
  unfold spliceStart. destruct (Z.ltb_spec start 0); [lia|].
  destruct (decide (k < length arr)) as [Hlt|Hge].
  - rewrite lookup_app_l by (rewrite length_take; lia).
    apply lookup_take_lt. lia.
  - rewrite (lookup_ge_None_2 arr) by lia.
    apply lookup_ge_None_2.
    rewrite length_app, length_take, length_drop. lia.
Qed.

Lemma slotCards_app (a b : list (option Card)) :
  slotCards (a ++ b) = slotCards a ++ slotCards b.
Proof. apply omap_app. Qed.

Lemma slotCards_delete_Some (slots : list (option Card)) (i : nat) (c : Card) :
  slots !! i = Some (Some c) → slotCards slots ≡ₚ c :: slotCards (delete i slots).
Proof.
  intros Hi. rewrite <- (take_drop_middle _ _ _ Hi) at 1.
  rewrite delete_take_drop, !slotCards_app. simpl.
  by rewrite Permutation_middle.
Qed.

Lemma slotCards_insert (slots : list (option Card)) (i : nat) (x : option Card) :
  i < length slots →
  slotCards (<[i := x]> slots) ≡ₚ option_list x ++ slotCards (delete i slots).
Proof.
  intros Hi. rewrite insert_take_drop, delete_take_drop by done.
  rewrite !slotCards_app. destruct x as [c|]; simpl; [|done].
  by rewrite Permutation_middle.
Qed.

Lemma slotCards_sublist (a b : list (option Card)) :
  a `sublist_of` b → slotCards a `sublist_of` slotCards b.
Proof.
  induction 1 as [|[c|] a b _ IH|[c|] a b _ IH]; simpl; try done.
  - by apply sublist_skip.
  - by apply sublist_cons.
Qed.

Lemma slotCards_delete_sub (slots : list (option Card)) (i : nat) :
  slotCards (delete i slots) ⊆+ slotCards slots.
Proof. apply sublist_submseteq, slotCards_sublist, sublist_delete. Qed.

(** Writing a card into a slot adds at most that card. *)
Lemma slotCards_jsSet (slots : list (option Card)) (i : Z) (c : Card) :
  slotCards (jsSet slots i (Some c)) ⊆+ c :: slotCards slots.
Proof.
  unfold jsSet. destruct (i <? 0)%Z; [by apply submseteq_cons|].
  destruct (decide _) as [Hlt|Hge].
  - rewrite slotCards_insert by done. simpl.
    apply submseteq_skip, slotCards_delete_sub.
  - rewrite !slotCards_app. simpl.
    assert (Hholes : ∀ n, slotCards (replicate n None) = []).
    { intros n. induction n; [done|]. simpl. done. }
    rewrite Hholes. simpl.
    apply Permutation_submseteq. by rewrite <- Permutation_cons_append.
Qed.
(** ** Calls that stay within the turn *)

Lemma local_step_refl w : local_step w w.
Proof. unfold local_step. repeat split; done. Qed.

Lemma local_step_trans w1 w2 w3 :
  local_step w1 w2 → local_step w2 w3 → local_step w1 w3.
Proof.
  intros (H1 & H2 & H3 & H4 & H5 & H6 & H7) (G1 & G2 & G3 & G4 & G5 & G6 & G7).
  unfold local_step. rewrite G1, G2, G3, G4, G5, G6.
  repeat split; try done.
  - destruct (H7 pl) as [Ha _], (G7 pl) as [Hb _]. by etrans.
  - intros Hf. apply G7, H7, Hf.
Qed.

Lemma local_step_same_game w w' :
  game w' = game w → cardUidCounter w' = cardUidCounter w → local_step w w'.
Proof.
  intros Hg Hc. unfold local_step, getPlayer. rewrite Hg, Hc. repeat split; done.
Qed.

Lemma local_step_notify e w : local_step w (notify e w).
Proof. by apply local_step_same_game. Qed.

Lemma local_step_update w : local_step w (update w).
Proof. apply local_step_notify. Qed.

Lemma local_step_set_random rs w : local_step w (set_random rs w).
Proof. by apply local_step_same_game. Qed.

Lemma local_step_setPlayer pl p' w :
  playerUids p' ⊆+ playerUids (getPlayer pl w) →
  (hasPlayedSupporter (getPlayer pl w) = true → hasPlayedSupporter p' = true) →
  local_step w (setPlayer pl p' w).
Proof.
  intros Hu Hf. unfold local_step. repeat split; try done.
  - destruct pl, pl0; simpl in *; done.
  - destruct pl, pl0; simpl in *; done.
Qed.

Lemma local_step_drawCards player n w : local_step w (drawCards player n w).
Proof.
  unfold drawCards.
  pose proof (splice_split (deck (getPlayer player w)) (- n) None) as Hs.
  destruct (splice _ _ _ _) as [drawn rest]. cbn [fst snd] in Hs.
  apply local_step_setPlayer; [|done].
  unfold playerUids, zoneCards. cbn [deck hand active bench set_deck set_hand].
  rewrite <- Hs. rewrite !fmap_app. solve_submseteq.
Qed.
Ltac push_fmap := repeat first [rewrite fmap_app | rewrite fmap_cons].

Lemma playerUids_components (p' p : PlayerState) :
  uid <$> deck p' ⊆+ uid <$> deck p →
  uid <$> hand p' ⊆+ uid <$> hand p →
  uid <$> option_list (active p') ⊆+ uid <$> option_list (active p) →
  uid <$> slotCards (bench p') ⊆+ uid <$> slotCards (bench p) →
  playerUids p' ⊆+ playerUids p.
Proof.
  intros Hd Hh Ha Hb. unfold playerUids, zoneCards. rewrite !fmap_app.
  repeat apply submseteq_app; done.
Qed.

Lemma uids_splice_rest (arr : list Card) (start : Z) (d : option nat) :
  uid <$> snd (splice arr start d []) ⊆+ uid <$> arr.
Proof. apply fmap_submseteq, sublist_submseteq, splice_rest_sublist. Qed.

Lemma local_step__playSupporter player handIndex w :
  local_step w (snd (_playSupporter player handIndex w)).
Proof.
  unfold _playSupporter. destruct (_ || _); [apply local_step_refl|]. cbn [snd].
  eapply local_step_trans; [apply local_step_drawCards|].
  apply local_step_setPlayer; [|done].
  apply playerUids_components; try done. apply uids_splice_rest.
Qed.

Lemma whistle_draw_uids (p1 : PlayerState) (randomIndex : nat) :
  let '(drawn, rest) := splice (deck p1) (Z.of_nat randomIndex) (Some 1) [] in
  playerUids (set_deck rest (set_hand (hand p1 ++ drawn) p1)) ⊆+ playerUids p1.
Proof.
  pose proof (splice_split (deck p1) (Z.of_nat randomIndex) (Some 1)) as Hs.
  destruct (splice _ _ _ _) as [drawn rest]. cbn [fst snd] in *.
  unfold playerUids, zoneCards. cbn [deck hand active bench set_deck set_hand].
  rewrite <- Hs. rewrite !fmap_app. solve_submseteq.
Qed.

Lemma local_step__playCoachWhistle player handIndex w :
  local_step w (snd (_playCoachWhistle player handIndex w)).
Proof.
  unfold _playCoachWhistle. destruct (phaseEqb _ _); [apply local_step_refl|].
  set (p := getPlayer player w).
  assert (H1 : playerUids (set_hand (snd (splice (hand p) handIndex (Some 1) [])) p)
               ⊆+ playerUids p).
  { apply playerUids_components; try done. apply uids_splice_rest. }
  assert (Hf1 : hasPlayedSupporter (set_hand (snd (splice (hand p) handIndex (Some 1) [])) p)
                = hasPlayedSupporter p) by done.
  generalize dependent (set_hand (snd (splice (hand p) handIndex (Some 1) [])) p).
  intros p1 H1 Hf1.
  set (pick := if decide (0 < length (basicIndicesFrom 0 (deck p1))) then _ else _).
  assert (H2 : playerUids (fst pick) ⊆+ playerUids p1
               ∧ hasPlayedSupporter (fst pick) = hasPlayedSupporter p1).
  { unfold pick. destruct (decide _); [|done].
    destruct (randomBelow _ _) as [k rs].
    destruct (basicIndicesFrom 0 (deck p1) !! k) as [randomIndex|]; [|done].
    pose proof (whistle_draw_uids p1 randomIndex) as Hd.
    destruct (splice _ _ _ _) as [drawn rest]. done. }
  destruct pick as [p2 rs]. cbn [fst] in H2. destruct H2 as [H2 Hf2].
  pose proof (shuffle_Permutation (deck p2) rs) as Hsh.
  destruct (shuffle (deck p2) rs) as [shuffled rs']. cbn [fst snd] in *.
  eapply local_step_trans; [|apply local_step_set_random].
  apply local_step_setPlayer.
  - fold p. etrans; [|exact H1]. etrans; [|exact H2].
    unfold playerUids, zoneCards. cbn [deck hand active bench set_deck].
    rewrite Hsh. done.
  - fold p. cbn [hasPlayedSupporter set_deck]. congruence.
Qed.

Lemma local_step__playBasic player handIndex w :
  local_step w (snd (_playBasic player handIndex w)).
Proof.
  unfold _playBasic. set (p := getPlayer player w).
  pose proof (splice_split (hand p) handIndex (Some 1)) as Hs.
  destruct (splice (hand p) handIndex (Some 1) []) as [removed hand1].
  cbn [fst snd] in Hs.
  destruct removed as [|c removed]; [apply local_step_refl|].
  cbn [active set_hand]. set (c' := set_turnPlaced _ c).
  assert (Hc : uid c' = uid c) by done.
  destruct (active p) as [a|] eqn:Ha; cbn [snd].
  - cbn [bench set_hand].
    destruct (indexOfNull (bench p) =? -1)%Z; cbn [snd].
    + apply local_step_setPlayer; [|done]. fold p.
      pose proof (splice_split hand1 handIndex (Some 0)) as Hs0.
      unfold splice in *. cbn [fst snd app] in *.
      set (s := spliceStart _ _) in *.
      cbn [hand set_hand].
      assert (Hh : uid <$> take s hand1 ++ c' :: drop (s + 0 `min` (length hand1 - s)) hand1
                   ⊆+ uid <$> hand p).
      { rewrite <- Hs. rewrite Nat.min_0_l, Nat.add_0_r.
        transitivity (uid <$> c' :: (take s hand1 ++ drop s hand1)).
        - push_fmap. solve_submseteq.
        - rewrite take_drop. push_fmap. rewrite Hc. solve_submseteq. }
      by apply playerUids_components.
    + apply local_step_setPlayer; [|done]. fold p.
      assert (Hb : uid <$> slotCards (jsSet (bench p) (indexOfNull (bench p)) (Some c'))
                   ⊆+ uid c :: (uid <$> slotCards (bench p)))
        by exact (fmap_submseteq uid _ _ (slotCards_jsSet _ _ c')).
      unfold playerUids, zoneCards. cbn [deck hand active bench set_hand set_bench].
      rewrite <- Hs. push_fmap.
      etrans; [apply submseteq_skips_l, submseteq_skips_l, submseteq_skips_l, Hb|].
      solve_submseteq.
  - apply local_step_setPlayer; [|done]. fold p.
    unfold playerUids, zoneCards. cbn [deck hand active bench set_hand set_active].
    rewrite Ha, <- Hs. simpl (option_list _). push_fmap. rewrite Hc. solve_submseteq.
Qed.

Lemma local_step_playCard player handIndex w :
  local_step w (playCard player handIndex w).
Proof.
  unfold playCard. destruct (_ || _); [apply local_step_refl|].
  destruct (jsGet _ _) as [card|]; [|apply local_step_refl].
  set (r := if truthy (isSupporter card) then _ else _).
  assert (Hr : local_step w (snd r)).
  { unfold r. repeat case_match; try apply local_step_refl.
    - apply local_step__playSupporter.
    - apply local_step__playCoachWhistle.
    - apply local_step__playBasic. }
  destruct r as [[] w']; cbn [snd] in Hr; [|done].
  eapply local_step_trans; [exact Hr|apply local_step_update].
Qed.
Lemma setPlayer_setPlayer pl a b w :
  setPlayer pl a (setPlayer pl b w) = setPlayer pl a w.
Proof. by destruct pl. Qed.

(** Evolution with the evolving card taken out of the hand. *)
Lemma local_step__performEvolution player evolvedCard targetCard tidx hand' w :
  uid evolvedCard :: (uid <$> hand') ⊆+ uid <$> hand (getPlayer player w) →
  local_step w
    (_performEvolution player evolvedCard targetCard tidx
       (setPlayer player (set_hand hand' (getPlayer player w)) w)).
Proof.
  intros Hh. unfold _performEvolution.
  eapply local_step_trans; [|apply local_step_update].
  rewrite getPlayer_setPlayer_eq, setPlayer_setPlayer.
  set (p := getPlayer player w) in *.
  set (e := set_turnPlaced _ _).
  destruct (tidx =? -1)%Z; (apply local_step_setPlayer; [|done]); fold p.
  - unfold playerUids, zoneCards. cbn [deck hand active bench set_hand set_active].
    simpl (option_list (Some e)). push_fmap. change (uid e) with (uid evolvedCard).
    etrans; [|apply submseteq_skips_l, submseteq_skips_r, Hh].
    solve_submseteq.
  - assert (Hb : uid <$> slotCards (jsSet (bench p) tidx (Some e))
                 ⊆+ uid evolvedCard :: (uid <$> slotCards (bench p)))
      by exact (fmap_submseteq uid _ _ (slotCards_jsSet _ _ e)).
    unfold playerUids, zoneCards. cbn [deck hand active bench set_hand set_bench].
    push_fmap.
    etrans; [apply submseteq_skips_l, submseteq_skips_l, submseteq_skips_l, Hb|].
    etrans; [|apply submseteq_skips_l, submseteq_skips_r, Hh].
    clearbody e p. solve_submseteq.
Qed.

Lemma local_step_evolve player handIndex tidx w :
  local_step w (evolve player handIndex tidx w).
Proof.
  unfold evolve. set (p := getPlayer player w).
  destruct (targetAt p tidx) as [targetCard|]; [|apply local_step_refl].
  destruct (jsGet (hand p) handIndex) as [handCard|]; [|apply local_step_refl].
  destruct (_ || _); [apply local_step_refl|].
  pose proof (splice_split (hand p) handIndex (Some 1)) as Hs.
  destruct (splice _ _ _ _) as [removed hand']. cbn [fst snd] in Hs.
  destruct removed as [|evolvedCard removed]; [apply local_step_refl|].
  apply local_step__performEvolution. fold p. rewrite <- Hs.
  push_fmap. solve_submseteq.
Qed.

Lemma local_step_playChickenNugget player handIndex tidx w :
  local_step w (snd (playChickenNugget player handIndex tidx w)).
Proof.
  unfold playChickenNugget. set (p := getPlayer player w).
  destruct (targetAt p tidx) as [targetCard|]; [|apply local_step_refl].
  destruct (_ || _); [apply local_step_refl|].
  set (evo := stage2EvoIndex _ _ _).
  destruct (evo =? -1)%Z; [apply local_step_refl|].
  destruct (jsGet (hand p) evo) as [evolvedCard|] eqn:He; [|apply local_step_refl].
  destruct (Z.ltb_spec handIndex evo) as [Hlt|Hge]; cbn [snd];
    apply local_step__performEvolution; fold p.
  - (* the evolving card is removed first *)
    rewrite (splice_remove_at _ _ _ He). cbn [snd].
    apply jsGet_Some in He as [_ He].
    rewrite (delete_Permutation _ _ _ He) at 2. rewrite fmap_cons.
    apply submseteq_skip, uids_splice_rest.
  - (* the card at [handIndex] is removed first; the evolving card stays
       where it was *)
    assert (Hne : evo ≠ handIndex).
    { intros Heq. pose proof (findIndex_found _ _ _ He) as Hf. cbn beta in Hf.
      apply andb_true_iff in Hf as [Hf _].
      change (findIndex _ (hand p)) with evo in Hf.
      rewrite Heq, Z.eqb_refl in Hf. done. }
    apply jsGet_Some in He as [H0 He].
    assert (He1 : jsGet (snd (splice (hand p) handIndex (Some 1) [])) evo
                  = Some evolvedCard).
    { apply jsGet_Some. split; [done|].
      rewrite splice_rest_lookup_below by lia. done. }
    rewrite (splice_remove_at _ _ _ He1). cbn [snd].
    apply jsGet_Some in He1 as [_ He1].
    etrans; [|apply (uids_splice_rest (hand p) handIndex (Some 1))].
    rewrite (delete_Permutation _ _ _ He1) at 2. by rewrite fmap_cons.
Qed.

(** [arr.splice(i, 1, y)] at the index of an element replaces it. *)
Lemma splice_replace_at {A : Type} (arr : list A) (i : Z) (x y : A) :
  jsGet arr i = Some x →
  splice arr i (Some 1) [y] = ([x], <[Z.to_nat i := y]> arr).
Proof.
  intros [H0 Hx]%jsGet_Some. unfold splice.
  pose proof (lookup_lt_Some _ _ _ Hx) as Hlt.
  rewrite spliceStart_in_range by lia.
  replace (Nat.min 1 (length arr - Z.to_nat i)) with 1 by lia.
  f_equal.
  - rewrite (drop_S _ _ _ Hx). done.
  - rewrite insert_take_drop by done. simpl. do 3 f_equal. lia.
Qed.

Lemma local_step_promote player benchIndex w :
  local_step w (promote player benchIndex w).
Proof.
  unfold promote. set (p := getPlayer player w).
  destruct (gameOver (game w)); [apply local_step_refl|].
  destruct (active p) as [a|] eqn:Ha; [apply local_step_refl|].
  destruct (mjoin (jsGet (bench p) benchIndex)) as [b|] eqn:Hb; [|apply local_step_refl].
  cbn [bool_decide decide_rel orb negb].
  replace (bool_decide (is_Some (@None Card))) with false by done.
  replace (bool_decide (is_Some (Some b))) with true by done.
  cbn [orb negb].
  apply mjoin_jsGet_Some in Hb.
  rewrite (splice_replace_at _ _ _ None Hb).
  eapply local_step_trans; [|apply local_step_update].
  apply local_step_setPlayer; [|done]. fold p.
  apply jsGet_Some in Hb as [_ Hb].
  unfold playerUids, zoneCards. cbn [deck hand active bench set_active set_bench head mjoin].
  rewrite Ha. simpl (option_list _).
  rewrite (slotCards_delete_Some _ _ _ Hb).
  rewrite slotCards_insert by (by eapply lookup_lt_Some).
  simpl (option_list _). push_fmap. clearbody p. solve_submseteq.
Qed.

Lemma local_step_retreat player benchIndex w :
  local_step w (retreat player benchIndex w).
Proof.
  unfold retreat. set (p := getPlayer player w).
  destruct (canAct player w); [|apply local_step_refl]. cbn [negb].
  destruct (active p) as [a|] eqn:Ha; [|apply local_step_refl].
  destruct (mjoin (jsGet (bench p) benchIndex)) as [b|] eqn:Hb; [|apply local_step_refl].
  apply mjoin_jsGet_Some in Hb.
  eapply local_step_trans; [|apply local_step_update].
  apply local_step_setPlayer; [|done]. fold p.
  rewrite (jsSet_in_range _ _ _ _ Hb).
  apply jsGet_Some in Hb as [_ Hb].
  unfold playerUids, zoneCards. cbn [deck hand active bench set_active set_bench].
  rewrite Ha. simpl (option_list _).
  rewrite (slotCards_delete_Some _ _ _ Hb).
  rewrite slotCards_insert by (by eapply lookup_lt_Some).
  simpl (option_list _). push_fmap. clearbody p. solve_submseteq.
Qed.
(** ** Calls that start a turn or end the match *)

Lemma startTurn_uids q w pl :
  playerUids (getPlayer pl (startTurn q w)) ⊆+ playerUids (getPlayer pl w).
Proof.
  unfold startTurn. cbn zeta.
  set (w1 := set_game _ w).
  set (w2 := setPlayer _ _ w1).
  assert (H2 : playerUids (getPlayer pl w2) = playerUids (getPlayer pl w)).
  { unfold w2, w1. by destruct pl, q. }
  assert (H3 : ∀ v, getPlayer pl (update (notify (turnStarted q) v)) = getPlayer pl v)
    by done.
  rewrite H3, <- H2.
  destruct (1 <? _)%Z; [|done].
  apply (local_step_drawCards q 1 w2).
Qed.

Lemma startTurn_turn_step q w w1 :
  turnCount (game w1) = turnCount (game w) →
  gameOver (game w1) = gameOver (game w) →
  winner (game w1) = winner (game w) →
  cardUidCounter w1 = cardUidCounter w →
  (phase (game w1) = phase (game w) ∨ phase (game w1) = playing) →
  (∀ pl, playerUids (getPlayer pl w1) ⊆+ playerUids (getPlayer pl w)
         ∧ hasPlayedSupporter (getPlayer pl w1) = hasPlayedSupporter (getPlayer pl w)) →
  turn_step w (startTurn q w1).
Proof.
  intros Ht Ho Hw Hc Hp Hpl.
  pose proof (startTurn_frame q w1) as Hf. cbn zeta in Hf.
  destruct Hf as (Hq & Ht' & Hp' & Ho' & Hw' & _ & _ & Hc' & _ & _ & Hfl & _ & Hopp).
  unfold turn_step. rewrite Hq, Ht', Hp', Ho', Hw', Hc', Ht, Ho, Hw, Hc, Hfl, Hopp.
  repeat split; try done.
  - intros pl. etrans; [apply startTurn_uids|apply Hpl].
  - apply Hpl.
Qed.

Lemma endTurn_summary w :
  local_step w (endTurn w) ∨ turn_step w (endTurn w).
Proof.
  unfold endTurn. destruct (gameOver (game w)) eqn:Hover.
  - left. apply local_step_refl.
  - right. apply startTurn_turn_step; try done. by left.
Qed.

Lemma setPlayerReady_summary player w :
  local_step w (setPlayerReady player w) ∨ turn_step w (setPlayerReady player w).
Proof.
  unfold setPlayerReady.
  destruct (phaseEqb (phase (game w)) setup) eqn:Hsetup; cbn [negb orb];
    [|left; apply local_step_refl].
  destruct (negb _); [left; apply local_step_refl|].
  set (w1 := set_game _ w).
  destruct (_ && _).
  - right. apply startTurn_turn_step; try done. by right.
  - left. eapply local_step_trans; [|apply local_step_update].
    unfold local_step. repeat split; done.
Qed.

Lemma attack_summary w :
  local_step w (attack w) ∨ turn_step w (attack w) ∨ end_step w (attack w).
Proof.
  unfold attack. set (cur := currentPlayer (game w)).
  destruct (canAct cur w) eqn:Hcan; cbn [negb]; [|left; apply local_step_refl].
  apply canAct_true in Hcan as (_ & Hphase & Hover).
  unfold getOpponent. set (opp := getOpponentId cur).
  assert (Hne : opp ≠ cur) by apply getOpponentId_ne.
  destruct (active (getPlayer cur w)) as [pa|] eqn:Hpa; [|left; apply local_step_refl].
  destruct (active (getPlayer opp w)) as [oa|] eqn:Hoa; [|left; apply local_step_refl].
  set (oa' := set_hp _ oa).
  set (w1 := setPlayer opp _ w).
  assert (L1 : local_step w w1 ∧ ∀ pl, hasPlayedSupporter (getPlayer pl w1)
                                       = hasPlayedSupporter (getPlayer pl w)).
  { split.
    - apply local_step_setPlayer; [|done].
      unfold playerUids, zoneCards. cbn [deck hand active bench set_active].
      rewrite Hoa. simpl (option_list _). push_fmap. done.
    - intros pl. unfold w1. destruct (decide (pl = opp)) as [->|Hpl].
      + by rewrite getPlayer_setPlayer_eq.
      + by rewrite getPlayer_setPlayer_ne. }
  destruct L1 as [L1 F1].
  destruct (orZero (hp oa') <=? 0)%Z.
  2: { right; left. rewrite endTurn_running by done.
       destruct L1 as (? & ? & ? & ? & ? & ? & Hpl).
       apply startTurn_turn_step; try done; [by left|].
       intros pl. split; [apply Hpl|apply F1]. }
  set (w2 := setPlayer cur _ w1).
  set (w3 := setPlayer opp _ w2).
  assert (L3 : local_step w w3 ∧ ∀ pl, hasPlayedSupporter (getPlayer pl w3)
                                       = hasPlayedSupporter (getPlayer pl w)).
  { assert (L2 : local_step w1 w2) by (by apply local_step_setPlayer).
    assert (F2 : ∀ pl, hasPlayedSupporter (getPlayer pl w2)
                       = hasPlayedSupporter (getPlayer pl w1)).
    { intros pl. unfold w2. destruct (decide (pl = cur)) as [->|Hpl].
      - by rewrite getPlayer_setPlayer_eq.
      - by rewrite getPlayer_setPlayer_ne. }
    split.
    - eapply local_step_trans; [exact L1|]. eapply local_step_trans; [exact L2|].
      apply local_step_setPlayer; [|done].
      apply playerUids_components; try done.
      cbn [active set_active]. simpl (option_list None). rewrite fmap_nil.
      apply submseteq_nil_l.
    - intros pl. rewrite <- F1, <- F2. unfold w3.
      destruct (decide (pl = opp)) as [->|Hpl].
      + by rewrite getPlayer_setPlayer_eq.
      + by rewrite getPlayer_setPlayer_ne. }
  destruct L3 as [L3 F3].
  destruct L3 as (Ht & Hc & Hp & Ho & Hw & Hctr & Hpl).
  destruct (_ || _).
  - right; right. unfold end_step.
    destruct (endGame_frame cur w3) as (Hg & -> & -> & -> & -> & _).
    change (phase (game (endGame cur w3))) with (phase (game w3)).
    change (cardUidCounter (endGame cur w3)) with (cardUidCounter w3).
    rewrite Ht, Hc, Hp, Hctr. repeat split; try done.
    + rewrite Hg. apply Hpl.
    + rewrite Hg. apply F3.
  - right; left. rewrite endTurn_running by congruence.
    apply startTurn_turn_step; try done; [by left|].
    intros pl. split; [apply Hpl|apply F3].
Qed.

(** Every move is of one of the three kinds. *)
Lemma exec_move_summary op w w' :
  isMove op = true → exec op w = Some w' →
  local_step w w' ∨ turn_step w w' ∨ end_step w w'.
Proof.
  destruct op; try done; intros _ [= <-].
  - destruct (setPlayerReady_summary player w); auto.
  - destruct (endTurn_summary w); auto.
  - left. apply local_step_playCard.
  - left. apply local_step_playChickenNugget.
  - left. apply local_step_evolve.
  - apply attack_summary.
  - left. apply local_step_promote.
  - left. apply local_step_retreat.
Qed.
(** ** Building the decks and dealing the first hands *)

Lemma stringOfNat_inj (m n : nat) : stringOfNat m = stringOfNat n → m = n.
Proof.
  unfold stringOfNat. intros H. apply DecimalNat.Unsigned.to_uint_inj.
  apply (f_equal NilEmpty.uint_of_string) in H.
  rewrite !NilEmpty.usu in H. congruence.
Qed.

Lemma createCard_spec key ctr c ctr' :
  createCard key ctr = Some (c, ctr') →
  ctr' = S ctr ∧ uid c = Some (stringOfNat ctr) ∧ id c = key.
Proof.
  unfold createCard. destruct (cardData key); [|done].
  intros [= <- <-]. done.
Qed.

Lemma createCards_spec key n ctr cs ctr' :
  createCards key n ctr = Some (cs, ctr') →
  ctr' = ctr + length cs
  ∧ uid <$> cs = (λ k, Some (stringOfNat k)) <$> seq ctr (length cs).
Proof.
  revert ctr cs ctr'. induction n as [|n IH]; intros ctr cs ctr'; simpl.
  - intros [= <- <-]. simpl. split; [lia|done].
  - destruct (createCard key ctr) as [[c c1]|] eqn:Hc; [|done].
    destruct (createCards key n c1) as [[cs1 c2]|] eqn:Hcs; [|done].
    intros [= <- <-].
    apply createCard_spec in Hc as (-> & Hu & _).
    apply IH in Hcs as (-> & Hus).
    rewrite fmap_cons, Hu, Hus. cbn [length seq]. rewrite fmap_cons.
    split; [lia|done].
Qed.

Lemma expandDeck_spec entries ctr cs ctr' :
  expandDeck entries ctr = Some (cs, ctr') →
  ctr' = ctr + length cs
  ∧ uid <$> cs = (λ k, Some (stringOfNat k)) <$> seq ctr (length cs).
Proof.
  revert ctr cs ctr'. induction entries as [|e entries IH]; intros ctr cs ctr'; simpl.
  - intros [= <- <-]. simpl. split; [lia|done].
  - destruct (createCards _ _ ctr) as [[cs1 c1]|] eqn:H1; [|done].
    destruct (expandDeck entries c1) as [[cs2 c2]|] eqn:H2; [|done].
    intros [= <- <-].
    apply createCards_spec in H1 as (-> & Hu1).
    apply IH in H2 as (-> & Hu2).
    rewrite length_app, fmap_app, Hu1, Hu2, seq_app, fmap_app.
    split; [lia|done].
Qed.

(** The default deck has 20 cards. *)
Lemma expandDeck_default_length ctr cs ctr' :
  expandDeck (cards defaultDeck) ctr = Some (cs, ctr') → length cs = 20.
Proof.
  cbn -[stringOfNat]. intros [= <- _]. done.
Qed.

Lemma assignNewDeck_spec pl w w1 :
  assignNewDeck pl w = Some w1 →
  ∃ cs d,
    expandDeck (cards defaultDeck) (cardUidCounter w) = Some (cs, cardUidCounter w1)
    ∧ d ≡ₚ cs
    ∧ getPlayer pl w1 = set_deck d (getPlayer pl w)
    ∧ getPlayer (getOpponentId pl) w1 = getPlayer (getOpponentId pl) w
    ∧ game w1 = set_players (players (game w1)) (game w)
    ∧ events w1 = events w.
Proof.
  unfold assignNewDeck, createDeck. cbn [DECK_CONFIGS lookup list_lookup].
  destruct (expandDeck _ _) as [[cs ctr]|] eqn:He; [|done].
  pose proof (shuffle_Permutation cs (random w)) as Hsh.
  destruct (shuffle cs (random w)) as [d rs]. cbn [fst] in Hsh.
  intros [= <-]. exists cs, d. by destruct pl.
Qed.
Lemma splice_all {A : Type} (arr : list A) : splice arr 0 None [] = (arr, []).
Proof.
  unfold splice, spliceStart. change (0 <? 0)%Z with false. cbn match.
  replace (Z.to_nat (Z.min 0 (Z.of_nat (length arr)))) with 0 by lia.
  rewrite Nat.sub_0_r, drop_0, take_0, firstn_all. cbn [app Nat.add].
  by rewrite drop_all.
Qed.

Lemma getPlayer_set_random pl rs w : getPlayer pl (set_random rs w) = getPlayer pl w.
Proof. done. Qed.

Lemma drawInitialRound_dealt pNum w : dealt pNum w (drawInitialRound pNum w).
Proof.
  unfold drawInitialRound. set (p := getPlayer pNum w).
  rewrite splice_all.
  pose proof (shuffle_Permutation (deck p ++ hand p) (random w)) as Hsh.
  destruct (shuffle _ _) as [shuffled rs]. cbn [fst] in Hsh.
  unfold drawCards. rewrite getPlayer_set_random, getPlayer_setPlayer_eq.
  cbn [deck hand set_deck set_hand].
  pose proof (splice_last shuffled 5 ltac:(lia)) as Hl.
  change (- Z.of_nat 5)%Z with (Z.opp 5) in Hl. rewrite Hl. clear Hl.
  unfold dealt. cbn zeta. fold p.
  rewrite getPlayer_setPlayer_eq.
  rewrite getPlayer_setPlayer_ne, getPlayer_set_random, getPlayer_setPlayer_ne
    by (by destruct pNum).
  cbn [deck hand active bench points hasPlayedSupporter set_deck set_hand app].
  rewrite length_drop, <- (length_app (deck p)), <- Hsh.
  rewrite (Permutation_app_comm (drop _ _)), take_drop.
  repeat split; try done. lia.
Qed.

Lemma dealt_trans pNum w1 w2 w3 : dealt pNum w1 w2 → dealt pNum w2 w3 → dealt pNum w1 w3.
Proof.
  unfold dealt. cbn zeta.
  intros (H1 & H2 & H3 & H4 & H5 & H6 & H7 & H8 & H9 & H10)
         (G1 & G2 & G3 & G4 & G5 & G6 & G7 & G8 & G9 & G10).
  rewrite G3, G4, G5, G6, G7, G9, G10.
  repeat split; try done.
  - rewrite G1, (Permutation_app_comm (deck _)). done.
  - rewrite G2. pose proof (Permutation_length H1) as Hl.
    rewrite !length_app in Hl. lia.
  - rewrite G8, H8. done.
Qed.

Lemma drawInitialLoop_dealt fuel pNum w w' :
  drawInitialLoop fuel pNum w = Some w' →
  dealt pNum w w' ∧ hasBasic (hand (getPlayer pNum w')) = true.
Proof.
  revert w. induction fuel as [|fuel IH]; intros w; cbn [drawInitialLoop]; [done|].
  pose proof (drawInitialRound_dealt pNum w) as Hr.
  destruct (hasBasic (hand (getPlayer pNum (drawInitialRound pNum w)))) eqn:Hb.
  - intros [= <-]. done.
  - intros (Hd & Hb')%IH. split; [|done]. by eapply dealt_trans.
Qed.
(** What [initializeGame] has done when it returns: two decks of 20 fresh
    cards were created, each player was dealt 5 cards with a basic creature
    among them, and nothing else was touched. *)
Lemma initializeGame_spec (fuel : nat) (w w' : World) :
  initializeGame fuel w = Some w' →
  ∃ cs1 cs2 ctr,
    expandDeck (cards defaultDeck) (cardUidCounter w) = Some (cs1, ctr)
    ∧ expandDeck (cards defaultDeck) ctr = Some (cs2, cardUidCounter w')
    ∧ length cs1 = 20 ∧ length cs2 = 20
    ∧ (∀ pl, length (hand (getPlayer pl w')) = 5
             ∧ hasBasic (hand (getPlayer pl w')) = true
             ∧ hand (getPlayer pl w') ++ deck (getPlayer pl w')
               ≡ₚ (match pl with P1 => cs1 | P2 => cs2 end) ++ hand (getPlayer pl w)
             ∧ active (getPlayer pl w') = active (getPlayer pl w)
             ∧ bench (getPlayer pl w') = bench (getPlayer pl w)
             ∧ points (getPlayer pl w') = points (getPlayer pl w)
             ∧ hasPlayedSupporter (getPlayer pl w')
               = hasPlayedSupporter (getPlayer pl w))
    ∧ game w' = set_players (players (game w')) (game w)
    ∧ events w' = events w ++ [gameInitialized].
Proof.
  unfold initializeGame, drawInitialHands.
  destruct (assignNewDeck P1 w) as [w1|] eqn:H1; [|done].
  destruct (assignNewDeck P2 w1) as [w2|] eqn:H2; [|done].
  destruct (drawInitialLoop fuel P1 w2) as [w3|] eqn:H3; [|done].
  destruct (drawInitialLoop fuel P2 w3) as [w4|] eqn:H4; [|done].
  intros [= <-].
  apply assignNewDeck_spec in H1 as (cs1 & d1 & He1 & Hd1 & Hp1 & Ho1 & Hg1 & Hev1).
  apply assignNewDeck_spec in H2 as (cs2 & d2 & He2 & Hd2 & Hp2 & Ho2 & Hg2 & Hev2).
  apply drawInitialLoop_dealt in H3 as [D3 B3].
  apply drawInitialLoop_dealt in H4 as [D4 B4].
  pose proof (expandDeck_default_length _ _ _ He1) as Hl1.
  pose proof (expandDeck_default_length _ _ _ He2) as Hl2.
  destruct D3 as (A1 & A2 & A3 & A4 & A5 & A6 & A7 & A8 & A9 & A10).
  destruct D4 as (C1 & C2 & C3 & C4 & C5 & C6 & C7 & C8 & C9 & C10).
  cbn [getOpponentId] in *.
  exists cs1, cs2, (cardUidCounter w1).
  change (cardUidCounter (notify gameInitialized w4)) with (cardUidCounter w4).
  rewrite C10, A10.
  split; [done|]. split; [done|]. split; [done|]. split; [done|]. split; [|split].
  - intros pl. change (getPlayer pl (notify gameInitialized w4)) with (getPlayer pl w4).
    destruct pl.
    + rewrite C7. rewrite A1, A2, A3, A4, A5, A6, Ho2, Hp1.
      cbn [deck hand active bench points hasPlayedSupporter set_deck].
      rewrite Hd1, Hl1.
      repeat split; try done.
    + rewrite C1, C2, C3, C4, C5, C6, A7, Hp2, Ho1.
      cbn [deck hand active bench points hasPlayedSupporter set_deck].
      rewrite Hd2, Hl2.
      repeat split; try done.
  - change (game (notify gameInitialized w4)) with (game w4).
    rewrite C8, A8, Hg2, Hg1. done.
  - unfold notify. cbn [events set_events]. by rewrite C9, A9, Hev2, Hev1.
Qed.
(** ** Invariants of the reachable states *)

Lemma submseteq_NoDup {A : Type} (l k : list A) : l ⊆+ k → NoDup k → NoDup l.
Proof.
  intros [k' Hk]%submseteq_Permutation. rewrite Hk, NoDup_app. tauto.
Qed.

Lemma uids_players w :
  uids w = playerUids (getPlayer P1 w) ++ playerUids (getPlayer P2 w).
Proof. unfold uids, allCards, playerUids. apply fmap_app. Qed.

Lemma uids_distinct_sub w w' :
  (∀ pl, playerUids (getPlayer pl w') ⊆+ playerUids (getPlayer pl w)) →
  cardUidCounter w' = cardUidCounter w →
  uids_distinct w → uids_distinct w'.
Proof.
  intros Hsub Hctr [Hnd Hall].
  assert (Hu : uids w' ⊆+ uids w).
  { rewrite !uids_players. by apply submseteq_app. }
  split.
  - by eapply submseteq_NoDup.
  - rewrite Hctr. rewrite Forall_forall in Hall |- *.
    intros u Hin. apply Hall. by eapply elem_of_submseteq.
Qed.

Lemma uids_distinct_move op w w' :
  isMove op = true → exec op w = Some w' → uids_distinct w → uids_distinct w'.
Proof.
  intros Hm Hex.
  destruct (exec_move_summary op w w' Hm Hex) as [L|[T|E]].
  - destruct L as (_ & _ & _ & _ & _ & Hc & Hpl).
    apply uids_distinct_sub; [|done]. intros pl. apply Hpl.
  - destruct T as (_ & _ & _ & _ & Hc & Hpl & _).
    by apply uids_distinct_sub.
  - destruct E as (_ & _ & _ & _ & _ & _ & _ & Hc & Hpl).
    apply uids_distinct_sub; [|done]. intros pl. apply Hpl.
Qed.

Lemma uids_distinct_initializeGame fuel w w' :
  initializeGame fuel w = Some w' → uids_distinct w → uids_distinct w'.
Proof.
  intros Hinit [Hnd Hall].
  destruct (initializeGame_spec _ _ _ Hinit)
    as (cs1 & cs2 & ctr & He1 & He2 & Hl1 & Hl2 & Hpl & _).
  apply expandDeck_spec in He1 as (-> & Hu1).
  apply expandDeck_spec in He2 as (Hctr & Hu2).
  rewrite Hl1 in *. rewrite Hl2 in *.
  set (f := λ k : nat, Some (stringOfNat k)) in *.
  set (c := cardUidCounter w) in *.
  assert (Hinj : Inj (=) (=) f).
  { intros m n [= H]. by apply stringOfNat_inj. }
  assert (Hsub : uids w' ⊆+ (f <$> seq c 40) ++ uids w).
  { rewrite !uids_players.
    assert (Hp : ∀ pl cs, hand (getPlayer pl w') ++ deck (getPlayer pl w')
                          ≡ₚ cs ++ hand (getPlayer pl w) →
                 active (getPlayer pl w') = active (getPlayer pl w) →
                 bench (getPlayer pl w') = bench (getPlayer pl w) →
                 playerUids (getPlayer pl w')
                 ⊆+ (uid <$> cs) ++ playerUids (getPlayer pl w)).
    { intros pl cs Hhd Ha Hb. unfold playerUids, zoneCards. rewrite Ha, Hb.
      rewrite (app_assoc (deck _) (hand (getPlayer pl w'))).
      rewrite (Permutation_app_comm (deck _) (hand (getPlayer pl w'))), Hhd.
      push_fmap. solve_submseteq. }
    destruct (Hpl P1) as (_ & _ & Hhd1 & Ha1 & Hb1 & _).
    destruct (Hpl P2) as (_ & _ & Hhd2 & Ha2 & Hb2 & _).
    etrans; [apply submseteq_app; [apply (Hp P1 cs1)|apply (Hp P2 cs2)]; done|].
    rewrite Hu1, Hu2. replace 40 with (20 + 20) by done.
    rewrite seq_app, fmap_app. solve_submseteq. }
  assert (Hall' : Forall (λ u, ∃ n, n < cardUidCounter w' ∧ u = Some (stringOfNat n))
                    ((f <$> seq c 40) ++ uids w)).
  { rewrite Hctr. apply Forall_app. split.
    - apply Forall_fmap, Forall_forall. intros n Hn%elem_of_seq.
      exists n. split; [lia|done].
    - eapply Forall_impl; [exact Hall|]. intros u (n & Hn & ->).
      exists n. split; [fold c in Hn; lia|done]. }
  split.
  - eapply submseteq_NoDup; [exact Hsub|].
    apply NoDup_app. split; [|split; [|done]].
    + apply NoDup_fmap_2; [done|apply NoDup_seq].
    + intros u (n & -> & Hn%elem_of_seq)%list_elem_of_fmap Hin.
      rewrite Forall_forall in Hall. destruct (Hall _ Hin) as (m & Hm & Heq).
      apply Hinj in Heq. fold c in Hm. lia.
  - rewrite Forall_forall in Hall' |- *. intros u Hin.
    apply Hall'. by eapply elem_of_submseteq.
Qed.

Lemma over_consistent_exec op w w' :
  exec op w = Some w' → over_consistent w → over_consistent w'.
Proof.
  intros Hex [Hov Hwin]. destruct (isMove op) eqn:Hm.
  - destruct (exec_move_summary op w w' Hm Hex) as [L|[T|E]].
    + destruct L as (_ & _ & Hp & Ho & Hw & _). unfold over_consistent.
      by rewrite Hp, Ho, Hw.
    + destruct T as (_ & Hp & Ho & Hw & _). unfold over_consistent.
      rewrite Ho, Hw. split; [|done]. intros H. destruct Hp as [->| ->]; auto.
    + destruct E as (_ & _ & _ & Hp & _ & Ho & Hw & _). unfold over_consistent.
      by rewrite Hp, Ho, Hw.
  - destruct op; try done. cbn [exec] in Hex.
    destruct (initializeGame_spec _ _ _ Hex) as (_ & _ & _ & _ & _ & _ & _ & _ & Hg & _).
    unfold over_consistent. rewrite Hg. done.
Qed.

Lemma reachable_invariants w : reachable w → uids_distinct w ∧ over_consistent w.
Proof.
  induction 1 as [rs|op w w' _ [IHu IHo] Hex].
  - split.
    + split; [apply NoDup_nil_2|apply Forall_nil_2].
    + split; done.
  - split; [|by eapply over_consistent_exec].
    destruct (isMove op) eqn:Hm.
    + by eapply uids_distinct_move.
    + destruct op; try done. by eapply uids_distinct_initializeGame.
Qed.
(** ** A finished match *)

Lemma canAct_game_over player w : gameOver (game w) = true → canAct player w = false.
Proof. unfold canAct. intros ->. by rewrite andb_false_r. Qed.

Lemma game_over_move op w :
  gameOver (game w) = true → phase (game w) = playing →
  isMove op = true → exec op w = Some w.
Proof.
  intros Hover Hphase Hm. destruct op; try done; cbn [exec]; f_equal.
  - unfold setPlayerReady. by rewrite Hphase.
  - unfold endTurn. by rewrite Hover.
  - unfold playCard. by rewrite Hover.
  - unfold playChickenNugget. rewrite canAct_game_over by done.
    by destruct (targetAt _ _).
  - unfold evolve. rewrite canAct_game_over by done.
    destruct (targetAt _ _); [|done]. by destruct (jsGet _ _).
  - unfold attack. by rewrite canAct_game_over.
  - unfold promote. by rewrite Hover.
  - unfold retreat. by rewrite canAct_game_over.
Qed.

(** Every operation but [setPlayerReady] tests [gameOver] itself. *)
Lemma game_over_move_any op w :
  gameOver (game w) = true →
  isMove op = true → (∀ player, op ≠ OpSetPlayerReady player) →
  exec op w = Some w.
Proof.
  intros Hover Hm Hnot. destruct op; try done; cbn [exec]; f_equal.
  - by destruct (Hnot player).
  - unfold endTurn. by rewrite Hover.
  - unfold playCard. by rewrite Hover.
  - unfold playChickenNugget. rewrite canAct_game_over by done.
    by destruct (targetAt _ _).
  - unfold evolve. rewrite canAct_game_over by done.
    destruct (targetAt _ _); [|done]. by destruct (jsGet _ _).
  - unfold attack. by rewrite canAct_game_over.
  - unfold promote. by rewrite Hover.
  - unfold retreat. by rewrite canAct_game_over.
Qed.

(** C5.  Game-over is terminal.  In every reachable state with [gameOver]
    set, every public operation other than [initializeGame] ([setPlayerReady],
    [endTurn], [playCard], [playChickenNugget], [evolve], [attack], [promote],
    [retreat]) returns the world unchanged, event log included, and
    [playChickenNugget] returns [false].  All of them but [setPlayerReady]
    test [gameOver] themselves, and so do nothing in any state with
    [gameOver] set; [setPlayerReady] tests the phase, and [gameOver] is only
    ever set in the playing phase.  Once [winner] is set, no sequence of
    public operations, [initializeGame] included, changes it. *)
Theorem game_over_is_terminal :
  (∀ w op,
     reachable w → gameOver (game w) = true →
     isMove op = true →
     exec op w = Some w)
  ∧ (∀ w player handIndex tidx,
       gameOver (game w) = true →
       playChickenNugget player handIndex tidx w = (false, w))
  ∧ (∀ w op,
       gameOver (game w) = true →
       isMove op = true → (∀ player, op ≠ OpSetPlayerReady player) →
       exec op w = Some w)
  ∧ (∀ w who ops w',
       reachable w →
       winner (game w) = Some who → execAll ops w = Some w' →
       winner (game w') = Some who).
Proof.
  split; [|split; [|split]].
  - intros w op Hreach Hover Hm.
    destruct (reachable_invariants w Hreach) as [_ [Hphase _]].
    apply game_over_move; auto.
  - intros w player handIndex tidx Hover. unfold playChickenNugget.
    rewrite canAct_game_over by done. by destruct (targetAt _ _).
  - intros w op. apply game_over_move_any.
  - intros w who ops. revert w.
    induction ops as [|op ops IH]; intros w w' Hreach Hwin; cbn [execAll].
    + by intros [= <-].
    + destruct (exec op w) as [w1|] eqn:Hex; [|done].
      intros Hrest. apply (IH w1); [by eapply reachable_step| |done].
      destruct (reachable_invariants w Hreach) as [_ [Hphase Hover]].
      assert (Ho : gameOver (game w) = true) by (apply Hover; congruence).
      destruct (isMove op) eqn:Hm.
      * rewrite game_over_move in Hex by auto. congruence.
      * destruct op; try done. cbn [exec] in Hex.
        destruct (initializeGame_spec _ _ _ Hex)
          as (cs1 & cs2 & ctr & _ & _ & _ & _ & _ & Hg & _).
        rewrite Hg. done.
Qed.

(** Match A, won by player 1 on turn 5 with the knockout of player 2's only
    creature. *)
Lemma game_over_is_terminal_witness :
  let w := worldAfter (openingA ++ [OpAttack; OpAttack; OpAttack; OpAttack; OpAttack])
             oracleA in
  gameOver (game w) = true
  ∧ winner (game w) = Some P1
  ∧ exec OpAttack w = Some w
  ∧ exec (OpPlayCard P1 0) w = Some w
  ∧ playChickenNugget P1 2 (-1) w = (false, w)
  ∧ exec (OpSetPlayerReady P2) w = Some w
  ∧ ∀ w', execAll [OpEndTurn; OpInitializeGame 3; OpPromote P2 0] w = Some w' →
          winner (game w') = Some P1.
Proof.
  set (w := worldAfter _ oracleA). cbn zeta.
  assert (Hover : gameOver (game w) = true) by (vm_compute; reflexivity).
  assert (Hwin : winner (game w) = Some P1) by (vm_compute; reflexivity).
  destruct game_over_is_terminal as (Hmove & Hnug & _ & Hkeep).
  pose proof (reachable_worldAfter
                (openingA ++ [OpAttack; OpAttack; OpAttack; OpAttack; OpAttack])
                oracleA) as Hreach.
  fold w in Hreach.
  split; [exact Hover|]. split; [exact Hwin|].
  split; [exact (Hmove w OpAttack Hreach Hover eq_refl)|].
  split; [exact (Hmove w (OpPlayCard P1 0) Hreach Hover eq_refl)|].
  split; [exact (Hnug w P1 2%Z (-1)%Z Hover)|].
  split; [exact (Hmove w (OpSetPlayerReady P2) Hreach Hover eq_refl)|].
  intros w'. exact (Hkeep w P1 _ w' Hreach Hwin).
Defined.

(** ** Retreat and promotion *)

(** In a reachable state the active creature and a benched creature of
    the same player are different instances. *)
Lemma active_bench_distinct pl w a b i :
  reachable w →
  active (getPlayer pl w) = Some a →
  bench (getPlayer pl w) !! i = Some (Some b) →
  uid a ≠ uid b.
Proof.
  intros Hreach Ha Hb.
  destruct (reachable_invariants w Hreach) as [[Hnd _] _].
  rewrite uids_players in Hnd.
  assert (Hp : NoDup (playerUids (getPlayer pl w))).
  { apply NoDup_app in Hnd as (H1 & _ & H2). by destruct pl. }
  unfold playerUids, zoneCards in Hp. rewrite Ha in Hp. simpl (option_list _) in Hp.
  rewrite !fmap_app in Hp.
  apply NoDup_app in Hp as (_ & _ & Hp). apply NoDup_app in Hp as (_ & _ & Hp).
  rewrite fmap_cons in Hp. apply NoDup_cons in Hp as [Hnotin _].
  intros Heq. apply Hnotin. rewrite Heq. simpl.
  apply list_elem_of_fmap. exists b. split; [done|].
  rewrite (slotCards_delete_Some _ _ _ Hb). by left.
Qed.

(** C9.  A [retreat] whose preconditions hold puts the benched creature
    into the active slot and the active creature into the targeted bench
    slot, and changes nothing else: other bench slots, deck, hand, points,
    the other player, current player, turn counter and phase are as before,
    and one state update is emitted.  In a reachable state the two creatures
    are different instances, so the two slots never hold the same one.  A
    [promote] whose preconditions hold puts the benched creature into the
    active slot and empties the targeted bench slot. *)
Theorem retreat_promote_slots (player : PlayerId) (benchIndex : Z) (w : World) :
  let p := getPlayer player w in
  (∀ a b,
     canAct player w = true →
     active p = Some a →
     mjoin (jsGet (bench p) benchIndex) = Some b →
     let w' := retreat player benchIndex w in
     let p' := getPlayer player w' in
     active p' = Some b
     ∧ jsGet (bench p') benchIndex = Some (Some a)
     ∧ (reachable w → uid a ≠ uid b)
     ∧ bench p' = <[Z.to_nat benchIndex := Some a]> (bench p)
     ∧ deck p' = deck p ∧ hand p' = hand p ∧ points p' = points p
     ∧ hasPlayedSupporter p' = hasPlayedSupporter p
     ∧ getPlayer (getOpponentId player) w' = getPlayer (getOpponentId player) w
     ∧ game w' = set_players (players (game w')) (game w)
     ∧ events w' = events w ++ [gameStateUpdated])
  ∧ (∀ b,
       gameOver (game w) = false →
       active p = None →
       mjoin (jsGet (bench p) benchIndex) = Some b →
       let w' := promote player benchIndex w in
       let p' := getPlayer player w' in
       active p' = Some b
       ∧ jsGet (bench p') benchIndex = Some None
       ∧ bench p' = <[Z.to_nat benchIndex := None]> (bench p)
       ∧ deck p' = deck p ∧ hand p' = hand p ∧ points p' = points p
       ∧ hasPlayedSupporter p' = hasPlayedSupporter p
       ∧ getPlayer (getOpponentId player) w' = getPlayer (getOpponentId player) w
       ∧ game w' = set_players (players (game w')) (game w)
       ∧ events w' = events w ++ [gameStateUpdated]).
Proof.
  intros p. split.
  - intros a b Hcan Ha Hb w' p'. subst w' p'.
    apply mjoin_jsGet_Some in Hb.
    unfold retreat. rewrite Hcan. cbn [negb]. fold p. rewrite Ha, Hb. cbn [mjoin option_join].
    unfold update, notify. cbn [events set_events].
    change (getPlayer ?pl (set_events _ ?v)) with (getPlayer pl v).
    rewrite getPlayer_setPlayer_eq, getPlayer_setPlayer_ne by apply not_eq_sym, getOpponentId_ne.
    cbn [deck hand active bench points hasPlayedSupporter set_bench set_active].
    split; [done|]. split; [by eapply jsGet_jsSet|].
    split.
    { intros Hreach. apply jsGet_Some in Hb as [_ Hb].
      by eapply active_bench_distinct. }
    split; [by eapply jsSet_in_range|]. by destruct player.
  - intros b Hover Ha Hb w' p'. subst w' p'.
    unfold promote. fold p. rewrite Hover, Ha, Hb.
    replace (bool_decide (is_Some (@None Card))) with false by done.
    replace (bool_decide (is_Some (Some b))) with true by done.
    cbn [orb negb].
    apply mjoin_jsGet_Some in Hb.
    rewrite (splice_replace_at _ _ _ None Hb).
    unfold update, notify. cbn [events set_events].
    change (getPlayer ?pl (set_events _ ?v)) with (getPlayer pl v).
    rewrite getPlayer_setPlayer_eq, getPlayer_setPlayer_ne by apply not_eq_sym, getOpponentId_ne.
    cbn [deck hand active bench points hasPlayedSupporter set_bench set_active head mjoin option_join].
    split; [done|]. split.
    { rewrite <- (jsSet_in_range _ _ _ None Hb). by eapply jsGet_jsSet. }
    by destruct player.
Qed.
(** Match C.  On turn 1 player 1 has base-003 active and base-003 on the
    bench and retreats; on turn 7, after player 2 has knocked out the active
    creature, player 1 promotes the benched one. *)
Lemma retreat_promote_slots_witness :
  let opening := [ OpInitializeGame 1; OpPlayCard P1 0; OpPlayCard P1 0;
                   OpPlayCard P2 4; OpSetPlayerReady P1; OpSetPlayerReady P2 ] in
  let wR := worldAfter opening oracleC in
  let wP := worldAfter (opening ++ [ OpEndTurn; OpAttack; OpEndTurn; OpAttack;
                                     OpEndTurn; OpAttack ]) oracleC in
  (∃ a b,
     active (getPlayer P1 wR) = Some a
     ∧ mjoin (jsGet (bench (getPlayer P1 wR)) 0) = Some b
     ∧ active (getPlayer P1 (retreat P1 0 wR)) = Some b
     ∧ jsGet (bench (getPlayer P1 (retreat P1 0 wR))) 0 = Some (Some a)
     ∧ uid a ≠ uid b)
  ∧ (∃ b,
       active (getPlayer P1 wP) = None
       ∧ mjoin (jsGet (bench (getPlayer P1 wP)) 0) = Some b
       ∧ active (getPlayer P1 (promote P1 0 wP)) = Some b
       ∧ jsGet (bench (getPlayer P1 (promote P1 0 wP))) 0 = Some None).
Proof.
  intros opening. set (wR := worldAfter opening oracleC).
  set (wP := worldAfter (opening ++ _) oracleC). cbn zeta.
  split.
  - assert (Ha : ∃ a, active (getPlayer P1 wR) = Some a)
      by (vm_compute; eexists; reflexivity).
    assert (Hb : ∃ b, mjoin (jsGet (bench (getPlayer P1 wR)) 0) = Some b)
      by (vm_compute; eexists; reflexivity).
    destruct Ha as [a Ha], Hb as [b Hb].
    destruct (proj1 (retreat_promote_slots P1 0 wR)
                a b ltac:(vm_compute; reflexivity) Ha Hb)
      as (H1 & H2 & H3 & _).
    exists a, b. split; [exact Ha|]. split; [exact Hb|].
    split; [exact H1|]. split; [exact H2|].
    exact (H3 (reachable_worldAfter _ _)).
  - assert (Ha : active (getPlayer P1 wP) = None) by (vm_compute; reflexivity).
    assert (Hb : ∃ b, mjoin (jsGet (bench (getPlayer P1 wP)) 0) = Some b)
      by (vm_compute; eexists; reflexivity).
    destruct Hb as [b Hb].
    destruct (proj2 (retreat_promote_slots P1 0 wP)
                b ltac:(vm_compute; reflexivity) Ha Hb)
      as (H1 & H2 & _).
    exists b. split; [exact Ha|]. split; [exact Hb|]. split; [exact H1|exact H2].
Defined.
(** ** The first hands *)



(** ** The first hand can always be dealt

    Whether the loop of [drawInitialHands] finishes depends on the random
    source.  When the player's deck and hand hold a basic creature, the
    source can answer so that the very next round succeeds: the first answer
    of the shuffle picks the position of that card, which puts it in the last
    place, where later steps leave it and from where it is drawn. *)

Lemma swap_lookup_other {A : Type} (arr : list A) (i j m : nat) :
  m ≠ i → m ≠ j → swap arr i j !! m = arr !! m.
Proof.
  intros Hi Hj. unfold swap.
  destruct (arr !! i) as [x|]; [|done]. destruct (arr !! j) as [y|]; [|done].
  by rewrite !list_lookup_insert_ne.
Qed.

Lemma shuffleLoop_lookup_above {A : Type} (i : nat) (arr : list A) (rs : list nat) (m : nat) :
  i < m → fst (shuffleLoop i arr rs) !! m = arr !! m.
Proof.
  revert arr rs. induction i as [|i IH]; intros arr rs Hm; cbn [shuffleLoop]; [done|].
  pose proof (randomBelow_lt (S i + 1) rs ltac:(lia)) as Hj.
  destruct (randomBelow (S i + 1) rs) as [j rs']. cbn [fst] in Hj.
  rewrite IH by lia. apply swap_lookup_other; lia.
Qed.

Lemma shuffle_length {A : Type} (arr : list A) (rs : list nat) :
  length (fst (shuffle arr rs)) = length arr.
Proof. apply Permutation_length, shuffle_Permutation. Qed.

(** With [k] as the first answer, the element at position [k] ends up
    last. *)
Lemma shuffle_first_pick {A : Type} (arr : list A) (k : nat) (x : A) (rs : list nat) :
  arr !! k = Some x →
  fst (shuffle arr (k :: rs)) !! (length arr - 1) = Some x.
Proof.
  intros Hk. pose proof (lookup_lt_Some _ _ _ Hk) as Hlt.
  unfold shuffle. destruct (length arr - 1) as [|i] eqn:Hlen.
  - cbn [shuffleLoop fst]. by replace k with 0 in Hk by lia.
  - cbn [shuffleLoop randomBelow].
    rewrite Nat.mod_small by lia.
    rewrite shuffleLoop_lookup_above by lia.
    unfold swap. destruct (arr !! S i) as [y|] eqn:Hy.
    2: { apply lookup_ge_None in Hy. lia. }
    rewrite Hk. destruct (decide (k = S i)) as [->|Hne].
    + rewrite list_lookup_insert_eq by (rewrite length_insert; lia). congruence.
    + rewrite list_lookup_insert_ne by done.
      apply list_lookup_insert_eq. lia.
Qed.
Lemma hasBasic_true (cs : list Card) :
  hasBasic cs = true ↔ ∃ c, c ∈ cs ∧ truthy (isBasic c) = true.
Proof.
  unfold hasBasic, some. rewrite existsb_exists.
  split; intros (c & Hin & Hb); exists c; split; try done; by apply list_elem_of_In.
Qed.

(** If the cards to be dealt hold a basic creature, some first answer [k]
    of the random source makes the next round of the loop the last one,
    whatever the source answers afterwards. *)
Lemma drawInitialLoop_can_finish (pNum : PlayerId) (w : World) (fuel : nat) :
  hasBasic (deck (getPlayer pNum w) ++ hand (getPlayer pNum w)) = true →
  ∃ k, ∀ rs,
    drawInitialLoop (S fuel) pNum (set_random (k :: rs) w)
    = Some (drawInitialRound pNum (set_random (k :: rs) w)).
Proof.
  intros (c & Hin & Hb)%hasBasic_true.
  apply list_elem_of_lookup in Hin as [k Hk].
  exists k. intros rs. cbn [drawInitialLoop].
  set (w0 := set_random (k :: rs) w).
  assert (Hhand : hasBasic (hand (getPlayer pNum (drawInitialRound pNum w0))) = true);
    [|by rewrite Hhand].
  apply hasBasic_true. exists c. split; [|done].
  unfold drawInitialRound. rewrite splice_all.
  change (getPlayer pNum w0) with (getPlayer pNum w).
  change (random w0) with (k :: rs).
  set (p := getPlayer pNum w) in *.
  pose proof (shuffle_first_pick _ _ _ rs Hk) as Hlast.
  pose proof (shuffle_length (deck p ++ hand p) (k :: rs)) as Hlen.
  destruct (shuffle (deck p ++ hand p) (k :: rs)) as [shuffled rs'].
  cbn [fst] in Hlast, Hlen.
  unfold drawCards. rewrite getPlayer_set_random, getPlayer_setPlayer_eq.
  cbn [deck hand set_deck set_hand].
  pose proof (splice_last shuffled 5 ltac:(lia)) as Hl.
  change (- Z.of_nat 5)%Z with (Z.opp 5) in Hl. rewrite Hl. clear Hl.
  rewrite getPlayer_setPlayer_eq. cbn [hand set_hand app].
  pose proof (lookup_lt_Some _ _ _ Hk) as Hlt.
  apply (list_elem_of_lookup_2 _ (length shuffled - 1 - (length shuffled - 5))).
  rewrite lookup_drop. rewrite <- Hlast. f_equal. lia.
Qed.
(** ** The first hand need not be dealt

    Whether the loop of [drawInitialHands] ends depends on the answers of the
    random source, not on the deck alone. *)









(** ** Supporters *)

(** The turn counter never decreases, and a call that leaves it alone also
    leaves the phase and the current player alone and clears no supporter
    flag. *)
Lemma exec_turn_monotone op w w' :
  exec op w = Some w' →
  (turnCount (game w) ≤ turnCount (game w'))%Z
  ∧ (turnCount (game w') = turnCount (game w) →
     phase (game w') = phase (game w)
     ∧ currentPlayer (game w') = currentPlayer (game w)
     ∧ ∀ pl, hasPlayedSupporter (getPlayer pl w) = true →
             hasPlayedSupporter (getPlayer pl w') = true).
Proof.
  intros Hex. destruct (isMove op) eqn:Hm.
  - destruct (exec_move_summary op w w' Hm Hex) as [L|[T|E]].
    + destruct L as (Ht & Hc & Hp & L4 & L5 & L6 & Hpl).
      split; [lia|]. intros _. split; [done|]. split; [done|].
      intros pl. apply Hpl.
    + destruct T as (Ht & _). split; lia.
    + destruct E as (Ht & Hc & Hp & Hp' & E5 & E6 & E7 & E8 & Hpl).
      split; [lia|]. intros _. split; [congruence|]. split; [done|].
      intros pl. destruct (Hpl pl) as [_ Hf]. by rewrite Hf.
  - destruct op; try done. cbn [exec] in Hex.
    destruct (initializeGame_spec _ _ _ Hex)
      as (cs1 & cs2 & ctr & _ & _ & _ & _ & Hpl & Hg & _).
    rewrite Hg. split; [done|]. intros _. split; [done|]. split; [done|].
    intros pl. destruct (Hpl pl) as (_ & _ & _ & _ & _ & _ & Hf). by rewrite Hf.
Qed.

Lemma execAll_turn_monotone ops w w' :
  execAll ops w = Some w' →
  (turnCount (game w) ≤ turnCount (game w'))%Z
  ∧ (turnCount (game w') = turnCount (game w) →
     phase (game w') = phase (game w)
     ∧ currentPlayer (game w') = currentPlayer (game w)
     ∧ ∀ pl, hasPlayedSupporter (getPlayer pl w) = true →
             hasPlayedSupporter (getPlayer pl w') = true).
Proof.
  revert w. induction ops as [|op ops IH]; intros w; cbn [execAll].
  - intros [= <-]. split; [lia|done].
  - destruct (exec op w) as [w1|] eqn:Hex; [|done].
    intros Hrest.
    destruct (exec_turn_monotone _ _ _ Hex) as [Hle1 Hsame1].
    destruct (IH _ Hrest) as [Hle2 Hsame2].
    split; [lia|]. intros Heq.
    destruct Hsame1 as (Hp1 & Hc1 & Hf1); [lia|].
    destruct Hsame2 as (Hp2 & Hc2 & Hf2); [lia|].
    split; [congruence|]. split; [congruence|]. intros pl Hpl. by apply Hf2, Hf1.
Qed.

(** A supporter is refused when the player has already played one, and
    during setup. *)
Lemma playCard_supporter_refused player handIndex w card :
  jsGet (hand (getPlayer player w)) handIndex = Some card →
  truthy (isSupporter card) = true →
  phase (game w) = setup ∨ hasPlayedSupporter (getPlayer player w) = true →
  playCard player handIndex w = w.
Proof.
  intros Hget Hsup Hwhy. unfold playCard.
  destruct (gameOver (game w) || _); [done|].
  rewrite Hget, Hsup. unfold _playSupporter.
  destruct Hwhy as [-> | ->]; [done|]. by rewrite orb_true_r.
Qed.

(** In the playing phase only the current player gets past the first
    check of [playCard]. *)
Lemma playCard_not_current player handIndex w :
  phase (game w) = playing → currentPlayer (game w) ≠ player →
  playCard player handIndex w = w.
Proof.
  intros Hp Hc. unfold playCard. rewrite Hp.
  destruct (currentPlayer (game w)), player; try done; by rewrite orb_true_r.
Qed.

(** The first supporter of a turn. *)
Lemma playCard_supporter_played player handIndex w card :
  gameOver (game w) = false →
  phase (game w) = playing →
  currentPlayer (game w) = player →
  jsGet (hand (getPlayer player w)) handIndex = Some card →
  truthy (isSupporter card) = true →
  hasPlayedSupporter (getPlayer player w) = false →
  let p := getPlayer player w in
  let w' := playCard player handIndex w in
  let p' := getPlayer player w' in
  hand p' = delete (Z.to_nat handIndex) (hand p) ++ drop (length (deck p) - 2) (deck p)
  ∧ deck p' = take (length (deck p) - 2) (deck p)
  ∧ hasPlayedSupporter p' = true
  ∧ active p' = active p ∧ bench p' = bench p ∧ points p' = points p
  ∧ getPlayer (getOpponentId player) w' = getPlayer (getOpponentId player) w
  ∧ game w' = set_players (players (game w')) (game w)
  ∧ events w' = events w ++ [gameStateUpdated].
Proof.
  intros Hover Hphase Hcur Hget Hsup Hflag p w' p'. subst w' p'.
  unfold playCard. rewrite Hover, Hphase, Hcur. cbn [orb phaseEqb].
  replace (playerEqb player player) with true by (by destruct player).
  cbn [negb andb]. rewrite Hget, Hsup.
  unfold _playSupporter. rewrite Hphase, Hflag, Hcur. cbn [phaseEqb orb].
  unfold drawCards. fold p.
  pose proof (splice_last (deck p) 2 ltac:(lia)) as Hl.
  change (- Z.of_nat 2)%Z with (Z.opp 2) in Hl. rewrite Hl. clear Hl.
  rewrite getPlayer_setPlayer_eq. cbn [hand set_hand set_deck].
  assert (Hget' : jsGet (hand p ++ drop (length (deck p) - 2) (deck p)) handIndex
                  = Some card).
  { apply jsGet_Some in Hget as [H0 Hc]. apply jsGet_Some. split; [done|].
    by apply lookup_app_l_Some. }
  rewrite (splice_remove_at _ _ _ Hget'). cbn [snd].
  apply jsGet_Some in Hget as [H0 Hc]. pose proof (lookup_lt_Some _ _ _ Hc) as Hlt.
  unfold update, notify. cbn [events set_events].
  change (getPlayer ?pl (set_events _ ?v)) with (getPlayer pl v).
  rewrite setPlayer_setPlayer, getPlayer_setPlayer_eq.
  rewrite getPlayer_setPlayer_ne by apply not_eq_sym, getOpponentId_ne.
  cbn [deck hand active bench points hasPlayedSupporter
       set_deck set_hand set_hasPlayedSupporter].
  split.
  { fold p in Hlt.
    rewrite !delete_take_drop, take_app_le, drop_app_le by lia.
    by rewrite app_assoc. }
  by destruct player.
Qed.
(** C6 (amended).  The first supporter played in a turn draws the last
    2 cards of the deck, or all of its cards when it holds fewer than 2, and
    leaves the hand; the player's flag is then set, and for as long as the
    turn counter stays the same every play of a supporter card, by either
    player, returns the world unchanged.  A supporter played during setup
    does nothing.  [startTurn] clears the flag of the player whose turn begins
    and leaves the other player's flag alone, and a public operation clears a
    set flag only by starting that player's turn. *)
Theorem supporter_once_per_turn :
  (∀ player handIndex w card,
     gameOver (game w) = false →
     phase (game w) = playing →
     currentPlayer (game w) = player →
     jsGet (hand (getPlayer player w)) handIndex = Some card →
     truthy (isSupporter card) = true →
     hasPlayedSupporter (getPlayer player w) = false →
     let p := getPlayer player w in
     let w1 := playCard player handIndex w in
     let p1 := getPlayer player w1 in
     hand p1 = delete (Z.to_nat handIndex) (hand p)
               ++ drop (length (deck p) - 2) (deck p)
     ∧ deck p1 = take (length (deck p) - 2) (deck p)
     ∧ length (hand p1) = length (hand p) - 1 + Nat.min 2 (length (deck p))
     ∧ hasPlayedSupporter p1 = true
     ∧ events w1 = events w ++ [gameStateUpdated]
     ∧ ∀ ops w2 pl handIndex2 card2,
         execAll ops w1 = Some w2 →
         turnCount (game w2) = turnCount (game w1) →
         jsGet (hand (getPlayer pl w2)) handIndex2 = Some card2 →
         truthy (isSupporter card2) = true →
         playCard pl handIndex2 w2 = w2)
  ∧ (∀ player handIndex w card,
       phase (game w) = setup →
       jsGet (hand (getPlayer player w)) handIndex = Some card →
       truthy (isSupporter card) = true →
       playCard player handIndex w = w)
  ∧ (∀ player w,
       hasPlayedSupporter (getPlayer player (startTurn player w)) = false
       ∧ hasPlayedSupporter (getPlayer (getOpponentId player) (startTurn player w))
         = hasPlayedSupporter (getPlayer (getOpponentId player) w))
  ∧ (∀ op w w' pl,
       exec op w = Some w' →
       hasPlayedSupporter (getPlayer pl w) = true →
       hasPlayedSupporter (getPlayer pl w') = false →
       turnCount (game w') = (turnCount (game w) + 1)%Z
       ∧ currentPlayer (game w') = pl).
Proof.
  split; [|split; [|split]].
  - intros player handIndex w card Hover Hphase Hcur Hget Hsup Hflag p w1 p1.
    destruct (playCard_supporter_played player handIndex w card)
      as (Hh & Hd & Hf & _ & _ & _ & _ & Hg & Hev); try done.
    fold p w1 p1 in Hh, Hd, Hf, Hg, Hev.
    split; [done|]. split; [done|]. split; [|split; [done|split; [done|]]].
    { apply jsGet_Some in Hget as [_ Hc]. pose proof (lookup_lt_Some _ _ _ Hc) as Hlt.
      fold p in Hlt. rewrite Hh, length_app, length_delete, length_drop by eauto. lia. }
    intros ops w2 pl handIndex2 card2 Hrun Hturn Hget2 Hsup2.
    destruct (execAll_turn_monotone _ _ _ Hrun) as [_ Hsame].
    destruct (Hsame Hturn) as (Hp2 & Hc2 & Hf2).
    rewrite Hg in Hp2, Hc2. cbn [phase currentPlayer set_players] in Hp2, Hc2.
    destruct (decide (pl = player)) as [->|Hne].
    + apply (playCard_supporter_refused _ _ _ card2); [done|done|].
      right. by apply Hf2.
    + apply playCard_not_current; congruence.
  - intros player handIndex w card Hphase Hget Hsup.
    apply (playCard_supporter_refused _ _ _ card); auto.
  - intros player w. pose proof (startTurn_frame player w) as Hf. cbn zeta in Hf.
    destruct Hf as (_ & _ & _ & _ & _ & _ & _ & _ & _ & _ & Hf & Ho & _). done.
  - intros op w w' pl Hex Hset Hclear.
    destruct (isMove op) eqn:Hm.
    + destruct (exec_move_summary op w w' Hm Hex) as [L|[T|E]].
      * destruct L as (_ & _ & _ & _ & _ & _ & Hpl).
        destruct (Hpl pl) as [_ Hkeep]. rewrite Hkeep in Hclear; done.
      * destruct T as (Ht & _ & _ & _ & _ & _ & Hcur & Hopp). split; [done|].
        destruct (decide (currentPlayer (game w') = pl)) as [|Hne]; [done|].
        assert (Hpl : pl = getOpponentId (currentPlayer (game w')))
          by (destruct pl, (currentPlayer (game w')); done).
        rewrite <- Hpl in Hopp. congruence.
      * destruct E as (_ & _ & _ & _ & _ & _ & _ & _ & Hpl).
        destruct (Hpl pl) as [_ Hkeep]. congruence.
    + destruct op; try done. cbn [exec] in Hex.
      destruct (initializeGame_spec _ _ _ Hex)
        as (cs1 & cs2 & ctr & _ & _ & _ & _ & Hpl & _).
      destruct (Hpl pl) as (_ & _ & _ & _ & _ & _ & Hkeep). congruence.
Qed.
(** Match A on turn 1: player 1 plays the supporter at index 0 and draws
    2 cards, both supporters; playing one of them in the same turn does
    nothing.  In the setup phase of the same match the supporter is
    refused. *)
Lemma supporter_once_per_turn_witness :
  let w := worldAfter openingA oracleA in
  let w1 := playCard P1 0 w in
  let w0 := worldAfter [OpInitializeGame 1] oracleA in
  length (hand (getPlayer P1 w1)) = 4 - 1 + 2
  ∧ hasPlayedSupporter (getPlayer P1 w1) = true
  ∧ option_map id (jsGet (hand (getPlayer P1 w1)) 3) = Some "base-006"
  ∧ playCard P1 3 w1 = w1
  ∧ playCard P1 0 w0 = w0.
Proof.
  set (w := worldAfter openingA oracleA).
  set (w0 := worldAfter [OpInitializeGame 1] oracleA). cbn zeta.
  destruct supporter_once_per_turn as (Hplay & Hsetup & _).
  assert (Hc : ∃ card, jsGet (hand (getPlayer P1 w)) 0 = Some card
                       ∧ truthy (isSupporter card) = true)
    by (vm_compute; eexists; split; reflexivity).
  destruct Hc as (card & Hget & Hsup).
  destruct (Hplay P1 0%Z w card ltac:(vm_compute; reflexivity)
              ltac:(vm_compute; reflexivity) ltac:(vm_compute; reflexivity)
              Hget Hsup ltac:(vm_compute; reflexivity))
    as (_ & _ & Hlen & Hflag & _ & Hlater).
  assert (Hc2 : ∃ card2, jsGet (hand (getPlayer P1 (playCard P1 0 w))) 3 = Some card2
                         ∧ truthy (isSupporter card2) = true
                         ∧ id card2 = "base-006")
    by (vm_compute; eexists; split; [|split]; reflexivity).
  destruct Hc2 as (card2 & Hget2 & Hsup2 & Hid2).
  assert (Hc0 : ∃ card0, jsGet (hand (getPlayer P1 w0)) 0 = Some card0
                         ∧ truthy (isSupporter card0) = true)
    by (vm_compute; eexists; split; reflexivity).
  destruct Hc0 as (card0 & Hget0 & Hsup0).
  split. { rewrite Hlen. vm_compute. reflexivity. }
  split; [exact Hflag|].
  split. { rewrite Hget2. cbn [option_map]. by rewrite Hid2. }
  split. { exact (Hlater [] _ P1 3%Z card2 eq_refl eq_refl Hget2 Hsup2). }
  exact (Hsetup P1 0%Z w0 card0 ltac:(vm_compute; reflexivity) Hget0 Hsup0).
Defined.

(** Match A on turn 29: player 1's deck is down to one card.  Playing the
    supporter at index 0 succeeds (flag set, state update emitted) but draws
    that one card only. *)
Lemma supporter_draws_one_from_short_deck :
  let w := worldAfter (openingA ++ replicate 28 OpEndTurn) oracleA in
  let w' := playCard P1 0 w in
  reachable w
  ∧ (gameOver (game w), phase (game w), currentPlayer (game w), turnCount (game w))
    = (false, playing, P1, 29%Z)
  ∧ option_map isSupporter (jsGet (hand (getPlayer P1 w)) 0) = Some (Some true)
  ∧ hasPlayedSupporter (getPlayer P1 w) = false
  ∧ length (deck (getPlayer P1 w)) = 1
  ∧ hasPlayedSupporter (getPlayer P1 w') = true
  ∧ events w' = events w ++ [gameStateUpdated]
  ∧ length (deck (getPlayer P1 w')) = 0
  ∧ length (hand (getPlayer P1 w')) = length (hand (getPlayer P1 w)) - 1 + 1
  ∧ length (hand (getPlayer P1 w')) ≠ length (hand (getPlayer P1 w)) - 1 + 2.
Proof.
  split; [apply reachable_worldAfter|].
  do 8 (split; [vm_compute; reflexivity|]).
  vm_compute. discriminate.
Qed.

(** * Further properties *)

(** ** [shuffle] produces exactly the arrangements of its input *)

Lemma swap_length {A : Type} (arr : list A) (i j : nat) :
  length (swap arr i j) = length arr.
Proof. unfold swap. repeat case_match; by rewrite ?length_insert. Qed.

Lemma swap_app {A : Type} (l s : list A) (i j : nat) :
  i < length l → j < length l → swap (l ++ s) i j = swap l i j ++ s.
Proof.
  intros Hi Hj. unfold swap. rewrite !lookup_app_l by done.
  destruct (lookup_lt_is_Some_2 l i Hi) as [x ->].
  destruct (lookup_lt_is_Some_2 l j Hj) as [y ->].
  rewrite insert_app_l by done. rewrite insert_app_l by (by rewrite length_insert). done.
Qed.

Lemma randomBelow_le (n : nat) (rs : list nat) : fst (randomBelow (S n) rs) ≤ n.
Proof. pose proof (randomBelow_lt (S n) rs). lia. Qed.

(** The loop never looks past position [i]. *)
Lemma shuffleLoop_app {A : Type} (i : nat) (l s : list A) (rs : list nat) :
  i < length l →
  shuffleLoop i (l ++ s) rs
  = (fst (shuffleLoop i l rs) ++ s, snd (shuffleLoop i l rs)).
Proof.
  revert l rs. induction i as [|i IH]; intros l rs Hi; [done|].
  cbn [shuffleLoop]. pose proof (randomBelow_le (S i) rs) as Hj.
  replace (S i + 1) with (S (S i)) by lia.
  destruct (randomBelow (S (S i)) rs) as [j rs']. cbn [fst] in Hj.
  rewrite swap_app by lia. apply IH. rewrite swap_length. lia.
Qed.

Lemma shuffle_reaches {A : Type} (target array : list A) :
  target ≡ₚ array → ∃ random, fst (shuffle array random) = target.
Proof.
  revert array. induction target as [|x t IH] using rev_ind; intros array Hp.
  - apply Permutation_nil_l in Hp. subst array. exists []. reflexivity.
  - assert (Hlen : length array = S (length t)).
    { rewrite <- Hp, length_app. simpl. lia. }
    assert (Hx : x ∈ array) by (rewrite <- Hp; apply elem_of_app; right; apply list_elem_of_singleton; done).
    apply list_elem_of_lookup in Hx as [j Hj].
    pose proof (lookup_lt_Some _ _ _ Hj) as Hjlt.
    set (arr1 := swap array (length t) j).
    assert (Hlast : arr1 !! length t = Some x).
    { unfold arr1, swap.
      destruct (lookup_lt_is_Some_2 array (length t)) as [y Hy]; [lia|].
      rewrite Hy, Hj. destruct (decide (j = length t)) as [->|Hne].
      - rewrite list_lookup_insert_eq by (rewrite length_insert; lia). congruence.
      - rewrite list_lookup_insert_ne by done. apply list_lookup_insert_eq. lia. }
    assert (Hlen1 : length arr1 = S (length t)) by (unfold arr1; by rewrite swap_length).
    assert (Hsplit : arr1 = take (length t) arr1 ++ [x]).
    { rewrite <- (take_drop (length t) arr1) at 1. f_equal.
      rewrite (drop_S _ _ _ Hlast). rewrite drop_ge by lia. done. }
    assert (Hp' : t ≡ₚ take (length t) arr1).
    { apply (Permutation_app_inv_r [x]). rewrite <- Hsplit, Hp. unfold arr1.
      symmetry. apply swap_Permutation. }
    destruct (IH _ Hp') as [rs' Hrs'].
    assert (Hlen' : length (take (length t) arr1) = length t) by (rewrite length_take; lia).
    exists (j :: rs'). unfold shuffle in *. rewrite Hlen. rewrite Hlen' in Hrs'.
    replace (S (length t) - 1) with (length t) by lia.
    destruct (length t) as [|i] eqn:Ht.
    + cbn [shuffleLoop fst]. destruct t; [|done].
      destruct array as [|y [|? ?]]; try done. simpl in Hj.
      destruct j; simpl in Hj; [|done]. by injection Hj as ->.
    + cbn [shuffleLoop randomBelow]. rewrite Nat.mod_small by lia.
      fold arr1. rewrite Hsplit. rewrite shuffleLoop_app by lia. cbn [fst].
      replace (S i - 1) with i in Hrs' by lia. by rewrite Hrs'.
Qed.

(** X1.  [shuffle] returns an arrangement of the cards it is given,
    nothing lost and nothing added, and every arrangement is returned for
    some answers of the random source: the results of [shuffle] are exactly
    the permutations of its input. *)
Theorem shuffle_exactly_permutations {A : Type} (array target : list A) :
  (∃ random, fst (shuffle array random) = target) ↔ target ≡ₚ array.
Proof.
  split.
  - intros [random <-]. apply shuffle_Permutation.
  - apply shuffle_reaches.
Qed.
(** ** [createCard] and [createDeck] *)

(** How many cards with id [key] a deck list asks for. *)
Lemma createCards_length key n ctr cs ctr' :
  createCards key n ctr = Some (cs, ctr') → length cs = n.
Proof.
  revert ctr cs ctr'. induction n as [|n IH]; intros ctr cs ctr'; simpl.
  - by intros [= <- <-].
  - destruct (createCard key ctr) as [[c c1]|]; [|done].
    destruct (createCards key n c1) as [[cs1 c2]|] eqn:Hcs; [|done].
    intros [= <- <-]. simpl. f_equal. by eapply IH.
Qed.

Lemma createCards_created key n ctr cs ctr' :
  createCards key n ctr = Some (cs, ctr') →
  Forall (λ c, id c = key ∧ ∃ k, ctr ≤ k < ctr + n ∧ createCard key k = Some (c, S k)) cs.
Proof.
  revert ctr cs ctr'. induction n as [|n IH]; intros ctr cs ctr'; simpl.
  - by intros [= <- <-].
  - destruct (createCard key ctr) as [[c c1]|] eqn:Hc; [|done].
    destruct (createCards key n c1) as [[cs1 c2]|] eqn:Hcs; [|done].
    intros [= <- <-].
    pose proof (createCard_spec _ _ _ _ Hc) as (-> & _ & Hid).
    constructor.
    + split; [done|]. exists ctr. split; [lia|done].
    + eapply Forall_impl; [by eapply IH|].
      intros c' (Hid' & k & Hk & Hc'). split; [done|]. exists k. split; [lia|done].
Qed.



Lemma filter_same_id (k key : string) (cs : list Card) :
  Forall (λ c, id c = k) cs →
  length (filter (λ c, String.eqb (id c) key = true) cs)
  = if String.eqb k key then length cs else 0.
Proof.
  induction 1 as [|c cs Hc _ IH]; [by destruct (String.eqb k key)|].
  rewrite filter_cons, Hc. destruct (String.eqb k key) eqn:Heq.
  - rewrite decide_True by done. simpl. by rewrite IH.
  - rewrite decide_False by done. done.
Qed.

Lemma expandDeck_cards entries ctr cs ctr' :
  expandDeck entries ctr = Some (cs, ctr') →
  length cs = sum_list (count <$> entries)
  ∧ (∀ key, length (filter (λ c, String.eqb (id c) key = true) cs) = requested key entries)
  ∧ Forall (λ c, ∃ k, ctr ≤ k < ctr' ∧ createCard (id c) k = Some (c, S k)) cs.
Proof.
  revert ctr cs ctr'. induction entries as [|e entries IH]; intros ctr cs ctr'; simpl.
  - intros [= <- <-]. done.
  - destruct (createCards (cfg_id e) (count e) ctr) as [[cs1 c1]|] eqn:H1; [|done].
    destruct (expandDeck entries c1) as [[cs2 c2]|] eqn:H2; [|done].
    intros [= <- <-].
    pose proof (createCards_length _ _ _ _ _ H1) as Hl1.
    pose proof (createCards_created _ _ _ _ _ H1) as Hc1.
    pose proof (createCards_spec _ _ _ _ _ H1) as [-> _].
    pose proof (expandDeck_spec _ _ _ _ H2) as [Hctr _].
    destruct (IH _ _ _ H2) as (Hl2 & Hk2 & Hc2).
    split; [rewrite length_app, Hl1, Hl2; reflexivity|]. split.
    + intros key. rewrite filter_app, length_app, Hk2. unfold requested. simpl. f_equal.
      rewrite (filter_same_id (cfg_id e)), Hl1; [done|].
      eapply Forall_impl; [exact Hc1|]. by intros c [? _].
    + apply Forall_app. split.
      * eapply Forall_impl; [exact Hc1|].
        intros c (<- & k & Hk & Hc). exists k. split; [lia|done].
      * eapply Forall_impl; [exact Hc2|].
        intros c (k & Hk & Hc). exists k. split; [lia|done].
Qed.




(** ** Calls of one player *)

Lemma own_step_refl player w : own_step player w w.
Proof. unfold own_step. repeat split; try done. by destruct w as [[]]. Qed.

Lemma own_step_trans player w1 w2 w3 :
  own_step player w1 w2 → own_step player w2 w3 → own_step player w1 w3.
Proof.
  intros (H1 & H2 & H3 & H4 & H5) (G1 & G2 & G3 & G4 & G5).
  unfold own_step. rewrite G2, H2, G3, H3, G4, H4.
  repeat split; try done; [|by intros ?; apply G5, H5].
  rewrite G1, H1. done.
Qed.

Lemma own_step_same_game player w w' :
  game w' = game w → cardUidCounter w' = cardUidCounter w → own_step player w w'.
Proof.
  intros Hg Hc. unfold own_step, getPlayer. rewrite Hg, Hc.
  repeat split; try done. by destruct (game w).
Qed.

Lemma own_step_update player w : own_step player w (update w).
Proof. by apply own_step_same_game. Qed.

Lemma own_step_setPlayer player p' w :
  points p' = points (getPlayer player w) →
  (is_Some (active (getPlayer player w)) → is_Some (active p')) →
  own_step player w (setPlayer player p' w).
Proof.
  intros Hp Ha. unfold own_step. rewrite getPlayer_setPlayer_eq.
  rewrite getPlayer_setPlayer_ne by (intros E; symmetry in E; by apply getOpponentId_ne in E).
  repeat split; done.
Qed.

Lemma own_step_drawCards player n w : own_step player w (drawCards player n w).
Proof.
  unfold drawCards. destruct (splice _ _ _ _) as [drawn rest].
  by apply own_step_setPlayer.
Qed.

Lemma own_step__playSupporter player handIndex w :
  (phase (game w) = playing → currentPlayer (game w) = player) →
  own_step player w (snd (_playSupporter player handIndex w)).
Proof.
  intros Hcur. unfold _playSupporter.
  destruct (phaseEqb (phase (game w)) setup) eqn:Hph; [apply own_step_refl|].
  destruct (hasPlayedSupporter _); [apply own_step_refl|]. cbn [orb snd].
  rewrite Hcur by (by destruct (phase (game w))).
  eapply own_step_trans; [apply own_step_drawCards|].
  by apply own_step_setPlayer.
Qed.

Lemma own_step__playCoachWhistle player handIndex w :
  own_step player w (snd (_playCoachWhistle player handIndex w)).
Proof.
  unfold _playCoachWhistle. destruct (phaseEqb _ _); [apply own_step_refl|].
  set (p := getPlayer player w).
  set (p1 := set_hand _ p).
  set (pick := if decide (0 < length (basicIndicesFrom 0 (deck p1))) then _ else _).
  assert (H2 : points (fst pick) = points p ∧ active (fst pick) = active p).
  { unfold pick. destruct (decide _); [|done].
    destruct (randomBelow _ _) as [k rs].
    destruct (basicIndicesFrom 0 (deck p1) !! k) as [randomIndex|]; [|done].
    destruct (splice _ _ _ _) as [drawn rest]. done. }
  destruct pick as [p2 rs]. cbn [fst] in H2. destruct H2 as [H2 H3].
  destruct (shuffle (deck p2) rs) as [shuffled rs']. cbn [snd].
  eapply own_step_trans; [|by apply own_step_same_game].
  apply own_step_setPlayer; fold p; cbn [points active set_deck]; [done|].
  by rewrite H3.
Qed.

Lemma own_step__playBasic player handIndex w :
  own_step player w (snd (_playBasic player handIndex w)).
Proof.
  unfold _playBasic. set (p := getPlayer player w).
  destruct (splice (hand p) handIndex (Some 1) []) as [removed hand1].
  destruct removed as [|c removed]; [apply own_step_refl|].
  cbn [active set_hand].
  destruct (active p) as [a|] eqn:Ha; cbn [snd].
  - destruct (indexOfNull _ =? -1)%Z; cbn [snd];
      (apply own_step_setPlayer; fold p; cbn; [done|by rewrite Ha]).
  - apply own_step_setPlayer; fold p; cbn; [done|]. by rewrite Ha; intros [? ?].
Qed.

Lemma own_step_playCard player handIndex w :
  own_step player w (playCard player handIndex w).
Proof.
  unfold playCard.
  destruct (gameOver (game w)); [apply own_step_refl|]. cbn [orb].
  destruct (phaseEqb (phase (game w)) playing && _) eqn:Hg; [apply own_step_refl|].
  destruct (jsGet _ _) as [card|]; [|apply own_step_refl].
  set (r := if truthy (isSupporter card) then _ else _).
  assert (Hr : own_step player w (snd r)).
  { unfold r. repeat case_match; try apply own_step_refl.
    - apply own_step__playSupporter. intros Hp. rewrite Hp in Hg. cbn in Hg.
      apply negb_false_iff, playerEqb_eq in Hg. done.
    - apply own_step__playCoachWhistle.
    - apply own_step__playBasic. }
  destruct r as [[] w']; cbn [snd] in Hr; [|done].
  eapply own_step_trans; [exact Hr|apply own_step_update].
Qed.

Lemma own_step__performEvolution player evolvedCard targetCard tidx w :
  targetAt (getPlayer player w) tidx = Some targetCard →
  own_step player w (_performEvolution player evolvedCard targetCard tidx w).
Proof.
  intros Ht. unfold _performEvolution.
  eapply own_step_trans; [|apply own_step_update].
  destruct (tidx =? -1)%Z; by apply own_step_setPlayer.
Qed.

Lemma own_step_evolve player handIndex tidx w :
  own_step player w (evolve player handIndex tidx w).
Proof.
  unfold evolve. set (p := getPlayer player w).
  destruct (targetAt p tidx) as [targetCard|] eqn:Ht; [|apply own_step_refl].
  destruct (jsGet (hand p) handIndex) as [handCard|]; [|apply own_step_refl].
  destruct (_ || _); [apply own_step_refl|].
  destruct (splice _ _ _ _) as [removed hand'].
  destruct removed as [|evolvedCard removed]; [apply own_step_refl|].
  eapply own_step_trans; [by apply (own_step_setPlayer player (set_hand hand' p))|].
  apply own_step__performEvolution. by rewrite getPlayer_setPlayer_eq.
Qed.

Lemma own_step_playChickenNugget player handIndex tidx w :
  own_step player w (snd (playChickenNugget player handIndex tidx w)).
Proof.
  unfold playChickenNugget. set (p := getPlayer player w).
  destruct (targetAt p tidx) as [targetCard|] eqn:Ht; [|apply own_step_refl].
  destruct (_ || _); [apply own_step_refl|].
  destruct (_ =? -1)%Z; [apply own_step_refl|].
  destruct (jsGet (hand p) _) as [evolvedCard|]; [|apply own_step_refl].
  destruct (_ <? _)%Z; cbn [snd];
    (eapply own_step_trans;
       [|apply own_step__performEvolution; by rewrite getPlayer_setPlayer_eq];
     by apply own_step_setPlayer).
Qed.

Lemma own_step_promote player benchIndex w :
  own_step player w (promote player benchIndex w).
Proof.
  unfold promote. set (p := getPlayer player w).
  destruct (gameOver (game w)); [apply own_step_refl|].
  destruct (active p) as [a|] eqn:Ha; [apply own_step_refl|].
  destruct (mjoin (jsGet (bench p) benchIndex)) as [b|] eqn:Hb; [|apply own_step_refl].
  replace (bool_decide (is_Some (@None Card))) with false by done.
  replace (bool_decide (is_Some (Some b))) with true by done.
  cbn [orb negb].
  destruct (splice _ _ _ _) as [removed bench'].
  eapply own_step_trans; [|apply own_step_update].
  apply own_step_setPlayer; fold p; [done|]. rewrite Ha. by intros [? ?].
Qed.

Lemma own_step_retreat player benchIndex w :
  own_step player w (retreat player benchIndex w).
Proof.
  unfold retreat. set (p := getPlayer player w).
  destruct (canAct player w); [|apply own_step_refl]. cbn [negb].
  destruct (active p) as [a|] eqn:Ha; [|apply own_step_refl].
  destruct (mjoin (jsGet (bench p) benchIndex)) as [b|] eqn:Hb; [|apply own_step_refl].
  eapply own_step_trans; [|apply own_step_update].
  by apply own_step_setPlayer.
Qed.
(** ** [attack], case by case *)

(** With both active creatures in place [attack] is one of three calls on
    a world in which the damage has been dealt. *)
Lemma attack_both_active (w : World) (pa oa : Card) :
  let cur := currentPlayer (game w) in
  let opp := getOpponentId cur in
  let left := (orZero (hp oa) - orZero (attackDamage pa))%Z in
  let gain := (if truthy (isEx oa) then 2 else 1)%Z in
  let hit := setPlayer opp (set_active (Some (set_hp (Some left) oa)) (getPlayer opp w)) w in
  let out :=
    setPlayer opp (set_active None (getPlayer opp w))
      (setPlayer cur (set_points (points (getPlayer cur w) + gain) (getPlayer cur w)) w) in
  canAct cur w = true →
  active (getPlayer cur w) = Some pa →
  active (getPlayer opp w) = Some oa →
  attack w =
    if (left <=? 0)%Z then
      if (3 <=? points (getPlayer cur w) + gain)%Z
         || negb (some (λ c : option Card, bool_decide (is_Some c)) (bench (getPlayer opp w)))
      then endGame cur out
      else endTurn out
    else endTurn hit.
Proof.
  intros cur opp left gain hit out Hcan Hpa Hoa.
  unfold attack. fold cur. rewrite Hcan. cbn [negb].
  unfold getOpponent. fold opp. rewrite Hpa, Hoa.
  cbn [hp set_hp isEx]. rewrite orZero_Some. fold left gain hit.
  destruct (left <=? 0)%Z; [|done].
  assert (Hne : opp ≠ cur) by apply getOpponentId_ne.
  assert (Hout : setPlayer opp (set_active None (getPlayer opp (setPlayer cur
                   (set_points (points (getPlayer cur hit) + gain) (getPlayer cur hit)) hit)))
                   (setPlayer cur (set_points (points (getPlayer cur hit) + gain)
                                     (getPlayer cur hit)) hit) = out).
  { unfold out, hit. rewrite !(getPlayer_setPlayer_ne opp cur) by done.
    rewrite (getPlayer_setPlayer_ne cur opp) by done.
    rewrite getPlayer_setPlayer_eq.
    unfold opp. destruct cur; reflexivity. }
  rewrite Hout.
  assert (Hpts : points (getPlayer cur out) = (points (getPlayer cur w) + gain)%Z).
  { unfold out. rewrite getPlayer_setPlayer_ne by done.
    by rewrite getPlayer_setPlayer_eq. }
  assert (Hb : bench (getPlayer opp out) = bench (getPlayer opp w)).
  { unfold out. by rewrite getPlayer_setPlayer_eq. }
  by rewrite Hpts, Hb.
Qed.
(** ** Points and the end of the match *)

Lemma attack_idle w :
  let cur := currentPlayer (game w) in
  canAct cur w = false ∨ active (getPlayer cur w) = None
  ∨ active (getPlayer (getOpponentId cur) w) = None →
  attack w = w.
Proof.
  intros cur H. unfold attack, getOpponent. fold cur.
  destruct (canAct cur w); [|done]. cbn [negb].
  destruct H as [?|[->| ->]]; [done|done|]. by destruct (active _).
Qed.

Lemma own_step_game player w w' :
  own_step player w w' →
  phase (game w') = phase (game w)
  ∧ currentPlayer (game w') = currentPlayer (game w)
  ∧ gameOver (game w') = gameOver (game w)
  ∧ winner (game w') = winner (game w)
  ∧ turnCount (game w') = turnCount (game w)
  ∧ setupReady (game w') = setupReady (game w).
Proof. intros (-> & _). done. Qed.

Lemma own_step_points player w w' pl :
  own_step player w w' → points (getPlayer pl w') = points (getPlayer pl w).
Proof.
  intros (_ & _ & Hopp & Hown & _).
  destruct (decide (pl = player)) as [->|Hne]; [done|].
  replace pl with (getOpponentId player) by (by destruct pl, player).
  by rewrite Hopp.
Qed.

Lemma scores_consistent_frame w w' :
  gameOver (game w') = gameOver (game w) →
  winner (game w') = winner (game w) →
  (∀ pl, points (getPlayer pl w') = points (getPlayer pl w)) →
  (gameOver (game w) = true →
   ∀ pl, active (getPlayer pl w') = active (getPlayer pl w)
         ∧ bench (getPlayer pl w') = bench (getPlayer pl w)) →
  scores_consistent w → scores_consistent w'.
Proof.
  intros Ho Hw Hp Hb (S1 & S2 & S3). unfold scores_consistent, no_creature.
  rewrite Ho, Hw. split; [|split].
  - intros pl. rewrite Hp. apply S1.
  - intros Hrun. destruct (S2 Hrun) as [? Hle]. split; [done|].
    intros pl. rewrite Hp. apply Hle.
  - intros Hover. destruct (S3 Hover) as (who & ? & ? & Hwin).
    exists who. rewrite !Hp. destruct (Hb Hover (getOpponentId who)) as [-> ->].
    done.
Qed.

Lemma startTurn_scores q w :
  gameOver (game (startTurn q w)) = gameOver (game w)
  ∧ winner (game (startTurn q w)) = winner (game w)
  ∧ ∀ pl, points (getPlayer pl (startTurn q w)) = points (getPlayer pl w)
          ∧ active (getPlayer pl (startTurn q w)) = active (getPlayer pl w)
          ∧ bench (getPlayer pl (startTurn q w)) = bench (getPlayer pl w).
Proof.
  pose proof (startTurn_frame q w) as Hf. cbn zeta in Hf.
  destruct Hf as (_ & _ & _ & Ho & Hw & _ & _ & _ & _ & Hpl & _).
  repeat split; try done; apply Hpl.
Qed.

Lemma scores_consistent_startTurn q w :
  scores_consistent w → scores_consistent (startTurn q w).
Proof.
  destruct (startTurn_scores q w) as (Ho & Hw & Hpl).
  apply scores_consistent_frame; try done.
  - intros pl. apply Hpl.
  - intros _ pl. split; apply Hpl.
Qed.

Lemma scores_consistent_endTurn w :
  scores_consistent w → scores_consistent (endTurn w).
Proof.
  unfold endTurn. destruct (gameOver (game w)); [done|].
  apply scores_consistent_startTurn.
Qed.

Lemma scores_consistent_attack w :
  scores_consistent w → scores_consistent (attack w).
Proof.
  intros Hs. set (cur := currentPlayer (game w)).
  destruct (canAct cur w) eqn:Hcan; [|by rewrite attack_idle by (by left)].
  destruct (active (getPlayer cur w)) as [pa|] eqn:Hpa;
    [|by rewrite attack_idle by (right; by left)].
  destruct (active (getPlayer (getOpponentId cur) w)) as [oa|] eqn:Hoa;
    [|by rewrite attack_idle by (right; by right)].
  rewrite (attack_both_active w pa oa) by done. fold cur.
  apply canAct_true in Hcan as (_ & _ & Hrun).
  set (opp := getOpponentId cur).
  assert (Hne : opp ≠ cur) by apply getOpponentId_ne.
  pose proof Hs as (S1 & S2 & _). destruct (S2 Hrun) as [Hnow Hle].
  set (gain := (if truthy (isEx oa) then 2 else 1)%Z).
  assert (Hgain : (1 ≤ gain ≤ 2)%Z) by (unfold gain; destruct (truthy _); lia).
  set (out := setPlayer opp _ (setPlayer cur _ w)).
  assert (Hout : points (getPlayer cur out) = (points (getPlayer cur w) + gain)%Z
                 ∧ points (getPlayer opp out) = points (getPlayer opp w)
                 ∧ active (getPlayer opp out) = None
                 ∧ bench (getPlayer opp out) = bench (getPlayer opp w)
                 ∧ gameOver (game out) = false ∧ winner (game out) = None).
  { unfold out. rewrite getPlayer_setPlayer_eq.
    rewrite (getPlayer_setPlayer_ne opp cur) by done. rewrite getPlayer_setPlayer_eq.
    autorewrite with frame. done. }
  destruct Hout as (Hpc & Hpo & Hao & Hbo & Hro & Hwo).
  assert (Hpl : ∀ P : PlayerId → Prop, P cur → P opp → ∀ pl, P pl).
  { intros P Hc Ho pl. unfold opp in *. destruct pl, cur; done. }
  destruct (_ <=? 0)%Z.
  - destruct (Z.leb_spec 3 (points (getPlayer cur w) + gain)) as [Hwin|Hnot]; cbn [orb].
    + (* three points *)
      destruct (endGame_frame cur out) as (Hg & Hov & Hw & _).
      unfold scores_consistent. rewrite Hov, Hw. split; [|split; [done|]].
      * apply Hpl; rewrite Hg, ?Hpc, ?Hpo; [specialize (Hle cur) | ];
          pose proof (S1 cur); pose proof (S1 opp); lia.
      * intros _. exists cur. fold opp. rewrite !Hg, Hpc, Hpo.
        split; [done|]. split; [apply Hle|]. by left.
    + destruct (some _ _) eqn:Hbench; cbn [negb].
      * (* the turn passes *)
        apply scores_consistent_endTurn.
        unfold scores_consistent. rewrite Hro, Hwo. split; [|split; [|done]].
        -- apply Hpl; rewrite ?Hpc, ?Hpo; pose proof (S1 cur); pose proof (S1 opp); lia.
        -- intros _. split; [done|].
           apply Hpl; rewrite ?Hpc, ?Hpo; [lia|apply Hle].
      * (* nothing left on the bench *)
        destruct (endGame_frame cur out) as (Hg & Hov & Hw & _).
        unfold scores_consistent. rewrite Hov, Hw. split; [|split; [done|]].
        -- apply Hpl; rewrite Hg, ?Hpc, ?Hpo;
             pose proof (S1 cur); pose proof (S1 opp); lia.
        -- intros _. exists cur. fold opp. rewrite !Hg, Hpc, Hpo.
           split; [done|]. split; [apply Hle|]. right.
           split; [done|]. rewrite Hbo. by apply some_occupied_false.
  - set (hit := setPlayer opp _ w).
    apply scores_consistent_endTurn.
    apply (scores_consistent_frame w); try done.
    + intros pl. unfold hit. destruct (decide (pl = opp)) as [->|Hpl'].
      * by rewrite getPlayer_setPlayer_eq.
      * by rewrite getPlayer_setPlayer_ne.
    + intros Hover. congruence.
Qed.
Lemma scores_consistent_own player w w' :
  gameOver (game w) = false → own_step player w w' →
  scores_consistent w → scores_consistent w'.
Proof.
  intros Hrun Hown. destruct (own_step_game _ _ _ Hown) as (_ & _ & Ho & Hw & _).
  apply scores_consistent_frame; try done; [|congruence].
  intros pl. by eapply own_step_points.
Qed.

Lemma scores_consistent_setPlayerReady player w :
  scores_consistent w → scores_consistent (setPlayerReady player w).
Proof.
  intros Hs. unfold setPlayerReady. destruct (_ || _); [done|].
  set (w1 := set_game _ w). destruct (_ && _).
  - apply scores_consistent_startTurn. by apply (scores_consistent_frame w).
  - by apply (scores_consistent_frame w).
Qed.

Lemma scores_consistent_exec op w w' :
  over_consistent w → exec op w = Some w' →
  scores_consistent w → scores_consistent w'.
Proof.
  intros [Hphase _] Hexec Hs.
  destruct (isMove op) eqn:Hmove.
  2: { destruct op; try done. cbn [exec] in Hexec.
       destruct (initializeGame_spec _ _ _ Hexec)
         as (cs1 & cs2 & ctr & _ & _ & _ & _ & Hpl & Hg & _).
       apply (scores_consistent_frame w); try done; try (by rewrite Hg).
       - intros pl. apply Hpl.
       - intros _ pl. split; apply Hpl. }
  destruct (gameOver (game w)) eqn:Hover.
  { rewrite (game_over_move op w) in Hexec by auto. by injection Hexec as <-. }
  destruct op; try done; injection Hexec as <-.
  - by apply scores_consistent_setPlayerReady.
  - by apply scores_consistent_endTurn.
  - eapply scores_consistent_own; [done|apply own_step_playCard|done].
  - eapply scores_consistent_own; [done|apply own_step_playChickenNugget|done].
  - eapply scores_consistent_own; [done|apply own_step_evolve|done].
  - by apply scores_consistent_attack.
  - eapply scores_consistent_own; [done|apply own_step_promote|done].
  - eapply scores_consistent_own; [done|apply own_step_retreat|done].
Qed.

Lemma reachable_scores w : reachable w → scores_consistent w.
Proof.
  induction 1 as [rs|op w w' Hr IH Hexec].
  - unfold scores_consistent. cbn. repeat split; try done; destruct pl; cbn; lia.
  - eapply scores_consistent_exec; [|done..]. by apply reachable_invariants.
Qed.

(** X3.  In every state a run of the public operations can reach: each
    player's points are between 0 and 4; while the match runs there is no
    winner and nobody has 3 points; once it is over there is a winner, the
    loser has fewer than 3 points, and the winner has at least 3 points or
    the loser has no creature left in play. *)
Theorem points_and_winner (w : World) :
  reachable w →
  (∀ pl, (0 ≤ points (getPlayer pl w) ≤ 4)%Z)
  ∧ (gameOver (game w) = false →
     winner (game w) = None ∧ ∀ pl, (points (getPlayer pl w) ≤ 2)%Z)
  ∧ (gameOver (game w) = true →
     ∃ who,
       winner (game w) = Some who
       ∧ (points (getPlayer (getOpponentId who) w) ≤ 2)%Z
       ∧ ((3 ≤ points (getPlayer who w))%Z
          ∨ (active (getPlayer (getOpponentId who) w) = None
             ∧ Forall (λ c, c = None) (bench (getPlayer (getOpponentId who) w))))).
Proof. apply reachable_scores. Qed.
Lemma points_and_winner_witness :
  let w := worldAfter (openingA ++ [OpAttack; OpAttack; OpAttack; OpAttack; OpAttack])
             oracleA in
  gameOver (game w) = true
  ∧ points (getPlayer P1 w) = 1%Z
  ∧ ∃ who,
      winner (game w) = Some who
      ∧ (points (getPlayer (getOpponentId who) w) ≤ 2)%Z
      ∧ ((3 ≤ points (getPlayer who w))%Z
         ∨ (active (getPlayer (getOpponentId who) w) = None
            ∧ Forall (λ c, c = None) (bench (getPlayer (getOpponentId who) w)))).
Proof.
  intros w.
  assert (Hover : gameOver (game w) = true) by (vm_compute; reflexivity).
  split; [exact Hover|]. split; [vm_compute; reflexivity|].
  exact (proj2 (proj2 (points_and_winner w (reachable_worldAfter _ _))) Hover).
Defined.
(** ** Card instances *)

(** X4.  In every reachable state the card instances in the decks, hands,
    active slots and benches of both players carry pairwise different
    identity tokens, all of them issued by the counter: no instance is in two
    places at once. *)
Theorem card_instances_are_distinct (w : World) :
  reachable w →
  NoDup (uid <$> allCards w)
  ∧ Forall (λ c, ∃ n, n < cardUidCounter w ∧ uid c = Some (stringOfNat n)) (allCards w).
Proof.
  intros [[Hnd Hall] _]%reachable_invariants. split; [done|].
  unfold uids in Hall. by rewrite Forall_fmap in Hall.
Qed.

Lemma card_instances_are_distinct_witness :
  let w := worldAfter (openingA ++ [OpPlayCard P1 0; OpAttack]) oracleA in
  length (allCards w) = 39 ∧ NoDup (uid <$> allCards w).
Proof.
  intros w. split; [vm_compute; reflexivity|].
  exact (proj1 (card_instances_are_distinct w (reachable_worldAfter _ _))).
Defined.

Lemma move_keeps_cards op w w' pl :
  isMove op = true → exec op w = Some w' →
  playerUids (getPlayer pl w') ⊆+ playerUids (getPlayer pl w).
Proof.
  intros Hm He.
  destruct (exec_move_summary _ _ _ Hm He) as [L|[T|E]].
  - apply L.
  - apply T.
  - apply E.
Qed.

(** X5.  The moves of a match (every public operation but
    [initializeGame]) create no card and move none to the other side: after
    any sequence of moves the instances a player holds in deck, hand, active
    slot and bench are among those the player held before, so their number
    never grows. *)
Theorem moves_only_remove_cards (ops : list Op) (w w' : World) (pl : PlayerId) :
  Forall (λ op, isMove op = true) ops →
  execAll ops w = Some w' →
  uid <$> zoneCards (getPlayer pl w') ⊆+ uid <$> zoneCards (getPlayer pl w)
  ∧ length (zoneCards (getPlayer pl w')) ≤ length (zoneCards (getPlayer pl w)).
Proof.
  intros Hops Hexec.
  assert (H : playerUids (getPlayer pl w') ⊆+ playerUids (getPlayer pl w)).
  { revert w Hexec. induction Hops as [|op ops Hop _ IH]; intros w Hexec.
    - by injection Hexec as <-.
    - cbn [execAll] in Hexec. destruct (exec op w) as [w1|] eqn:H1; [|done].
      etrans; [by apply IH|]. by eapply move_keeps_cards. }
  split; [exact H|].
  apply submseteq_length in H. unfold playerUids in H. by rewrite !length_fmap in H.
Qed.

Lemma moves_only_remove_cards_witness :
  let w := worldAfter [OpInitializeGame 1] oracleA in
  let ops := [ OpPlayCard P1 1; OpPlayCard P2 4; OpSetPlayerReady P1; OpSetPlayerReady P2;
               OpPlayCard P1 0; OpAttack; OpAttack ] in
  length (zoneCards (getPlayer P1 w)) = 20
  ∧ ∃ w', execAll ops w = Some w'
          ∧ length (zoneCards (getPlayer P1 w')) = 19
          ∧ length (zoneCards (getPlayer P1 w')) ≤ length (zoneCards (getPlayer P1 w)).
Proof.
  intros w ops. split; [vm_compute; reflexivity|].
  set (w' := default w (execAll ops w)).
  assert (Hexec : execAll ops w = Some w') by (vm_compute; reflexivity).
  exists w'. split; [exact Hexec|]. split; [vm_compute; reflexivity|].
  refine (proj2 (moves_only_remove_cards ops w w' P1 _ Hexec)).
  repeat constructor.
Defined.
(** ** What [initializeGame] leaves alone *)

(** X6.  [initializeGame] deals, it does not reset: phase, current player,
    turn counter, [gameOver], winner and the ready flags are as before, and
    so are every player's active creature, bench, points and supporter flag.
    The old deck is dropped, the old hand goes into the new deck, 40 identity
    tokens are used and the one event [gameInitialized] is emitted. *)
Theorem initializeGame_is_no_reset (fuel : nat) (w w' : World) :
  initializeGame fuel w = Some w' →
  phase (game w') = phase (game w)
  ∧ currentPlayer (game w') = currentPlayer (game w)
  ∧ turnCount (game w') = turnCount (game w)
  ∧ gameOver (game w') = gameOver (game w)
  ∧ winner (game w') = winner (game w)
  ∧ setupReady (game w') = setupReady (game w)
  ∧ (∀ pl, active (getPlayer pl w') = active (getPlayer pl w)
           ∧ bench (getPlayer pl w') = bench (getPlayer pl w)
           ∧ points (getPlayer pl w') = points (getPlayer pl w)
           ∧ hasPlayedSupporter (getPlayer pl w') = hasPlayedSupporter (getPlayer pl w)
           ∧ length (hand (getPlayer pl w')) = 5
           ∧ length (deck (getPlayer pl w')) = 15 + length (hand (getPlayer pl w)))
  ∧ cardUidCounter w' = cardUidCounter w + 40
  ∧ events w' = events w ++ [gameInitialized].
Proof.
  intros Hi.
  destruct (initializeGame_spec _ _ _ Hi)
    as (cs1 & cs2 & ctr & H1 & H2 & Hl1 & Hl2 & Hpl & Hg & He).
  rewrite Hg. repeat split; try done; try apply Hpl.
  - destruct (Hpl pl) as (Hh & _ & Hperm & _).
    apply Permutation_length in Hperm. rewrite !length_app, Hh in Hperm.
    destruct pl; lia.
  - apply expandDeck_spec in H1 as [-> _]. apply expandDeck_spec in H2 as [-> _]. lia.
Qed.

Lemma initializeGame_is_no_reset_witness :
  let w := worldAfter (openingA ++ [OpAttack; OpAttack; OpAttack; OpAttack; OpAttack])
             oracleA in
  (gameOver (game w), phase (game w), turnCount (game w)) = (true, playing, 5%Z)
  ∧ length (hand (getPlayer P2 w)) = 6
  ∧ ∃ w', initializeGame 3 w = Some w'
          ∧ gameOver (game w') = gameOver (game w)
          ∧ phase (game w') = phase (game w)
          ∧ turnCount (game w') = turnCount (game w)
          ∧ length (deck (getPlayer P2 w')) = 15 + length (hand (getPlayer P2 w)).
Proof.
  intros w. split; [vm_compute; reflexivity|]. split; [vm_compute; reflexivity|].
  set (w' := default w (initializeGame 3 w)).
  assert (Hi : initializeGame 3 w = Some w') by (vm_compute; reflexivity).
  exists w'. split; [exact Hi|].
  destruct (initializeGame_is_no_reset 3 w w' Hi) as (Hp & _ & Ht & Ho & _ & _ & Hpl & _).
  destruct (Hpl P2) as (_ & _ & _ & _ & _ & Hd).
  exact (conj Ho (conj Hp (conj Ht Hd))).
Defined.

(** ** The course of a match *)

Lemma exec_never_back op w w' :
  exec op w = Some w' →
  (phase (game w) = playing → phase (game w') = playing)
  ∧ (gameOver (game w) = true → gameOver (game w') = true).
Proof.
  intros He. destruct (isMove op) eqn:Hm.
  - destruct (exec_move_summary _ _ _ Hm He) as [L|[T|E]].
    + destruct L as (_ & _ & -> & -> & _). done.
    + destruct T as (_ & [-> | ->] & -> & _); done.
    + destruct E as (_ & _ & _ & -> & _ & -> & _). done.
  - destruct op; try done. cbn [exec] in He.
    destruct (initializeGame_spec _ _ _ He) as (? & ? & ? & _ & _ & _ & _ & _ & -> & _).
    done.
Qed.

(** X7.  A match only moves forward: along any sequence of public
    operations the turn counter never decreases, a match that has left the
    setup phase never returns to it, and a match that is over stays over. *)
Theorem match_only_moves_forward (ops : list Op) (w w' : World) :
  execAll ops w = Some w' →
  (turnCount (game w) ≤ turnCount (game w'))%Z
  ∧ (phase (game w) = playing → phase (game w') = playing)
  ∧ (gameOver (game w) = true → gameOver (game w') = true).
Proof.
  revert w. induction ops as [|op ops IH]; intros w He.
  - injection He as <-. split; [lia|done].
  - cbn [execAll] in He. destruct (exec op w) as [w1|] eqn:H1; [|done].
    destruct (IH _ He) as (Ht & Hp & Ho).
    destruct (exec_turn_monotone _ _ _ H1) as [Ht1 _].
    destruct (exec_never_back _ _ _ H1) as [Hp1 Ho1].
    split; [lia|]. split; auto.
Qed.

Lemma match_only_moves_forward_witness :
  let w := worldAfter openingA oracleA in
  let ops := [OpEndTurn; OpInitializeGame 3; OpSetPlayerReady P1; OpAttack] in
  (phase (game w), turnCount (game w)) = (playing, 1%Z)
  ∧ ∃ w', execAll ops w = Some w'
          ∧ (turnCount (game w) ≤ turnCount (game w'))%Z
          ∧ phase (game w') = playing.
Proof.
  intros w ops. split; [vm_compute; reflexivity|].
  set (w' := default w (execAll ops w)).
  assert (Hexec : execAll ops w = Some w') by (vm_compute; reflexivity).
  assert (Hplaying : phase (game w) = playing) by (vm_compute; reflexivity).
  exists w'. split; [exact Hexec|].
  destruct (match_only_moves_forward ops w w' Hexec) as (Ht & Hp & _).
  exact (conj Ht (Hp Hplaying)).
Defined.
(** ** Drawing cards *)

Lemma drawCards_positive player (n : nat) w :
  0 < n →
  let p := getPlayer player w in
  drawCards player (Z.of_nat n) w
  = setPlayer player
      (set_hand (hand p ++ drop (length (deck p) - n) (deck p))
         (set_deck (take (length (deck p) - n) (deck p)) p)) w.
Proof.
  intros Hn p. unfold drawCards. fold p. by rewrite splice_last.
Qed.

(** X8.  [drawCards(player, n)] for [n >= 1] moves the last [n] cards of
    the deck, in their order, to the end of the hand, and all of the deck
    when it holds fewer; an empty deck gives nothing and is no error.  For
    [n = 0] the argument of [splice] is [-0], which removes from position 0:
    the whole deck is drawn.  Nothing else changes. *)
Theorem drawCards_takes_the_end_of_the_deck (player : PlayerId) (n : nat) (w : World) :
  let p := getPlayer player w in
  let w' := drawCards player (Z.of_nat n) w in
  let p' := getPlayer player w' in
  let k := if decide (n = 0) then length (deck p) else Nat.min n (length (deck p)) in
  deck p' = take (length (deck p) - k) (deck p)
  ∧ hand p' = hand p ++ drop (length (deck p) - k) (deck p)
  ∧ length (hand p') = length (hand p) + k
  ∧ active p' = active p ∧ bench p' = bench p ∧ points p' = points p
  ∧ hasPlayedSupporter p' = hasPlayedSupporter p
  ∧ getPlayer (getOpponentId player) w' = getPlayer (getOpponentId player) w
  ∧ game w' = set_players (players (game w')) (game w)
  ∧ events w' = events w ∧ random w' = random w.
Proof.
  intros p w' p' k.
  assert (Hne : player ≠ getOpponentId player)
    by (intros E; symmetry in E; by apply getOpponentId_ne in E).
  assert (Hw' : w' = setPlayer player
                       (set_hand (hand p ++ drop (length (deck p) - k) (deck p))
                          (set_deck (take (length (deck p) - k) (deck p)) p)) w).
  { unfold w', k. destruct (decide (n = 0)) as [->|Hn].
    - unfold drawCards. fold p. change (- Z.of_nat 0)%Z with 0%Z.
      rewrite splice_all, Nat.sub_diag. by rewrite drop_0.
    - rewrite drawCards_positive by lia. fold p.
      by replace (length (deck p) - n `min` length (deck p))
        with (length (deck p) - n) by lia. }
  unfold p'. rewrite Hw', getPlayer_setPlayer_eq, getPlayer_setPlayer_ne by done.
  cbn [deck hand active bench points hasPlayedSupporter set_hand set_deck].
  repeat split; try done.
  rewrite length_app, length_drop.
  assert (k ≤ length (deck p)) by (unfold k; destruct (decide _); lia). lia.
Qed.
Lemma startTurn_draw q w :
  let p := getPlayer q w in
  let k := if (1 <=? turnCount (game w))%Z then Nat.min 1 (length (deck p)) else 0 in
  getPlayer q (startTurn q w)
  = set_hasPlayedSupporter false
      (set_hand (hand p ++ drop (length (deck p) - k) (deck p))
         (set_deck (take (length (deck p) - k) (deck p)) p)).
Proof.
  intros p k. unfold startTurn. cbn zeta.
  change (currentPlayer (game (set_game _ w))) with q.
  set (w1 := set_game _ w).
  set (w2 := setPlayer q _ w1).
  change (turnCount (game w2)) with (turnCount (game w) + 1)%Z.
  change (getPlayer q (update (notify (turnStarted q) ?v))) with (getPlayer q v).
  assert (Hp2 : getPlayer q w2 = set_hasPlayedSupporter false p).
  { unfold w2. by rewrite getPlayer_setPlayer_eq. }
  unfold k. destruct (Z.ltb_spec 1 (turnCount (game w) + 1));
    destruct (Z.leb_spec 1 (turnCount (game w))); try lia.
  - pose proof (drawCards_positive q 1 w2 ltac:(lia)) as Hd. cbn zeta in Hd.
    change (Z.of_nat 1) with 1%Z in Hd. rewrite Hd.
    rewrite getPlayer_setPlayer_eq, Hp2.
    cbn [deck hand set_hasPlayedSupporter].
    replace (length (deck p) - 1 `min` length (deck p)) with (length (deck p) - 1) by lia.
    done.
  - change (getPlayer q (update (notify (turnStarted q) w2))) with (getPlayer q w2).
    rewrite Hp2, Nat.sub_0_r, take_ge, drop_ge, app_nil_r by lia.
    by destruct p.
Qed.

(** X9.  [endTurn], while the match is not over, hands the turn to the
    opponent in any phase (the setup phase included): the turn counter goes
    up by one, the new current player's supporter flag is cleared and, from
    the second turn on, that player draws the last card of the deck.  With
    an empty deck nothing is drawn and the match goes on.  The player who
    ended the turn is untouched, and two events are emitted. *)
Theorem endTurn_passes_the_turn (w : World) :
  gameOver (game w) = false →
  let next := getOpponentId (currentPlayer (game w)) in
  let p := getPlayer next w in
  let w' := endTurn w in
  let p' := getPlayer next w' in
  let k := if (1 <=? turnCount (game w))%Z then Nat.min 1 (length (deck p)) else 0 in
  currentPlayer (game w') = next
  ∧ turnCount (game w') = (turnCount (game w) + 1)%Z
  ∧ phase (game w') = phase (game w)
  ∧ gameOver (game w') = false
  ∧ hasPlayedSupporter p' = false
  ∧ deck p' = take (length (deck p) - k) (deck p)
  ∧ hand p' = hand p ++ drop (length (deck p) - k) (deck p)
  ∧ active p' = active p ∧ bench p' = bench p ∧ points p' = points p
  ∧ getPlayer (currentPlayer (game w)) w' = getPlayer (currentPlayer (game w)) w
  ∧ events w' = events w ++ [turnStarted next; gameStateUpdated].
Proof.
  intros Hrun. cbn zeta. rewrite endTurn_running by done.
  set (next := getOpponentId (currentPlayer (game w))).
  pose proof (startTurn_frame next w) as Hf. cbn zeta in Hf.
  destruct Hf as (Hc & Ht & Hp & Ho & _ & _ & He & _ & _ & _ & _ & _ & Hopp).
  pose proof (startTurn_draw next w) as Hd. cbn zeta in Hd. rewrite Hd.
  replace (getOpponentId next) with (currentPlayer (game w)) in Hopp
    by (unfold next; by destruct (currentPlayer (game w))).
  rewrite Hc, Ht, Hp, Ho, He, Hopp. repeat split; done.
Qed.

Lemma endTurn_passes_the_turn_witness :
  let w := worldAfter (openingA ++ replicate 28 OpEndTurn) oracleA in
  let w' := endTurn w in
  (currentPlayer (game w), turnCount (game w)) = (P1, 29%Z)
  ∧ (length (deck (getPlayer P2 w)), length (hand (getPlayer P2 w))) = (1, 18)
  ∧ (length (deck (getPlayer P2 w')), length (hand (getPlayer P2 w'))) = (0, 19)
  ∧ (length (deck (getPlayer P2 (endTurn (endTurn w')))),
     length (hand (getPlayer P2 (endTurn (endTurn w'))))) = (0, 19)
  ∧ currentPlayer (game w') = getOpponentId (currentPlayer (game w))
  ∧ turnCount (game w') = (turnCount (game w) + 1)%Z
  ∧ gameOver (game w') = false.
Proof.
  intros w w'.
  assert (Hrun : gameOver (game w) = false) by (vm_compute; reflexivity).
  pose proof (endTurn_passes_the_turn w Hrun) as H. cbn zeta in H.
  destruct H as (Hc & Ht & _ & Ho & _).
  split; [vm_compute; reflexivity|].
  split; [vm_compute; reflexivity|].
  split; [vm_compute; reflexivity|].
  split; [vm_compute; reflexivity|].
  exact (conj Hc (conj Ht Ho)).
Defined.
(** ** Declaring ready *)

Lemma setPlayerReady_cases (player : PlayerId) (w : World) :
  let other := getOpponentId player in
  let w' := setPlayerReady player w in
  (phase (game w) = playing ∨ active (getPlayer player w) = None → w' = w)
  ∧ (phase (game w) = setup → is_Some (active (getPlayer player w)) →
     (sel other (setupReady (game w)) = false →
      game w' = set_setupReady (upd player true (setupReady (game w))) (game w)
      ∧ events w' = events w ++ [gameStateUpdated])
     ∧ (sel other (setupReady (game w)) = true →
        phase (game w') = playing
        ∧ currentPlayer (game w') = P1
        ∧ turnCount (game w') = (turnCount (game w) + 1)%Z
        ∧ setupReady (game w') = mkPer true true
        ∧ gameOver (game w') = gameOver (game w)
        ∧ winner (game w') = winner (game w)
        ∧ hasPlayedSupporter (getPlayer P1 w') = false
        ∧ getPlayer P2 w' = getPlayer P2 w
        ∧ ((turnCount (game w) ≤ 0)%Z →
           deck (getPlayer P1 w') = deck (getPlayer P1 w)
           ∧ hand (getPlayer P1 w') = hand (getPlayer P1 w))
        ∧ active (getPlayer P1 w') = active (getPlayer P1 w)
        ∧ bench (getPlayer P1 w') = bench (getPlayer P1 w)
        ∧ points (getPlayer P1 w') = points (getPlayer P1 w)
        ∧ events w' = events w ++ [turnStarted P1; gameStateUpdated])).
Proof.
  intros other w'. unfold w', setPlayerReady. split.
  - intros [Hp|Ha]; [by rewrite Hp|]. rewrite Ha.
    replace (bool_decide (is_Some (@None Card))) with false by done.
    by rewrite orb_true_r.
  - intros Hp [a Ha]. rewrite Hp, Ha.
    replace (bool_decide (is_Some (Some a))) with true by done. cbn [phaseEqb negb orb].
    set (w1 := set_game _ w).
    assert (Hready : sel P1 (setupReady (game w1)) && sel P2 (setupReady (game w1))
                     = sel other (setupReady (game w))).
    { unfold w1, other. destruct player, (setupReady (game w)) as [[] []]; done. }
    rewrite Hready. split; intros Hother; rewrite Hother; [done|].
    set (w2 := set_game (set_phase playing (game w1)) w1).
    pose proof (startTurn_frame P1 w2) as Hf. cbn zeta in Hf.
    destruct Hf as (Hc & Ht & Hph & Ho & Hw & Hs & He & _ & _ & Hpl & Hfl & _ & Hopp).
    pose proof (startTurn_draw P1 w2) as Hd. cbn zeta in Hd.
    destruct (Hpl P1) as (Hact & Hbench & Hpts).
    rewrite Hc, Ht, Hph, Ho, Hw, Hs, He, Hfl, Hact, Hbench, Hpts.
    change (getPlayer (getOpponentId P1)) with (getPlayer P2) in Hopp. rewrite Hopp.
    repeat split; try done.
    + unfold w2, w1, other in *. destruct player, (setupReady (game w)) as [[] []]; done.
    + rewrite Hd. change (turnCount (game w2)) with (turnCount (game w)).
      destruct (Z.leb_spec 1 (turnCount (game w))); [lia|].
      cbn [deck set_hasPlayedSupporter set_hand set_deck].
      rewrite Nat.sub_0_r, take_ge by lia. done.
    + rewrite Hd. change (turnCount (game w2)) with (turnCount (game w)).
      destruct (Z.leb_spec 1 (turnCount (game w))); [lia|].
      cbn [hand set_hasPlayedSupporter set_hand set_deck].
      rewrite Nat.sub_0_r, drop_ge, app_nil_r by lia. done.
Qed.

(** X10.  [setPlayerReady] does nothing outside the setup phase or for a
    player without an active creature.  Otherwise it marks the player ready;
    if the opponent is not ready yet nothing else changes, and if the
    opponent is ready the match starts: the phase becomes [playing] and the
    first turn goes to player 1, whoever declared ready last.  Player 1's
    supporter flag is cleared and, the turn counter having been 0, nobody
    draws a card. *)
Theorem setPlayerReady_starts_the_match (player : PlayerId) (w : World) :
  let other := getOpponentId player in
  let w' := setPlayerReady player w in
  (phase (game w) = playing ∨ active (getPlayer player w) = None → w' = w)
  ∧ (phase (game w) = setup → is_Some (active (getPlayer player w)) →
     (sel other (setupReady (game w)) = false →
      game w' = set_setupReady (upd player true (setupReady (game w))) (game w)
      ∧ events w' = events w ++ [gameStateUpdated])
     ∧ (sel other (setupReady (game w)) = true →
        phase (game w') = playing
        ∧ currentPlayer (game w') = P1
        ∧ turnCount (game w') = (turnCount (game w) + 1)%Z
        ∧ setupReady (game w') = mkPer true true
        ∧ gameOver (game w') = gameOver (game w)
        ∧ winner (game w') = winner (game w)
        ∧ hasPlayedSupporter (getPlayer P1 w') = false
        ∧ getPlayer P2 w' = getPlayer P2 w
        ∧ ((turnCount (game w) ≤ 0)%Z →
           deck (getPlayer P1 w') = deck (getPlayer P1 w)
           ∧ hand (getPlayer P1 w') = hand (getPlayer P1 w))
        ∧ active (getPlayer P1 w') = active (getPlayer P1 w)
        ∧ bench (getPlayer P1 w') = bench (getPlayer P1 w)
        ∧ points (getPlayer P1 w') = points (getPlayer P1 w)
        ∧ events w' = events w ++ [turnStarted P1; gameStateUpdated])).
Proof. exact (setPlayerReady_cases player w). Qed.
(** ** Retreating back *)

Lemma canAct_same_game player w w' :
  game w' = set_players (players (game w')) (game w) → canAct player w' = canAct player w.
Proof. unfold canAct. by intros ->. Qed.

Lemma retreat_swaps player benchIndex w a b :
  canAct player w = true →
  active (getPlayer player w) = Some a →
  jsGet (bench (getPlayer player w)) benchIndex = Some (Some b) →
  retreat player benchIndex w
  = update (setPlayer player
              (set_bench (<[Z.to_nat benchIndex := Some a]> (bench (getPlayer player w)))
                 (set_active (Some b) (getPlayer player w))) w).
Proof.
  intros Hcan Ha Hb. unfold retreat. rewrite Hcan, Ha, Hb. cbn [negb mjoin option_join option_bind].
  by rewrite (jsSet_in_range _ _ _ _ Hb).
Qed.

Lemma retreat_refused player benchIndex w :
  canAct player w = false ∨ active (getPlayer player w) = None
  ∨ mjoin (jsGet (bench (getPlayer player w)) benchIndex) = None →
  retreat player benchIndex w = w.
Proof.
  intros H. unfold retreat. destruct (canAct player w); [|done]. cbn [negb].
  destruct H as [?|[->| ->]]; [done|done|]. by destruct (active _).
Qed.

(** X11.  Retreating twice with the same bench position puts both
    creatures back: the game state after two calls of [retreat] is the state
    before them (a call that is refused changes nothing, and then so does the
    second). *)
Theorem retreat_twice_restores (player : PlayerId) (benchIndex : Z) (w : World) :
  let w1 := retreat player benchIndex w in
  let w2 := retreat player benchIndex w1 in
  game w2 = game w
  ∧ (w1 = w ∧ w2 = w
     ∨ events w2 = events w ++ [gameStateUpdated; gameStateUpdated]).
Proof.
  cbn zeta. set (p := getPlayer player w).
  destruct (canAct player w) eqn:Hcan;
    [|rewrite !(retreat_refused player benchIndex w) by (by left); split; [done|by left]].
  destruct (active p) as [a|] eqn:Ha;
    [|rewrite !(retreat_refused player benchIndex w) by (right; by left);
      split; [done|by left]].
  destruct (mjoin (jsGet (bench p) benchIndex)) as [b|] eqn:Hb;
    [|rewrite !(retreat_refused player benchIndex w) by (right; by right);
      split; [done|by left]].
  apply mjoin_jsGet_Some in Hb.
  rewrite (retreat_swaps player benchIndex w a b) by done. fold p.
  set (p1 := set_bench _ (set_active (Some b) p)).
  set (w1 := update (setPlayer player p1 w)).
  assert (Hp1 : getPlayer player w1 = p1) by (unfold w1; apply getPlayer_setPlayer_eq).
  assert (Hb1 : jsGet (bench p1) benchIndex = Some (Some a)).
  { unfold p1. cbn [bench set_bench].
    rewrite <- (jsSet_in_range _ _ _ _ Hb). by eapply jsGet_jsSet. }
  rewrite (retreat_swaps player benchIndex w1 b a);
    [|by rewrite (canAct_same_game player w w1)|by rewrite Hp1|by rewrite Hp1].
  rewrite Hp1.
  assert (Hback : set_bench (<[Z.to_nat benchIndex := Some b]> (bench p1))
                    (set_active (Some a) p1) = p).
  { unfold p1. cbn [bench set_bench set_active].
    rewrite list_insert_insert_eq.
    apply jsGet_Some in Hb as [_ Hb]. rewrite (list_insert_id _ _ _ Hb).
    destruct p. cbn in *. by subst. }
  rewrite Hback. split.
  - unfold w1, p. destruct player, w as [[? ? ? ? ? ? []]]; reflexivity.
  - right. cbn. by rewrite <- app_assoc.
Qed.
(** ** Placing a basic creature *)

Lemma indexOfNull_first_from (slots : list (option Card)) (k : nat) (i : Z) :
  slots !! k = Some None →
  (∀ j, j < k → ∃ c, slots !! j = Some (Some c)) →
  findIndexFrom (λ (c : option Card) (_ : Z),
                   match c with None => true | Some _ => false end) i slots
  = (i + Z.of_nat k)%Z.
Proof.
  revert k i. induction slots as [|s slots IH]; intros k i Hk Hbefore; [done|].
  destruct k as [|k]; simpl in *.
  - injection Hk as ->. lia.
  - destruct (Hbefore 0) as [c Hc]; [lia|]. injection Hc as ->.
    rewrite (IH k); [lia|done|].
    intros j Hj. apply (Hbefore (S j)). lia.
Qed.

Lemma indexOfNull_first (slots : list (option Card)) (k : nat) :
  slots !! k = Some None →
  (∀ j, j < k → ∃ c, slots !! j = Some (Some c)) →
  indexOfNull slots = Z.of_nat k.
Proof. intros Hk Hb. unfold indexOfNull, findIndex. by rewrite (indexOfNull_first_from _ k). Qed.

(** [playCard] on a plain basic creature is [_playBasic]. *)
Lemma playCard_basic player handIndex w card :
  gameOver (game w) = false →
  (phase (game w) = playing → currentPlayer (game w) = player) →
  jsGet (hand (getPlayer player w)) handIndex = Some card →
  truthy (isSupporter card) = false →
  id card ≠ "base-007" → id card ≠ "base-008" →
  truthy (isBasic card) = true →
  playCard player handIndex w
  = let '(cardWasPlayed, w') := _playBasic player handIndex w in
    if cardWasPlayed then update w' else w'.
Proof.
  intros Hover Hturn Hget Hsup H7 H8 Hbasic.
  unfold playCard. rewrite Hover. cbn [orb].
  destruct (phaseEqb (phase (game w)) playing && _) eqn:Hguard.
  { apply andb_true_iff in Hguard as [Hp%phaseEqb_eq Hc].
    rewrite (Hturn Hp) in Hc. by destruct player. }
  rewrite Hget, Hsup.
  apply String.eqb_neq in H7, H8. by rewrite H7, H8, Hbasic.
Qed.

(** X12.  [playCard] on a basic creature (not a trainer card) of a player
    who may act: the card leaves the hand, gets the current turn counter as
    [turnPlaced], and goes to the active slot if that is empty, otherwise to
    the first empty bench slot.  This works in the setup phase for either
    player and in the playing phase for the current player; nothing else
    changes, and one update is announced. *)
Theorem playCard_places_a_basic_creature (player : PlayerId) (handIndex : Z)
    (w : World) (card : Card) :
  gameOver (game w) = false →
  (phase (game w) = playing → currentPlayer (game w) = player) →
  jsGet (hand (getPlayer player w)) handIndex = Some card →
  truthy (isSupporter card) = false →
  id card ≠ "base-007" → id card ≠ "base-008" →
  truthy (isBasic card) = true →
  let p := getPlayer player w in
  let placed := set_turnPlaced (Some (turnCount (game w))) card in
  let w' := playCard player handIndex w in
  let p' := getPlayer player w' in
  let rest :=
    hand p' = delete (Z.to_nat handIndex) (hand p)
    ∧ deck p' = deck p ∧ points p' = points p
    ∧ hasPlayedSupporter p' = hasPlayedSupporter p
    ∧ getPlayer (getOpponentId player) w' = getPlayer (getOpponentId player) w
    ∧ game w' = set_players (players (game w')) (game w)
    ∧ events w' = events w ++ [gameStateUpdated] in
  (active p = None → active p' = Some placed ∧ bench p' = bench p ∧ rest)
  ∧ (∀ k, is_Some (active p) →
          bench p !! k = Some None →
          (∀ j, j < k → ∃ c, bench p !! j = Some (Some c)) →
          active p' = active p ∧ bench p' = <[k := Some placed]> (bench p) ∧ rest).
Proof.
  intros Hover Hturn Hget Hsup H7 H8 Hbasic p placed w' p' rest.
  assert (Hne : player ≠ getOpponentId player)
    by (intros E; symmetry in E; by apply getOpponentId_ne in E).
  unfold rest, p', w'. rewrite (playCard_basic _ _ _ card) by done.
  unfold _playBasic. rewrite (splice_remove_at _ _ _ Hget). fold p placed.
  cbn [active set_hand]. split.
  - intros Ha. rewrite Ha.
    change (getPlayer ?q (update ?v)) with (getPlayer q v).
    rewrite getPlayer_setPlayer_eq, getPlayer_setPlayer_ne by done.
    repeat split; done.
  - intros k [a Ha] Hk Hbefore. rewrite Ha. cbn [bench set_hand].
    rewrite (indexOfNull_first _ k Hk Hbefore).
    destruct (Z.eqb_spec (Z.of_nat k) (-1)) as [?|_]; [lia|].
    change (getPlayer ?q (update ?v)) with (getPlayer q v).
    rewrite getPlayer_setPlayer_eq, getPlayer_setPlayer_ne by done.
    cbn [active bench hand deck points hasPlayedSupporter set_bench set_hand].
    assert (Hk' : jsGet (bench p) (Z.of_nat k) = Some None).
    { apply jsGet_Some. split; [lia|]. by rewrite Nat2Z.id. }
    rewrite (jsSet_in_range _ _ _ _ Hk'), Nat2Z.id.
    repeat split; done.
Qed.

Lemma playCard_places_a_basic_creature_witness :
  let w := worldAfter [OpInitializeGame 1; OpPlayCard P1 0] oracleC in
  let w' := playCard P1 0 w in
  option_map id (jsGet (hand (getPlayer P1 w)) 0) = Some "base-003"
  ∧ option_map id (active (getPlayer P1 w)) = Some "base-003"
  ∧ bench (getPlayer P1 w) = [None; None; None]
  ∧ ∃ card,
      jsGet (hand (getPlayer P1 w)) 0 = Some card
      ∧ active (getPlayer P1 w') = active (getPlayer P1 w)
      ∧ bench (getPlayer P1 w')
        = <[0 := Some (set_turnPlaced (Some (turnCount (game w))) card)]>
            (bench (getPlayer P1 w))
      ∧ hand (getPlayer P1 w') = delete (Z.to_nat 0) (hand (getPlayer P1 w)).
Proof.
  intros w w'.
  set (card := default (mkCard "" None None None None None None None None None None None
                          None None None None) (jsGet (hand (getPlayer P1 w)) 0)).
  assert (Hget : jsGet (hand (getPlayer P1 w)) 0 = Some card) by (vm_compute; reflexivity).
  assert (Hbench : bench (getPlayer P1 w) = [None; None; None]) by (vm_compute; reflexivity).
  split; [vm_compute; reflexivity|]. split; [vm_compute; reflexivity|].
  split; [exact Hbench|]. exists card. split; [exact Hget|].
  assert (Hrun : gameOver (game w) = false) by (vm_compute; reflexivity).
  assert (Hturn : phase (game w) = playing → currentPlayer (game w) = P1)
    by (intros _; vm_compute; reflexivity).
  assert (Hsup : truthy (isSupporter card) = false) by (vm_compute; reflexivity).
  assert (H7 : id card ≠ "base-007") by (vm_compute; discriminate).
  assert (H8 : id card ≠ "base-008") by (vm_compute; discriminate).
  assert (Hbasic : truthy (isBasic card) = true) by (vm_compute; reflexivity).
  assert (Hact : is_Some (active (getPlayer P1 w))) by (vm_compute; eauto).
  assert (Hk : bench (getPlayer P1 w) !! 0 = Some None) by (vm_compute; reflexivity).
  pose proof (proj2 (playCard_places_a_basic_creature P1 0 w card Hrun Hturn Hget Hsup
                       H7 H8 Hbasic) 0 Hact Hk (λ j Hj, False_ind _ (Nat.nlt_0_r j Hj))) as H.
  destruct H as (Ha & Hb & Hh & _).
  exact (conj Ha (conj Hb Hh)).
Defined.
(** ** The setup phase *)

Lemma canAct_setup player w : phase (game w) = setup → canAct player w = false.
Proof. unfold canAct. intros ->. by rewrite andb_false_r. Qed.

(** X13.  During the setup phase the board can only be filled:
    [attack], [retreat], [evolve] and [playChickenNugget] change nothing, and
    [playCard] changes nothing unless the card is a basic creature (a
    supporter, Coach Whistle, Chicken Nugget or an evolution card stays in
    the hand). *)
Theorem setup_admits_only_placements (w : World) :
  phase (game w) = setup →
  attack w = w
  ∧ (∀ player benchIndex, retreat player benchIndex w = w)
  ∧ (∀ player handIndex tidx, evolve player handIndex tidx w = w)
  ∧ (∀ player handIndex tidx, playChickenNugget player handIndex tidx w = (false, w))
  ∧ (∀ player handIndex card,
       jsGet (hand (getPlayer player w)) handIndex = Some card →
       truthy (isSupporter card) = true ∨ id card = "base-007" ∨ id card = "base-008"
       ∨ truthy (isBasic card) = false →
       playCard player handIndex w = w).
Proof.
  intros Hsetup. repeat split.
  - apply attack_idle. left. by apply canAct_setup.
  - intros. apply retreat_refused. left. by apply canAct_setup.
  - intros player handIndex tidx. unfold evolve.
    rewrite (canAct_setup _ _ Hsetup). by repeat case_match.
  - intros player handIndex tidx. unfold playChickenNugget.
    rewrite (canAct_setup _ _ Hsetup). by repeat case_match.
  - intros player handIndex card Hget Hkind. unfold playCard.
    destruct (_ || _); [done|]. rewrite Hget.
    unfold _playSupporter, _playCoachWhistle. rewrite Hsetup. cbn [phaseEqb orb].
    destruct (truthy (isSupporter card)); [done|].
    destruct (String.eqb_spec (id card) "base-007"); [done|].
    destruct (String.eqb_spec (id card) "base-008"); [done|].
    destruct Hkind as [?|[?|[?| ->]]]; done.
Qed.

Lemma setup_admits_only_placements_witness :
  let w := worldAfter [OpInitializeGame 1; OpPlayCard P1 1; OpPlayCard P2 4] oracleA in
  option_map id (jsGet (hand (getPlayer P1 w)) 0) = Some "base-006"
  ∧ option_map id (jsGet (hand (getPlayer P2 w)) 1) = Some "base-007"
  ∧ attack w = w
  ∧ playCard P1 0 w = w
  ∧ playCard P2 1 w = w
  ∧ playChickenNugget P1 2 (-1) w = (false, w).
Proof.
  intros w.
  assert (Hsetup : phase (game w) = setup) by (vm_compute; reflexivity).
  destruct (setup_admits_only_placements w Hsetup) as (Ha & _ & _ & Hn & Hp).
  split; [vm_compute; reflexivity|]. split; [vm_compute; reflexivity|].
  split; [exact Ha|].
  set (c1 := default (mkCard "" None None None None None None None None None None None
                        None None None None) (jsGet (hand (getPlayer P1 w)) 0)).
  set (c2 := default (mkCard "" None None None None None None None None None None None
                        None None None None) (jsGet (hand (getPlayer P2 w)) 1)).
  assert (H1 : jsGet (hand (getPlayer P1 w)) 0 = Some c1) by (vm_compute; reflexivity).
  assert (H2 : jsGet (hand (getPlayer P2 w)) 1 = Some c2) by (vm_compute; reflexivity).
  assert (K1 : truthy (isSupporter c1) = true) by (vm_compute; reflexivity).
  assert (K2 : id c2 = "base-007") by (vm_compute; reflexivity).
  exact (conj (Hp P1 0%Z c1 H1 (or_introl K1))
           (conj (Hp P2 1%Z c2 H2 (or_intror (or_introl K2))) (Hn P1 2%Z (-1)%Z))).
Defined.

(** ** An attack that is no knock-out *)

(** X14.  [attack] by the current player in the playing phase, when the
    defender's active creature survives: the creature's [hp] goes down by
    the attacker's damage, nobody scores, and the turn passes to the
    opponent.  Without an active creature on either side [attack] does
    nothing at all: in particular it does not pass the turn. *)
Theorem attack_damages_and_passes_the_turn (w : World) :
  let cur := currentPlayer (game w) in
  let opp := getOpponentId cur in
  (∀ pa oa,
     phase (game w) = playing →
     gameOver (game w) = false →
     active (getPlayer cur w) = Some pa →
     active (getPlayer opp w) = Some oa →
     (0 < orZero (hp oa) - orZero (attackDamage pa))%Z →
     let w' := attack w in
     active (getPlayer opp w')
     = Some (set_hp (Some (orZero (hp oa) - orZero (attackDamage pa))%Z) oa)
     ∧ bench (getPlayer opp w') = bench (getPlayer opp w)
     ∧ (∀ pl, points (getPlayer pl w') = points (getPlayer pl w))
     ∧ getPlayer cur w' = getPlayer cur w
     ∧ currentPlayer (game w') = opp
     ∧ turnCount (game w') = (turnCount (game w) + 1)%Z
     ∧ gameOver (game w') = false
     ∧ winner (game w') = winner (game w)
     ∧ events w' = events w ++ [turnStarted opp; gameStateUpdated])
  ∧ (active (getPlayer cur w) = None ∨ active (getPlayer opp w) = None →
     attack w = w).
Proof.
  intros cur opp. split.
  - intros pa oa Hphase Hrun Hpa Hoa Hleft.
    assert (Hcan : canAct cur w = true) by (by apply canAct_true).
    cbn zeta. rewrite (attack_both_active w pa oa) by done.
    destruct (Z.leb_spec (orZero (hp oa) - orZero (attackDamage pa)) 0); [lia|].
    fold cur opp. set (hit := setPlayer opp _ w).
    assert (Hne : opp ≠ cur) by apply getOpponentId_ne.
    rewrite endTurn_running by done.
    change (currentPlayer (game hit)) with cur. fold opp.
    pose proof (startTurn_frame opp hit) as Hf. cbn zeta in Hf.
    destruct Hf as (Hc & Ht & _ & Ho & Hw & _ & He & _ & _ & Hpl & _ & _ & Hopp).
    replace (getOpponentId opp) with cur in Hopp by (unfold opp; by destruct cur).
    destruct (Hpl opp) as (Hao & Hbo & _).
    rewrite Hao, Hbo, Hc, Ht, Ho, Hw, He, Hopp.
    unfold hit at 1 2. rewrite getPlayer_setPlayer_eq.
    repeat split; try done.
    + intros pl. destruct (Hpl pl) as (_ & _ & ->). unfold hit.
      destruct (decide (pl = opp)) as [->|Hpl'].
      * by rewrite getPlayer_setPlayer_eq.
      * by rewrite getPlayer_setPlayer_ne.
    + unfold hit. by rewrite getPlayer_setPlayer_ne.
  - intros H. apply attack_idle. right. exact H.
Qed.

Lemma attack_damages_and_passes_the_turn_witness :
  let w := worldAfter openingA oracleA in
  let w' := attack w in
  option_map hp (active (getPlayer P2 w)) = Some (Some 60%Z)
  ∧ option_map hp (active (getPlayer P2 w')) = Some (Some 40%Z)
  ∧ (∀ pl, points (getPlayer pl w') = points (getPlayer pl w))
  ∧ currentPlayer (game w') = getOpponentId (currentPlayer (game w))
  ∧ turnCount (game w') = (turnCount (game w) + 1)%Z.
Proof.
  intros w w'.
  set (none := mkCard "" None None None None None None None None None None None
                 None None None None).
  set (pa := default none (active (getPlayer (currentPlayer (game w)) w))).
  set (oa := default none (active (getPlayer (getOpponentId (currentPlayer (game w))) w))).
  assert (Hphase : phase (game w) = playing) by (vm_compute; reflexivity).
  assert (Hrun : gameOver (game w) = false) by (vm_compute; reflexivity).
  assert (Hpa : active (getPlayer (currentPlayer (game w)) w) = Some pa)
    by (vm_compute; reflexivity).
  assert (Hoa : active (getPlayer (getOpponentId (currentPlayer (game w))) w) = Some oa)
    by (vm_compute; reflexivity).
  assert (Hleft : (0 < orZero (hp oa) - orZero (attackDamage pa))%Z)
    by (vm_compute; reflexivity).
  pose proof (proj1 (attack_damages_and_passes_the_turn w) pa oa Hphase Hrun Hpa Hoa Hleft)
    as H. cbn zeta in H.
  destruct H as (_ & _ & Hp & _ & Hc & Ht & _).
  split; [vm_compute; reflexivity|]. split; [vm_compute; reflexivity|].
  exact (conj Hp (conj Hc Ht)).
Defined.
(** ** [findIndex] finds the first match *)

Lemma findIndexFrom_cases {A : Type} (f : A → Z → bool) (i : Z) (arr : list A) :
  (findIndexFrom f i arr = (-1)%Z
   ∧ ∀ k c, arr !! k = Some c → f c (i + Z.of_nat k)%Z = false)
  ∨ (∃ n c,
       findIndexFrom f i arr = (i + Z.of_nat n)%Z
       ∧ arr !! n = Some c
       ∧ f c (i + Z.of_nat n)%Z = true
       ∧ ∀ k c', k < n → arr !! k = Some c' → f c' (i + Z.of_nat k)%Z = false).
Proof.
  revert i. induction arr as [|x arr IH]; intros i; simpl.
  - left. split; [done|]. intros k c. by rewrite lookup_nil.
  - destruct (f x i) eqn:Hx.
    + right. exists 0, x. rewrite Z.add_0_r. repeat split; try done. lia.
    + destruct (IH (i + 1)%Z) as [[Hnone Hall]|(n & c & Hn & Hc & Hf & Hbefore)].
      * left. split; [done|]. intros [|k] c Hk; simpl in Hk.
        -- injection Hk as <-. by rewrite Z.add_0_r.
        -- specialize (Hall k c Hk). by replace (i + Z.of_nat (S k))%Z with (i + 1 + Z.of_nat k)%Z by lia.
      * right. exists (S n), c.
        replace (i + Z.of_nat (S n))%Z with (i + 1 + Z.of_nat n)%Z by lia. repeat split; try done.
        intros [|k] c' Hk Hc'; simpl in Hc'.
        -- injection Hc' as <-. by rewrite Z.add_0_r.
        -- replace (i + Z.of_nat (S k))%Z with (i + 1 + Z.of_nat k)%Z by lia. apply (Hbefore k); [lia|done].
Qed.

Lemma findIndex_cases {A : Type} (f : A → Z → bool) (arr : list A) :
  (findIndex f arr = (-1)%Z
   ∧ ∀ k c, arr !! k = Some c → f c (Z.of_nat k) = false)
  ∨ (∃ n c,
       findIndex f arr = Z.of_nat n
       ∧ arr !! n = Some c
       ∧ f c (Z.of_nat n) = true
       ∧ ∀ k c', k < n → arr !! k = Some c' → f c' (Z.of_nat k) = false).
Proof. apply (findIndexFrom_cases f 0 arr). Qed.

Lemma jsGet_of_nat {A : Type} (arr : list A) (n : nat) :
  jsGet arr (Z.of_nat n) = arr !! n.
Proof. unfold jsGet. destruct (Z.ltb_spec (Z.of_nat n) 0); [lia|]. by rewrite Nat2Z.id. Qed.

(** ** When an evolution succeeds *)

Lemma slotCards_replace_length (slots : list (option Card)) (i : nat) (c c' : Card) :
  slots !! i = Some (Some c) →
  length (slotCards (<[i := Some c']> slots)) = length (slotCards slots).
Proof.
  intros Hi. rewrite slotCards_insert by (by eapply lookup_lt_Some).
  rewrite (slotCards_delete_Some _ _ _ Hi). done.
Qed.

(** What [_performEvolution] leaves of the player. *)
Lemma _performEvolution_effect player evolvedCard targetCard tidx w :
  targetAt (getPlayer player w) tidx = Some targetCard →
  let w' := _performEvolution player evolvedCard targetCard tidx w in
  let p := getPlayer player w in
  let p' := getPlayer player w' in
  hand p' = hand p ∧ deck p' = deck p ∧ points p' = points p
  ∧ hasPlayedSupporter p' = hasPlayedSupporter p
  ∧ length (option_list (active p') ++ slotCards (bench p'))
    = length (option_list (active p) ++ slotCards (bench p))
  ∧ getPlayer (getOpponentId player) w' = getPlayer (getOpponentId player) w
  ∧ game w' = set_players (players (game w')) (game w)
  ∧ events w' = events w ++ [gameStateUpdated].
Proof.
  intros Ht. cbn zeta. unfold _performEvolution.
  assert (Hne : player ≠ getOpponentId player)
    by (intros E; symmetry in E; by apply getOpponentId_ne in E).
  change (getPlayer ?q (update ?v)) with (getPlayer q v).
  rewrite getPlayer_setPlayer_eq, getPlayer_setPlayer_ne by done.
  unfold targetAt in Ht. destruct (tidx =? -1)%Z.
  - cbn [hand deck points hasPlayedSupporter active bench set_active]. rewrite Ht.
    repeat split; done.
  - cbn [hand deck points hasPlayedSupporter active bench set_bench].
    apply mjoin_jsGet_Some in Ht. rewrite (jsSet_in_range _ _ _ _ Ht).
    apply jsGet_Some in Ht as [_ Ht].
    rewrite !length_app, (slotCards_replace_length _ _ _ _ Ht).
    repeat split; done.
Qed.

(** X15.  [evolve] succeeds exactly when the player may act, the turn
    counter is above 1, the target slot holds a creature placed before this
    turn, and the hand card at [handIndex] names that creature's id in
    [evolvesFrom].  It then takes that one card out of the hand and puts it
    in the target's slot; the creature that was there is in no zone any more
    (the player holds one card less).  Deck, points and the opponent are
    untouched, and one update is announced. *)
Theorem evolve_succeeds_exactly_when (player : PlayerId) (handIndex tidx : Z)
    (w : World) :
  let p := getPlayer player w in
  let w' := evolve player handIndex tidx w in
  let p' := getPlayer player w' in
  (w' ≠ w ↔
   ∃ targetCard handCard,
     targetAt p tidx = Some targetCard
     ∧ jsGet (hand p) handIndex = Some handCard
     ∧ canAct player w = true
     ∧ (1 < turnCount (game w))%Z
     ∧ evolvesFrom handCard = Some (id targetCard)
     ∧ id targetCard ≠ ""
     ∧ (orZero (turnPlaced targetCard) < turnCount (game w))%Z)
  ∧ (w' ≠ w →
     hand p' = delete (Z.to_nat handIndex) (hand p)
     ∧ deck p' = deck p ∧ points p' = points p
     ∧ hasPlayedSupporter p' = hasPlayedSupporter p
     ∧ length (zoneCards p') = length (zoneCards p) - 1
     ∧ getPlayer (getOpponentId player) w' = getPlayer (getOpponentId player) w
     ∧ game w' = set_players (players (game w')) (game w)
     ∧ events w' = events w ++ [gameStateUpdated]).
Proof.
  cbn zeta. split; [split|].
  - intros Hne. destruct (evolve_changes _ _ _ _ Hne)
      as (targetCard & handCard & Ht & Hh & Hcan & Hturn & Hfrom & Hplaced & _).
    exists targetCard, handCard. repeat split; try done.
    intros Hid. apply Hne. unfold evolve. rewrite Ht, Hh, Hfrom, Hid. cbn.
    by rewrite !orb_true_r.
  - intros (targetCard & handCard & Ht & Hh & Hcan & Hturn & Hfrom & Hid & Hplaced).
    by eapply evolve_succeeds.
  - intros Hne. destruct (evolve_changes _ _ _ _ Hne)
      as (targetCard & handCard & Ht & Hh & _ & _ & _ & _ & Heq).
    rewrite Heq. set (p := getPlayer player w) in *.
    set (w1 := setPlayer player (set_hand (delete (Z.to_nat handIndex) (hand p)) p) w).
    assert (Ht1 : targetAt (getPlayer player w1) tidx = Some targetCard).
    { unfold w1. by rewrite getPlayer_setPlayer_eq, targetAt_set_hand. }
    pose proof (_performEvolution_effect player handCard targetCard tidx w1 Ht1) as He.
    cbn zeta in He. destruct He as (Hh' & Hd' & Hp' & Hf' & Hl' & Ho' & Hg' & He').
    assert (Hne' : player ≠ getOpponentId player)
      by (intros E; symmetry in E; by apply getOpponentId_ne in E).
    assert (Hw1 : getPlayer player w1 = set_hand (delete (Z.to_nat handIndex) (hand p)) p)
      by (unfold w1; by rewrite getPlayer_setPlayer_eq).
    assert (Ho1 : getPlayer (getOpponentId player) w1 = getPlayer (getOpponentId player) w)
      by (unfold w1; by rewrite getPlayer_setPlayer_ne).
    unfold zoneCards. rewrite !length_app in *.
    rewrite Hh', Hd', Hp', Hf', Hl', Ho', He', Hw1, Ho1.
    cbn [hand deck points hasPlayedSupporter active bench set_hand].
    apply jsGet_Some in Hh as [_ Hh]. pose proof (lookup_lt_Some _ _ _ Hh).
    rewrite length_delete by eauto.
    repeat split; try done. lia.
Qed.
Lemma splice_remove_past_end {A : Type} (arr : list A) (i : Z) :
  (Z.of_nat (length arr) ≤ i)%Z → snd (splice arr i (Some 1) []) = arr.
Proof.
  intros Hi. unfold splice, spliceStart. destruct (Z.ltb_spec i 0); [lia|].
  replace (Z.to_nat (Z.min i (Z.of_nat (length arr)))) with (length arr) by lia.
  cbn [snd]. rewrite Nat.sub_diag, Nat.min_0_r, Nat.add_0_r, take_ge, drop_ge by lia.
  by rewrite app_nil_r.
Qed.

Lemma splice_remove_length {A : Type} (arr : list A) (i : Z) (x : A) :
  jsGet arr i = Some x → length (snd (splice arr i (Some 1) [])) = length arr - 1.
Proof.
  intros Hx. rewrite (splice_remove_at _ _ _ Hx). cbn [snd].
  apply jsGet_Some in Hx as [_ Hx]. rewrite length_delete by eauto. done.
Qed.

Lemma stage2EvoIndex_cases handIndex targetCard (h : list Card) :
  (stage2EvoIndex handIndex targetCard h = (-1)%Z
   ∧ ∀ k c, h !! k = Some c → Z.of_nat k ≠ handIndex →
            evolvesFromBasic c ≠ Some (id targetCard))
  ∨ (∃ n c,
       stage2EvoIndex handIndex targetCard h = Z.of_nat n
       ∧ h !! n = Some c
       ∧ Z.of_nat n ≠ handIndex
       ∧ evolvesFromBasic c = Some (id targetCard)).
Proof.
  unfold stage2EvoIndex.
  destruct (findIndex_cases
              (λ c i, negb (i =? handIndex)%Z
                      && strictEqS (evolvesFromBasic c) (Some (id targetCard))) h)
    as [[Hnone Hall]|(n & c & Hn & Hc & Hf & _)].
  - left. split; [done|]. intros k c Hk Hne Hfrom.
    specialize (Hall k c Hk). rewrite Hfrom in Hall. cbn in Hall.
    rewrite String.eqb_refl, andb_true_r in Hall.
    apply negb_false_iff, Z.eqb_eq in Hall. done.
  - right. exists n, c. apply andb_true_iff in Hf as [Hne Hfrom].
    apply negb_true_iff, Z.eqb_neq in Hne.
    unfold strictEqS in Hfrom. destruct (evolvesFromBasic c) as [s|]; [|done].
    apply String.eqb_eq in Hfrom as ->. done.
Qed.

(** When [playChickenNugget] succeeds, and what it then does to the hand. *)
Lemma playChickenNugget_cases (player : PlayerId)
    (handIndex tidx : Z) (w : World) :
  let p := getPlayer player w in
  let r := playChickenNugget player handIndex tidx w in
  let p' := getPlayer player (snd r) in
  (fst r = true ↔
   ∃ targetCard k evolvedCard,
     targetAt p tidx = Some targetCard
     ∧ canAct player w = true
     ∧ truthy (isBasic targetCard) = true
     ∧ (orZero (turnPlaced targetCard) < turnCount (game w))%Z
     ∧ Z.of_nat k ≠ handIndex
     ∧ hand p !! k = Some evolvedCard
     ∧ evolvesFromBasic evolvedCard = Some (id targetCard))
  ∧ (fst r = false → snd r = w)
  ∧ (fst r = true →
     ((0 ≤ handIndex < Z.of_nat (length (hand p)))%Z →
      length (hand p') = length (hand p) - 2)
     ∧ ((Z.of_nat (length (hand p)) ≤ handIndex)%Z →
        length (hand p') = length (hand p) - 1)
     ∧ deck p' = deck p ∧ points p' = points p
     ∧ getPlayer (getOpponentId player) (snd r) = getPlayer (getOpponentId player) w
     ∧ game (snd r) = set_players (players (game (snd r))) (game w)
     ∧ events (snd r) = events w ++ [gameStateUpdated]).
Proof.
  cbn zeta. set (p := getPlayer player w).
  unfold playChickenNugget. fold p.
  destruct (targetAt p tidx) as [targetCard|] eqn:Ht.
  2: { split; [split; [done|]|done]. by intros (? & ? & ? & ? & _). }
  destruct (canAct player w) eqn:Hcan; cbn [negb orb].
  2: { split; [split; [done|]|done].
       intros (? & ? & ? & ? & ? & _). congruence. }
  destruct (truthy (isBasic targetCard)) eqn:Hb; cbn [negb orb].
  2: { split; [split; [done|]|done].
       intros (t & ? & ? & Ht' & _ & Hb' & _). congruence. }
  destruct (Z.leb_spec (turnCount (game w)) (orZero (turnPlaced targetCard))) as [Hle|Hlt].
  { split; [split; [done|]|done].
    intros (t & ? & ? & Ht' & _ & _ & Hlt & _).
    assert (t = targetCard) as -> by congruence. lia. }
  destruct (stage2EvoIndex_cases handIndex targetCard (hand p))
    as [[Hnone Hall]|(n & c & Hn & Hc & Hne & Hfrom)].
  { rewrite Hnone. cbn [Z.eqb]. split; [split; [done|]|done].
    intros (t & k & e & Ht' & _ & _ & _ & Hk & He & Hfrom).
    assert (t = targetCard) as -> by congruence.
    exfalso. by eapply Hall. }
  rewrite Hn. destruct (Z.eqb_spec (Z.of_nat n) (-1)); [lia|].
  rewrite jsGet_of_nat, Hc.
  set (hi := if (handIndex <? Z.of_nat n)%Z then _ else _).
  assert (Hsplit : ∃ hand2,
            hi = ((if (handIndex <? Z.of_nat n)%Z then Z.of_nat n else handIndex),
                  (if (handIndex <? Z.of_nat n)%Z then handIndex else Z.of_nat n))
            ∧ hand2 = snd (splice (snd (splice (hand p) (fst hi) (Some 1) []))
                             (snd hi) (Some 1) [])
            ∧ ((0 ≤ handIndex < Z.of_nat (length (hand p)))%Z →
               length hand2 = length (hand p) - 2)
            ∧ ((Z.of_nat (length (hand p)) ≤ handIndex)%Z →
               length hand2 = length (hand p) - 1)).
  { eexists. split; [unfold hi; by destruct (_ <? _)%Z|]. split; [done|].
    pose proof (lookup_lt_Some _ _ _ Hc) as Hnlt.
    assert (Hcn : jsGet (hand p) (Z.of_nat n) = Some c) by (by rewrite jsGet_of_nat).
    unfold hi. destruct (Z.ltb_spec handIndex (Z.of_nat n)) as [Hlo|Hhi]; cbn [fst snd].
    - split; [|lia]. intros [H0 _].
      rewrite (splice_remove_at _ _ _ Hcn). cbn [snd].
      destruct (lookup_lt_is_Some_2 (delete n (hand p)) (Z.to_nat handIndex)) as [x Hx].
      { rewrite length_delete by eauto. lia. }
      assert (Hx' : jsGet (delete (Z.to_nat (Z.of_nat n)) (hand p)) handIndex = Some x).
      { apply jsGet_Some. rewrite Nat2Z.id. done. }
      rewrite (splice_remove_length _ _ _ Hx'), Nat2Z.id, length_delete by eauto. lia.
    - split.
      + intros [_ Hin].
        destruct (lookup_lt_is_Some_2 (hand p) (Z.to_nat handIndex)) as [x Hx]; [lia|].
        assert (Hx' : jsGet (hand p) handIndex = Some x) by (apply jsGet_Some; split; [lia|done]).
        assert (Hc1 : jsGet (snd (splice (hand p) handIndex (Some 1) [])) (Z.of_nat n) = Some c).
        { rewrite jsGet_of_nat, splice_rest_lookup_below by lia. done. }
        rewrite (splice_remove_length _ _ _ Hc1), (splice_remove_length _ _ _ Hx'). lia.
      + intros Hout. rewrite (splice_remove_past_end (hand p) handIndex) by done.
        by rewrite (splice_remove_length _ _ _ Hcn). }
  destruct Hsplit as (hand2 & Hhi & Hhand2 & Hin & Hout).
  destruct hi as [hi lo]. cbn [fst snd] in Hhand2. rewrite <- Hhand2. cbn [fst snd].
  set (w1 := setPlayer player (set_hand hand2 p) w).
  assert (Ht1 : targetAt (getPlayer player w1) tidx = Some targetCard).
  { unfold w1. by rewrite getPlayer_setPlayer_eq, targetAt_set_hand. }
  pose proof (_performEvolution_effect player c targetCard tidx w1 Ht1) as He.
  cbn zeta in He. destruct He as (Hh' & Hd' & Hp' & _ & _ & Ho' & Hg' & He').
  assert (Hne' : player ≠ getOpponentId player)
    by (intros E; symmetry in E; by apply getOpponentId_ne in E).
  assert (Hw1 : getPlayer player w1 = set_hand hand2 p)
    by (unfold w1; by rewrite getPlayer_setPlayer_eq).
  assert (Ho1 : getPlayer (getOpponentId player) w1 = getPlayer (getOpponentId player) w)
    by (unfold w1; by rewrite getPlayer_setPlayer_ne).
  split; [|split; [done|]].
  - split; [|done]. intros _. exists targetCard, n, c. repeat split; done.
  - intros _. rewrite Hh', Hd', Hp', Ho', He', Hw1, Ho1.
    cbn [hand deck points set_hand]. repeat split; done.
Qed.

(** X16.  [playChickenNugget] returns [true] exactly when the player may
    act, the target slot holds a basic creature placed before this turn, and
    some hand card at a position other than [handIndex] names the creature's
    id in [evolvesFromBasic] (the first such card evolves).  The card at
    [handIndex] is not looked at: any card will do, and when [handIndex] is
    past the end of the hand only the evolving card leaves the hand.  A call
    that returns [false] changes nothing. *)
Theorem playChickenNugget_succeeds_exactly_when (player : PlayerId)
    (handIndex tidx : Z) (w : World) :
  let p := getPlayer player w in
  let r := playChickenNugget player handIndex tidx w in
  let p' := getPlayer player (snd r) in
  (fst r = true ↔
   ∃ targetCard k evolvedCard,
     targetAt p tidx = Some targetCard
     ∧ canAct player w = true
     ∧ truthy (isBasic targetCard) = true
     ∧ (orZero (turnPlaced targetCard) < turnCount (game w))%Z
     ∧ Z.of_nat k ≠ handIndex
     ∧ hand p !! k = Some evolvedCard
     ∧ evolvesFromBasic evolvedCard = Some (id targetCard))
  ∧ (fst r = false → snd r = w)
  ∧ (fst r = true →
     ((0 ≤ handIndex < Z.of_nat (length (hand p)))%Z →
      length (hand p') = length (hand p) - 2)
     ∧ ((Z.of_nat (length (hand p)) ≤ handIndex)%Z →
        length (hand p') = length (hand p) - 1)
     ∧ deck p' = deck p ∧ points p' = points p
     ∧ getPlayer (getOpponentId player) (snd r) = getPlayer (getOpponentId player) w
     ∧ game (snd r) = set_players (players (game (snd r))) (game w)
     ∧ events (snd r) = events w ++ [gameStateUpdated]).
Proof. apply playChickenNugget_cases. Qed.
Lemma playChickenNugget_succeeds_exactly_when_witness :
  let w := worldAfter (openingA ++ [OpEndTurn; OpAttack]) oracleA in
  let r := playChickenNugget P1 99 (-1) w in
  map id (hand (getPlayer P1 w)) = ["base-006"; "base-005"; "base-008"; "base-008"; "base-006"]
  ∧ option_map id (active (getPlayer P1 w)) = Some "base-003"
  ∧ fst r = true
  ∧ map id (hand (getPlayer P1 (snd r))) = ["base-006"; "base-008"; "base-008"; "base-006"]
  ∧ length (hand (getPlayer P1 (snd r))) = length (hand (getPlayer P1 w)) - 1
  ∧ option_map id (active (getPlayer P1 (snd r))) = Some "base-005".
Proof.
  intros w r.
  assert (Htrue : fst r = true) by (vm_compute; reflexivity).
  assert (Hout : (Z.of_nat (length (hand (getPlayer P1 w))) ≤ 99)%Z)
    by (vm_compute; discriminate).
  pose proof (proj2 (proj2 (playChickenNugget_succeeds_exactly_when P1 99 (-1) w)) Htrue) as H.
  destruct H as (_ & Hlen & _).
  split; [vm_compute; reflexivity|]. split; [vm_compute; reflexivity|].
  split; [exact Htrue|]. split; [vm_compute; reflexivity|].
  split; [exact (Hlen Hout)|]. vm_compute; reflexivity.
Defined.

Lemma evolve_succeeds_exactly_when_witness :
  let w := worldAfter (openingB ++ [OpEndTurn; OpAttack; OpEndTurn; OpAttack]) oracleB in
  let w' := evolve P1 3 (-1) w in
  option_map id (jsGet (hand (getPlayer P1 w)) 3) = Some "base-002"
  ∧ option_map id (active (getPlayer P1 w)) = Some "base-001"
  ∧ w' ≠ w
  ∧ hand (getPlayer P1 w') = delete (Z.to_nat 3) (hand (getPlayer P1 w))
  ∧ length (zoneCards (getPlayer P1 w')) = length (zoneCards (getPlayer P1 w)) - 1
  ∧ evolve P2 3 (-1) w = w.
Proof.
  intros w w'.
  assert (Hlen : length (events w') ≠ length (events w)) by (vm_compute; discriminate).
  assert (Hne : w' ≠ w) by exact (λ H, Hlen (f_equal (λ v, length (events v)) H)).
  pose proof (proj2 (evolve_succeeds_exactly_when P1 3 (-1) w) Hne) as H.
  destruct H as (Hh & _ & _ & _ & Hz & _).
  split; [vm_compute; reflexivity|]. split; [vm_compute; reflexivity|].
  split; [exact Hne|]. split; [exact Hh|]. split; [exact Hz|].
  vm_compute; reflexivity.
Defined.
(** ** The choices of the computer player *)

Lemma indicesFrom_spec {A : Type} (f : A → bool) (i : Z) (arr : list A) (x : Z) :
  x ∈ indicesFrom f i arr
  ↔ ∃ k c, x = (i + Z.of_nat k)%Z ∧ arr !! k = Some c ∧ f c = true.
Proof.
  revert i. induction arr as [|a arr IH]; intros i; simpl.
  - split; [by intros ?%elem_of_nil|]. by intros (k & c & _ & Hk & _).
  - assert (Hrest : x ∈ indicesFrom f (i + 1) arr
                    ↔ ∃ k c, x = (i + Z.of_nat (S k))%Z ∧ arr !! k = Some c ∧ f c = true).
    { rewrite IH. split; intros (k & c & -> & Hk & Hf); exists k, c;
        (split; [lia|done]). }
    destruct (f a) eqn:Ha.
    + rewrite elem_of_cons, Hrest. split.
      * intros [->|(k & c & -> & Hk & Hf)].
        -- exists 0, a. split; [lia|done].
        -- by exists (S k), c.
      * intros ([|k] & c & -> & Hk & Hf); simpl in Hk.
        -- left. lia.
        -- right. by exists k, c.
    + rewrite Hrest. split.
      * intros (k & c & -> & Hk & Hf). by exists (S k), c.
      * intros ([|k] & c & -> & Hk & Hf); simpl in Hk; [congruence|]. by exists k, c.
Qed.

Lemma indicesFrom_increasing {A : Type} (f : A → bool) (i : Z) (arr : list A) :
  increasing (indicesFrom f i arr)
  ∧ Forall (λ x, (i ≤ x)%Z) (indicesFrom f i arr).
Proof.
  revert i. induction arr as [|a arr IH]; intros i; simpl; [by split; constructor|].
  destruct (IH (i + 1)%Z) as [Hs Hall].
  assert (Hlt : Forall (λ x, (i < x)%Z) (indicesFrom f (i + 1) arr)).
  { eapply Forall_impl; [exact Hall|]. intros x Hx. simpl in Hx. lia. }
  destruct (f a).
  - split; [done|].
    constructor; [lia|]. eapply Forall_impl; [exact Hlt|]. intros x Hx. simpl in Hx. lia.
  - split; [done|]. eapply Forall_impl; [exact Hlt|]. intros x Hx. simpl in Hx. lia.
Qed.

Lemma sortInsert_last (x : Z) (sorted : list Z) :
  Forall (λ y, (x < y)%Z) sorted →
  sortInsert (λ a b, b - a)%Z x sorted = sorted ++ [x].
Proof.
  induction 1 as [|y sorted Hy _ IH]; simpl; [done|].
  destruct (Z.leb_spec (y - x) 0); [lia|]. by rewrite IH.
Qed.

Lemma jsSort_descending_rev (l : list Z) :
  increasing l → jsSort (λ a b, b - a)%Z l = rev l.
Proof.
  unfold jsSort. induction l as [|x l IH]; simpl; [done|].
  intros [Hx Hl]. rewrite IH, sortInsert_last; [done| |done].
  by apply Forall_rev.
Qed.

Lemma increasing_lookup (l : list Z) (i j : nat) (a b : Z) :
  increasing l → i < j → l !! i = Some a → l !! j = Some b → (a < b)%Z.
Proof.
  revert i j. induction l as [|x l IH]; intros i j Hinc Hij Hi Hj; [done|].
  destruct Hinc as [Hx Hl]. destruct j as [|j]; [lia|]. simpl in Hj. destruct i as [|i]; simpl in Hi.
  - injection Hi as <-. rewrite Forall_forall in Hx. apply Hx.
    by eapply list_elem_of_lookup_2.
  - apply (IH i j); try done. lia.
Qed.

Lemma indicesFrom_length {A : Type} (f : A → bool) (i : Z) (arr : list A) :
  length (indicesFrom f i arr) = length (filter (λ c, f c = true) arr).
Proof.
  revert i. induction arr as [|c arr IH]; intros i; simpl; [done|].
  rewrite filter_cons. destruct (f c) eqn:Hb.
  - rewrite decide_True by done. simpl. by rewrite IH.
  - rewrite decide_False by done. apply IH.
Qed.

Lemma rev_reverse {A : Type} (l : list A) : rev l = reverse l.
Proof. apply rev_alt. Qed.

(** X17.  [_chooseBenchBuddyIndices] lists the positions of the basic
    creatures of the hand, each once, from the highest down: playing them in
    that order, a card that leaves the hand never shifts a position still to
    be played. *)
Theorem chooseBenchBuddyIndices_descending (h : list Card) :
  let indices := AI._chooseBenchBuddyIndices h in
  (∀ x, x ∈ indices
        ↔ ∃ k c, x = Z.of_nat k ∧ h !! k = Some c ∧ truthy (isBasic c) = true)
  ∧ (∀ i j a b, i < j → indices !! i = Some a → indices !! j = Some b → (b < a)%Z)
  ∧ length indices = length (filter (λ c, truthy (isBasic c) = true) h).
Proof.
  cbn zeta. unfold AI._chooseBenchBuddyIndices.
  destruct (indicesFrom_increasing (λ card, truthy (isBasic card)) 0 h) as [Hinc _].
  rewrite (jsSort_descending_rev _ Hinc), rev_reverse. split; [|split].
  - intros x. rewrite elem_of_reverse, indicesFrom_spec.
    split.
    + intros (k & c & Hx & Hk). exists k, c. split; [lia|done].
    + intros (k & c & Hx & Hk). exists k, c. split; [lia|done].
  - intros i j a b Hij Hi Hj.
    pose proof (lookup_lt_Some _ _ _ Hi) as Hil. pose proof (lookup_lt_Some _ _ _ Hj) as Hjl.
    rewrite length_reverse in Hil, Hjl.
    rewrite reverse_lookup in Hi, Hj by done.
    eapply (increasing_lookup _ _ _ _ _ Hinc); [|exact Hj|exact Hi]. lia.
  - rewrite length_reverse. apply indicesFrom_length.
Qed.
(** The greedy choice: [strongestFrom] keeps the first position with the
    highest [hp] above the bound it started from. *)
Lemma strongestFrom_spec (filterFn : Card → bool) (index : Z)
    (cards : list (option Card)) (bestIndex maxHp : Z) :
  let r := AI.strongestFrom filterFn index cards bestIndex maxHp in
  (maxHp ≤ snd r)%Z
  ∧ (∀ k c, cards !! k = Some (Some c) → filterFn c = true →
            (orZero (hp c) ≤ snd r)%Z)
  ∧ (r = (bestIndex, maxHp)
     ∨ ∃ n c,
         fst r = (index + Z.of_nat n)%Z
         ∧ cards !! n = Some (Some c)
         ∧ filterFn c = true
         ∧ orZero (hp c) = snd r
         ∧ (maxHp < snd r)%Z
         ∧ ∀ k c', k < n → cards !! k = Some (Some c') → filterFn c' = true →
                   (orZero (hp c') < snd r)%Z).
Proof.
  cbn zeta. revert index bestIndex maxHp.
  induction cards as [|card cards IH]; intros index bestIndex maxHp.
  - cbn. split; [lia|]. split; [|by left]. intros k c. by rewrite lookup_nil.
  - cbn [AI.strongestFrom].
    set (step := match card with Some _ => _ | None => _ end).
    assert (Hstep : (step = (bestIndex, maxHp)
                     ∧ ∀ c, card = Some c → filterFn c = true → (orZero (hp c) ≤ maxHp)%Z)
                    ∨ ∃ c, card = Some c ∧ filterFn c = true
                          ∧ step = (index, orZero (hp c)) ∧ (maxHp < orZero (hp c))%Z).
    { unfold step. destruct card as [c|]; [|left; by split].
      destruct (filterFn c) eqn:Hf; [|left; split; [done|congruence]].
      destruct (Z.ltb_spec maxHp (orZero (hp c))).
      - right. by exists c.
      - left. split; [done|]. intros c' [= <-] _. lia. }
    destruct step as [b1 m1].
    specialize (IH (index + 1)%Z b1 m1). destruct IH as (Hle & Hall & Hwho).
    set (r := AI.strongestFrom filterFn (index + 1) cards b1 m1) in *.
    destruct Hstep as [[[= -> ->] Hhead]|(c & -> & Hf & [= -> ->] & Hlt)].
    + split; [done|]. split.
      * intros [|k] c Hk Hfc; simpl in Hk; [|by eapply Hall].
        injection Hk as ->. specialize (Hhead c eq_refl Hfc). lia.
      * destruct Hwho as [Hsame|(n & c & Hn & Hc & Hfc & Hhp & Hlt & Hbefore)]; [by left|].
        right. exists (S n), c. repeat split; try done; [lia|].
        intros [|k] c' Hk Hk' Hfc'; simpl in Hk'.
        -- injection Hk' as ->. specialize (Hhead c' eq_refl Hfc'). lia.
        -- apply (Hbefore k); try done. lia.
    + split; [lia|]. split.
      * intros [|k] c' Hk Hfc; simpl in Hk; [|by eapply Hall].
        by injection Hk as <-.
      * right. destruct Hwho as [Hsame|(n & c' & Hn & Hc & Hfc & Hhp & Hlt' & Hbefore)].
        -- exists 0, c. rewrite Hsame. cbn [fst snd]. repeat split; try done; lia.
        -- exists (S n), c'. repeat split; try done; [lia|lia|].
           intros [|k] c'' Hk Hk' Hfc'; simpl in Hk'.
           ++ injection Hk' as <-. lia.
           ++ apply (Hbefore k); try done. lia.
Qed.

(** X18.  [_findStrongestCardIndex] returns the first position that holds
    a card accepted by the filter with the highest [hp] (an absent [hp]
    counts as 0), and [-1] when no accepted card has an [hp] above [-1]. *)
Theorem findStrongestCardIndex_is_argmax (cards : list (option Card))
    (filterFn : Card → bool) :
  let r := AI._findStrongestCardIndex cards filterFn in
  (r = (-1)%Z ↔
   ∀ k c, cards !! k = Some (Some c) → filterFn c = true → (orZero (hp c) ≤ -1)%Z)
  ∧ (r ≠ (-1)%Z →
     ∃ n c,
       r = Z.of_nat n
       ∧ cards !! n = Some (Some c)
       ∧ filterFn c = true
       ∧ (∀ k c', cards !! k = Some (Some c') → filterFn c' = true →
                  (orZero (hp c') ≤ orZero (hp c))%Z)
       ∧ (∀ k c', k < n → cards !! k = Some (Some c') → filterFn c' = true →
                  (orZero (hp c') < orZero (hp c))%Z)).
Proof.
  cbn zeta. unfold AI._findStrongestCardIndex.
  pose proof (strongestFrom_spec filterFn 0 cards (-1) (-1)) as H. cbn zeta in H.
  destruct H as (Hle & Hall & Hwho).
  destruct (AI.strongestFrom filterFn 0 cards (-1) (-1)) as [b m]. cbn [fst snd] in *.
  destruct Hwho as [[= -> ->]|(n & c & -> & Hc & Hf & Hhp & Hlt & Hbefore)].
  - split; [|done]. split; [intros _; exact Hall|done].
  - split.
    + split; [lia|]. intros Hnone. specialize (Hnone n c Hc Hf). lia.
    + intros _. exists n, c. rewrite Hhp. repeat split; done.
Qed.
(** ** A turn of the computer player *)

(** Playing the card at [handIndex] leaves the cards before it where they
    are. *)
Lemma playCard_hand_prefix player handIndex w k :
  (Z.of_nat k < handIndex)%Z →
  hand (getPlayer player (playCard player handIndex w)) !! k
  = hand (getPlayer player w) !! k.
Proof.
  intros Hk. unfold playCard.
  destruct (gameOver (game w)); [done|]. cbn [orb].
  destruct (phaseEqb (phase (game w)) playing && _) eqn:Hg; [done|].
  set (p := getPlayer player w).
  destruct (jsGet (hand p) handIndex) as [card|] eqn:Hget; [|done].
  pose proof Hget as [H0 Hlt%lookup_lt_Some]%jsGet_Some.
  assert (Hrest : ∀ extra, (snd (splice (hand p ++ extra) handIndex (Some 1) [])) !! k
                           = hand p !! k).
  { intros extra. rewrite splice_rest_lookup_below by done.
    apply lookup_app_l. lia. }
  assert (Hrest0 : snd (splice (hand p) handIndex (Some 1) []) !! k = hand p !! k).
  { specialize (Hrest []). by rewrite app_nil_r in Hrest. }
  set (r := if truthy (isSupporter card) then _ else _).
  assert (Hr : hand (getPlayer player (snd r)) !! k = hand p !! k).
  { unfold r. repeat case_match; try done.
    - (* supporter *)
      unfold _playSupporter.
      destruct (phaseEqb (phase (game w)) setup) eqn:Hs; [done|].
      destruct (hasPlayedSupporter _); cbn [orb snd]; [done|].
      assert (Hcur : currentPlayer (game w) = player).
      { destruct (phase (game w)); [done|]. cbn in Hg.
        by apply negb_false_iff, playerEqb_eq in Hg. }
      rewrite Hcur. unfold drawCards. fold p.
      destruct (splice (deck p) _ _ _) as [drawn rest].
      rewrite !getPlayer_setPlayer_eq. cbn [hand set_hand set_deck set_hasPlayedSupporter].
      apply Hrest.
    - (* Coach Whistle *)
      unfold _playCoachWhistle. destruct (phaseEqb (phase (game w)) setup); [done|]. fold p.
      set (p1 := set_hand _ p).
      set (pick := if decide (0 < length (basicIndicesFrom 0 (deck p1))) then _ else _).
      assert (H2 : hand (fst pick) !! k = hand p !! k).
      { assert (Hp1 : ∀ extra, (hand p1 ++ extra) !! k = hand p !! k).
        { intros extra. rewrite lookup_app_l.
          - exact Hrest0.
          - unfold p1. cbn [hand set_hand].
            rewrite (splice_remove_length _ _ _ Hget). lia. }
        unfold pick. destruct (decide _).
        - destruct (randomBelow _ _) as [j rs].
          destruct (basicIndicesFrom 0 (deck p1) !! j) as [randomIndex|].
          + destruct (splice _ _ _ _) as [drawn rest]. cbn [fst hand set_hand set_deck].
            apply Hp1.
          + cbn [fst]. exact Hrest0.
        - cbn [fst]. exact Hrest0. }
      destruct pick as [p2 rs]. cbn [fst] in H2.
      destruct (shuffle (deck p2) rs) as [shuffled rs']. cbn [snd].
      change (getPlayer player (set_random rs' ?v)) with (getPlayer player v).
      by rewrite getPlayer_setPlayer_eq.
    - (* a basic creature *)
      unfold _playBasic. fold p. rewrite (splice_remove_at _ _ _ Hget).
      rewrite (splice_remove_at _ _ _ Hget) in Hrest0. cbn [snd] in Hrest0.
      cbn [active set_hand].
      destruct (active p); cbn [snd].
      + cbn [bench hand set_hand].
        destruct (indexOfNull _ =? -1)%Z; cbn [snd]; rewrite getPlayer_setPlayer_eq.
        * cbn [hand set_hand].
          pose proof (splice_remove_insert _ _ _
                        (set_turnPlaced (Some (turnCount (game w))) card) Hget) as Hre.
          rewrite (splice_remove_at _ _ _ Hget) in Hre. cbn [snd] in Hre. rewrite Hre.
          apply list_lookup_insert_ne. lia.
        * exact Hrest0.
      + rewrite getPlayer_setPlayer_eq. exact Hrest0. }
  destruct r as [[] w']; cbn [snd] in Hr; done.
Qed.

Lemma playCard_hand_length player handIndex w :
  (0 ≤ handIndex)%Z →
  Z.to_nat handIndex ≤ length (hand (getPlayer player w)) →
  Z.to_nat handIndex ≤ length (hand (getPlayer player (playCard player handIndex w))).
Proof.
  intros H0 Hlen. destruct (Z.to_nat handIndex) as [|n] eqn:Hn; [lia|].
  assert (Hk : is_Some (hand (getPlayer player (playCard player handIndex w)) !! n)).
  { rewrite playCard_hand_prefix by lia. apply lookup_lt_is_Some_2. lia. }
  apply lookup_lt_is_Some_1 in Hk. lia.
Qed.

(** The loop over the items of the hand never reads past the hand. *)
Lemma playItems_total playerNumber n w :
  n ≤ length (hand (getPlayer playerNumber w)) →
  ∃ w', AI.playItems playerNumber n w = Some w' ∧ own_step playerNumber w w'.
Proof.
  revert w. induction n as [|i IH]; intros w Hn; cbn [AI.playItems].
  - exists w. split; [done|apply own_step_refl].
  - rewrite jsGet_of_nat.
    destruct (lookup_lt_is_Some_2 (hand (getPlayer playerNumber w)) i) as [card ->]; [lia|].
    set (w1 := if truthy (isItem card) && negb (String.eqb (id card) "base-008")
               then playCard playerNumber (Z.of_nat i) w else w).
    assert (H1 : own_step playerNumber w w1
                 ∧ i ≤ length (hand (getPlayer playerNumber w1))).
    { unfold w1. destruct (_ && _).
      - split; [apply own_step_playCard|].
        pose proof (playCard_hand_length playerNumber (Z.of_nat i) w) as Hl.
        rewrite Nat2Z.id in Hl. apply Hl; lia.
      - split; [apply own_step_refl|lia]. }
    destruct H1 as [Hown Hlen].
    destruct (IH w1 Hlen) as (w' & -> & Hown').
    exists w'. split; [done|]. by eapply own_step_trans.
Qed.

Lemma own_step_foldl_playCard playerNumber (indices : list Z) w :
  own_step playerNumber w
    (foldl (λ w' index, playCard playerNumber index w') w indices).
Proof.
  revert w. induction indices as [|index indices IH]; intros w; cbn [foldl].
  - apply own_step_refl.
  - eapply own_step_trans; [apply own_step_playCard|apply IH].
Qed.
Lemma endTurn_outcome w :
  gameOver (game w) = false →
  gameOver (game (endTurn w)) = false
  ∧ currentPlayer (game (endTurn w)) = getOpponentId (currentPlayer (game w))
  ∧ turnCount (game (endTurn w)) = (turnCount (game w) + 1)%Z.
Proof.
  intros Hrun. rewrite endTurn_running by done.
  pose proof (startTurn_frame (getOpponentId (currentPlayer (game w))) w) as Hf.
  cbn zeta in Hf. destruct Hf as (Hc & Ht & _ & Ho & _). by rewrite Hc, Ht, Ho.
Qed.

(** An attack with both active creatures in place ends the match or the
    turn. *)
Lemma attack_outcome w :
  let cur := currentPlayer (game w) in
  canAct cur w = true →
  is_Some (active (getPlayer cur w)) →
  is_Some (active (getPlayer (getOpponentId cur) w)) →
  (gameOver (game (attack w)) = true
   ∧ winner (game (attack w)) = Some cur
   ∧ currentPlayer (game (attack w)) = cur
   ∧ turnCount (game (attack w)) = turnCount (game w))
  ∨ (gameOver (game (attack w)) = false
     ∧ currentPlayer (game (attack w)) = getOpponentId cur
     ∧ turnCount (game (attack w)) = (turnCount (game w) + 1)%Z).
Proof.
  intros cur Hcan [pa Hpa] [oa Hoa].
  rewrite (attack_both_active w pa oa) by done. fold cur.
  apply canAct_true in Hcan as (_ & _ & Hrun).
  set (out := setPlayer (getOpponentId cur) _ (setPlayer cur _ w)).
  set (hit := setPlayer (getOpponentId cur) _ w).
  assert (Hout : gameOver (game out) = false ∧ currentPlayer (game out) = cur
                 ∧ turnCount (game out) = turnCount (game w)) by done.
  assert (Hhit : gameOver (game hit) = false ∧ currentPlayer (game hit) = cur
                 ∧ turnCount (game hit) = turnCount (game w)) by done.
  destruct Hout as (Ho1 & Ho2 & Ho3). destruct Hhit as (Hh1 & Hh2 & Hh3).
  destruct (_ <=? 0)%Z; [destruct (_ || _)|].
  - left. destruct (endGame_frame cur out) as (_ & -> & -> & -> & -> & _). done.
  - right. destruct (endTurn_outcome out Ho1) as (-> & -> & ->). by rewrite Ho2, Ho3.
  - right. destruct (endTurn_outcome hit Hh1) as (-> & -> & ->). by rewrite Hh2, Hh3.
Qed.

(** The shape of [executeTurn] when it is the controller's turn: either
    the controller has no active creature and none to promote, and ends the
    turn at once, or it goes through calls of its own and finishes with
    [attack] or [endTurn]. *)
Lemma executeTurn_shape (ai : AI.Controller) (playerNumber : PlayerId) (w : World) :
  gameOver (game w) = false →
  currentPlayer (game w) = playerNumber →
  (active (getPlayer playerNumber w) = None
   ∧ AI.executeTurn ai playerNumber w = Some (endTurn w))
  ∨ ∃ w6,
      own_step playerNumber w w6
      ∧ AI.executeTurn ai playerNumber w
        = Some (if bool_decide (is_Some (active (getPlayer playerNumber w6)))
                then attack w6 else endTurn w6).
Proof.
  intros Hrun Hcur. unfold AI.executeTurn. rewrite Hrun, Hcur.
  replace (playerEqb playerNumber playerNumber) with true by (by destruct playerNumber).
  cbn [orb negb].
  set (promoted := if bool_decide (is_Some (active (getPlayer playerNumber w))) then _ else _).
  assert (Hp : (promoted = None ∧ active (getPlayer playerNumber w) = None)
               ∨ ∃ w1, promoted = Some w1 ∧ own_step playerNumber w w1).
  { unfold promoted. destruct (active (getPlayer playerNumber w)) as [a|] eqn:Ha.
    - right. exists w. split; [done|apply own_step_refl].
    - replace (bool_decide (is_Some (@None Card))) with false by done.
      destruct (_ <? _)%Z.
      + right. eexists. split; [done|apply own_step_promote].
      + left. done. }
  destruct Hp as [[-> Ha]|(w1 & -> & H1)]; [by left|]. right.
  set (w2 := if negb (hasPlayedSupporter (getPlayer playerNumber w1)) then _ else w1).
  assert (H2 : own_step playerNumber w1 w2).
  { unfold w2. destruct (negb _); [|apply own_step_refl].
    destruct (_ <? _)%Z; [apply own_step_playCard|apply own_step_refl]. }
  destruct (playItems_total playerNumber (length (hand (getPlayer playerNumber w2))) w2)
    as (w3 & -> & H3); [done|].
  set (w4 := match AI._findChickenNuggetOpportunities playerNumber w3 with
             | [] => w3 | _ :: _ => _ end).
  assert (H4 : own_step playerNumber w3 w4).
  { unfold w4. destruct (AI._findChickenNuggetOpportunities _ _);
      [apply own_step_refl|apply own_step_playChickenNugget]. }
  set (w5 := match AI._findEvolutionOpportunities playerNumber w4 with
             | [] => w4 | _ :: _ => _ end).
  assert (H5 : own_step playerNumber w4 w5).
  { unfold w5. destruct (AI._findEvolutionOpportunities _ _);
      [apply own_step_refl|apply own_step_evolve]. }
  eexists. split; [|done].
  eapply own_step_trans; [exact H1|]. eapply own_step_trans; [exact H2|].
  eapply own_step_trans; [exact H3|]. eapply own_step_trans; [exact H4|].
  eapply own_step_trans; [exact H5|]. apply own_step_foldl_playCard.
Qed.

(** X19.  [executeTurn] never throws: its loop over the hand reads only
    positions that hold a card, although the hand changes while it runs.
    When the match is over or it is not the controller's turn, nothing
    changes. *)
Theorem executeTurn_never_throws (ai : AI.Controller) (playerNumber : PlayerId)
    (w : World) :
  ∃ w', AI.executeTurn ai playerNumber w = Some w'
        ∧ (gameOver (game w) = true ∨ currentPlayer (game w) ≠ playerNumber → w' = w).
Proof.
  destruct (gameOver (game w)) eqn:Hrun.
  { exists w. unfold AI.executeTurn. by rewrite Hrun. }
  destruct (decide (currentPlayer (game w) = playerNumber)) as [Hcur|Hcur].
  - destruct (executeTurn_shape ai playerNumber w Hrun Hcur) as [[_ ->]|(w6 & _ & ->)];
      eexists; (split; [done|]); intros [?|?]; done.
  - exists w. unfold AI.executeTurn. rewrite Hrun.
    replace (playerEqb (currentPlayer (game w)) playerNumber) with false
      by (by destruct (currentPlayer (game w)), playerNumber).
    done.
Qed.

(** X20.  In the playing phase, when it is the controller's turn and the
    opponent has an active creature, [executeTurn] always finishes the turn:
    afterwards either the match is over and the controller has won, or it is
    the opponent's turn and the turn counter has gone up by one. *)
Theorem executeTurn_ends_the_turn (ai : AI.Controller) (playerNumber : PlayerId)
    (w : World) :
  phase (game w) = playing →
  gameOver (game w) = false →
  currentPlayer (game w) = playerNumber →
  is_Some (active (getPlayer (getOpponentId playerNumber) w)) →
  ∃ w', AI.executeTurn ai playerNumber w = Some w'
        ∧ (gameOver (game w') = true
           ∧ winner (game w') = Some playerNumber
           ∧ turnCount (game w') = turnCount (game w)
           ∨ gameOver (game w') = false
             ∧ currentPlayer (game w') = getOpponentId playerNumber
             ∧ turnCount (game w') = (turnCount (game w) + 1)%Z).
Proof.
  intros Hphase Hrun Hcur Hopp.
  destruct (executeTurn_shape ai playerNumber w Hrun Hcur) as [[_ ->]|(w6 & Hown & ->)].
  - eexists. split; [done|]. right.
    destruct (endTurn_outcome w Hrun) as (-> & -> & ->). by rewrite Hcur.
  - eexists. split; [done|].
    destruct (own_step_game _ _ _ Hown) as (Hp6 & Hc6 & Ho6 & _ & Ht6 & _).
    destruct Hown as (_ & _ & Hopp6 & _).
    destruct (active (getPlayer playerNumber w6)) as [a|] eqn:Ha.
    + replace (bool_decide (is_Some (Some a))) with true by done.
      assert (Hc : currentPlayer (game w6) = playerNumber) by congruence.
      destruct (attack_outcome w6) as [(-> & -> & _ & ->)|(-> & -> & ->)].
      * apply canAct_true. repeat split; congruence.
      * rewrite Hc, Ha. eauto.
      * by rewrite Hc, Hopp6.
      * left. by rewrite Hc, Ht6.
      * right. by rewrite Hc, Ht6.
    + replace (bool_decide (is_Some (@None Card))) with false by done. right.
      destruct (endTurn_outcome w6) as (-> & -> & ->); [congruence|].
      by rewrite Hc6, Ht6, Hcur.
Qed.

(** X21.  When the opponent has no active creature (it was knocked out
    and no creature was promoted) and the controller has one, [executeTurn]
    does not finish the turn: its last call is [attack], which does nothing
    without a defender, so the controller is still the current player and
    the turn counter is as before. *)
Theorem executeTurn_stalls_without_a_defender (ai : AI.Controller)
    (playerNumber : PlayerId) (w : World) :
  gameOver (game w) = false →
  currentPlayer (game w) = playerNumber →
  is_Some (active (getPlayer playerNumber w)) →
  active (getPlayer (getOpponentId playerNumber) w) = None →
  ∃ w', AI.executeTurn ai playerNumber w = Some w'
        ∧ gameOver (game w') = false
        ∧ currentPlayer (game w') = playerNumber
        ∧ turnCount (game w') = turnCount (game w)
        ∧ phase (game w') = phase (game w).
Proof.
  intros Hrun Hcur Hact Hopp.
  destruct (executeTurn_shape ai playerNumber w Hrun Hcur) as [[Ha _]|(w6 & Hown & ->)].
  { rewrite Ha in Hact. by destruct Hact. }
  eexists. split; [done|].
  destruct (own_step_game _ _ _ Hown) as (Hp6 & Hc6 & Ho6 & _ & Ht6 & _).
  destruct Hown as (_ & _ & Hopp6 & _ & Hact6).
  rewrite bool_decide_eq_true_2 by auto.
  rewrite attack_idle.
  - repeat split; congruence.
  - right. right. rewrite Hc6, Hcur, Hopp6. done.
Qed.
Lemma executeTurn_never_throws_witness :
  let w := worldAfter (openingA ++ [OpEndTurn]) oracleA in
  let r := AI.executeTurn AI.AIController P2 w in
  map id (hand (getPlayer P2 w))
  = ["base-006"; "base-007"; "base-007"; "base-008"; "base-006"]
  ∧ is_Some r
  ∧ option_map (λ v, map id (hand (getPlayer P2 v))) r
    = Some ["base-008"; "base-006"; "base-005"; "base-006"].
Proof.
  intros w r. split; [vm_compute; reflexivity|]. split; [|vm_compute; reflexivity].
  destruct (executeTurn_never_throws AI.AIController P2 w) as (w' & Hw' & _).
  exists w'. exact Hw'.
Defined.

Lemma executeTurn_ends_the_turn_witness :
  let w := worldAfter (openingA ++ [OpEndTurn]) oracleA in
  (currentPlayer (game w), turnCount (game w)) = (P2, 2%Z)
  ∧ option_map (λ v, (currentPlayer (game v), turnCount (game v)))
      (AI.executeTurn AI.GreedyAIController P2 w) = Some (P1, 3%Z)
  ∧ ∃ w', AI.executeTurn AI.AIController P2 w = Some w'
          ∧ (gameOver (game w') = true
             ∧ winner (game w') = Some P2
             ∧ turnCount (game w') = turnCount (game w)
             ∨ gameOver (game w') = false
               ∧ currentPlayer (game w') = getOpponentId P2
               ∧ turnCount (game w') = (turnCount (game w) + 1)%Z).
Proof.
  intros w. split; [vm_compute; reflexivity|]. split; [vm_compute; reflexivity|].
  assert (Hphase : phase (game w) = playing) by (vm_compute; reflexivity).
  assert (Hrun : gameOver (game w) = false) by (vm_compute; reflexivity).
  assert (Hcur : currentPlayer (game w) = P2) by (vm_compute; reflexivity).
  assert (Hopp : is_Some (active (getPlayer (getOpponentId P2) w))) by (vm_compute; eauto).
  exact (executeTurn_ends_the_turn AI.AIController P2 w Hphase Hrun Hcur Hopp).
Defined.

Lemma executeTurn_stalls_without_a_defender_witness :
  let w := worldAfter [ OpInitializeGame 1; OpPlayCard P1 0; OpPlayCard P1 0;
                        OpPlayCard P2 4; OpSetPlayerReady P1; OpSetPlayerReady P2;
                        OpEndTurn; OpAttack; OpEndTurn; OpAttack; OpEndTurn; OpAttack;
                        OpEndTurn ] oracleC in
  reachable w
  ∧ (phase (game w), currentPlayer (game w), turnCount (game w)) = (playing, P2, 8%Z)
  ∧ active (getPlayer P1 w) = None
  ∧ option_map id (active (getPlayer P2 w)) = Some "base-001"
  ∧ ∃ w', AI.executeTurn AI.AIController P2 w = Some w'
          ∧ gameOver (game w') = false
          ∧ currentPlayer (game w') = P2
          ∧ turnCount (game w') = turnCount (game w)
          ∧ phase (game w') = phase (game w).
Proof.
  intros w. split; [apply reachable_worldAfter|].
  split; [vm_compute; reflexivity|].
  assert (Hopp : active (getPlayer (getOpponentId P2) w) = None) by (vm_compute; reflexivity).
  split; [exact Hopp|]. split; [vm_compute; reflexivity|].
  assert (Hrun : gameOver (game w) = false) by (vm_compute; reflexivity).
  assert (Hcur : currentPlayer (game w) = P2) by (vm_compute; reflexivity).
  assert (Hact : is_Some (active (getPlayer P2 w))) by (vm_compute; eauto).
  exact (executeTurn_stalls_without_a_defender AI.AIController P2 w Hrun Hcur Hact Hopp).
Defined.
(** ** The setup of the computer player *)

Lemma indexOfNull_cases (slots : list (option Card)) :
  (indexOfNull slots = (-1)%Z ∧ Forall (λ c, is_Some c) slots)
  ∨ ∃ k, indexOfNull slots = Z.of_nat k ∧ slots !! k = Some None
         ∧ ∀ j, j < k → ∃ c, slots !! j = Some (Some c).
Proof.
  unfold indexOfNull.
  destruct (findIndex_cases
              (λ (c : option Card) (_ : Z), match c with None => true | Some _ => false end)
              slots) as [[Hnone Hall]|(n & c & Hn & Hc & Hf & Hbefore)].
  - left. split; [done|]. apply Forall_lookup. intros k [c|] Hk; [done|].
    by specialize (Hall k None Hk).
  - right. exists n. destruct c; [done|]. repeat split; try done.
    intros j Hj. destruct (lookup_lt_is_Some_2 slots j) as [[c|] Hc'].
    + apply lookup_lt_Some in Hc. lia.
    + by exists c.
    + by specialize (Hbefore j None Hj Hc').
Qed.

(** What [playCard] does with a placeable basic creature, in one of three
    ways. *)
Lemma playCard_placeable player (n : nat) w card :
  gameOver (game w) = false →
  (phase (game w) = playing → currentPlayer (game w) = player) →
  hand (getPlayer player w) !! n = Some card →
  truthy (isBasic card) = true →
  placeable card →
  let p := getPlayer player w in
  let p' := getPlayer player (playCard player (Z.of_nat n) w) in
  let placed := set_turnPlaced (Some (turnCount (game w))) card in
  deck p' = deck p
  ∧ ((active p = None ∧ active p' = Some placed ∧ bench p' = bench p
      ∧ hand p' = delete n (hand p))
     ∨ (is_Some (active p) ∧ active p' = active p
        ∧ (∃ k, bench p !! k = Some None ∧ bench p' = <[k := Some placed]> (bench p))
        ∧ hand p' = delete n (hand p))
     ∨ (board_full p ∧ active p' = active p ∧ bench p' = bench p
        ∧ hand p' = <[n := placed]> (hand p))).
Proof.
  intros Hrun Hturn Hn Hbasic Hplace p p' placed.
  destruct (Hplace Hbasic) as (Hsup & H7 & H8).
  assert (Hget : jsGet (hand (getPlayer player w)) (Z.of_nat n) = Some card)
    by (by rewrite jsGet_of_nat).
  unfold p'. rewrite (playCard_basic _ _ _ card) by done.
  unfold _playBasic. rewrite (splice_remove_at _ _ _ Hget). fold p placed.
  rewrite Nat2Z.id. cbn [active set_hand].
  destruct (active p) as [a|] eqn:Ha.
  - cbn [bench set_hand].
    destruct (indexOfNull_cases (bench p)) as [[-> Hfull]|(k & -> & Hk & _)].
    + cbn [Z.eqb Pos.eqb]. cbv beta iota. rewrite getPlayer_setPlayer_eq.
      cbn [hand deck active bench set_hand].
      pose proof (splice_remove_insert _ _ _ placed Hget) as Hre.
      rewrite (splice_remove_at _ _ _ Hget), Nat2Z.id in Hre. cbn [snd] in Hre.
      fold p in Hre. rewrite Hre, Ha. split; [done|]. right; right. repeat split; eauto.
    + destruct (Z.eqb_spec (Z.of_nat k) (-1)); [lia|]. cbv beta iota.
      change (getPlayer ?q (update ?v)) with (getPlayer q v).
      rewrite getPlayer_setPlayer_eq. cbn [hand deck active bench set_hand set_bench].
      assert (Hk' : jsGet (bench p) (Z.of_nat k) = Some None) by (by rewrite jsGet_of_nat).
      rewrite (jsSet_in_range _ _ _ _ Hk'), Nat2Z.id, Ha.
      split; [done|]. right; left. repeat split; eauto.
  - cbv beta iota. change (getPlayer ?q (update ?v)) with (getPlayer q v).
    rewrite getPlayer_setPlayer_eq. cbn [hand deck active bench set_hand set_active].
    split; [done|]. left. done.
Qed.
Lemma placeable_placed v c : placeable c → placeable (set_turnPlaced v c).
Proof. done. Qed.

(** The loop of [setup] and [executeTurn] over the positions of the basic
    creatures, highest first: when it is through, the hand holds no basic
    creature or the board is full. *)
Lemma place_all_basics player (ln : list nat) w :
  gameOver (game w) = false →
  (phase (game w) = playing → currentPlayer (game w) = player) →
  Forall placeable (hand (getPlayer player w)) →
  is_Some (active (getPlayer player w)) →
  decreasing (Z.of_nat <$> ln) →
  (∀ i, i ∈ ln →
        ∃ c, hand (getPlayer player w) !! i = Some c ∧ truthy (isBasic c) = true) →
  (∀ k c, hand (getPlayer player w) !! k = Some c → truthy (isBasic c) = true →
          k ∈ ln ∨ (Forall (λ i, i < k) ln ∧ board_full (getPlayer player w))) →
  let w' := foldl (λ w' index, playCard player index w') w (Z.of_nat <$> ln) in
  deck (getPlayer player w') = deck (getPlayer player w)
  ∧ is_Some (active (getPlayer player w'))
  ∧ Forall placeable (hand (getPlayer player w'))
  ∧ (hasBasic (hand (getPlayer player w')) = false ∨ board_full (getPlayer player w')).
Proof.
  revert w. induction ln as [|i ln IH]; intros w Hrun Hturn Hpl Hact Hdec Ha Hb; cbn zeta.
  - cbn [fmap list_fmap foldl]. repeat split; try done.
    destruct (hasBasic (hand (getPlayer player w))) eqn:Hh; [|by left]. right.
    apply hasBasic_true in Hh as (c & [k Hk]%list_elem_of_lookup & Hc).
    destruct (Hb k c Hk Hc) as [Hin|[_ Hfull]]; [by apply elem_of_nil in Hin|done].
  - rewrite fmap_cons. cbn [foldl].
    destruct Hdec as [Hlt Hdec].
    assert (Hlt' : Forall (λ j, j < i) ln).
    { apply Forall_fmap in Hlt. eapply Forall_impl; [exact Hlt|].
      intros j Hj. cbn in Hj. lia. }
    destruct (Ha i) as (card & Hi & Hbasic); [by left|].
    assert (Hcard : placeable card).
    { rewrite Forall_forall in Hpl. apply Hpl. by eapply list_elem_of_lookup_2. }
    pose proof (playCard_placeable player i w card Hrun Hturn Hi Hbasic Hcard) as Hplay.
    cbn zeta in Hplay.
    pose proof (own_step_game _ _ _ (own_step_playCard player (Z.of_nat i) w))
      as (Hp1 & Hc1 & Ho1 & _).
    set (w1 := playCard player (Z.of_nat i) w) in *.
    set (p := getPlayer player w) in *. set (p1 := getPlayer player w1) in *.
    set (placed := set_turnPlaced _ card) in *.
    destruct Hplay as [Hdeck Hcases].
    assert (Hnext : is_Some (active p1)
                    ∧ Forall placeable (hand p1)
                    ∧ (∀ j, j ∈ ln →
                            ∃ c, hand p1 !! j = Some c ∧ truthy (isBasic c) = true)
                    ∧ (∀ k c, hand p1 !! k = Some c → truthy (isBasic c) = true →
                              k ∈ ln ∨ (Forall (λ j, j < k) ln ∧ board_full p1))).
    { destruct Hcases as [(Hnone & _)|[(_ & Hact1 & (k & Hk & Hbench1) & Hhand1)
                                      |(Hfull & Hact1 & Hbench1 & Hhand1)]].
      - rewrite Hnone in Hact. by destruct Hact.
      - (* a bench slot was free *)
        rewrite Hact1, Hhand1. split; [done|]. split; [by apply Forall_delete|]. split.
        + intros j Hj. rewrite Forall_forall in Hlt'. specialize (Hlt' j Hj).
          rewrite list_lookup_delete_lt by done. apply Ha. by right.
        + intros k' c Hk' Hc. left.
          destruct (decide (k' < i)) as [Hlow|Hhigh].
          * rewrite list_lookup_delete_lt in Hk' by done.
            destruct (Hb k' c Hk' Hc) as [[Heq|Hin]%elem_of_cons|[Hall _]]; [lia|done|].
            apply Forall_cons in Hall as [? _]. lia.
          * rewrite list_lookup_delete_ge in Hk' by lia.
            destruct (Hb (S k') c Hk' Hc) as [[Heq|Hin]%elem_of_cons|[_ [_ Hfull]]]; [lia| |].
            -- rewrite Forall_forall in Hlt'. specialize (Hlt' _ Hin). lia.
            -- rewrite Forall_lookup in Hfull. by destruct (Hfull k None Hk).
      - (* the board was full *)
        assert (Hfull1 : board_full p1) by (unfold board_full; by rewrite Hact1, Hbench1).
        rewrite Hact1, Hhand1. split; [done|]. split.
        { apply Forall_insert; [done|]. by apply placeable_placed. }
        split.
        + intros j Hj. rewrite Forall_forall in Hlt'. specialize (Hlt' j Hj).
          rewrite list_lookup_insert_ne by lia. apply Ha. by right.
        + intros k' c Hk' Hc.
          destruct (decide (k' = i)) as [->|Hne]; [by right|].
          rewrite list_lookup_insert_ne in Hk' by done.
          destruct (Hb k' c Hk' Hc) as [[Heq|Hin]%elem_of_cons|[Hall _]]; [done|by left|].
          apply Forall_cons in Hall as [_ Hall]. by right. }
    destruct Hnext as (Hact1 & Hpl1 & Ha1 & Hb1).
    assert (Hrun1 : gameOver (game w1) = false) by congruence.
    assert (Hturn1 : phase (game w1) = playing → currentPlayer (game w1) = player)
      by (rewrite Hp1, Hc1; exact Hturn).
    destruct (IH w1 Hrun1 Hturn1 Hpl1 Hact1 Hdec Ha1 Hb1) as (Hd' & Hrest).
    split; [|done]. fold p1 in Hd'. by rewrite Hd'.
Qed.
Lemma decreasing_snoc (l : list Z) (x : Z) :
  decreasing l → Forall (λ y, (x < y)%Z) l → decreasing (l ++ [x]).
Proof.
  induction l as [|y l IH]; intros Hd Hx; cbn; [done|].
  destruct Hd as [Hy Hd]. apply Forall_cons in Hx as [Hxy Hx]. split.
  - apply Forall_app. split; [done|]. by constructor.
  - by apply IH.
Qed.

Lemma increasing_reverse (l : list Z) : increasing l → decreasing (reverse l).
Proof.
  induction l as [|x l IH]; [done|]. intros [Hx Hl].
  rewrite reverse_cons. apply decreasing_snoc; [by apply IH|].
  by apply Forall_reverse.
Qed.

(** The positions [_chooseBenchBuddyIndices] returns, as natural numbers. *)
Lemma chooseBenchBuddyIndices_nat (h : list Card) :
  ∃ ln, AI._chooseBenchBuddyIndices h = Z.of_nat <$> ln
        ∧ decreasing (Z.of_nat <$> ln)
        ∧ ∀ i, i ∈ ln ↔ ∃ c, h !! i = Some c ∧ truthy (isBasic c) = true.
Proof.
  unfold AI._chooseBenchBuddyIndices.
  destruct (indicesFrom_increasing (λ card, truthy (isBasic card)) 0 h) as [Hinc Hpos].
  rewrite (jsSort_descending_rev _ Hinc), rev_reverse.
  set (lz := reverse (indicesFrom (λ card, truthy (isBasic card)) 0 h)).
  assert (Hpos' : Forall (λ x, (0 ≤ x)%Z) lz) by (by apply Forall_reverse).
  assert (Hback : Z.of_nat <$> (Z.to_nat <$> lz) = lz).
  { clear -Hpos'. induction Hpos' as [|x l Hx _ IH]; [done|].
    rewrite !fmap_cons, IH. f_equal. lia. }
  exists (Z.to_nat <$> lz). rewrite Hback. split; [done|]. split.
  - by apply increasing_reverse.
  - intros i. rewrite list_elem_of_fmap. split.
    + intros (x & -> & Hx). unfold lz in Hx.
      apply elem_of_reverse, indicesFrom_spec in Hx as (k & c & -> & Hk & Hc).
      exists c. by replace (Z.to_nat (0 + Z.of_nat k)) with k by lia.
    + intros (c & Hi & Hc). exists (Z.of_nat i). split; [lia|].
      apply elem_of_reverse, indicesFrom_spec. by exists i, c.
Qed.

Lemma hasBasic_false (cs : list Card) :
  hasBasic cs = false ↔ ∀ k c, cs !! k = Some c → truthy (isBasic c) = false.
Proof.
  split.
  - intros Hno k c Hk. destruct (truthy (isBasic c)) eqn:Hc; [|done].
    assert (hasBasic cs = true); [|congruence].
    apply hasBasic_true. exists c. split; [by eapply list_elem_of_lookup_2|done].
  - intros Hall. destruct (hasBasic cs) eqn:Hh; [|done].
    apply hasBasic_true in Hh as (c & [k Hk]%list_elem_of_lookup & Hc).
    by rewrite (Hall k c Hk) in Hc.
Qed.

(** Both controllers pick a basic creature for the active slot when the
    hand has one, and [-1] otherwise. *)
Lemma chooseActive_spec (ai : AI.Controller) (h : list Card) :
  ai = AI.AIController
  ∨ (ai = AI.GreedyAIController ∧ Forall (λ c, (0 ≤ orZero (hp c))%Z) h) →
  (hasBasic h = false → AI.chooseActiveBuddyIndex ai h = (-1)%Z)
  ∧ (hasBasic h = true →
     ∃ n c, AI.chooseActiveBuddyIndex ai h = Z.of_nat n
            ∧ h !! n = Some c ∧ truthy (isBasic c) = true).
Proof.
  intros [->|[-> Hhp]]; cbn [AI.chooseActiveBuddyIndex AI.AIController AI.GreedyAIController].
  - unfold AI._chooseActiveBuddyIndex.
    destruct (findIndex_cases (λ card (_ : Z), truthy (isBasic card)) h)
      as [[-> Hall]|(n & c & -> & Hc & Hf & _)].
    + split; [done|]. intros Hh. apply hasBasic_true in Hh as (c & [k Hk]%list_elem_of_lookup & Hc).
      by rewrite (Hall k c Hk) in Hc.
    + split; [|by exists n, c]. intros Hno. rewrite hasBasic_false in Hno.
      by rewrite (Hno n c Hc) in Hf.
  - unfold AI._findStrongestCardIndex.
    set (filterFn := λ card : Card, bool_decide (isBasic card = Some true)).
    assert (Hfilter : ∀ c, filterFn c = truthy (isBasic c)).
    { intros c. unfold filterFn. by destruct (isBasic c) as [[]|]. }
    pose proof (strongestFrom_spec filterFn 0 (Some <$> h) (-1) (-1)) as H. cbn zeta in H.
    destruct H as (_ & Hall & Hwho).
    destruct (AI.strongestFrom filterFn 0 (Some <$> h) (-1) (-1)) as [b m]. cbn [fst snd] in *.
    destruct Hwho as [[= -> ->]|(n & c & -> & Hc & Hf & _)].
    + split; [done|]. intros Hh.
      apply hasBasic_true in Hh as (c & [k Hk]%list_elem_of_lookup & Hc).
      assert (Hk' : (Some <$> h) !! k = Some (Some c)) by (by rewrite list_lookup_fmap, Hk).
      specialize (Hall k c Hk'). rewrite Hfilter in Hall. specialize (Hall Hc).
      rewrite Forall_lookup in Hhp. specialize (Hhp k c Hk). cbn in Hhp. lia.
    + rewrite list_lookup_fmap in Hc.
      destruct (h !! n) as [c'|] eqn:Hn; [|done]. injection Hc as ->.
      rewrite Hfilter in Hf. split; [|by exists n, c].
      intros Hno. rewrite hasBasic_false in Hno. by rewrite (Hno n c Hn) in Hf.
Qed.

Lemma setup_outcome (ai : AI.Controller)
    (playerNumber : PlayerId) (w : World) :
  let p := getPlayer playerNumber w in
  ai = AI.AIController
  ∨ (ai = AI.GreedyAIController ∧ Forall (λ c, (0 ≤ orZero (hp c))%Z) (hand p)) →
  (hasBasic (hand p) = false →
   AI.setup ai playerNumber w
   = (w, [("AI P" ++ match playerNumber with P1 => "1" | P2 => "2" end
           ++ " has no basic Buddy to place!")%string]))
  ∧ (hasBasic (hand p) = true →
     phase (game w) = setup →
     gameOver (game w) = false →
     Forall placeable (hand p) →
     ∃ w2,
       AI.setup ai playerNumber w = (setPlayerReady playerNumber w2, [])
       ∧ is_Some (active (getPlayer playerNumber w2))
       ∧ (hasBasic (hand (getPlayer playerNumber w2)) = false
          ∨ board_full (getPlayer playerNumber w2))
       ∧ deck (getPlayer playerNumber w2) = deck p
       ∧ getPlayer (getOpponentId playerNumber) w2 = getPlayer (getOpponentId playerNumber) w
       ∧ game w2 = set_players (players (game w2)) (game w)
       ∧ sel playerNumber (setupReady (game (setPlayerReady playerNumber w2))) = true
       ∧ is_Some (active (getPlayer playerNumber (setPlayerReady playerNumber w2)))).
Proof.
  intros p Hai. destruct (chooseActive_spec ai (hand p) Hai) as [Hnone Hsome].
  unfold AI.setup. fold p. split.
  - intros Hno. by rewrite (Hnone Hno).
  - intros Hyes Hsetup Hrun Hpl.
    destruct (Hsome Hyes) as (n & card & -> & Hn & Hbasic).
    destruct (Z.ltb_spec (-1) (Z.of_nat n)); [|lia].
    assert (Hturn : phase (game w) = playing → currentPlayer (game w) = playerNumber)
      by (by rewrite Hsetup).
    assert (Hcard : placeable card).
    { rewrite Forall_forall in Hpl. apply Hpl. by eapply list_elem_of_lookup_2. }
    pose proof (playCard_placeable playerNumber n w card Hrun Hturn Hn Hbasic Hcard) as Hplay.
    cbn zeta in Hplay. fold p in Hplay.
    pose proof (own_step_playCard playerNumber (Z.of_nat n) w) as Hown1.
    set (w1 := playCard playerNumber (Z.of_nat n) w) in *.
    set (p1 := getPlayer playerNumber w1) in *.
    destruct Hplay as [Hdeck1 Hcases].
    assert (H1 : is_Some (active p1) ∧ Forall placeable (hand p1)).
    { destruct Hcases as [(_ & -> & _ & ->)|[(Ha & -> & _ & ->)|(Hfull & -> & _ & ->)]].
      - split; [eauto|by apply Forall_delete].
      - split; [done|by apply Forall_delete].
      - split; [apply Hfull|]. apply Forall_insert; [done|]. by apply placeable_placed. }
    destruct H1 as [Hact1 Hpl1].
    destruct (own_step_game _ _ _ Hown1) as (Hp1 & Hc1 & Ho1 & _).
    destruct (chooseBenchBuddyIndices_nat (hand p1)) as (ln & -> & Hdec & Hln).
    pose proof (place_all_basics playerNumber ln w1) as Hloop. cbn zeta in Hloop.
    pose proof (own_step_foldl_playCard playerNumber (Z.of_nat <$> ln) w1) as Hown2.
    set (w2 := foldl _ w1 _) in *.
    destruct Hloop as (Hdeck2 & Hact2 & _ & Hdone); try done.
    { congruence. }
    { rewrite Hp1, Hc1. exact Hturn. }
    { intros i Hi. by apply Hln. }
    { intros k c Hk Hc. left. apply Hln. by exists c. }
    pose proof (own_step_trans _ _ _ _ Hown1 Hown2) as Hown.
    destruct (own_step_game _ _ _ Hown) as (Hp2 & _).
    destruct Hown as (Hg & _ & Hopp & _).
    exists w2. split; [done|]. split; [done|]. split; [done|].
    split; [by rewrite Hdeck2|]. split; [done|]. split; [done|].
    unfold setPlayerReady. rewrite Hp2, Hsetup. destruct Hact2 as [a Ha]. rewrite Ha.
    replace (bool_decide (is_Some (Some a))) with true by done. cbn [phaseEqb negb orb].
    set (w3 := set_game _ w2).
    assert (Hr3 : sel playerNumber (setupReady (game w3)) = true)
      by (unfold w3; by destruct playerNumber).
    destruct (_ && _).
    + pose proof (startTurn_frame P1 (set_game (set_phase playing (game w3)) w3)) as Hf.
      cbn zeta in Hf. destruct Hf as (_ & _ & _ & _ & _ & -> & _ & _ & _ & Hpl' & _).
      destruct (Hpl' playerNumber) as (-> & _). split; [done|].
      change (getPlayer playerNumber (set_game _ w3)) with (getPlayer playerNumber w2).
      rewrite Ha. eauto.
    + split; [done|].
      change (getPlayer playerNumber (update w3)) with (getPlayer playerNumber w2).
      rewrite Ha. eauto.
Qed.

(** X22.  [setup], for either controller (the greedy one on a hand whose
    cards have no negative [hp]).  Without a basic creature in the hand it
    reports an error on the console and changes nothing: the player is not
    declared ready.  With one, in the setup phase, it places creatures until
    the hand holds no basic creature or the active slot and the bench are
    full, touching neither the deck nor the opponent, and then declares the
    player ready. *)
Theorem setup_places_the_basic_creatures (ai : AI.Controller)
    (playerNumber : PlayerId) (w : World) :
  let p := getPlayer playerNumber w in
  ai = AI.AIController
  ∨ (ai = AI.GreedyAIController ∧ Forall (λ c, (0 ≤ orZero (hp c))%Z) (hand p)) →
  (hasBasic (hand p) = false →
   AI.setup ai playerNumber w
   = (w, [("AI P" ++ match playerNumber with P1 => "1" | P2 => "2" end
           ++ " has no basic Buddy to place!")%string]))
  ∧ (hasBasic (hand p) = true →
     phase (game w) = setup →
     gameOver (game w) = false →
     Forall placeable (hand p) →
     ∃ w2,
       AI.setup ai playerNumber w = (setPlayerReady playerNumber w2, [])
       ∧ is_Some (active (getPlayer playerNumber w2))
       ∧ (hasBasic (hand (getPlayer playerNumber w2)) = false
          ∨ board_full (getPlayer playerNumber w2))
       ∧ deck (getPlayer playerNumber w2) = deck p
       ∧ getPlayer (getOpponentId playerNumber) w2 = getPlayer (getOpponentId playerNumber) w
       ∧ game w2 = set_players (players (game w2)) (game w)
       ∧ sel playerNumber (setupReady (game (setPlayerReady playerNumber w2))) = true
       ∧ is_Some (active (getPlayer playerNumber (setPlayerReady playerNumber w2)))).
Proof. exact (setup_outcome ai playerNumber w). Qed.
Lemma placeableb_true (c : Card) : placeableb c = true → placeable c.
Proof.
  unfold placeableb, placeable. intros H Hb. rewrite Hb in H. cbn in H.
  apply andb_true_iff in H as [[H1 H7]%andb_true_iff H8].
  apply negb_true_iff in H1, H7, H8. by apply String.eqb_neq in H7, H8.
Qed.

Lemma forallb_placeable (cs : list Card) : forallb placeableb cs = true → Forall placeable cs.
Proof.
  induction cs as [|c cs IH]; cbn; [by constructor|].
  intros [Hc Hcs]%andb_true_iff. constructor; [by apply placeableb_true|by apply IH].
Qed.

Lemma setup_places_the_basic_creatures_witness :
  let w := worldAfter [OpInitializeGame 1] oracleC in
  let w0 := worldAfter [OpInitializeGame 1; OpPlayCard P2 4] oracleC in
  map id (hand (getPlayer P1 w))
  = ["base-003"; "base-003"; "base-001"; "base-001"; "base-001"]
  ∧ (let r := AI.setup AI.GreedyAIController P1 w in
     map id (hand (getPlayer P1 (fst r))) = ["base-003"]
     ∧ map (option_map id) (bench (getPlayer P1 (fst r)))
       = [Some "base-001"; Some "base-001"; Some "base-001"])
  ∧ (∃ w2,
       AI.setup AI.AIController P1 w = (setPlayerReady P1 w2, [])
       ∧ is_Some (active (getPlayer P1 w2))
       ∧ (hasBasic (hand (getPlayer P1 w2)) = false ∨ board_full (getPlayer P1 w2)))
  ∧ map id (hand (getPlayer P2 w0)) = ["base-006"; "base-007"; "base-007"; "base-008"]
  ∧ AI.setup AI.AIController P2 w0 = (w0, ["AI P2 has no basic Buddy to place!"]).
Proof.
  intros w w0.
  split; [vm_compute; reflexivity|]. split; [split; vm_compute; reflexivity|].
  assert (Hyes : hasBasic (hand (getPlayer P1 w)) = true) by (vm_compute; reflexivity).
  assert (Hsetup : phase (game w) = setup) by (vm_compute; reflexivity).
  assert (Hrun : gameOver (game w) = false) by (vm_compute; reflexivity).
  assert (Hpl : Forall placeable (hand (getPlayer P1 w)))
    by (apply forallb_placeable; vm_compute; reflexivity).
  assert (Hno : hasBasic (hand (getPlayer P2 w0)) = false) by (vm_compute; reflexivity).
  destruct (proj2 (setup_places_the_basic_creatures AI.AIController P1 w (or_introl eq_refl))
              Hyes Hsetup Hrun Hpl) as (w2 & Hw2 & Ha & Hdone & _).
  split; [exists w2; exact (conj Hw2 (conj Ha Hdone))|].
  split; [vm_compute; reflexivity|].
  exact (proj1 (setup_places_the_basic_creatures AI.AIController P2 w0 (or_introl eq_refl))
           Hno).
Defined.
(** ** The opportunities the computer player sees *)

Lemma benchTargetsFrom_spec (s : Z) (b : list (option Card)) (card : option Card) (index : Z) :
  (card, index) ∈ AI.benchTargetsFrom s b
  ↔ ∃ k, index = (s + Z.of_nat k)%Z ∧ b !! k = Some card.
Proof.
  revert s. induction b as [|x b IH]; intros s; cbn [AI.benchTargetsFrom].
  - split; [by intros ?%elem_of_nil|]. by intros (k & _ & ?).
  - rewrite elem_of_cons, IH. split.
    + intros [[= -> ->]|(k & -> & Hk)].
      * exists 0. split; [lia|done].
      * exists (S k). split; [lia|done].
    + intros ([|k] & -> & Hk); simpl in Hk.
      * left. injection Hk as ->. f_equal. lia.
      * right. exists k. split; [lia|done].
Qed.

(** The entries of [allTargets] that hold a card are the slots [targetAt]
    reads. *)
Lemma allTargets_targetAt (p : PlayerState) (c : Card) (index : Z) :
  (Some c, index) ∈ AI.allTargets p
  ↔ targetAt p index = Some c ∧ (index = (-1)%Z ∨ (0 ≤ index)%Z).
Proof.
  unfold AI.allTargets, targetAt. rewrite elem_of_cons, benchTargetsFrom_spec. split.
  - intros [[= Ha Hi]|(k & Hi & Hk)]; subst index.
    + split; [done|by left].
    + destruct (Z.eqb_spec (0 + Z.of_nat k) (-1)); [lia|].
      split; [|right; lia].
      replace (0 + Z.of_nat k)%Z with (Z.of_nat k) by lia.
      by rewrite jsGet_of_nat, Hk.
  - intros [Ht Hrange]. destruct (Z.eqb_spec index (-1)) as [Heq|Hne].
    + left. by rewrite Ht, Heq.
    + right. destruct Hrange as [?|H0]; [done|].
      apply mjoin_jsGet_Some, jsGet_Some in Ht as [_ Ht].
      exists (Z.to_nat index). split; [lia|done].
Qed.

Lemma strictEqS_true (a : option string) (s : string) :
  strictEqS a (Some s) = true ↔ a = Some s.
Proof.
  unfold strictEqS. destruct a as [x|]; [|done]. rewrite String.eqb_eq.
  split; [by intros ->|by intros [= ->]].
Qed.

(** The creatures a player has in play. *)
Lemma targetAt_in_play (p : PlayerState) (c : Card) (index : Z) :
  targetAt p index = Some c → c ∈ option_list (active p) ++ slotCards (bench p).
Proof.
  unfold targetAt. destruct (index =? -1)%Z.
  - intros ->. apply elem_of_app. left. by apply list_elem_of_singleton.
  - intros [_ Hc]%mjoin_jsGet_Some%jsGet_Some. apply elem_of_app. right.
    unfold slotCards. apply list_elem_of_omap. exists (Some c). split; [|done].
    by eapply list_elem_of_lookup_2.
Qed.

(** X23.  [_findEvolutionOpportunities] agrees with [evolve].  When the
    controller may act and its creatures in play have a non-empty id and
    were not placed after the current turn, every opportunity it returns is
    one [evolve] accepts; and for every target slot on which some hand card
    could evolve, it returns an opportunity (with the first hand card that
    fits). *)
Theorem findEvolutionOpportunities_agree_with_evolve (playerNumber : PlayerId)
    (w : World) :
  let p := getPlayer playerNumber w in
  canAct playerNumber w = true →
  Forall (λ c, (orZero (turnPlaced c) ≤ turnCount (game w))%Z ∧ id c ≠ "")
    (option_list (active p) ++ slotCards (bench p)) →
  (∀ o, o ∈ AI._findEvolutionOpportunities playerNumber w →
        evolve playerNumber (AI.handIndex o) (AI.targetIndex o) w ≠ w)
  ∧ (∀ handIndex tidx,
       tidx = (-1)%Z ∨ (0 ≤ tidx)%Z →
       evolve playerNumber handIndex tidx w ≠ w →
       ∃ o, o ∈ AI._findEvolutionOpportunities playerNumber w ∧ AI.targetIndex o = tidx).
Proof.
  intros p Hcan Hplay. unfold AI._findEvolutionOpportunities. fold p. split.
  - intros o Ho.
    destruct (Z.leb_spec (turnCount (game w)) 1) as [?|Hturn]; [by apply elem_of_nil in Ho|].
    apply list_elem_of_In, in_flat_map in Ho as ([card index] & Hin%list_elem_of_In & Ho).
    destruct card as [card|]; [|done].
    apply allTargets_targetAt in Hin as [Ht _].
    destruct (strictEqZ (turnPlaced card) (turnCount (game w))) eqn:Hsame; [done|].
    cbn zeta in Ho.
    destruct (findIndex_cases
                (λ (hCard : Card) (_ : Z), strictEqS (evolvesFrom hCard) (Some (id card)))
                (hand p)) as [[Hnone _]|(n & hCard & Hfound & Hn & Hfrom & _)];
      [by rewrite Hnone in Ho|].
    rewrite Hfound in Ho.
    destruct (Z.eqb_spec (Z.of_nat n) (-1)); [lia|]. cbn [negb] in Ho.
    destruct Ho as [<-|[]]. cbn [AI.handIndex AI.targetIndex].
    apply strictEqS_true in Hfrom.
    rewrite Forall_forall in Hplay.
    destruct (Hplay card (targetAt_in_play _ _ _ Ht)) as [Hle Hid].
    eapply evolve_succeeds; try done.
    + by rewrite jsGet_of_nat.
    + unfold strictEqZ in Hsame. destruct (turnPlaced card) as [t|]; cbn in *; [|lia].
      apply Z.eqb_neq in Hsame. lia.
  - intros handIndex tidx Hrange Hne.
    destruct (evolve_changes _ _ _ _ Hne)
      as (targetCard & handCard & Ht & Hh & _ & Hturn & Hfrom & Hplaced & _).
    destruct (Z.leb_spec (turnCount (game w)) 1); [lia|].
    assert (Hsame : strictEqZ (turnPlaced targetCard) (turnCount (game w)) = false).
    { unfold strictEqZ. destruct (turnPlaced targetCard) as [t|]; [|done].
      cbn in Hplaced. apply Z.eqb_neq. lia. }
    destruct (findIndex_cases
                (λ (hCard : Card) (_ : Z), strictEqS (evolvesFrom hCard) (Some (id targetCard)))
                (hand p)) as [[_ Hall]|(n & hCard & Hn & _)].
    { apply jsGet_Some in Hh as [_ Hh]. specialize (Hall _ _ Hh).
      rewrite Hfrom in Hall. cbn in Hall. by rewrite String.eqb_refl in Hall. }
    exists (AI.mkOpportunity (Z.of_nat n) tidx). split; [|done].
    apply list_elem_of_In, in_flat_map. exists (Some targetCard, tidx). split.
    + apply list_elem_of_In, allTargets_targetAt. done.
    + rewrite Hsame, Hn. destruct (Z.eqb_spec (Z.of_nat n) (-1)); [lia|]. by left.
Qed.
(** X24.  Every opportunity [_findChickenNuggetOpportunities] returns
    names a Chicken Nugget in the hand and a basic creature in play for which
    the hand holds a card to evolve into.  The search does not look at the
    turn the creature was placed in: [playChickenNugget] accepts the
    opportunity exactly when the creature was placed before the current
    turn. *)
Theorem findChickenNuggetOpportunities_name_a_nugget (playerNumber : PlayerId)
    (w : World) (o : AI.EvolutionOpportunity) :
  let p := getPlayer playerNumber w in
  canAct playerNumber w = true →
  o ∈ AI._findChickenNuggetOpportunities playerNumber w →
  ∃ nugget targetCard,
    jsGet (hand p) (AI.handIndex o) = Some nugget
    ∧ id nugget = "base-008"
    ∧ targetAt p (AI.targetIndex o) = Some targetCard
    ∧ truthy (isBasic targetCard) = true
    ∧ (fst (playChickenNugget playerNumber (AI.handIndex o) (AI.targetIndex o) w) = true
       ↔ (orZero (turnPlaced targetCard) < turnCount (game w))%Z).
Proof.
  intros p Hcan Ho. unfold AI._findChickenNuggetOpportunities in Ho. fold p in Ho.
  cbn zeta in Ho.
  set (nuggets := indicesFrom (λ card, String.eqb (id card) "base-008") 0 (hand p)) in *.
  destruct (Nat.eqb (length nuggets) 0); [by apply elem_of_nil in Ho|].
  apply list_elem_of_In, in_flat_map in Ho as ([card index] & Hin%list_elem_of_In & Ho).
  destruct card as [targetCard|]; [|done].
  apply allTargets_targetAt in Hin as [Ht _].
  destruct (truthy (isBasic targetCard)) eqn:Hbasic; [|done]. cbn [negb] in Ho.
  destruct (findIndex_cases
              (λ (hCard : Card) (hIndex : Z),
                 strictEqS (evolvesFromBasic hCard) (Some (id targetCard))
                 && negb (existsb (Z.eqb hIndex) nuggets))
              (hand p)) as [[Hnone _]|(n & hCard & Hfound & Hn & Hfits & _)];
    [by rewrite Hnone in Ho|].
  rewrite Hfound in Ho. destruct (Z.eqb_spec (Z.of_nat n) (-1)); [lia|].
  apply in_map_iff in Ho as (chickenIndex & <- & Hci%list_elem_of_In).
  cbn [AI.handIndex AI.targetIndex].
  apply andb_true_iff in Hfits as [Hfrom%strictEqS_true Hnot%negb_true_iff].
  assert (Hne : Z.of_nat n ≠ chickenIndex).
  { intros <-. assert (existsb (Z.eqb (Z.of_nat n)) nuggets = true); [|congruence].
    apply existsb_exists. exists (Z.of_nat n). split; [by apply list_elem_of_In|].
    apply Z.eqb_refl. }
  apply indicesFrom_spec in Hci as (k & nugget & -> & Hk & Hid%String.eqb_eq).
  exists nugget, targetCard.
  replace (0 + Z.of_nat k)%Z with (Z.of_nat k) in * by lia.
  split; [by rewrite jsGet_of_nat|]. split; [done|]. split; [done|]. split; [done|].
  pose proof (proj1 (playChickenNugget_cases playerNumber (Z.of_nat k) index w)) as Hiff.
  cbn zeta in Hiff. fold p in Hiff. rewrite Hiff. split.
  - intros (t & _ & _ & Ht' & _ & _ & Hlt & _). congruence.
  - intros Hlt. exists targetCard, n, hCard. repeat split; done.
Qed.

Lemma findChickenNuggetOpportunities_name_a_nugget_witness :
  let w := worldAfter (openingA ++ [OpEndTurn; OpAttack]) oracleA in
  let o := AI.mkOpportunity 2 (-1) in
  AI._findChickenNuggetOpportunities P1 w = [AI.mkOpportunity 2 (-1); AI.mkOpportunity 3 (-1)]
  ∧ ∃ nugget targetCard,
      jsGet (hand (getPlayer P1 w)) (AI.handIndex o) = Some nugget
      ∧ id nugget = "base-008"
      ∧ targetAt (getPlayer P1 w) (AI.targetIndex o) = Some targetCard
      ∧ truthy (isBasic targetCard) = true
      ∧ (fst (playChickenNugget P1 (AI.handIndex o) (AI.targetIndex o) w) = true
         ↔ (orZero (turnPlaced targetCard) < turnCount (game w))%Z).
Proof.
  intros w o.
  assert (Hlist : AI._findChickenNuggetOpportunities P1 w
                  = [AI.mkOpportunity 2 (-1); AI.mkOpportunity 3 (-1)])
    by (vm_compute; reflexivity).
  split; [exact Hlist|].
  assert (Hcan : canAct P1 w = true) by (vm_compute; reflexivity).
  assert (Ho : o ∈ AI._findChickenNuggetOpportunities P1 w).
  { apply (eq_ind_r (λ l, o ∈ l) (list_elem_of_here o _) Hlist). }
  exact (findChickenNuggetOpportunities_name_a_nugget P1 w o Hcan Ho).
Defined.

Lemma findEvolutionOpportunities_agree_with_evolve_witness :
  let w := worldAfter (openingB ++ [OpEndTurn; OpAttack; OpEndTurn; OpAttack]) oracleB in
  AI._findEvolutionOpportunities P1 w = [AI.mkOpportunity 3 (-1)]
  ∧ (∀ o, o ∈ AI._findEvolutionOpportunities P1 w →
          evolve P1 (AI.handIndex o) (AI.targetIndex o) w ≠ w).
Proof.
  intros w. split; [vm_compute; reflexivity|].
  assert (Hcan : canAct P1 w = true) by (vm_compute; reflexivity).
  assert (Hplay : Forall (λ c, (orZero (turnPlaced c) ≤ turnCount (game w))%Z ∧ id c ≠ "")
                    (option_list (active (getPlayer P1 w))
                     ++ slotCards (bench (getPlayer P1 w)))).
  { apply Forall_forall. intros c Hc.
    assert (Hall : forallb (λ c, (orZero (turnPlaced c) <=? turnCount (game w))%Z
                                 && negb (String.eqb (id c) ""))
                     (option_list (active (getPlayer P1 w))
                      ++ slotCards (bench (getPlayer P1 w))) = true)
      by (vm_compute; reflexivity).
    rewrite forallb_forall in Hall. specialize (Hall c (proj1 (list_elem_of_In _ _) Hc)).
    apply andb_true_iff in Hall as [Hle Hid].
    split; [by apply Z.leb_le|]. apply String.eqb_neq. by apply negb_true_iff. }
  exact (proj1 (findEvolutionOpportunities_agree_with_evolve P1 w Hcan Hplay)).
Defined.

(** ** Cards as the catalogue prints them *)

Lemma lookupCard_In key table c :
  lookupCard key table = Some c → In (key, c) table.
Proof.
  induction table as [|[k c'] rest IH]; [done|].
  cbn [lookupCard]. destruct (String.eqb k key) eqn:Hk.
  - apply String.eqb_eq in Hk. intros [= ->]. left. by subst.
  - intros H. right. by apply IH.
Qed.

Lemma CARD_DATA_templates : forallb templateOk CARD_DATA = true.
Proof. vm_compute. reflexivity. Qed.

Lemma CARD_DATA_evolutions :
  forallb (λ e, forallb (evolutionOk e) CARD_DATA) CARD_DATA = true.
Proof. vm_compute. reflexivity. Qed.

Lemma as_created_template c :
  as_created c →
  ∃ t, In (id c, t) CARD_DATA
       ∧ maxHp c = hp t ∧ isBasic c = isBasic t ∧ attackDamage c = attackDamage t
       ∧ evolvesFrom c = evolvesFrom t ∧ evolvesFromBasic c = evolvesFromBasic t
       ∧ isSupporter c = isSupporter t.
Proof.
  intros ([t Ht] & c0 & k & Hc & Heq). unfold createCard, cardData in Hc.
  rewrite Ht in Hc.
  injection Hc as <-. exists t. split; [by apply lookupCard_In|].
  repeat split.
  - by rewrite (f_equal maxHp Heq).
  - by rewrite (f_equal isBasic Heq).
  - by rewrite (f_equal attackDamage Heq).
  - by rewrite (f_equal evolvesFrom Heq).
  - by rewrite (f_equal evolvesFromBasic Heq).
  - by rewrite (f_equal isSupporter Heq).
Qed.

Lemma template_facts key t :
  In (key, t) CARD_DATA →
  key ≠ ""
  ∧ (0 ≤ orZero (attackDamage t))%Z
  ∧ (0 ≤ orZero (hp t))%Z
  ∧ (truthy (isBasic t) = true →
     (∃ m, hp t = Some m ∧ (0 < m)%Z)
     ∧ truthy (isSupporter t) = false ∧ key ≠ "base-007" ∧ key ≠ "base-008").
Proof.
  intros H. pose proof (proj1 (forallb_forall _ _) CARD_DATA_templates _ H) as Hok.
  unfold templateOk in Hok. cbn [fst snd] in Hok.
  apply andb_true_iff in Hok as [Hok Hbasic].
  apply andb_true_iff in Hok as [Hok Hhp].
  apply andb_true_iff in Hok as [Hkey Hdmg].
  apply negb_true_iff, String.eqb_neq in Hkey.
  split; [done|]. split; [lia|]. split; [lia|].
  intros Hb. rewrite Hb in Hbasic. cbn [implb] in Hbasic.
  apply andb_true_iff in Hbasic as [Hbasic H8].
  apply andb_true_iff in Hbasic as [Hbasic H7].
  apply andb_true_iff in Hbasic as [Hm Hsup].
  apply negb_true_iff in H8, H7, Hsup. apply String.eqb_neq in H8, H7.
  repeat split; try done.
  destruct (hp t) as [m|]; [|done]. exists m. split; [done|lia].
Qed.

Lemma as_created_id c : as_created c → id c ≠ "".
Proof.
  intros (t & Hin & _)%as_created_template. by apply template_facts in Hin as [? _].
Qed.

Lemma as_created_damage c : as_created c → (0 ≤ orZero (attackDamage c))%Z.
Proof.
  intros (t & Hin & _ & _ & Hd & _)%as_created_template.
  apply template_facts in Hin as (_ & ? & _). by rewrite Hd.
Qed.

Lemma as_created_maxHp c : as_created c → (0 ≤ orZero (maxHp c))%Z.
Proof.
  intros (t & Hin & Hm & _)%as_created_template.
  apply template_facts in Hin as (_ & _ & ? & _). by rewrite Hm.
Qed.

Lemma as_created_basic c :
  as_created c → truthy (isBasic c) = true →
  (∃ m, maxHp c = Some m ∧ (0 < m)%Z) ∧ placeable c.
Proof.
  intros (t & Hin & Hm & Hb & _ & _ & _ & Hs)%as_created_template Hbasic.
  apply template_facts in Hin as (_ & _ & _ & Hfacts).
  rewrite Hb in Hbasic. destruct (Hfacts Hbasic) as (Hhp & Hsup & H7 & H8).
  split; [by rewrite Hm|]. intros _. by rewrite Hs.
Qed.

Lemma as_created_evolution e t :
  as_created e → as_created t →
  evolvesFrom e = Some (id t) ∨ evolvesFromBasic e = Some (id t) →
  ∃ me mt, maxHp e = Some me ∧ maxHp t = Some mt ∧ (mt ≤ me)%Z.
Proof.
  intros (te & Hine & Hme & _ & _ & Hfe & Hfbe & _)%as_created_template
         (tt & Hint & Hmt & _)%as_created_template Hev.
  pose proof (proj1 (forallb_forall _ _) CARD_DATA_evolutions _ Hine) as H1.
  cbv beta in H1.
  pose proof (proj1 (forallb_forall _ _) H1 _ Hint) as H2.
  unfold evolutionOk in H2. cbn [fst snd] in H2.
  rewrite <- Hfe, <- Hfbe in H2.
  assert (strictEqS (evolvesFrom e) (Some (id t))
          || strictEqS (evolvesFromBasic e) (Some (id t)) = true) as Hor.
  { destruct Hev as [-> | ->]; cbn [strictEqS]; rewrite String.eqb_refl;
      [done | by rewrite orb_true_r]. }
  rewrite Hor in H2. cbn [implb] in H2.
  rewrite Hme, Hmt.
  destruct (hp te) as [me|]; [|done]. destruct (hp tt) as [mt|]; [|done].
  exists me, mt. repeat split. lia.
Qed.

Lemma as_created_set_hp v c : as_created c → as_created (set_hp v c).
Proof.
  intros (Hin & c0 & k & Hc & Heq). split; [exact Hin|].
  exists c0, k. split; [done|].
  rewrite Heq at 1. destruct c0; reflexivity.
Qed.

Lemma as_created_set_turnPlaced v c : as_created c → as_created (set_turnPlaced v c).
Proof.
  intros (Hin & c0 & k & Hc & Heq). split; [exact Hin|].
  exists c0, k. split; [done|].
  rewrite Heq at 1. destruct c0; reflexivity.
Qed.

Lemma createCard_as_created key k c k' :
  is_Some (lookupCard key CARD_DATA) →
  createCard key k = Some (c, k') → stored 0 c.
Proof.
  intros [t Ht] H. pose proof (createCard_spec _ _ _ _ H) as (-> & _ & Hid).
  unfold createCard, cardData in H. rewrite Ht in H.
  injection H as <-. split; [|by split]. split; [cbn [id]; rewrite Ht; by eexists|].
  exists (mkCard key (name t) (hp t) (hp t) (attackName t) (attackDamage t)
            (evolvesFrom t) (evolvesFromBasic t) (isBasic t) (isEx t) (isTrainer t)
            (isSupporter t) (isItem t) (rule t) None (Some (stringOfNat k))), k.
  split; [|reflexivity]. cbn [id]. unfold createCard, cardData. by rewrite Ht.
Qed.

(** *** The invariant along the calls *)

Lemma stored_mono t t' c : (t ≤ t')%Z → stored t c → stored t' c.
Proof.
  intros Ht (Hc & Hh & Hs). split; [done|]. split; [done|].
  unfold stamped_by in *. destruct (turnPlaced c); [lia|done].
Qed.

Lemma fielded_mono t t' c : (t ≤ t')%Z → fielded t c → fielded t' c.
Proof.
  intros Ht (Hc & Hh & s & Hs & Hr). split; [done|]. split; [done|].
  exists s. split; [done|lia].
Qed.

Lemma slot_ok_mono t t' s : (t ≤ t')%Z → slot_ok t s → slot_ok t' s.
Proof. intros Ht. destruct s; [apply fielded_mono|]; done. Qed.

Lemma player_sound_mono t t' p : (t ≤ t')%Z → player_sound t p → player_sound t' p.
Proof.
  intros Ht (Hd & Hh & Ha & Hb). repeat split.
  - eapply Forall_impl; [exact Hd|]. intros c. by apply stored_mono.
  - eapply Forall_impl; [exact Hh|]. intros c. by apply stored_mono.
  - by eapply slot_ok_mono.
  - eapply Forall_impl; [exact Hb|]. intros c. by apply slot_ok_mono.
Qed.

Lemma Forall_splice {A : Type} (P : A → Prop) (arr : list A) (start : Z)
    (d : option nat) (items : list A) :
  Forall P arr → Forall P items →
  Forall P (fst (splice arr start d items)) ∧ Forall P (snd (splice arr start d items)).
Proof.
  intros Ha Hi. unfold splice. cbn [fst snd]. split.
  - by apply Forall_take, Forall_drop.
  - apply Forall_app. split; [by apply Forall_take|].
    apply Forall_app. split; [done|]. by apply Forall_drop.
Qed.

Lemma Forall_jsSet {A : Type} (P : option A → Prop) (arr : list (option A))
    (i : Z) (c : option A) :
  Forall P arr → P c → P None → Forall P (jsSet arr i c).
Proof.
  intros Ha Hc Hn. unfold jsSet. destruct (i <? 0)%Z; [done|].
  destruct (decide _).
  - by apply Forall_insert.
  - apply Forall_app. split; [done|]. apply Forall_app. split.
    + apply Forall_replicate. done.
    + by constructor.
Qed.

Lemma cards_sound_fields w w' :
  turnCount (game w') = turnCount (game w) →
  players (game w') = players (game w) →
  cards_sound w → cards_sound w'.
Proof.
  intros Ht Hp [H0 Hs]. split; [by rewrite Ht|].
  intros pl. unfold getPlayer. rewrite Hp, Ht. apply Hs.
Qed.

Lemma cards_sound_setPlayer pl p' w :
  cards_sound w → player_sound (turnCount (game w)) p' →
  cards_sound (setPlayer pl p' w).
Proof.
  intros [H0 Hs] Hp. split; [done|]. intros q.
  rewrite setPlayer_turnCount.
  destruct (decide (q = pl)) as [->|Hne].
  - by rewrite getPlayer_setPlayer_eq.
  - rewrite getPlayer_setPlayer_ne by done. apply Hs.
Qed.

Lemma cards_sound_drawCards player n w :
  cards_sound w → cards_sound (drawCards player n w).
Proof.
  intros Hs. unfold drawCards.
  pose proof (proj2 Hs player) as (Hd & Hh & Ha & Hb).
  pose proof (Forall_splice _ (deck (getPlayer player w)) (- n) None [] Hd
                ltac:(constructor)) as [Hf Hr].
  destruct (splice (deck (getPlayer player w)) (- n) None []) as [drawn rest].
  cbn [fst snd] in Hf, Hr.
  apply cards_sound_setPlayer; [done|].
  repeat split; cbn; [done| |done..].
  apply Forall_app. by split.
Qed.

Lemma cards_sound_startTurn player w :
  cards_sound w → cards_sound (startTurn player w).
Proof.
  intros [H0 Hs]. unfold startTurn. cbn zeta.
  set (w1 := set_game _ w).
  assert (cards_sound w1) as H1.
  { split; [cbn; lia|]. intros pl. cbn.
    eapply player_sound_mono; [|apply (Hs pl)]. lia. }
  set (cur := currentPlayer (game w1)).
  set (w2 := setPlayer cur _ w1).
  assert (cards_sound w2) as H2.
  { apply cards_sound_setPlayer; [done|].
    destruct (proj2 H1 cur) as (? & ? & ? & ?). by repeat split. }
  eapply (cards_sound_fields (if (1 <? turnCount (game w2))%Z then drawCards player 1 w2 else w2));
    [reflexivity..|].
  destruct (1 <? turnCount (game w2))%Z; [by apply cards_sound_drawCards|done].
Qed.

Lemma cards_sound_endTurn w : cards_sound w → cards_sound (endTurn w).
Proof.
  intros Hs. unfold endTurn. destruct (gameOver (game w)); [done|].
  by apply cards_sound_startTurn.
Qed.

Lemma cards_sound_setPlayerReady player w :
  cards_sound w → cards_sound (setPlayerReady player w).
Proof.
  intros Hs. unfold setPlayerReady. destruct (_ || _); [done|]. cbn zeta.
  destruct (_ && _).
  - apply cards_sound_startTurn. by eapply cards_sound_fields; [..|exact Hs].
  - by eapply cards_sound_fields; [..|exact Hs].
Qed.

Lemma cards_sound_endGame who w : cards_sound w → cards_sound (endGame who w).
Proof. intros Hs. by eapply cards_sound_fields; [..|exact Hs]. Qed.

Lemma Forall_splice_rest {A : Type} (P : A → Prop) (arr : list A) (start : Z)
    (d : option nat) (items : list A) :
  Forall P arr → Forall P items → Forall P (snd (splice arr start d items)).
Proof. intros Ha Hi. by apply Forall_splice. Qed.

Ltac zones :=
  cbn [deck hand active bench points hasPlayedSupporter set_deck set_hand
       set_active set_bench set_points set_hasPlayedSupporter].

Ltac sound_split := split; [|split; [|split]]; zones.

Lemma cards_sound__playSupporter player handIndex w :
  cards_sound w → cards_sound (snd (_playSupporter player handIndex w)).
Proof.
  intros Hs. unfold _playSupporter. destruct (_ || _); [done|]. cbn zeta. cbn [snd].
  pose proof (cards_sound_drawCards (currentPlayer (game w)) 2 w Hs) as H1.
  set (w1 := drawCards _ 2 w) in *.
  apply cards_sound_setPlayer; [done|].
  destruct (proj2 H1 player) as (Hd & Hh & Ha & Hb).
  sound_split; [done| |done..].
  apply Forall_splice_rest; [done|constructor].
Qed.

Lemma cards_sound__playCoachWhistle player handIndex w :
  cards_sound w → cards_sound (snd (_playCoachWhistle player handIndex w)).
Proof.
  intros Hs. unfold _playCoachWhistle. destruct (phaseEqb _ _); [done|]. cbn zeta.
  set (t := turnCount (game w)).
  set (p := getPlayer player w).
  set (p1 := set_hand _ p).
  assert (player_sound t p1) as Hp1.
  { destruct (proj2 Hs player) as (Hd & Hh & Ha & Hb).
    sound_split; [done| |done..].
    apply Forall_splice_rest; [done|constructor]. }
  set (pr := if decide (0 < length (basicIndicesFrom 0 (deck p1))) then _ else _).
  assert (player_sound t pr.1) as Hp2.
  { subst pr. destruct (decide _); [|done].
    destruct (randomBelow _ _) as [k rs].
    destruct (basicIndicesFrom 0 (deck p1) !! k) as [randomIndex|]; [|done].
    destruct Hp1 as (Hd & Hh & Ha & Hb).
    pose proof (Forall_splice _ (deck p1) (Z.of_nat randomIndex) (Some 1) [] Hd
                  ltac:(constructor)) as [Hf Hr].
    destruct (splice (deck p1) (Z.of_nat randomIndex) (Some 1) []) as [drawn rest].
    cbn [fst snd] in *. sound_split; [done| |done..].
    apply Forall_app. by split. }
  destruct pr as [p2 rs]. cbn [fst] in Hp2.
  pose proof (shuffle_Permutation (deck p2) rs) as Hperm.
  destruct (shuffle (deck p2) rs) as [shuffled rs']. cbn [fst snd] in *.
  eapply (cards_sound_fields (setPlayer player (set_deck shuffled p2) w)); [reflexivity..|].
  apply cards_sound_setPlayer; [done|].
  destruct Hp2 as (Hd & Hh & Ha & Hb).
  sound_split; [|done..]. by rewrite Hperm.
Qed.

Lemma stored_placed t c :
  (0 ≤ t)%Z → stored t c → truthy (isBasic c) = true →
  fielded t (set_turnPlaced (Some t) c) ∧ stored t (set_turnPlaced (Some t) c).
Proof.
  intros Ht (Hc & Hh & Hs) Hb.
  destruct (as_created_basic c Hc Hb) as [(m & Hm & Hpos) _].
  split.
  - split; [by apply as_created_set_turnPlaced|]. split.
    + exists m, m. cbn. rewrite Hh, Hm. repeat split; lia.
    + exists t. cbn. split; [done|lia].
  - split; [by apply as_created_set_turnPlaced|]. split; [done|].
    unfold stamped_by. cbn. lia.
Qed.

Lemma cards_sound__playBasic player handIndex w c :
  cards_sound w →
  jsGet (hand (getPlayer player w)) handIndex = Some c →
  truthy (isBasic c) = true →
  cards_sound (snd (_playBasic player handIndex w)).
Proof.
  intros Hs Hget Hb. unfold _playBasic. cbn zeta.
  rewrite (splice_remove_at _ _ _ Hget).
  set (t := turnCount (game w)).
  set (p := getPlayer player w).
  destruct (proj2 Hs player) as (Hd & Hh & Ha & Hbn). fold p t in Hd, Hh, Ha, Hbn.
  assert (stored t c) as Hc.
  { apply jsGet_Some in Hget as [_ Hget].
    exact (proj1 (Forall_lookup _ _) Hh _ _ Hget). }
  destruct (stored_placed t c (proj1 Hs) Hc Hb) as [Hf Hst].
  cbn [active set_hand].
  destruct (active p) as [a|] eqn:Hact.
  - cbn [bench set_hand hand].
    destruct (indexOfNull (bench p) =? -1)%Z; cbn [snd].
    + apply cards_sound_setPlayer; [done|].
      sound_split; [done| |by rewrite Hact|done].
      apply Forall_splice_rest; [by apply Forall_delete|].
      constructor; [exact Hst|constructor].
    + apply cards_sound_setPlayer; [done|].
      sound_split; [done|by apply Forall_delete|by rewrite Hact|].
      by apply Forall_jsSet.
  - cbn [snd]. apply cards_sound_setPlayer; [done|].
    sound_split; [done|by apply Forall_delete|exact Hf|done].
Qed.

Lemma cards_sound_playCard player handIndex w :
  cards_sound w → cards_sound (playCard player handIndex w).
Proof.
  intros Hs. unfold playCard. destruct (_ || _); [done|].
  destruct (jsGet _ _) as [card|] eqn:Hget; [|done].
  assert (∀ r : bool * World, cards_sound r.2 →
            cards_sound (let '(cardWasPlayed, w') := r in
                         if cardWasPlayed then update w' else w')) as Hfin.
  { intros [[] w'] Hw; cbn [snd] in Hw; [|done].
    by eapply cards_sound_fields; [..|exact Hw]. }
  apply Hfin.
  destruct (truthy (isSupporter card)); [by apply cards_sound__playSupporter|].
  destruct (String.eqb (id card) "base-007"); [by apply cards_sound__playCoachWhistle|].
  destruct (String.eqb (id card) "base-008"); [done|].
  destruct (truthy (isBasic card)) eqn:Hb; [|done].
  by eapply cards_sound__playBasic.
Qed.

Lemma targetAt_fielded t p index c :
  player_sound t p → targetAt p index = Some c → fielded t c.
Proof.
  intros (_ & _ & Ha & Hb) Ht. unfold targetAt in Ht.
  destruct (index =? -1)%Z.
  - by rewrite Ht in Ha.
  - apply mjoin_jsGet_Some in Ht. apply jsGet_Some in Ht as [_ Ht].
    exact (proj1 (Forall_lookup _ _) Hb _ _ Ht).
Qed.

Lemma stored_evolved t e tc :
  (0 ≤ t)%Z → stored t e → fielded t tc →
  evolvesFrom e = Some (id tc) ∨ evolvesFromBasic e = Some (id tc) →
  fielded t
    (set_turnPlaced (Some t)
       (set_hp (Some (orZero (maxHp e) - (orZero (maxHp tc) - orZero (hp tc)))%Z) e)).
Proof.
  intros Ht (He & _ & _) (Htc & (h & m & Hh & Hm & Hr) & _) Hev.
  destruct (as_created_evolution e tc He Htc Hev) as (me & mt & Hme & Hmt & Hle).
  rewrite Hm in Hmt. injection Hmt as <-.
  split; [by apply as_created_set_turnPlaced, as_created_set_hp|]. split.
  - eexists _, me. cbn. split; [reflexivity|]. split; [done|].
    rewrite Hme, Hm, Hh. cbn. lia.
  - exists t. cbn. split; [done|lia].
Qed.

Lemma cards_sound__performEvolution player e tc tidx w :
  cards_sound w →
  stored (turnCount (game w)) e → fielded (turnCount (game w)) tc →
  evolvesFrom e = Some (id tc) ∨ evolvesFromBasic e = Some (id tc) →
  cards_sound (_performEvolution player e tc tidx w).
Proof.
  intros Hs He Htc Hev. unfold _performEvolution. cbn zeta.
  pose proof (stored_evolved _ e tc (proj1 Hs) He Htc Hev) as Hf.
  set (evolved2 := set_turnPlaced _ _) in *.
  set (p' := if (tidx =? -1)%Z then _ else _).
  eapply (cards_sound_fields (setPlayer player p' w)); [reflexivity..|].
  apply cards_sound_setPlayer; [done|].
  destruct (proj2 Hs player) as (Hd & Hh & Ha & Hb).
  subst p'. destruct (tidx =? -1)%Z; sound_split; try done.
  by apply Forall_jsSet.
Qed.

Lemma cards_sound_evolve player handIndex tidx w :
  cards_sound w → cards_sound (evolve player handIndex tidx w).
Proof.
  intros Hs. unfold evolve. cbn zeta.
  set (p := getPlayer player w).
  pose proof (proj2 Hs player) as Hp. fold p in Hp.
  destruct (targetAt p tidx) as [targetCard|] eqn:Ht; [|done].
  destruct (jsGet (hand p) handIndex) as [handCard|] eqn:Hget; [|done].
  destruct (negb (canAct player w) || (turnCount (game w) <=? 1)%Z
            || negb (truthyS (evolvesFrom handCard))
            || negb (strictEqS (evolvesFrom handCard) (Some (id targetCard)))
            || (turnCount (game w) <=? orZero (turnPlaced targetCard))%Z) eqn:Hg; [done|].
  repeat (apply orb_false_iff in Hg as [Hg ?]).
  rewrite (splice_remove_at _ _ _ Hget).
  apply cards_sound__performEvolution.
  - apply cards_sound_setPlayer; [done|].
    destruct Hp as (Hd & Hh & Ha & Hb). sound_split; try done.
    by apply Forall_delete.
  - rewrite setPlayer_turnCount.
    apply jsGet_Some in Hget as [_ Hget].
    exact (proj1 (Forall_lookup _ _) (proj1 (proj2 Hp)) _ _ Hget).
  - rewrite setPlayer_turnCount. by eapply targetAt_fielded.
  - left. apply strictEqS_true. by apply negb_false_iff.
Qed.

Lemma cards_sound_playChickenNugget player handIndex tidx w :
  cards_sound w → cards_sound (snd (playChickenNugget player handIndex tidx w)).
Proof.
  intros Hs. unfold playChickenNugget. cbn zeta.
  set (p := getPlayer player w).
  pose proof (proj2 Hs player) as Hp. fold p in Hp.
  destruct (targetAt p tidx) as [targetCard|] eqn:Ht; [|done].
  destruct (_ || _); [done|].
  destruct (stage2EvoIndex_cases handIndex targetCard (hand p))
    as [[-> _]|(n & c & -> & Hn & Hne & Hev)]; [done|].
  destruct (Z.of_nat n =? -1)%Z; [done|].
  assert (jsGet (hand p) (Z.of_nat n) = Some c) as Hget.
  { apply jsGet_Some. split; [lia|]. by rewrite Nat2Z.id. }
  rewrite Hget.
  set (hl := if (handIndex <? Z.of_nat n)%Z then _ else _).
  destruct hl as [hi lo]. cbn [snd].
  apply cards_sound__performEvolution.
  - apply cards_sound_setPlayer; [done|].
    destruct Hp as (Hd & Hh & Ha & Hb). sound_split; try done.
    apply Forall_splice_rest; [|constructor].
    apply Forall_splice_rest; [done|constructor].
  - rewrite setPlayer_turnCount.
    exact (proj1 (Forall_lookup _ _) (proj1 (proj2 Hp)) _ _ Hn).
  - rewrite setPlayer_turnCount. by eapply targetAt_fielded.
  - by right.
Qed.

Lemma cards_sound_attack w : cards_sound w → cards_sound (attack w).
Proof.
  intros Hs. unfold attack. cbn zeta.
  set (cur := currentPlayer (game w)).
  destruct (negb (canAct cur w)); [done|].
  unfold getOpponent.
  set (opp := getOpponentId cur).
  assert (opp ≠ cur) as Hne by (subst opp; by destruct cur).
  destruct (active (getPlayer cur w)) as [pa|] eqn:Hpa; [|done].
  destruct (active (getPlayer opp w)) as [oa|] eqn:Hoa; [|done].
  pose proof (proj2 Hs cur) as (_ & _ & Hfa & _). rewrite Hpa in Hfa.
  pose proof (proj2 Hs opp) as (Hd & Hh & Ha & Hb). rewrite Hoa in Ha.
  cbn [slot_ok] in Hfa, Ha.
  set (left := (orZero (hp oa) - orZero (attackDamage pa))%Z).
  set (oa' := set_hp (Some left) oa).
  set (w1 := setPlayer opp (set_active (Some oa') (getPlayer opp w)) w).
  change (orZero (hp oa')) with left.
  destruct (left <=? 0)%Z eqn:Hko.
  - set (w2 := setPlayer cur _ w1).
    set (w3 := setPlayer opp _ w2).
    assert (cards_sound w3) as H3.
    { split; [exact (proj1 Hs)|]. intros pl.
      change (turnCount (game w3)) with (turnCount (game w)).
      destruct (decide (pl = opp)) as [->|Hpl].
      - subst w3. rewrite getPlayer_setPlayer_eq.
        subst w2. rewrite getPlayer_setPlayer_ne by done.
        subst w1. rewrite getPlayer_setPlayer_eq.
        sound_split; done.
      - assert (pl = cur) as -> by (subst opp; destruct pl, cur; done).
        subst w3. rewrite getPlayer_setPlayer_ne by done.
        subst w2. rewrite getPlayer_setPlayer_eq.
        subst w1. rewrite getPlayer_setPlayer_ne by done.
        destruct (proj2 Hs cur) as (? & ? & ? & ?). sound_split; done. }
    destruct (_ || _); [by apply cards_sound_endGame|by apply cards_sound_endTurn].
  - apply cards_sound_endTurn. apply cards_sound_setPlayer; [done|].
    sound_split; try done. cbn [slot_ok].
    destruct Ha as (Hc & (h & m & Hhp & Hm & Hr) & Hst).
    pose proof (as_created_damage pa (proj1 Hfa)) as Hdmg.
    split; [by apply as_created_set_hp|]. split; [|exact Hst].
    exists left, m. subst oa'. cbn. split; [done|]. split; [done|].
    apply Z.leb_gt in Hko. subst left. rewrite Hhp in *. cbn in *. lia.
Qed.

Lemma cards_sound_promote player benchIndex w :
  cards_sound w → cards_sound (promote player benchIndex w).
Proof.
  intros Hs. unfold promote. cbn zeta.
  set (p := getPlayer player w).
  destruct (_ || _); [done|].
  destruct (proj2 Hs player) as (Hd & Hh & Ha & Hb). fold p in Hd, Hh, Ha, Hb.
  pose proof (Forall_splice (slot_ok (turnCount (game w))) (bench p) benchIndex
                (Some 1) [None] Hb ltac:(by repeat constructor)) as [Hf Hr].
  destruct (splice (bench p) benchIndex (Some 1) [None]) as [removed bench'].
  cbn [fst snd] in Hf, Hr.
  eapply (cards_sound_fields (setPlayer player _ w)); [reflexivity..|].
  apply cards_sound_setPlayer; [done|].
  sound_split; try done.
  destruct removed as [|[c|] ?]; cbn; [done| |done].
  by inversion Hf.
Qed.

Lemma cards_sound_retreat player benchIndex w :
  cards_sound w → cards_sound (retreat player benchIndex w).
Proof.
  intros Hs. unfold retreat. cbn zeta.
  destruct (negb (canAct player w)); [done|].
  set (p := getPlayer player w).
  destruct (proj2 Hs player) as (Hd & Hh & Ha & Hb). fold p in Hd, Hh, Ha, Hb.
  destruct (active p) as [a|] eqn:Hact; [|done].
  destruct (mjoin (jsGet (bench p) benchIndex)) as [b|] eqn:Hbn; [|done].
  eapply (cards_sound_fields (setPlayer player _ w)); [reflexivity..|].
  apply cards_sound_setPlayer; [done|].
  sound_split; try done.
  - cbn [slot_ok]. eapply (targetAt_fielded _ (set_active None p) benchIndex).
    + sound_split; done.
    + unfold targetAt. destruct (benchIndex =? -1)%Z eqn:E; [|exact Hbn].
      apply Z.eqb_eq in E. subst. done.
  - by apply Forall_jsSet.
Qed.

Lemma expandDeck_ids entries ctr cs ctr' :
  expandDeck entries ctr = Some (cs, ctr') →
  Forall (λ c, ∃ e, e ∈ entries ∧ id c = cfg_id e) cs.
Proof.
  revert ctr cs ctr'. induction entries as [|e entries IH]; intros ctr cs ctr'; simpl.
  - intros [= <- <-]. constructor.
  - destruct (createCards (cfg_id e) (count e) ctr) as [[cs1 c1]|] eqn:H1; [|done].
    destruct (expandDeck entries c1) as [[cs2 c2]|] eqn:H2; [|done].
    intros [= <- <-]. apply Forall_app. split.
    + eapply Forall_impl; [exact (createCards_created _ _ _ _ _ H1)|].
      intros c [Hid _]. exists e. split; [left|done].
    + eapply Forall_impl; [exact (IH _ _ _ H2)|].
      intros c (e' & Hin & Hid). exists e'. split; [by right|done].
Qed.

Lemma defaultDeck_catalogue :
  forallb (λ e, bool_decide (is_Some (lookupCard (cfg_id e) CARD_DATA)))
    (cards defaultDeck) = true.
Proof. vm_compute. reflexivity. Qed.

Lemma expandDeck_stored ctr cs ctr' t :
  (0 ≤ t)%Z → expandDeck (cards defaultDeck) ctr = Some (cs, ctr') → Forall (stored t) cs.
Proof.
  intros Ht He. pose proof (expandDeck_ids _ _ _ _ He) as Hids.
  apply expandDeck_cards in He as (_ & _ & Hcs).
  apply Forall_forall. intros c Hc.
  destruct (proj1 (Forall_forall _ _) Hcs c Hc) as (k & _ & Hk).
  destruct (proj1 (Forall_forall _ _) Hids c Hc) as (e & He & Hid).
  apply (stored_mono 0); [done|]. eapply createCard_as_created; [|exact Hk].
  rewrite Hid. apply list_elem_of_In in He.
  pose proof (proj1 (forallb_forall _ _) defaultDeck_catalogue e He) as Hb.
  by apply bool_decide_eq_true in Hb.
Qed.

Lemma cards_sound_initializeGame fuel w w' :
  initializeGame fuel w = Some w' → cards_sound w → cards_sound w'.
Proof.
  intros (cs1 & cs2 & ctr & H1 & H2 & _ & _ & Hpl & Hg & _)%initializeGame_spec [H0 Hs].
  assert (turnCount (game w') = turnCount (game w)) as Ht by (by rewrite Hg).
  split; [by rewrite Ht|]. intros pl. rewrite Ht.
  destruct (Hpl pl) as (_ & _ & Hperm & Ha & Hb & _).
  destruct (Hs pl) as (Hd & Hh & Hact & Hbn).
  assert (Forall (stored (turnCount (game w)))
            (hand (getPlayer pl w') ++ deck (getPlayer pl w'))) as Hall.
  { rewrite Hperm. apply Forall_app. split; [|done].
    destruct pl; by eapply expandDeck_stored. }
  apply Forall_app in Hall as [Hh' Hd'].
  split; [done|]. split; [done|]. rewrite Ha, Hb. by split.
Qed.

Lemma cards_sound_exec op w w' :
  exec op w = Some w' → cards_sound w → cards_sound w'.
Proof.
  destruct op; cbn [exec]; intros H Hs; try (injection H as <-).
  - by eapply cards_sound_initializeGame.
  - by apply cards_sound_setPlayerReady.
  - by apply cards_sound_endTurn.
  - by apply cards_sound_playCard.
  - by apply cards_sound_playChickenNugget.
  - by apply cards_sound_evolve.
  - by apply cards_sound_attack.
  - by apply cards_sound_promote.
  - by apply cards_sound_retreat.
Qed.

Lemma reachable_cards_sound w : reachable w → cards_sound w.
Proof.
  induction 1 as [rs|op w w' _ IH Hex].
  - split; [done|]. intros pl. destruct pl; sound_split; cbn; repeat constructor.
  - by eapply cards_sound_exec.
Qed.

Lemma slot_ok_slotCards t (slots : list (option Card)) :
  Forall (slot_ok t) slots → Forall (fielded t) (slotCards slots).
Proof.
  induction 1 as [|[c|] rest Hc _ IH]; [constructor|by constructor|done].
Qed.

(** X25.  In every state a run of the public operations can reach, every
    card is the card [createCard] made from the catalogue, but for [hp] and
    [turnPlaced].  The cards in the decks and hands are undamaged
    ([hp = maxHp]), and a [turnPlaced] one of them carries (from a refused
    placement) is no later than the turn counter.  Every card in an active
    slot or on a bench is a creature with [0 < hp <= maxHp], placed in a
    turn up to the current one: an evolution, which carries the damage over,
    never brings a creature to 0, since every evolution of the catalogue has
    at least the [hp] of the creature it evolves from. *)
Theorem cards_keep_their_data (w : World) (pl : PlayerId) :
  reachable w →
  let p := getPlayer pl w in
  let t := turnCount (game w) in
  (0 ≤ t)%Z
  ∧ Forall (stored t) (deck p ++ hand p)
  ∧ Forall (fielded t) (option_list (active p) ++ slotCards (bench p)).
Proof.
  intros [H0 Hs]%reachable_cards_sound. cbn zeta.
  destruct (Hs pl) as (Hd & Hh & Ha & Hb).
  split; [done|]. split.
  - apply Forall_app. by split.
  - apply Forall_app. split; [|by apply slot_ok_slotCards].
    destruct (active (getPlayer pl w)); [by constructor|constructor].
Qed.

Lemma cards_keep_their_data_witness :
  let w := worldAfter (openingA ++ [OpAttack]) oracleA in
  (hp <$> active (getPlayer P2 w) = Some (Some 40%Z)
   ∧ maxHp <$> active (getPlayer P2 w) = Some (Some 60%Z))
  ∧ Forall (fielded (turnCount (game w)))
      (option_list (active (getPlayer P2 w)) ++ slotCards (bench (getPlayer P2 w))).
Proof.
  intros w. split; [split; vm_compute; reflexivity|].
  exact (proj2 (proj2 (cards_keep_their_data w P2 (reachable_worldAfter _ _)))).
Defined.

(** *** The computer player calls the public operations only *)

Lemma execAll_app ops1 ops2 w :
  execAll (ops1 ++ ops2) w = execAll ops1 w ≫= execAll ops2.
Proof.
  revert w. induction ops1 as [|op rest IH]; intros w; [done|].
  cbn [app execAll]. destruct (exec op w) as [w1|]; [apply IH|done].
Qed.

Lemma plays_refl w : plays w w.
Proof. exists []. by split. Qed.

Lemma plays_trans w1 w2 w3 : plays w1 w2 → plays w2 w3 → plays w1 w3.
Proof.
  intros (ops1 & Hm1 & He1) (ops2 & Hm2 & He2). exists (ops1 ++ ops2).
  split; [by apply Forall_app|]. rewrite execAll_app, He1. exact He2.
Qed.

Lemma plays_one op w w' : isMove op = true → exec op w = Some w' → plays w w'.
Proof.
  intros Hm He. exists [op]. split; [by repeat constructor|].
  cbn [execAll]. by rewrite He.
Qed.

Lemma plays_reachable w w' : reachable w → plays w w' → reachable w'.
Proof. intros Hw (ops & _ & He). by eapply reachable_execAll. Qed.

Lemma plays_playCard player handIndex w : plays w (playCard player handIndex w).
Proof. by apply (plays_one (OpPlayCard player handIndex)). Qed.

Lemma plays_setPlayerReady player w : plays w (setPlayerReady player w).
Proof. by apply (plays_one (OpSetPlayerReady player)). Qed.

Lemma plays_endTurn w : plays w (endTurn w).
Proof. by apply (plays_one OpEndTurn). Qed.

Lemma plays_attack w : plays w (attack w).
Proof. by apply (plays_one OpAttack). Qed.

Lemma plays_promote player benchIndex w : plays w (promote player benchIndex w).
Proof. by apply (plays_one (OpPromote player benchIndex)). Qed.

Lemma plays_evolve player handIndex tidx w : plays w (evolve player handIndex tidx w).
Proof. by apply (plays_one (OpEvolve player handIndex tidx)). Qed.

Lemma plays_playChickenNugget player handIndex tidx w :
  plays w (snd (playChickenNugget player handIndex tidx w)).
Proof. by apply (plays_one (OpPlayChickenNugget player handIndex tidx)). Qed.

Lemma plays_foldl_playCard playerNumber (indices : list Z) w :
  plays w (foldl (λ w' index, playCard playerNumber index w') w indices).
Proof.
  revert w. induction indices as [|i rest IH]; intros w; [apply plays_refl|].
  cbn [foldl]. eapply plays_trans; [apply plays_playCard|apply IH].
Qed.

Lemma plays_playItems playerNumber n w w' :
  AI.playItems playerNumber n w = Some w' → plays w w'.
Proof.
  revert w. induction n as [|i IH]; intros w; cbn [AI.playItems].
  - intros [= <-]. apply plays_refl.
  - destruct (jsGet _ _) as [card|]; [|done]. intros H%IH.
    destruct (_ && _); [|done].
    eapply plays_trans; [apply plays_playCard|exact H].
Qed.

Lemma plays_setup ai playerNumber w : plays w (fst (AI.setup ai playerNumber w)).
Proof.
  unfold AI.setup. cbn zeta. destruct (_ <? _)%Z; [|apply plays_refl]. cbn [fst].
  eapply plays_trans; [apply plays_playCard|].
  eapply plays_trans; [apply plays_foldl_playCard|apply plays_setPlayerReady].
Qed.

Lemma plays_executeTurn ai playerNumber w w' :
  AI.executeTurn ai playerNumber w = Some w' → plays w w'.
Proof.
  unfold AI.executeTurn. cbn zeta.
  destruct (_ || _); [intros [= <-]; apply plays_refl|].
  set (promoted := if bool_decide _ then _ else _).
  assert (∀ w1, promoted = Some w1 → plays w w1) as Hprom.
  { subst promoted. intros w1. destruct (bool_decide _); [intros [= <-]; apply plays_refl|].
    destruct (_ <? _)%Z; [|done]. intros [= <-]. apply plays_promote. }
  destruct promoted as [w1|].
  2: { intros [= <-]. apply plays_endTurn. }
  specialize (Hprom w1 eq_refl).
  set (w2 := if negb _ then _ else _).
  assert (plays w1 w2) as H2.
  { subst w2. destruct (negb _); [|apply plays_refl].
    destruct (_ <? _)%Z; [apply plays_playCard|apply plays_refl]. }
  destruct (AI.playItems _ _ w2) as [w3|] eqn:H3; [|done].
  apply plays_playItems in H3.
  set (w4 := match AI._findChickenNuggetOpportunities playerNumber w3 with
             | [] => _ | _ :: _ => _ end).
  assert (plays w3 w4) as H4.
  { subst w4. destruct (AI._findChickenNuggetOpportunities _ _) as [|o ?];
      [apply plays_refl|apply plays_playChickenNugget]. }
  set (w5 := match AI._findEvolutionOpportunities playerNumber w4 with
             | [] => _ | _ :: _ => _ end).
  assert (plays w4 w5) as H5.
  { subst w5. destruct (AI._findEvolutionOpportunities _ _) as [|o ?];
      [apply plays_refl|apply plays_evolve]. }
  pose proof (plays_foldl_playCard playerNumber
                (AI._chooseBenchBuddyIndices (hand (getPlayer playerNumber w5))) w5) as H6.
  set (w6 := foldl _ w5 _) in *.
  intros [= <-].
  eapply plays_trans; [exact Hprom|]. eapply plays_trans; [exact H2|].
  eapply plays_trans; [exact H3|]. eapply plays_trans; [exact H4|].
  eapply plays_trans; [exact H5|]. eapply plays_trans; [exact H6|].
  destruct (bool_decide _); [apply plays_attack|apply plays_endTurn].
Qed.

(** X26.  The computer player changes the match through the public
    operations only: what [setup] and [executeTurn] leave behind is the
    result of a sequence of moves (calls other than [initializeGame]) on the
    state they found, whatever the controller's choice functions are, and
    [executeTurn] always produces that state.  So a state reached with the
    computer player in the match is a reachable state, and no card is
    created or changes sides while the computer player moves. *)
Theorem computer_player_makes_moves (ai : AI.Controller) (playerNumber : PlayerId)
    (w : World) :
  (∃ ops, Forall (λ op, isMove op = true) ops
          ∧ execAll ops w = Some (fst (AI.setup ai playerNumber w)))
  ∧ (∃ ops w', AI.executeTurn ai playerNumber w = Some w'
               ∧ Forall (λ op, isMove op = true) ops
               ∧ execAll ops w = Some w')
  ∧ (reachable w →
     reachable (fst (AI.setup ai playerNumber w))
     ∧ ∀ w', AI.executeTurn ai playerNumber w = Some w' → reachable w').
Proof.
  split; [apply plays_setup|]. split.
  - destruct (gameOver (game w)) eqn:Hrun.
    { exists [], w. unfold AI.executeTurn. rewrite Hrun. by repeat split. }
    destruct (decide (currentPlayer (game w) = playerNumber)) as [Hcur|Hcur].
    + destruct (executeTurn_shape ai playerNumber w Hrun Hcur) as [[_ He]|(w6 & _ & He)];
        destruct (plays_executeTurn _ _ _ _ He) as (ops & Hm & Hex); by eexists ops, _.
    + exists [], w. unfold AI.executeTurn. rewrite Hrun.
      replace (playerEqb (currentPlayer (game w)) playerNumber) with false
        by (by destruct (currentPlayer (game w)), playerNumber).
      by repeat split.
  - intros Hw. split.
    + eapply plays_reachable; [done|apply plays_setup].
    + intros w' He. eapply plays_reachable; [done|]. by eapply plays_executeTurn.
Qed.

(** *** Two computer players start the match *)

Lemma stored_hand_ready t (h : list Card) :
  Forall (stored t) h →
  Forall placeable h ∧ Forall (λ c, (0 ≤ orZero (hp c))%Z) h.
Proof.
  intros Hh. split; (eapply Forall_impl; [exact Hh|]); intros c (Hc & Hhp & _).
  - intros Hb. by apply as_created_basic.
  - rewrite Hhp. by apply as_created_maxHp.
Qed.

Lemma setup_in_setup_phase ai playerNumber w :
  ai = AI.AIController ∨ ai = AI.GreedyAIController →
  reachable w →
  phase (game w) = setup →
  hasBasic (hand (getPlayer playerNumber w)) = true →
  ∃ w2,
    AI.setup ai playerNumber w = (setPlayerReady playerNumber w2, [])
    ∧ phase (game w2) = setup
    ∧ turnCount (game w2) = turnCount (game w)
    ∧ setupReady (game w2) = setupReady (game w)
    ∧ gameOver (game w2) = false
    ∧ is_Some (active (getPlayer playerNumber w2))
    ∧ getPlayer (getOpponentId playerNumber) w2 = getPlayer (getOpponentId playerNumber) w.
Proof.
  intros Hai Hw Hsetup Hbasic.
  destruct (reachable_cards_sound w Hw) as [_ Hs].
  destruct (Hs playerNumber) as (_ & Hh & _).
  destruct (stored_hand_ready _ _ Hh) as [Hpl Hhp].
  assert (gameOver (game w) = false) as Hrun.
  { destruct (reachable_invariants w Hw) as [_ [Hover _]].
    destruct (gameOver (game w)); [|done]. by rewrite Hover in Hsetup. }
  assert (ai = AI.AIController
          ∨ ai = AI.GreedyAIController
            ∧ Forall (λ c, (0 ≤ orZero (hp c))%Z) (hand (getPlayer playerNumber w))) as Hai'.
  { destruct Hai; [by left|by right]. }
  destruct (proj2 (setup_outcome ai playerNumber w Hai') Hbasic Hsetup Hrun Hpl)
    as (w2 & He & Hact & _ & _ & Hopp & Hg & _).
  exists w2. rewrite Hg. by repeat split.
Qed.

(** X27.  Two computer players always get a match started.  From a
    reachable state in the setup phase in which nobody is ready, after
    [initializeGame] the [setup] of one controller and then of the other
    (each an [AIController] or a [GreedyAIController], in either order of
    the players) write no error, leave both players with an active creature
    and start the match: the phase is [playing], it is player 1's turn, the
    turn counter has gone up by one and the match is not over. *)
Theorem computer_players_start_the_match (ai1 ai2 : AI.Controller)
    (first : PlayerId) (fuel : nat) (w0 w : World) :
  ai1 = AI.AIController ∨ ai1 = AI.GreedyAIController →
  ai2 = AI.AIController ∨ ai2 = AI.GreedyAIController →
  reachable w0 →
  phase (game w0) = setup →
  setupReady (game w0) = mkPer false false →
  initializeGame fuel w0 = Some w →
  let r1 := AI.setup ai1 first w in
  let r2 := AI.setup ai2 (getOpponentId first) (fst r1) in
  snd r1 = [] ∧ snd r2 = []
  ∧ phase (game (fst r2)) = playing
  ∧ currentPlayer (game (fst r2)) = P1
  ∧ turnCount (game (fst r2)) = (turnCount (game w0) + 1)%Z
  ∧ gameOver (game (fst r2)) = false
  ∧ setupReady (game (fst r2)) = mkPer true true
  ∧ ∀ pl, is_Some (active (getPlayer pl (fst r2))).
Proof.
  intros Hai1 Hai2 Hw0 Hsetup0 Hready0 Hinit. cbn zeta.
  set (second := getOpponentId first).
  assert (reachable w) as Hw by (by eapply (reachable_step (OpInitializeGame fuel))).
  destruct (initializeGame_spec _ _ _ Hinit) as (cs1 & cs2 & ctr & _ & _ & _ & _ & Hpl & Hg & _).
  assert (phase (game w) = setup) as Hsetup by (by rewrite Hg).
  assert (setupReady (game w) = mkPer false false) as Hready by (by rewrite Hg).
  assert (turnCount (game w) = turnCount (game w0)) as Hturn by (by rewrite Hg).
  destruct (setup_in_setup_phase ai1 first w Hai1 Hw Hsetup (proj1 (proj2 (Hpl first))))
    as (w2 & He1 & Hs2 & Ht2 & Hr2 & _ & Ha2 & Ho2).
  rewrite He1. cbn [fst snd].
  destruct (proj2 (setPlayerReady_cases first w2) Hs2 Ha2) as [Hfirst _].
  assert (sel (getOpponentId first) (setupReady (game w2)) = false) as Hnot
    by (rewrite Hr2, Hready; by destruct first).
  destruct (Hfirst Hnot) as [Hga _]. clear Hfirst.
  set (wa := setPlayerReady first w2) in *.
  assert (reachable wa) as Hwa.
  { pose proof (plays_setup ai1 first w) as Hp. rewrite He1 in Hp.
    by eapply plays_reachable. }
  assert (getPlayer second wa = getPlayer second w) as Hsec.
  { unfold getPlayer. rewrite Hga. exact Ho2. }
  assert (getPlayer first wa = getPlayer first w2) as Hfst.
  { unfold getPlayer. by rewrite Hga. }
  assert (phase (game wa) = setup) as Hsa by (by rewrite Hga).
  assert (hasBasic (hand (getPlayer second wa)) = true) as Hba.
  { rewrite Hsec. exact (proj1 (proj2 (Hpl second))). }
  destruct (setup_in_setup_phase ai2 second wa Hai2 Hwa Hsa Hba)
    as (w3 & He2 & Hs3 & Ht3 & Hr3 & Hrun3 & Ha3 & Ho3).
  rewrite He2. cbn [fst snd].
  destruct (proj2 (setPlayerReady_cases second w3) Hs3 Ha3) as [_ Hboth].
  assert (getOpponentId second = first) as Hopp by (subst second; by destruct first).
  rewrite Hopp in Hboth, Ho3.
  assert (sel first (setupReady (game w3)) = true) as Hyes.
  { rewrite Hr3, Hga. cbn. rewrite Hr2, Hready. by destruct first. }
  destruct (Hboth Hyes)
    as (Hph & Hcur & Htc & Hrd & Hover & _ & _ & Hp2 & _ & Hact1 & _).
  clear Hboth.
  split; [done|]. split; [done|]. split; [done|]. split; [done|].
  split; [rewrite Htc, Ht3, Hga; cbn; lia|].
  split; [by rewrite Hover|]. split; [done|].
  assert (∀ pl, is_Some (active (getPlayer pl w3))) as Hall.
  { intros pl. destruct (decide (pl = second)) as [->|Hne]; [done|].
    assert (pl = first) as -> by (subst second; destruct pl, first; done).
    by rewrite Ho3, Hfst. }
  intros [|]; [rewrite Hact1|rewrite Hp2]; apply Hall.
Qed.

Lemma computer_players_start_the_match_witness :
  let w := worldAfter [OpInitializeGame 1] oracleA in
  let r1 := AI.setup AI.GreedyAIController P2 w in
  let r2 := AI.setup AI.AIController P1 (fst r1) in
  (length (hand (getPlayer P1 w)) = 5 ∧ turnCount (game w) = 0%Z)
  ∧ phase (game (fst r2)) = playing
  ∧ currentPlayer (game (fst r2)) = P1
  ∧ turnCount (game (fst r2)) = 1%Z.
Proof.
  intros w r1 r2.
  assert (initializeGame 1 (newWorld 0 oracleA) = Some w) as Hinit
    by (vm_compute; reflexivity).
  split; [split; vm_compute; reflexivity|].
  pose proof (computer_players_start_the_match AI.GreedyAIController AI.AIController
                P2 1 (newWorld 0 oracleA) w (or_intror eq_refl) (or_introl eq_refl)
                (reachable_new oracleA) eq_refl eq_refl Hinit) as H.
  exact (conj (proj1 (proj2 (proj2 H)))
           (conj (proj1 (proj2 (proj2 (proj2 H))))
                 (proj1 (proj2 (proj2 (proj2 (proj2 H))))))).
Defined.

(** ** A running match has creatures on both sides *)

Lemma holds_creature_same p p' :
  active p' = active p → bench p' = bench p → holds_creature p → holds_creature p'.
Proof. unfold holds_creature. by intros -> ->. Qed.

Lemma Exists_jsSet_Some (arr : list (option Card)) (i : Z) (c : Card) :
  Exists is_Some arr → Exists is_Some (jsSet arr i (Some c)).
Proof.
  intros H. unfold jsSet. destruct (i <? 0)%Z; [done|].
  destruct (decide _) as [Hlt|_].
  - apply Exists_exists. exists (Some c). split; [|by eexists].
    apply list_elem_of_lookup. exists (Z.to_nat i). by apply list_lookup_insert_eq.
  - apply Exists_app. by left.
Qed.

Lemma drawCards_field player n w pl :
  active (getPlayer pl (drawCards player n w)) = active (getPlayer pl w)
  ∧ bench (getPlayer pl (drawCards player n w)) = bench (getPlayer pl w).
Proof.
  destruct (drawCards_game player n w) as (d & h & ->).
  destruct (decide (pl = player)) as [->|Hne].
  - by rewrite getPlayer_setPlayer_eq.
  - by rewrite getPlayer_setPlayer_ne.
Qed.

Lemma holds__playSupporter player handIndex w :
  holds_creature (getPlayer player w) →
  holds_creature (getPlayer player (snd (_playSupporter player handIndex w))).
Proof.
  intros H. unfold _playSupporter. destruct (_ || _); [done|]. cbn zeta. cbn [snd].
  rewrite getPlayer_setPlayer_eq.
  destruct (drawCards_field (currentPlayer (game w)) 2 w player) as [Ha Hb].
  eapply holds_creature_same; [| |exact H]; zones; done.
Qed.

Lemma holds__playCoachWhistle player handIndex w :
  holds_creature (getPlayer player w) →
  holds_creature (getPlayer player (snd (_playCoachWhistle player handIndex w))).
Proof.
  intros H. unfold _playCoachWhistle. destruct (phaseEqb _ _); [done|]. cbn zeta.
  set (p := getPlayer player w) in *.
  set (p1 := set_hand _ p).
  set (pr := if decide (0 < length (basicIndicesFrom 0 (deck p1))) then _ else _).
  assert (active pr.1 = active p ∧ bench pr.1 = bench p) as [Ha Hb].
  { subst pr. destruct (decide _); [|done].
    destruct (randomBelow _ _) as [k rs].
    destruct (basicIndicesFrom 0 (deck p1) !! k) as [randomIndex|]; [|done].
    by destruct (splice (deck p1) (Z.of_nat randomIndex) (Some 1) []). }
  destruct pr as [p2 rs]. cbn [fst] in Ha, Hb.
  destruct (shuffle (deck p2) rs) as [shuffled rs']. cbn [snd].
  change (getPlayer player (set_random rs' ?x)) with (getPlayer player x).
  rewrite getPlayer_setPlayer_eq.
  eapply holds_creature_same; [| |exact H]; zones; done.
Qed.

Lemma holds__playBasic player handIndex w :
  holds_creature (getPlayer player w) →
  holds_creature (getPlayer player (snd (_playBasic player handIndex w))).
Proof.
  intros H. unfold _playBasic. cbn zeta.
  set (p := getPlayer player w) in *.
  destruct (splice (hand p) handIndex (Some 1) []) as [[|c ?] hand1]; [done|].
  zones. destruct (active p) as [a|] eqn:Hact.
  - destruct (_ =? _)%Z; cbn [snd]; rewrite getPlayer_setPlayer_eq;
      left; zones; rewrite Hact; by eexists.
  - cbn [snd]. rewrite getPlayer_setPlayer_eq. left. zones. by eexists.
Qed.

Lemma holds_playCard player handIndex w :
  holds_creature (getPlayer player w) →
  holds_creature (getPlayer player (playCard player handIndex w)).
Proof.
  intros H. unfold playCard. destruct (_ || _); [done|].
  destruct (jsGet _ _) as [card|]; [|done].
  assert (∀ r : bool * World, holds_creature (getPlayer player r.2) →
            holds_creature
              (getPlayer player (let '(cardWasPlayed, w') := r in
                                 if cardWasPlayed then update w' else w'))) as Hfin.
  { by intros [[] w']. }
  apply Hfin.
  destruct (truthy (isSupporter card)); [by apply holds__playSupporter|].
  destruct (String.eqb (id card) "base-007"); [by apply holds__playCoachWhistle|].
  destruct (String.eqb (id card) "base-008"); [done|].
  destruct (truthy (isBasic card)); [|done].
  by apply holds__playBasic.
Qed.

Lemma holds__performEvolution player e tc tidx w :
  holds_creature (getPlayer player w) →
  holds_creature (getPlayer player (_performEvolution player e tc tidx w)).
Proof.
  intros H. unfold _performEvolution. cbn zeta.
  change (getPlayer player (update ?x)) with (getPlayer player x).
  rewrite getPlayer_setPlayer_eq.
  destruct (tidx =? -1)%Z.
  - left. zones. by eexists.
  - destruct H as [H|H]; [by left|]. right. zones. by apply Exists_jsSet_Some.
Qed.

Lemma holds_evolve player handIndex tidx w :
  holds_creature (getPlayer player w) →
  holds_creature (getPlayer player (evolve player handIndex tidx w)).
Proof.
  intros H. unfold evolve. cbn zeta.
  destruct (targetAt _ _) as [targetCard|]; [|done].
  destruct (jsGet _ _) as [handCard|]; [|done].
  destruct (_ || _); [done|].
  destruct (splice _ _ _ _) as [[|evolvedCard ?] hand']; [done|].
  apply holds__performEvolution. rewrite getPlayer_setPlayer_eq.
  eapply holds_creature_same; [| |exact H]; zones; done.
Qed.

Lemma holds_playChickenNugget player handIndex tidx w :
  holds_creature (getPlayer player w) →
  holds_creature (getPlayer player (snd (playChickenNugget player handIndex tidx w))).
Proof.
  intros H. unfold playChickenNugget. cbn zeta.
  destruct (targetAt _ _) as [targetCard|]; [|done].
  destruct (_ || _); [done|].
  destruct (_ =? -1)%Z; [done|].
  destruct (jsGet _ _) as [evolvedCard|]; [|done].
  destruct (if (_ <? _)%Z then _ else _) as [hi lo]. cbn [snd].
  apply holds__performEvolution. rewrite getPlayer_setPlayer_eq.
  eapply holds_creature_same; [| |exact H]; zones; done.
Qed.

Lemma holds_promote player benchIndex w :
  holds_creature (getPlayer player w) →
  holds_creature (getPlayer player (promote player benchIndex w)).
Proof.
  intros H. unfold promote. cbn zeta.
  set (p := getPlayer player w) in *.
  destruct (gameOver (game w)); [done|]. cbn [orb].
  destruct (bool_decide (is_Some (active p))); [done|]. cbn [orb].
  destruct (mjoin (jsGet (bench p) benchIndex)) as [c|] eqn:Hc; [|done].
  replace (bool_decide (is_Some (Some c))) with true by done. cbn [negb].
  apply mjoin_jsGet_Some in Hc. rewrite (splice_replace_at _ _ _ None Hc).
  change (getPlayer player (update ?x)) with (getPlayer player x).
  rewrite getPlayer_setPlayer_eq. left. zones. cbn. by eexists.
Qed.

Lemma holds_retreat player benchIndex w :
  holds_creature (getPlayer player w) →
  holds_creature (getPlayer player (retreat player benchIndex w)).
Proof.
  intros H. unfold retreat. destruct (negb _); [done|]. cbn zeta.
  destruct (active _) as [a|]; [|done].
  destruct (mjoin _) as [b|]; [|done].
  change (getPlayer player (update ?x)) with (getPlayer player x).
  rewrite getPlayer_setPlayer_eq. left. zones. by eexists.
Qed.

(** A call of [player] that stays within the turn keeps the match
    staffed. *)
Lemma match_staffed_own player w w' :
  own_step player w w' →
  (holds_creature (getPlayer player w) → holds_creature (getPlayer player w')) →
  match_staffed w → match_staffed w'.
Proof.
  intros Hown Hkeep [Hset Hplay].
  destruct (own_step_game _ _ _ Hown) as (Hph & _ & Hover & _ & _ & Hready).
  destruct Hown as (_ & _ & Hopp & _ & Hact).
  unfold match_staffed. rewrite Hph, Hover, Hready.
  assert (∀ pl, pl ≠ player → getPlayer pl w' = getPlayer pl w) as Hother.
  { intros pl Hne. replace pl with (getOpponentId player); [done|].
    by destruct pl, player. }
  split.
  - intros Hs pl Hr. destruct (decide (pl = player)) as [->|Hne].
    + apply Hact. by apply Hset.
    + rewrite Hother by done. by apply Hset.
  - intros Hp Ho pl. destruct (decide (pl = player)) as [->|Hne].
    + apply Hkeep. by apply Hplay.
    + rewrite Hother by done. by apply Hplay.
Qed.

Lemma match_staffed_startTurn player w :
  match_staffed w → match_staffed (startTurn player w).
Proof.
  intros [Hset Hplay].
  pose proof (startTurn_frame player w) as Hf. cbn zeta in Hf.
  destruct Hf as (_ & _ & Hph & Hover & _ & Hready & _ & _ & _ & Hpl & _).
  unfold match_staffed. rewrite Hph, Hover, Hready. split.
  - intros Hs pl Hr. destruct (Hpl pl) as (-> & _). by apply Hset.
  - intros Hp Ho pl. destruct (Hpl pl) as (Ha & Hb & _).
    eapply holds_creature_same; [exact Ha|exact Hb|]. by apply Hplay.
Qed.

Lemma match_staffed_endTurn w : match_staffed w → match_staffed (endTurn w).
Proof.
  intros H. unfold endTurn. destruct (gameOver (game w)); [done|].
  by apply match_staffed_startTurn.
Qed.

Lemma match_staffed_setPlayerReady player w :
  match_staffed w → match_staffed (setPlayerReady player w).
Proof.
  intros Hm. pose proof Hm as [Hset _].
  destruct (setPlayerReady_cases player w) as [Hnoop Hdo]. cbn zeta in Hnoop, Hdo.
  destruct (decide (phase (game w) = playing)) as [Hpl|Hph].
  { rewrite Hnoop; [exact Hm|by left]. }
  assert (phase (game w) = setup) as Hph' by (by destruct (phase (game w))).
  clear Hph. rename Hph' into Hph.
  destruct (active (getPlayer player w)) as [a|] eqn:Ha.
  2: { rewrite Hnoop; [exact Hm|by right]. }
  specialize (Hset Hph).
  destruct (Hdo Hph ltac:(by eexists)) as [Hone Hboth].
  destruct (sel (getOpponentId player) (setupReady (game w))) eqn:Hother.
  - destruct (Hboth eq_refl)
      as (Hp' & _ & _ & _ & _ & _ & _ & Hp2 & _ & Ha1 & _).
    split; [by rewrite Hp'|]. intros _ _ pl. left.
    assert (active (getPlayer pl (setPlayerReady player w)) = active (getPlayer pl w)) as ->.
    { destruct pl; [done|by rewrite Hp2]. }
    destruct (decide (pl = player)) as [->|Hne]; [by rewrite Ha|].
    apply Hset. replace pl with (getOpponentId player); [done|].
    by destruct pl, player.
  - destruct (Hone eq_refl) as [Hg _].
    split; [|rewrite Hg; cbn [phase set_setupReady]; by rewrite Hph].
    intros _ pl Hr. unfold getPlayer. rewrite Hg. cbn.
    change (is_Some (active (getPlayer pl w))).
    destruct (decide (pl = player)) as [->|Hne]; [by rewrite Ha|].
    apply Hset. rewrite Hg in Hr. cbn in Hr. by destruct pl, player.
Qed.

Lemma match_staffed_attack w : match_staffed w → match_staffed (attack w).
Proof.
  intros Hm.
  set (cur := currentPlayer (game w)).
  destruct (canAct cur w) eqn:Hcan; [|by rewrite attack_idle; [|left]].
  destruct (active (getPlayer cur w)) as [pa|] eqn:Hpa;
    [|by rewrite attack_idle; [|right; left]].
  destruct (active (getPlayer (getOpponentId cur) w)) as [oa|] eqn:Hoa;
    [|by rewrite attack_idle; [|right; right]].
  rewrite (attack_both_active w pa oa Hcan Hpa Hoa). cbn zeta. fold cur.
  set (opp := getOpponentId cur) in *.
  assert (opp ≠ cur) as Hne by (subst opp; by destruct cur).
  apply canAct_true in Hcan as (_ & Hph & Hover).
  destruct Hm as [_ Hplay]. specialize (Hplay Hph Hover).
  destruct (_ <=? 0)%Z.
  - set (out := setPlayer opp _ (setPlayer cur _ w)).
    destruct (some _ (bench (getPlayer opp w))) eqn:Hsome.
    + assert (match_staffed out) as Hout.
      { split; [by change (phase (game out)) with (phase (game w)); rewrite Hph|].
        intros _ _ pl. destruct (decide (pl = opp)) as [->|Hpl].
        - subst out. rewrite getPlayer_setPlayer_eq. right. zones.
          apply Exists_exists. unfold some in Hsome.
          apply existsb_exists in Hsome as (s & Hin & Hs).
          exists s. split; [by apply list_elem_of_In|]. by apply bool_decide_eq_true in Hs.
        - assert (pl = cur) as -> by (subst opp; destruct pl, cur; done).
          subst out. rewrite getPlayer_setPlayer_ne by done.
          rewrite getPlayer_setPlayer_eq. left. zones. rewrite Hpa. by eexists. }
      destruct (_ || _); [|by apply match_staffed_endTurn].
      split; [by change (phase (game (endGame cur out))) with (phase (game w)); rewrite Hph|].
      intros _ Ho. done.
    + rewrite orb_true_r.
      split; [by change (phase (game (endGame cur out))) with (phase (game w)); rewrite Hph|].
      intros _ Ho. done.
  - apply match_staffed_endTurn.
    split; [by rewrite setPlayer_phase, Hph|].
    intros _ _ pl. destruct (decide (pl = opp)) as [->|Hpl].
    + rewrite getPlayer_setPlayer_eq. left. zones. by eexists.
    + rewrite getPlayer_setPlayer_ne by done. apply Hplay.
Qed.

Lemma match_staffed_initializeGame fuel w w' :
  initializeGame fuel w = Some w' → match_staffed w → match_staffed w'.
Proof.
  intros (cs1 & cs2 & ctr & _ & _ & _ & _ & Hpl & Hg & _)%initializeGame_spec [Hset Hplay].
  unfold match_staffed. rewrite Hg. cbn [phase gameOver setupReady set_players]. split.
  - intros Hs pl Hr. destruct (Hpl pl) as (_ & _ & _ & -> & _). by apply Hset.
  - intros Hp Ho pl. destruct (Hpl pl) as (_ & _ & _ & Ha & Hb & _).
    eapply holds_creature_same; [exact Ha|exact Hb|]. by apply Hplay.
Qed.

Lemma match_staffed_exec op w w' :
  exec op w = Some w' → match_staffed w → match_staffed w'.
Proof.
  destruct op; cbn [exec]; intros H Hs; try (injection H as <-).
  - by eapply match_staffed_initializeGame.
  - by apply match_staffed_setPlayerReady.
  - by apply match_staffed_endTurn.
  - eapply match_staffed_own; [apply own_step_playCard|apply holds_playCard|done].
  - eapply match_staffed_own;
      [apply own_step_playChickenNugget|apply holds_playChickenNugget|done].
  - eapply match_staffed_own; [apply own_step_evolve|apply holds_evolve|done].
  - by apply match_staffed_attack.
  - eapply match_staffed_own; [apply own_step_promote|apply holds_promote|done].
  - eapply match_staffed_own; [apply own_step_retreat|apply holds_retreat|done].
Qed.

Lemma reachable_staffed w : reachable w → match_staffed w.
Proof.
  induction 1 as [rs|op w w' _ IH Hex]; [|by eapply match_staffed_exec].
  split; [by intros _ []|done].
Qed.

(** X28.  A running match has creatures on both sides.  In every
    reachable state: during the setup phase a player who has declared ready
    has an active creature; and in the playing phase, while the match is not
    over, every player has an active creature or a creature on the bench
    (a knock-out that leaves the defender without one ends the match). *)
Theorem running_match_has_creatures (w : World) (pl : PlayerId) :
  reachable w →
  let p := getPlayer pl w in
  (phase (game w) = setup → sel pl (setupReady (game w)) = true → is_Some (active p))
  ∧ (phase (game w) = playing → gameOver (game w) = false →
     is_Some (active p) ∨ ∃ k c, bench p !! k = Some (Some c)).
Proof.
  intros [Hset Hplay]%reachable_staffed. cbn zeta. split.
  - intros Hs Hr. by apply Hset.
  - intros Hp Ho. destruct (Hplay Hp Ho pl) as [Ha|Hb]; [by left|right].
    apply Exists_exists in Hb as (s & Hin & [c ->]).
    apply list_elem_of_lookup in Hin as [k Hk]. by exists k, c.
Qed.

Lemma running_match_has_creatures_witness :
  let w := worldAfter (openingA ++ [OpAttack]) oracleA in
  (phase (game w) = playing ∧ gameOver (game w) = false)
  ∧ (is_Some (active (getPlayer P2 w))
     ∨ ∃ k c, bench (getPlayer P2 w) !! k = Some (Some c)).
Proof.
  intros w.
  assert (phase (game w) = playing) as Hp by (vm_compute; reflexivity).
  assert (gameOver (game w) = false) as Ho by (vm_compute; reflexivity).
  exact (conj (conj Hp Ho)
           (proj2 (running_match_has_creatures w P2 (reachable_worldAfter _ _)) Hp Ho)).
Defined.

(** ** The computer player always attacks *)

Lemma promote_fills player (n : nat) w c :
  gameOver (game w) = false →
  active (getPlayer player w) = None →
  bench (getPlayer player w) !! n = Some (Some c) →
  active (getPlayer player (promote player (Z.of_nat n) w)) = Some c.
Proof.
  intros Hrun Ha Hn. unfold promote. cbn zeta. rewrite Hrun, Ha.
  assert (jsGet (bench (getPlayer player w)) (Z.of_nat n) = Some (Some c)) as Hget.
  { apply jsGet_Some. split; [lia|]. by rewrite Nat2Z.id. }
  rewrite Hget. cbn [mjoin].
  replace (bool_decide (is_Some (@None Card))) with false by done.
  replace (bool_decide (is_Some (Some c))) with true by done. cbn [orb negb].
  rewrite (splice_replace_at _ _ _ None Hget).
  change (getPlayer player (update ?x)) with (getPlayer player x).
  by rewrite getPlayer_setPlayer_eq.
Qed.

Lemma promotion_choice (ai : AI.Controller) (t : Z) (b : list (option Card)) :
  ai = AI.AIController ∨ ai = AI.GreedyAIController →
  Forall (slot_ok t) b → Exists is_Some b →
  ∃ n c, AI.choosePromotionBuddyIndex ai b = Z.of_nat n ∧ b !! n = Some (Some c).
Proof.
  intros Hai Hok Hex.
  apply Exists_exists in Hex as (s & Hin & [c0 ->]).
  apply list_elem_of_lookup in Hin as [k0 Hk0].
  destruct Hai as [-> | ->]; cbn [AI.choosePromotionBuddyIndex AI.AIController
                                     AI.GreedyAIController].
  - unfold AI._choosePromotionBuddyIndex.
    destruct (findIndex_cases (λ (card : option Card) (_ : Z), bool_decide (is_Some card)) b)
      as [[_ Hall]|(n & s & -> & Hn & Hs & _)].
    + by specialize (Hall _ _ Hk0).
    + apply bool_decide_eq_true in Hs as [c ->]. by exists n, c.
  - unfold AI._findStrongestCardIndex.
    pose proof (strongestFrom_spec (λ _, true) 0 b (-1) (-1)) as H. cbn zeta in H.
    destruct H as (_ & Hall & Hwho).
    destruct (AI.strongestFrom (λ _, true) 0 b (-1) (-1)) as [r m]. cbn [fst snd] in *.
    destruct Hwho as [[= -> ->]|(n & c & -> & Hc & _)].
    + specialize (Hall _ _ Hk0 eq_refl).
      pose proof (proj1 (Forall_lookup _ _) Hok _ _ Hk0) as (_ & (h & m & Hh & _ & Hr) & _).
      rewrite Hh in Hall. cbn in Hall. lia.
    + exists n, c. split; [f_equal; lia|done].
Qed.

Lemma executeTurn_after_promotion (ai : AI.Controller) (playerNumber : PlayerId)
    (w : World) :
  gameOver (game w) = false →
  currentPlayer (game w) = playerNumber →
  let w1 := if bool_decide (is_Some (active (getPlayer playerNumber w))) then w
            else promote playerNumber
                   (AI.choosePromotionBuddyIndex ai (bench (getPlayer playerNumber w))) w in
  (active (getPlayer playerNumber w) = None →
   (-1 < AI.choosePromotionBuddyIndex ai (bench (getPlayer playerNumber w)))%Z) →
  is_Some (active (getPlayer playerNumber w1)) →
  ∃ w6, own_step playerNumber w w6
        ∧ is_Some (active (getPlayer playerNumber w6))
        ∧ AI.executeTurn ai playerNumber w = Some (attack w6).
Proof.
  intros Hrun Hcur w1 Hidx Hact1. unfold AI.executeTurn. rewrite Hrun, Hcur.
  replace (playerEqb playerNumber playerNumber) with true by (by destruct playerNumber).
  cbn [orb negb].
  assert (own_step playerNumber w w1) as H1.
  { subst w1. destruct (bool_decide _); [apply own_step_refl|apply own_step_promote]. }
  assert ((if bool_decide (is_Some (active (getPlayer playerNumber w))) then Some w
           else if (-1 <? AI.choosePromotionBuddyIndex ai (bench (getPlayer playerNumber w)))%Z
                then Some (promote playerNumber
                             (AI.choosePromotionBuddyIndex ai
                                (bench (getPlayer playerNumber w))) w)
                else None) = Some w1) as ->.
  { subst w1. destruct (active (getPlayer playerNumber w)) as [a|]; [done|].
    replace (bool_decide (is_Some (@None Card))) with false by done.
    specialize (Hidx eq_refl).
    by destruct (Z.ltb_spec (-1)
                   (AI.choosePromotionBuddyIndex ai (bench (getPlayer playerNumber w))));
      [|lia]. }
  set (w2 := if negb (hasPlayedSupporter (getPlayer playerNumber w1)) then _ else w1).
  assert (H2 : own_step playerNumber w1 w2).
  { unfold w2. destruct (negb _); [|apply own_step_refl].
    destruct (_ <? _)%Z; [apply own_step_playCard|apply own_step_refl]. }
  destruct (playItems_total playerNumber (length (hand (getPlayer playerNumber w2))) w2)
    as (w3 & -> & H3); [done|].
  set (w4 := match AI._findChickenNuggetOpportunities playerNumber w3 with
             | [] => w3 | _ :: _ => _ end).
  assert (H4 : own_step playerNumber w3 w4).
  { unfold w4. destruct (AI._findChickenNuggetOpportunities _ _);
      [apply own_step_refl|apply own_step_playChickenNugget]. }
  set (w5 := match AI._findEvolutionOpportunities playerNumber w4 with
             | [] => w4 | _ :: _ => _ end).
  assert (H5 : own_step playerNumber w4 w5).
  { unfold w5. destruct (AI._findEvolutionOpportunities _ _);
      [apply own_step_refl|apply own_step_evolve]. }
  pose proof (own_step_foldl_playCard playerNumber
                (AI._chooseBenchBuddyIndices (hand (getPlayer playerNumber w5))) w5) as H6.
  set (w6 := foldl _ w5 _) in *.
  assert (own_step playerNumber w1 w6) as H16.
  { eapply own_step_trans; [exact H2|]. eapply own_step_trans; [exact H3|].
    eapply own_step_trans; [exact H4|]. eapply own_step_trans; [exact H5|]. exact H6. }
  assert (is_Some (active (getPlayer playerNumber w6))) as Hact6.
  { destruct H16 as (_ & _ & _ & _ & Hkeep). by apply Hkeep. }
  exists w6. split; [by eapply own_step_trans|]. split; [done|].
  destruct (active (getPlayer playerNumber w6)) as [a|]; [done|by destruct Hact6].
Qed.

(** X29.  In a running match the computer player ends each of its turns
    with an attack.  In a reachable state in the playing phase, the match not
    over, on its turn, [executeTurn] of an [AIController] or a
    [GreedyAIController] never takes the early [endTurn] exit: a controller
    without an active creature has one on the bench and promotes it, and the
    last call is [attack], made with an active creature.  What the
    controller does before that call touches neither the opponent nor the
    points, nor any field of the game other than the players. *)
Theorem executeTurn_always_attacks (ai : AI.Controller) (playerNumber : PlayerId)
    (w : World) :
  ai = AI.AIController ∨ ai = AI.GreedyAIController →
  reachable w →
  phase (game w) = playing →
  gameOver (game w) = false →
  currentPlayer (game w) = playerNumber →
  ∃ w6,
    AI.executeTurn ai playerNumber w = Some (attack w6)
    ∧ is_Some (active (getPlayer playerNumber w6))
    ∧ getPlayer (getOpponentId playerNumber) w6 = getPlayer (getOpponentId playerNumber) w
    ∧ game w6 = set_players (players (game w6)) (game w)
    ∧ points (getPlayer playerNumber w6) = points (getPlayer playerNumber w).
Proof.
  intros Hai Hw Hph Hrun Hcur.
  destruct (reachable_cards_sound w Hw) as [_ Hs].
  destruct (Hs playerNumber) as (_ & _ & _ & Hb).
  destruct (reachable_staffed w Hw) as [_ Hplay].
  specialize (Hplay Hph Hrun playerNumber).
  pose proof (executeTurn_after_promotion ai playerNumber w Hrun Hcur) as Hex.
  cbn zeta in Hex.
  destruct (active (getPlayer playerNumber w)) as [a|] eqn:Ha.
  - destruct Hex as (w6 & Hown & Hact & He); [done|by eexists|].
    destruct Hown as (Hg & _ & Hopp & Hpts & _). by exists w6.
  - destruct Hplay as [Hsome|Hbench]; [rewrite Ha in Hsome; by destruct Hsome|].
    destruct (promotion_choice ai _ _ Hai Hb Hbench) as (n & c & Hn & Hc).
    rewrite Hn in Hex.
    replace (bool_decide (is_Some (@None Card))) with false in Hex by done.
    destruct Hex as (w6 & Hown & Hact & He).
    { intros _. lia. }
    { rewrite (promote_fills _ _ _ c Hrun Ha Hc). by eexists. }
    destruct Hown as (Hg & _ & Hopp & Hpts & _). by exists w6.
Qed.

Lemma executeTurn_always_attacks_witness :
  let w := worldAfter openingA oracleA in
  (turnCount (game w) = 1%Z ∧ currentPlayer (game w) = P1)
  ∧ ∃ w6, AI.executeTurn AI.GreedyAIController P1 w = Some (attack w6)
          ∧ is_Some (active (getPlayer P1 w6)).
Proof.
  intros w.
  assert (phase (game w) = playing) as Hp by (vm_compute; reflexivity).
  assert (gameOver (game w) = false) as Ho by (vm_compute; reflexivity).
  assert (currentPlayer (game w) = P1) as Hc by (vm_compute; reflexivity).
  split; [split; [vm_compute; reflexivity|exact Hc]|].
  destruct (executeTurn_always_attacks AI.GreedyAIController P1 w (or_intror eq_refl)
              (reachable_worldAfter _ _) Hp Ho Hc) as (w6 & He & Ha & _).
  exists w6. exact (conj He Ha).
Defined.
